(* ===== verification/_CoqProject ===== *)
-Q . S2P
Prelude.v
Utf8.v
Uuid.v
Filter.v
FilterParse.v
Quote.v
Schema.v
Backoff.v
Notify.v
Store.v
Example.v
Deliver.v
Lifecycle.v
Ack.v
Receive.v
EndToEnd.v
Seek.v
Prune.v
Rpc.v
Publisher.v
Subscriber.v
System.v
Ordering.v
NoPanic.v
Background.v
SubTypes.v
Listener.v
Services.v
Streamer.v
StreamSafety.v
StreamStop.v
StreamSystem.v
GrpcSystem.v
StreamLive.v
StreamConn.v
PushBody.v
StreamPull.v
Faults.v
FaultPoints.v
FaultViews.v
Migrate.v
Interval.v
Logging.v
Delays.v
Startup.v
DbUrl.v
DbMigrate.v
OasValidation.v
JsClient.v
GoClients.v
ApiDocs.v
