(* ===== verification/Prelude.v ===== *)
(** * mmmbbb: a verification development (root file)

    mmmbbb is a message bus: an emulator of Google Cloud Pub/Sub on an SQL database.
    Publishers send messages to topics; every live subscription of the topic gets one delivery
    row per message; subscribers fetch due deliveries, acknowledge, refuse or delay them;
    background jobs dead-letter, expire and clean up; snapshots and seeking rewrite what is
    acknowledged.  This library models the Go code of [src/actions], the filter language of
    [src/filter], the schema and transaction helpers of [src/ent] that are written by hand, the
    id helpers of [src/parse], the fault injection of [src/faults], the gRPC and background
    services of [src/services], the migrations of [src/migrate], the interval columns of
    [src/internal/sqltypes], the logging registry of [src/logging], the controllers of
    [src/controllers] that have logic of their own, and the two TypeScript client programs of
    [src/internal/ts-compat].

    ** Files

    - [Prelude]: outcomes (value, error, panic), the state-and-error monad [M] with its
      weakest preconditions, loops, machine integers, time, sorting, tactics, the hint
      database [mmmbbb].
    - [Uuid]: ids as numbers, [UUIDLess] and [UUIDsFromStrings] ([parse/uuid-slice.go]).
    - [Utf8]: strings as runes; the tables of Go's [unicode] beyond ASCII are the class [Unicode].
    - [Filter]: the filter language's data, evaluation and printing ([filter/grammar.go],
      [evaluate.go], [as-filter.go]).  [FilterParse]: the parser is third-party code, the class
      [FilterParser]; a concrete parser instantiates it and gives the round trip with printing.
    - [Schema]: the rows of the five tables and the live/deleted hook
      ([ent/schema/message-bus.go]).
    - [Backoff]: [NextDelayFor], with floating point as a class that an exact instance meets.
    - [Notify]: the in-process wake-ups of [actions/notify.go]: channels, waiter sets, hooks.
    - [Store]: the database as five finite maps with the constraints of the schema and the
      migrations; statements ([Create], [Update], [Delete], queries) as computations over a
      transaction; [DoTx] and [DoCtxTxRetry] ([ent/client-addons.go]) on a world of database,
      waiter registry and id generator.  The class [Table] states what a table is, [TableLaws]
      what it promises; the class [Engine] is what the SQL engine chooses freely (row order)
      and the id generator, and what its JSON and interval columns keep of a value.
    - [Example]: the small database the witnesses evaluate on.
    - [Deliver]: publishing, delivering, dead-lettering ([delivery-utils.go],
      [publish-message.go]).
    - [Lifecycle]: creating, deleting and expiring topics and subscriptions.
    - [Ack]: acknowledging, refusing, delaying, the dead-letter job.
    - [Receive]: [get-subscription-messages.go]: the transaction of a round, the attempts at it
      while it ends in a deadlock ([runTx]), a round ([execute_round]) and the wait loop that
      iterates it.  [EndToEnd]: publishing, receiving and
      acknowledging one after the other.
    - [Seek]: snapshots and both seeks.
    - [Prune]: the six cleanup jobs.
    - [Rpc]: what the services share ([services/grpc.go], [grpc/errors.go],
      [db/postgres/error-codes.go]): names, statuses, pages.  [Publisher] and [Subscriber]: the
      unary methods of [grpc-publisher.go], [grpc-subscriber.go] and [grpc-snapshots.go], each
      from the request to the response and the world it leaves; [<Method>_tx] is the
      transaction a method writes itself.
    - [System]: all actions and the transactions of the services as one step relation on the
      world, with reachability.  [Ordering]: a link of an ordered subscription, followed through
      every run of it.  [NoPanic]: none of them panics.  [SubTypes]: every
      stored filter parses.
    - [Streamer]: [message-streamer.go]: the five goroutines of a stream, the shared variables
      and the wake channel, one step function per goroutine; a step is what happens between two
      points where the mutex, the database or the connection is used.  [StreamSafety]: the flow
      control and the wake-ups.  [StreamStop]: a cancelled stream stops.  [StreamSystem]: a
      stream is a client of [System].  [GrpcSystem]: so is every method of the services, and
      which requests panic.  [StreamLive]: how [sender_spins], and the automatic delays.
    - [StreamConn]: the two kinds of connection a stream has: [http-push-streamer.go] and the
      requests of [grpc-subscriber.go].  [StreamPull]: [StreamingPull] around its streamer, and
      the goroutines that wait for [stream.Recv].  [PushBody]: what a push posts.
    - [Faults]: [faults/description.go] and [set.go]: concurrent callers of [Check], [Add] and
      [prune] as goroutines over a heap of descriptions and a read-write mutex.
    - [Background]: the other services: the ticks of the cleanup and dead-letter loops
      ([prune-common.go], [deadletter.go]), a round of the pushers ([http-push.go]), the queues
      and texts of the notifier ([notifier.go]); [Listener]: its connection and the retries.
      [Services]: how they are started and stopped ([wrap.go]); the class [ServiceBody] is what
      [Start] and [Cleanup] rely on, with the jobs, the pushers and the notifier as instances.
    - [FaultPoints]: where faults are injected ([grpc/faults.go]) and added
      ([controllers/fault-injector.go]); a caller alone as a run of [Faults].
      [FaultViews]: the list of faults and the gauges ([faults/metrics.go]).
    - [Migrate]: [migrate/*.go]: scripts and their loading, the
      migrator in both directions, the PostgreSQL dialect.
    - [Interval]: [sqltypes/interval.go], with the functions of Go's package [time] it uses.
    - [Logging]: [logging/registry.go], [logger.go] and [controllers/log-control.go].
    - [Delays]: [controllers/delay-injector.go] in the transactions of [middleware/ent.go].
    - [Quote]: [db/postgres/quote.go].  [Startup]: [internal/ports.go], [db/conn-config.go] and
      [controllers/uptime.go].  [DbUrl]: the URL of the database, with the queries of Go's
      [net/url].  [DbMigrate]: which scripts are run when the process starts ([db/migrate.go]).
    - [OasValidation]: [middleware/oas-validation.go] and [capture-response-body.go]: what reaches the
      client of what the handlers write; [controllers/kill.go].
    - [ApiDocs]: the pages that show the API: [internal/swagger-ui], with its two
      initializers in JavaScript, and their routes in [main.go].
    - [JsClient]: [smoke.ts] and [stress.ts] as computations over an event loop; the client
      library is a parameter.
    - [GoClients]: [go-compat/deadletter.go], whose set-up runs against [Publisher] and
      [Subscriber], with the book it keeps of its messages; the callbacks of [go-compat/stress.go].

    An action of the Go code, a struct with [Execute(ctx, tx)], is a definition
    [<Action>_Execute] with the parameters and the clock readings as arguments, of type [Tx]:
    it reads and writes the transaction's database and registers commit hooks.  Its constructor
    [New<Action>] returns a panic where the Go code panics.

    ** What the theorems show

    The functional theorems give each action's behaviour on every branch, errors included
    ([PublishMessage_delivers], [AckDeliveries_spec], [CreateTopic_spec], ...).  [DoTx_atomic]
    is the refinement of the transaction helper against the atomic specification.
    [reachable_invariant] is the well-formedness invariant of all tables and of the waiter
    registry over every interleaving; [acknowledged_never_redelivered] the safety of
    acknowledgements over every run without a seek; [seek_restores_snapshot] the round trip of
    snapshots; [published_message_arrives] that what is published is received;
    [reachable_strings_typed] that stored filters and endpoints are what their readers take them
    for; [ordered_delivery_waits] that the delivery of a message with an ordering key waits for
    the one it was linked to, whatever happens in between, and [unkeyed_message_breaks_order]
    how a message without a key breaks the order of the others.  [run_ops_never_panics] says that no channel is closed twice.

    Of a stream, [stream_within_flow_control] is the invariant that what is in flight stays
    within the limits the sender was granted, [stream_no_lost_wakeup] that room that is made is
    noticed, [cancelled_stream_stops] that every goroutine exits within a bounded number of its
    own steps, [stream_refines_system] that whatever the goroutines do in whatever order is a run
    of [System], so that its invariants hold under streaming.  [push_window] and [push_settles]
    are about push subscriptions: the window stays in its bounds; a message that was answered is
    acknowledged or refused once, queued to be, or dropped when the context is done.  [wrapper_delivers] says that the
    goroutines around [stream.Recv] lose and reorder no request of a client while the stream is
    open, [wrapper_released] that closing releases them.  [fault_at_most_count] and
    [fault_never_missed] say that racing callers run a fault exactly as often as configured.

    Of the services, [Publish_all_or_nothing], [UpdateSubscription_mask], [UpdateTopic_spec] and
    [CreateSubscription_Get] give the behaviour of the methods that do more than run an action;
    [ListTopics_pages] that following the page tokens misses nothing, and ends when nothing changes.
    [served_requests_safe] composes all of them with [System]: its invariants and the safety of
    acknowledgements hold under any sequence of requests.  [actions_never_panic] excludes nil
    pointers and unloaded edges in every transaction; [handlers_panic] characterises the requests
    whose handler panics before that.

    Of the background services, [cleanup_catches_up] says that a backlog of any size is worked
    off in a bounded number of ticks, [pushers_follow_subscriptions] what a round of the pushers
    leaves running, [notification_roundtrip] that a notification wakes in the receiving process
    what its sender meant, [modifications_are_resent] that the notifier repeats all of them,
    [listener_hears] that a connected listener misses none and keeps their order,
    [listener_stops_or_hangs] how it ends.  [cleanup_waits_for_start] and [service_can_stop] are
    about every service: what [Cleanup] waits for, and that there is always a way for it to return,
    but for the notifier ([notifier_cleanup_hangs]).
    [Up_resumes] says that after a failure, at whatever point, running the migrations again
    continues where they stopped; [load_entries_spec] what the loaded scripts are;
    [quote_roundtrip] that quoting survives any text.

    Of the rest, [Interval_roundtrip] says that every stored duration is read back;
    [pg_interval_read] what is read from an interval that PostgreSQL prints, and when that is what
    it means; [push_like_pull] that a push carries what a pull does; [WaitForDB_spec] which failures
    of the database are waited out; [SetComponentLevel_effective] and [loggers_follow] what a change of log levels
    changes, and that no logger misses it; [delay_requests] is the behaviour of the delay routes on
    every branch; [docs_found] that the API pages, their configuration and the
    API descriptions find each other; [injected_faults_hit] that a fault added over HTTP hits the
    requests it was configured for, as many as its count, and changes no other answer, [params_of_request] what it is compared with.

    Some theorems pin down defects: [WakePublishListeners_prefix], [nextAttempt_misses_expiry],
    [PruneDeletedTopics_spec], [AsFilter_empty_name], [snapshot_lists_only_delivered],
    [stress_counts_redeliveries], [sender_spins], [auto_delay_spec], [ListSnapshots_misses],
    [handlers_panic], [modifications_are_resent], [pgx_Down_never_reverts], [FromSQL_confuses],
    [failed_commit_panics], [pg_interval_read], [SetComponentLevel_effective],
    [later_panics_not_rolled_back], [stream_fault_never_happens], [listener_hangs], [deaf_listener],
    [start_hook_waits], [ResolvePort_obeys], [memory_pool], [Collect_overflows],
    [deadlocked_results_handed_out], [dead_letter_acks_lost].

    ** Choices and bounds

    Transactions run one after another: the model takes the serializable outcome; the rows
    other transactions hold locked are an argument of the receiving query.  Durations and times
    are unbounded integers of nanoseconds, except where [Backoff] and [Interval] convert; a column
    for times keeps them as they are, one for intervals what [stored_interval] says (PostgreSQL
    keeps microseconds).  The wait loop of [Receive] and the retry loops of [Receive] and [Store]
    read one list element per round or attempt, in which the environment says what others did and
    how the commit ends, and return [None] when the list ends.  The filter parser of [FilterParse] runs
    with fuel twice the number of tokens and two more, which the round-trip theorem shows to be
    enough for every printed filter.  The generator of ids is assumed to return unused ids
    ([fresh_uuids]) where an action creates rows.  What a JSON column makes of a text, and the
    texts it refuses, is the engine's ([stored_json]).  The text of an id is the class [UuidText]
    with the laws of [github.com/google/uuid]; a list method is shown to end without fuel being
    assumed, by the number of rows.  The database of the migrations is the class [Database]:
    what a statement makes of its content.  Theorems about statements that count their arguments
    assume that the server refuses a wrong number ([sql_arity]).

    ** Not modelled

    Of the compatibility clients in Go, how they publish and the set-up of the stress test; of [main.go],
    all but the migrations and the routes of the API pages, because the rest hands values from one
    constructor to the next.  Generated code, metrics, the HTTP and gRPC servers, database drivers
    and the vendored swagger-ui are left out: they are generated, third-party or glue.  The texts of errors are left out, except where the code tells errors
    apart by them. *)

From stdpp Require Export base tactics option list gmap fin_maps sets strings sorting.
From Stdlib Require Export ZArith Lia Ascii.

Open Scope Z_scope.

(** ** Outcomes

    A Go function that returns [(value, error)] and may also panic is modelled by
    a function into [outcome].  The error values are the ones the program
    distinguishes (with [errors.Is], [ent.IsNotFound], [isSqlDuplicateKeyError], by the SQLSTATE
    of a PostgreSQL error, or by the code of a gRPC status);
    everything it only reports is an [ErrOther]. *)

Inductive code :=
  | Canceled | Unknown | InvalidArgument | DeadlineExceeded | NotFound | AlreadyExists
  | PermissionDenied | ResourceExhausted | FailedPrecondition | Aborted | OutOfRange
  | Unimplemented | Internal | Unavailable | DataLoss | Unauthenticated.

#[export] Instance code_eq_dec : EqDecision code.
Proof. solve_decision. Defined.

Inductive error :=
  | ErrExists
  | ErrNotFound
  | EntNotFound
  | EntNotSingular
  | SqlUnique
  | SqlForeignKey
  | ContextCanceled
  | ContextDeadlineExceeded
  | PgError (sqlstate : string)
  | StatusError (c : code)
  | ErrOther (msg : string).

#[export] Instance error_eq_dec : EqDecision error.
Proof. solve_decision. Defined.

Inductive outcome (A : Type) :=
  | Ok (a : A)
  | Err (e : error)
  | Panic (msg : string).
Arguments Ok {A} a.
Arguments Err {A} e.
Arguments Panic {A} msg.

#[export] Instance outcome_eq_dec {A} `{EqDecision A} : EqDecision (outcome A).
Proof. solve_decision. Defined.

#[export] Instance outcome_ret : MRet outcome := @Ok.
#[export] Instance outcome_bind : MBind outcome := λ A B f m,
  match m with Ok a => f a | Err e => Err e | Panic s => Panic s end.
#[export] Instance outcome_fmap : FMap outcome := λ A B f m,
  match m with Ok a => Ok (f a) | Err e => Err e | Panic s => Panic s end.

(** ** The state-and-error monad

    [M S A]: a computation over the state [S].  An error or a panic discards the
    state, as a transaction that is rolled back does. *)

Definition M (S A : Type) : Type := S → outcome (A * S).

#[export] Instance M_ret {S} : MRet (M S) := λ A a s, Ok (a, s).
#[export] Instance M_bind {S} : MBind (M S) := λ A B f m s,
  match m s with Ok (a, s') => f a s' | Err e => Err e | Panic p => Panic p end.

Definition fail {S A} (e : error) : M S A := λ _, Err e.
Definition panic {S A} (msg : string) : M S A := λ _, Panic msg.
Definition gets {S A} (f : S → A) : M S A := λ s, Ok (f s, s).
Definition modify {S} (f : S → S) : M S () := λ s, Ok ((), f s).
Definition lift {S A} (o : outcome A) : M S A := λ s,
  match o with Ok a => Ok (a, s) | Err e => Err e | Panic p => Panic p end.

(** [for _, x := range l { if err := f(x); err != nil { return err } }] *)
Fixpoint forM {S A} (l : list A) (f : A → M S ()) : M S () :=
  match l with
  | [] => mret ()
  | x :: l => f x ≫= λ _, forM l f
  end.

(** The same loop, collecting one value per element. *)
Fixpoint traverseM {S A B} (l : list A) (f : A → M S B) : M S (list B) :=
  match l with
  | [] => mret []
  | x :: l => f x ≫= λ y, traverseM l f ≫= λ ys, mret (y :: ys)
  end.

Section Monad.
Context {S : Type}.

(** The collecting loop and the plain one make the same steps. *)
Lemma forM_traverseM {A B} (l : list A) (f : A → M S B) (f' : A → M S ()) s ys s' :
  (∀ x s y s1, f x s = Ok (y, s1) → f' x s = Ok ((), s1)) →
  traverseM l f s = Ok (ys, s') → forM l f' s = Ok ((), s').
Proof.
  intros Hf. revert s ys. induction l as [|x l IH]; intros s ys; simpl.
  - unfold mret, M_ret. naive_solver.
  - unfold mbind, M_bind. destruct (f x s) as [[y s1]|e|p] eqn:Hx; [|done..].
    rewrite (Hf _ _ _ _ Hx). destruct (traverseM l f s1) as [[zs s2]|e|p] eqn:Hl; [|done..].
    unfold mret, M_ret. intros [= _ <-]. by eapply IH.
Qed.

Lemma forM_fmap {A B} (h : A → B) (l : list A) (f : B → M S ()) s :
  forM (h <$> l) f s = forM l (λ x, f (h x)) s.
Proof.
  revert s. induction l as [|x l IH]; intros s; simpl; [done|].
  unfold mbind, M_bind. destruct (f (h x) s) as [[u s1]|e|p]; [apply IH|done..].
Qed.

Lemma forM_omap {A B} (h : A → option B) (l : list A) (f : B → M S ()) s :
  forM (omap h l) f s = forM l (λ x, match h x with Some y => f y | None => mret () end) s.
Proof.
  revert s. induction l as [|x l IH]; intros s; simpl; [done|].
  destruct (h x); simpl; unfold mbind, M_bind; [|exact (IH s)].
  destruct (f b s) as [[u s1]|e|p]; [apply IH|done..].
Qed.

Lemma bind_Ok {A B} (m : M S A) (f : A → M S B) s b s' :
  (m ≫= f) s = Ok (b, s') ↔ ∃ a s1, m s = Ok (a, s1) ∧ f a s1 = Ok (b, s').
Proof.
  unfold mbind, M_bind. split.
  - destruct (m s) as [[a s1]|e|p]; intros; simplify_eq; eauto.
  - by intros (a & s1 & -> & ?).
Qed.

(** One step of a run whose result is known. *)
Lemma bind_step {A B} (m : M S A) (f : A → M S B) s a s' :
  m s = Ok (a, s') → (m ≫= f) s = f a s'.
Proof. unfold mbind, M_bind. by intros ->. Qed.

Lemma bind_err {A B} (m : M S A) (f : A → M S B) s e :
  m s = Err e → (m ≫= f) s = Err e.
Proof. unfold mbind, M_bind. by intros ->. Qed.

(** A loop stops at the first error. *)
Lemma traverseM_fails {A B} (l1 l2 : list A) x (f : A → M S B) s ys s1 e :
  traverseM l1 f s = Ok (ys, s1) → f x s1 = Err e → traverseM (l1 ++ x :: l2) f s = Err e.
Proof.
  intros Hl Hx. revert s ys Hl. induction l1 as [|y l1 IH]; intros s ys; simpl.
  - intros [= _ <-]. by apply bind_err.
  - intros (z & s2 & Hz & Hr)%bind_Ok. apply bind_Ok in Hr as (zs & s3 & Hr & Hret).
    rewrite (bind_step _ _ _ _ _ Hz). apply bind_err.
    injection Hret as _ ->. by eapply IH.
Qed.

Lemma ret_Ok {A} (a b : A) (s s' : S) : (mret a : M S A) s = Ok (b, s') ↔ a = b ∧ s = s'.
Proof. unfold mret, M_ret. naive_solver. Qed.

Lemma gets_Ok {A} (f : S → A) a s s' : gets f s = Ok (a, s') ↔ a = f s ∧ s = s'.
Proof. unfold gets. naive_solver. Qed.

Lemma modify_Ok (f : S → S) u s s' : modify f s = Ok (u, s') ↔ s' = f s.
Proof. unfold modify. destruct u. naive_solver. Qed.

Lemma lift_Ok {A} (o : outcome A) a (s s' : S) : lift o s = Ok (a, s') ↔ o = Ok a ∧ s = s'.
Proof. unfold lift. destruct o; naive_solver. Qed.

Lemma fail_Ok {A} e (a : A) (s s' : S) : (fail e : M S A) s = Ok (a, s') ↔ False.
Proof. unfold fail. naive_solver. Qed.

Lemma panic_Ok {A} e (a : A) (s s' : S) : (panic e : M S A) s = Ok (a, s') ↔ False.
Proof. unfold panic. naive_solver. Qed.

(** An invariant every iteration keeps is kept by the loop. *)
Lemma forM_invariant {A} (I : S → Prop) (f : A → M S ()) l s s' u :
  (∀ x s u s', x ∈ l → I s → f x s = Ok (u, s') → I s') →
  I s → forM l f s = Ok (u, s') → I s'.
Proof.
  intros Hf. revert s. induction l as [|x l IH]; simpl; intros s HI H.
  - by apply ret_Ok in H as [_ ->].
  - apply bind_Ok in H as ([] & s1 & H1 & H2). eapply IH, H2.
    + intros; eapply Hf; [by right|..]; eauto.
    + eapply Hf; [by left|..]; eauto.
Qed.
End Monad.

(** [wp m Q s]: from [s], [m] returns normally (no error, no panic) and [Q] holds of the
    result. *)
Definition wp {S A} (m : M S A) (Q : A → S → Prop) (s : S) : Prop :=
  match m s with Ok (a, s') => Q a s' | _ => False end.

Section Wp.
Context {S : Type}.

Lemma wp_run {A} (m : M S A) Q s : wp m Q s ↔ ∃ a s', m s = Ok (a, s') ∧ Q a s'.
Proof. unfold wp. destruct (m s) as [[a s']|e|p]; naive_solver. Qed.

Lemma wp_bind {A B} (m : M S A) (f : A → M S B) Q s :
  wp m (λ a, wp (f a) Q) s → wp (m ≫= f) Q s.
Proof. unfold wp, mbind, M_bind. by destruct (m s) as [[a s']|e|p]. Qed.

Lemma wp_ret {A} (a : A) (Q : A → S → Prop) s : Q a s → wp (mret a) Q s.
Proof. done. Qed.
Lemma wp_gets {A} (f : S → A) (Q : A → S → Prop) s : Q (f s) s → wp (gets f) Q s.
Proof. done. Qed.
Lemma wp_modify (f : S → S) (Q : () → S → Prop) s : Q () (f s) → wp (modify f) Q s.
Proof. done. Qed.

Lemma wp_mono {A} (m : M S A) (Q Q' : A → S → Prop) s :
  (∀ a s', Q a s' → Q' a s') → wp m Q s → wp m Q' s.
Proof. unfold wp. destruct (m s) as [[a s']|e|p]; naive_solver. Qed.
End Wp.

Ltac inv_monad_step :=
  match goal with
  | H : (_ ≫= _) _ = Ok _ |- _ =>
      let a := fresh "a" in let s := fresh "s" in let H' := fresh "H" in
      apply bind_Ok in H as (a & s & H' & H)
  | H : mret _ _ = Ok _ |- _ => apply ret_Ok in H as [H ?]
  | H : gets _ _ = Ok _ |- _ => apply gets_Ok in H as [H ?]
  | H : modify _ _ = Ok _ |- _ => apply modify_Ok in H
  | H : lift _ _ = Ok _ |- _ => apply lift_Ok in H as [H ?]
  | H : fail _ _ = Ok _ |- _ => by apply fail_Ok in H
  | H : panic _ _ = Ok _ |- _ => by apply panic_Ok in H
  end.
(** Take apart a successful run of a monadic computation. *)
Ltac inv_monad := repeat (inv_monad_step; simplify_eq/=).

(** Turn boolean hypotheses into propositions. *)
Ltac bool_props := repeat match goal with
  | H : bool_decide _ = true |- _ => apply bool_decide_eq_true in H
  | H : bool_decide _ = false |- _ => apply bool_decide_eq_false in H
  | H : _ && _ = true |- _ => apply andb_true_iff in H as [? ?]
  | H : _ || _ = false |- _ => apply orb_false_iff in H as [? ?]
  | H : negb _ = true |- _ => apply negb_true_iff in H
  | H : negb _ = false |- _ => apply negb_false_iff in H
  | H : (_ <? _) = true |- _ => apply Z.ltb_lt in H
  | H : (_ <? _) = false |- _ => apply Z.ltb_ge in H
  | H : (_ <=? _) = true |- _ => apply Z.leb_le in H
  | H : (_ <=? _) = false |- _ => apply Z.leb_gt in H
  | H : (_ =? _) = true |- _ => apply Z.eqb_eq in H
  | H : (_ =? _) = false |- _ => apply Z.eqb_neq in H
  end.

(** ** Machine integers *)

Definition int64_min : Z := - 2 ^ 63.
Definition int64_max : Z := 2 ^ 63 - 1.
Definition int64_wrap (z : Z) : Z := (z + 2 ^ 63) mod 2 ^ 64 - 2 ^ 63.
Definition int32_wrap (z : Z) : Z := (z + 2 ^ 31) mod 2 ^ 32 - 2 ^ 31.
Definition in_int64 (z : Z) : Prop := int64_min ≤ z ≤ int64_max.

Lemma int64_wrap_id z : in_int64 z → int64_wrap z = z.
Proof.
  unfold in_int64, int64_min, int64_max, int64_wrap. intros.
  rewrite Z.mod_small; lia.
Qed.

Lemma int64_wrap_range z : in_int64 (int64_wrap z).
Proof.
  unfold in_int64, int64_min, int64_max, int64_wrap.
  pose proof (Z.mod_pos_bound (z + 2 ^ 63) (2 ^ 64) ltac:(lia)). lia.
Qed.

(** ** Time

    [time.Time] is an instant and [time.Duration] a length, both in nanoseconds. *)

Definition time := Z.
Definition duration := Z.
Definition Nanosecond : duration := 1.
Definition Millisecond : duration := 1000000.
Definition Second : duration := 1000000000.
Definition Minute : duration := 60 * Second.
Definition Hour : duration := 60 * Minute.

(** ** Lists *)

Definition list_sum (l : list Z) : Z := foldr Z.add 0 l.

Lemma list_sum_cons x l : list_sum (x :: l) = x + list_sum l.
Proof. done. Qed.
Lemma list_sum_app l1 l2 : list_sum (l1 ++ l2) = list_sum l1 + list_sum l2.
Proof. induction l1 as [|x l1 IH]; simpl; [done|]. unfold list_sum in *. simpl. lia. Qed.
#[export] Instance list_sum_proper : Proper ((≡ₚ) ==> eq) list_sum.
Proof. intros l k. induction 1; unfold list_sum in *; simpl; lia. Qed.
Lemma list_sum_nonneg l : Forall (λ z, 0 ≤ z) l → 0 ≤ list_sum l.
Proof. induction 1; [done|]. rewrite list_sum_cons. lia. Qed.
Lemma list_sum_submseteq l k : Forall (λ z, 0 ≤ z) k → l ⊆+ k → list_sum l ≤ list_sum k.
Proof.
  intros Hk [r Hp]%submseteq_Permutation. rewrite Hp, list_sum_app.
  rewrite Hp, Forall_app in Hk. pose proof (list_sum_nonneg r ltac:(tauto)). lia.
Qed.

(** A permutation of an image is the image of a permutation. *)
Lemma Permutation_fmap_inv {A B} (f : A → B) (l : list A) (k : list B) :
  k ≡ₚ f <$> l → ∃ l', k = f <$> l' ∧ l' ≡ₚ l.
Proof.
  assert (Hmap : ∀ l, f <$> l = map f l).
  { intros l0. induction l0 as [|x l0 IH]; [done|]. simpl. by rewrite <- IH. }
  rewrite Hmap. intros Hp. destruct (Permutation_map_inv _ _ Hp) as (l' & -> & Hp').
  exists l'. split; [symmetry; apply Hmap|by symmetry].
Qed.

Lemma elem_of_take_incl {A} (l : list A) n x : x ∈ take n l → x ∈ l.
Proof. intros H. rewrite <- (take_drop n l). apply elem_of_app. by left. Qed.

(** Sort a list by a key, as [ORDER BY] does. *)
Definition key_le {A} (key : A → Z) (x y : A) : Prop := key x ≤ key y.
#[export] Instance key_le_dec {A} (key : A → Z) : RelDecision (key_le key).
Proof. intros x y. unfold key_le. apply _. Defined.
#[export] Instance key_le_total {A} (key : A → Z) : Total (key_le key).
Proof. intros x y. unfold key_le. lia. Qed.
#[export] Instance key_le_trans {A} (key : A → Z) : Transitive (key_le key).
Proof. intros x y z. unfold key_le. lia. Qed.

Definition sort_by {A} (key : A → Z) (l : list A) : list A := merge_sort (key_le key) l.

Lemma sort_by_perm {A} (key : A → Z) (l : list A) : sort_by key l ≡ₚ l.
Proof. apply merge_sort_Permutation. Qed.

Lemma sort_by_sorted {A} (key : A → Z) (l : list A) : StronglySorted (key_le key) (sort_by key l).
Proof. apply StronglySorted_merge_sort; apply _. Qed.

Lemma elem_of_sort_by {A} (key : A → Z) (l : list A) x : x ∈ sort_by key l ↔ x ∈ l.
Proof. by rewrite sort_by_perm. Qed.

(** The head of a sorted list is a minimum. *)
Lemma sort_by_head {A} (key : A → Z) (l : list A) x k y :
  sort_by key l = x :: k → y ∈ l → key x ≤ key y.
Proof.
  intros Hs Hy. pose proof (sort_by_sorted key l) as Hst.
  rewrite <- (elem_of_sort_by key), Hs in Hy. rewrite Hs in Hst.
  apply StronglySorted_inv in Hst as [_ Hall].
  apply elem_of_cons in Hy as [->|Hy]; [done|].
  by eapply Forall_forall in Hall.
Qed.

(** Step through the pure parts of a [wp] goal. *)
Ltac wp_pure := repeat first
  [ apply wp_bind | apply wp_ret | apply wp_gets | apply wp_modify ]; cbn beta.

Create HintDb mmmbbb.
#[export] Hint Resolve int64_wrap_range elem_of_take_incl : mmmbbb.

Lemma string_app_assoc (a b c : string) : (a +:+ b) +:+ c = a +:+ (b +:+ c).
Proof.
  induction a as [|x a IH]; [done|].
  change (String x ((a +:+ b) +:+ c) = String x (a +:+ (b +:+ c))). by rewrite IH.
Qed.

(** ** Filters that keep everything, or nothing *)

Section Filters.
Context {A : Type} (P : A → Prop) {Hdec : ∀ x, Decision (P x)}.

Lemma filter_all (l : list A) : (∀ x, x ∈ l → P x) → filter P l = l.
Proof.
  induction l as [|x l IH]; intros Hl; [done|].
  rewrite filter_cons_True by (apply Hl; set_solver). f_equal. apply IH. set_solver.
Qed.

Lemma filter_none (l : list A) : (∀ x, x ∈ l → ¬ P x) → filter P l = [].
Proof. intros Hn. apply elem_of_nil_inv. intros x [? ?]%list_elem_of_filter. by eapply Hn. Qed.
End Filters.
