(* ===== verification/Utf8.v ===== *)
(** * Strings as runes

    Go's strings are bytes; [for i, ch := range s], [strconv.Quote] and [text/scanner] read
    them as UTF-8.  [DecodeRune] is [utf8.DecodeRuneInString], [AppendRune] is
    [utf8.AppendRune], [runes] the runes of a string, each with the bytes it was read from:
    a byte that starts no encoding is read alone, as [RuneError].

    The tables of package [unicode] beyond ASCII are the parameter [Unicode]: neither the byte
    order mark nor [RuneError] is a letter or a digit in them.  [latin1] instantiates it for
    the witnesses. *)

From S2P Require Import Prelude.

Class Unicode := {
  letter_above : N → bool;
  digit_above : N → bool;
  print_above : N → bool;
  mark_not_letter : letter_above 65279 = false;
  error_not_letter : letter_above 65533 = false;
  error_not_digit : digit_above 65533 = false }.

Definition in_range (lo hi n : N) : bool := ((lo <=? n) && (n <=? hi))%N.

Definition is_letter (c : ascii) : bool :=
  let n := N_of_ascii c in in_range 65 90 n || in_range 97 122 n.
Definition is_digit (c : ascii) : bool := in_range 48 57 (N_of_ascii c).

Definition IsLetter {U : Unicode} (r : N) : bool :=
  if (r <? 128)%N then in_range 65 90 r || in_range 97 122 r else letter_above r.
Definition IsDigit {U : Unicode} (r : N) : bool :=
  if (r <? 128)%N then in_range 48 57 r else digit_above r.
Definition IsPrint {U : Unicode} (r : N) : bool :=
  if (r <? 128)%N then in_range 32 126 r else print_above r.

(** ** Encoding *)

Definition RuneError : N := 65533.
Definition MaxRune : N := 1114111.
Definition ValidRune (r : N) : bool := ((r <? 55296) || ((57343 <? r) && (r <=? MaxRune)))%N.

Fixpoint of_bytes (l : list N) : string :=
  match l with [] => EmptyString | n :: l => String (ascii_of_N n) (of_bytes l) end.

Definition AppendRune (r : N) : string :=
  of_bytes
    (if r <? 128 then [r]
     else if r <? 2048 then [192 + r / 64; 128 + r mod 64]
     else if negb (ValidRune r) then [239; 191; 189]
     else if r <? 65536 then [224 + r / 4096; 128 + r / 64 mod 64; 128 + r mod 64]
     else [240 + r / 262144; 128 + r / 4096 mod 64; 128 + r / 64 mod 64; 128 + r mod 64])%N.

(** ** Decoding *)

Record rune := MkRune { r_value : N; r_bytes : string }.

Definition cont (c : ascii) : bool := in_range 128 191 (N_of_ascii c).

(** The second byte a first byte allows: no overlong encoding, no surrogate, nothing above
    [MaxRune]. *)
Definition second (b0 : N) (c : ascii) : bool :=
  in_range (if b0 =? 224 then 160 else if b0 =? 240 then 144 else 128)%N
           (if b0 =? 237 then 159 else if b0 =? 244 then 143 else 191)%N (N_of_ascii c).

(** The low six bits of a continuation byte. *)
Definition low6 (c : ascii) : N := (N_of_ascii c - 128)%N.

(** The first rune of a string, and the rest. *)
Definition DecodeRune (s : string) : rune * string :=
  match s with
  | EmptyString => (MkRune RuneError EmptyString, EmptyString)
  | String c0 s1 =>
      let b0 := N_of_ascii c0 in
      let invalid := (MkRune RuneError (String c0 EmptyString), s1) in
      if (b0 <? 128)%N then (MkRune b0 (String c0 EmptyString), s1)
      else if in_range 194 223 b0 then
        match s1 with
        | String c1 s2 =>
            if second b0 c1 then
              (MkRune ((b0 - 192) * 64 + low6 c1) (String c0 (String c1 EmptyString)), s2)
            else invalid
        | _ => invalid
        end
      else if in_range 224 239 b0 then
        match s1 with
        | String c1 (String c2 s3) =>
            if second b0 c1 && cont c2 then
              (MkRune ((b0 - 224) * 4096 + low6 c1 * 64 + low6 c2)
                 (String c0 (String c1 (String c2 EmptyString))), s3)
            else invalid
        | _ => invalid
        end
      else if in_range 240 244 b0 then
        match s1 with
        | String c1 (String c2 (String c3 s4)) =>
            if second b0 c1 && cont c2 && cont c3 then
              (MkRune ((b0 - 240) * 262144 + low6 c1 * 4096 + low6 c2 * 64 + low6 c3)
                 (String c0 (String c1 (String c2 (String c3 EmptyString)))), s4)
            else invalid
        | _ => invalid
        end
      else invalid
  end.

Fixpoint runes_fuel (n : nat) (s : string) : list rune :=
  match n, s with
  | S n, String _ _ => let '(r, s) := DecodeRune s in r :: runes_fuel n s
  | _, _ => []
  end.
Definition runes (s : string) : list rune := runes_fuel (String.length s) s.

(** [width == 1 && r == utf8.RuneError] *)
Definition invalid (r : rune) : bool :=
  ((r_value r =? RuneError)%N && (String.length (r_bytes r) =? 1)%nat).

(** ** What is decoded *)

(** A byte below 128, a byte that starts no encoding, or a longer encoding, which is decoded
    whatever follows. *)
Inductive decoded : rune → Prop :=
  | decoded_ascii c : (N_of_ascii c < 128)%N → decoded (MkRune (N_of_ascii c) (String c EmptyString))
  | decoded_invalid c : (128 ≤ N_of_ascii c)%N → decoded (MkRune RuneError (String c EmptyString))
  | decoded_multi v : (128 ≤ v)%N → ValidRune v = true → (2 ≤ String.length (AppendRune v))%nat →
      (∀ t, DecodeRune (AppendRune v +:+ t) = (MkRune v (AppendRune v), t)) →
      decoded (MkRune v (AppendRune v)).

Ltac byte_bounds :=
  repeat match goal with
  | c : ascii |- _ =>
      lazymatch goal with H : (N_of_ascii c < 256)%N |- _ => fail | _ => pose proof (N_ascii_bounded c) end
  end.

Ltac unfold_ranges :=
  unfold in_range, second, cont, low6, ValidRune, MaxRune, in_range in *;
  repeat match goal with
  | H : _ && _ = true |- _ => apply andb_true_iff in H as [? ?]
  | H : (_ <=? _)%N = true |- _ => apply N.leb_le in H
  | H : (_ <=? _)%N = false |- _ => apply N.leb_gt in H
  | H : (_ <? _)%N = true |- _ => apply N.ltb_lt in H
  | H : (_ <? _)%N = false |- _ => apply N.ltb_ge in H
  | H : (_ =? _)%N = true |- _ => apply N.eqb_eq in H
  | H : (_ =? _)%N = false |- _ => apply N.eqb_neq in H
  end.

Lemma ascii_of_value c n : n = N_of_ascii c → ascii_of_N n = c.
Proof. intros ->. apply ascii_N_embedding. Qed.

Lemma div_mod_unique a b q r : (r < b → a = b * q + r → a / b = q ∧ a mod b = r)%N.
Proof. intros Hr ->. split; [by rewrite N.mul_comm, N.div_add_l, N.div_small by lia; lia|].
  rewrite N.add_comm, N.mul_comm, N.Div0.mod_add. by apply N.mod_small. Qed.

(** Encoding what was decoded. *)
Lemma AppendRune_2 c0 c1 :
  in_range 194 223 (N_of_ascii c0) = true → second (N_of_ascii c0) c1 = true →
  let v := ((N_of_ascii c0 - 192) * 64 + low6 c1)%N in
  (128 ≤ v)%N ∧ ValidRune v = true ∧ AppendRune v = String c0 (String c1 EmptyString).
Proof.
  intros H0 H1 v. assert (Hb : (128 ≤ N_of_ascii c1 < 192)%N ∧ (194 ≤ N_of_ascii c0 < 224)%N).
  { unfold_ranges. repeat case_match; unfold_ranges; lia. }
  unfold v, low6. clear H0 H1 v. unfold AppendRune.
  set (x := (N_of_ascii c0 - 192)%N). set (y := (N_of_ascii c1 - 128)%N).
  assert (Hx : (2 ≤ x < 32)%N ∧ (y < 64)%N) by (unfold x, y; lia).
  destruct (div_mod_unique (x * 64 + y) 64 x y) as [-> ->]; [lia..|].
  assert (Hr : (x * 64 + y < 2048)%N ∧ (128 ≤ x * 64 + y)%N) by lia.
  split; [lia|]. split; [unfold ValidRune; apply orb_true_iff; left; apply N.ltb_lt; lia|].
  rewrite (proj2 (N.ltb_ge _ 128)), (proj2 (N.ltb_lt _ 2048)) by lia. cbn [of_bytes].
  rewrite (ascii_of_value c0), (ascii_of_value c1); [done|unfold y; lia|unfold x; lia].
Qed.

Lemma AppendRune_3 c0 c1 c2 :
  in_range 224 239 (N_of_ascii c0) = true → second (N_of_ascii c0) c1 && cont c2 = true →
  let v := ((N_of_ascii c0 - 224) * 4096 + low6 c1 * 64 + low6 c2)%N in
  (128 ≤ v)%N ∧ ValidRune v = true ∧ AppendRune v = String c0 (String c1 (String c2 EmptyString)).
Proof.
  intros H0 [H1 H2]%andb_true_iff v. unfold v, low6. clear v. unfold AppendRune.
  assert (Hb : (128 ≤ N_of_ascii c1 < 192 ∧ 128 ≤ N_of_ascii c2 < 192 ∧ 224 ≤ N_of_ascii c0 < 240 ∧
    (N_of_ascii c0 = 224 → 160 ≤ N_of_ascii c1) ∧ (N_of_ascii c0 = 237 → N_of_ascii c1 < 160))%N).
  { unfold_ranges. repeat case_match; unfold_ranges; lia. }
  set (x := (N_of_ascii c0 - 224)%N). set (y := (N_of_ascii c1 - 128)%N). set (z := (N_of_ascii c2 - 128)%N).
  assert (Hx : (x < 16 ∧ y < 64 ∧ z < 64 ∧ (x = 0 → 32 ≤ y) ∧ (x = 13 → y < 32))%N) by (unfold x, y, z; lia).
  destruct (div_mod_unique (x * 4096 + y * 64 + z) 64 (x * 64 + y) z) as [-> ->]; [lia..|].
  destruct (div_mod_unique (x * 64 + y) 64 x y) as [_ ->]; [lia..|].
  destruct (div_mod_unique (x * 4096 + y * 64 + z) 4096 x (y * 64 + z)) as [-> _]; [lia..|].
  assert (Hr : (2048 ≤ x * 4096 + y * 64 + z < 65536)%N) by (destruct (decide (x = 0)%N); lia).
  assert (Hv : ValidRune (x * 4096 + y * 64 + z) = true).
  { unfold ValidRune, MaxRune. apply orb_true_iff. destruct (decide (x * 4096 + y * 64 + z < 55296)%N) as [|Hge];
      [left; by apply N.ltb_lt|right]. apply andb_true_iff. rewrite N.ltb_lt, N.leb_le.
    destruct (decide (x ≤ 13)%N); [|lia]. assert (x = 13)%N by lia. lia. }
  rewrite Hv. split; [lia|]. split; [done|].
  rewrite (proj2 (N.ltb_ge _ 128)), (proj2 (N.ltb_ge _ 2048)), (proj2 (N.ltb_lt _ 65536)) by lia.
  cbn [of_bytes negb].
  rewrite (ascii_of_value c0), (ascii_of_value c1), (ascii_of_value c2); [done|unfold z; lia|unfold y; lia|unfold x; lia].
Qed.

Lemma AppendRune_4 c0 c1 c2 c3 :
  in_range 240 244 (N_of_ascii c0) = true → second (N_of_ascii c0) c1 && cont c2 && cont c3 = true →
  let v := ((N_of_ascii c0 - 240) * 262144 + low6 c1 * 4096 + low6 c2 * 64 + low6 c3)%N in
  (128 ≤ v)%N ∧ ValidRune v = true ∧
  AppendRune v = String c0 (String c1 (String c2 (String c3 EmptyString))).
Proof.
  intros H0 [[H1 H2]%andb_true_iff H3]%andb_true_iff v. unfold v, low6. clear v. unfold AppendRune.
  assert (Hb : (128 ≤ N_of_ascii c1 < 192 ∧ 128 ≤ N_of_ascii c2 < 192 ∧ 128 ≤ N_of_ascii c3 < 192 ∧
    240 ≤ N_of_ascii c0 < 245 ∧
    (N_of_ascii c0 = 240 → 144 ≤ N_of_ascii c1) ∧ (N_of_ascii c0 = 244 → N_of_ascii c1 < 144))%N).
  { unfold_ranges. repeat case_match; unfold_ranges; lia. }
  set (w := (N_of_ascii c0 - 240)%N). set (x := (N_of_ascii c1 - 128)%N).
  set (y := (N_of_ascii c2 - 128)%N). set (z := (N_of_ascii c3 - 128)%N).
  assert (Hx : (w < 5 ∧ x < 64 ∧ y < 64 ∧ z < 64 ∧ (w = 0 → 16 ≤ x) ∧ (w = 4 → x < 16))%N)
    by (unfold w, x, y, z; lia).
  destruct (div_mod_unique (w * 262144 + x * 4096 + y * 64 + z) 64 (w * 4096 + x * 64 + y) z) as [-> ->]; [lia..|].
  destruct (div_mod_unique (w * 4096 + x * 64 + y) 64 (w * 64 + x) y) as [_ ->]; [lia..|].
  destruct (div_mod_unique (w * 262144 + x * 4096 + y * 64 + z) 4096 (w * 64 + x) (y * 64 + z)) as [-> _]; [lia..|].
  destruct (div_mod_unique (w * 64 + x) 64 w x) as [_ ->]; [lia..|].
  destruct (div_mod_unique (w * 262144 + x * 4096 + y * 64 + z) 262144 w (x * 4096 + y * 64 + z)) as [-> _]; [lia..|].
  assert (Hr : (65536 ≤ w * 262144 + x * 4096 + y * 64 + z ≤ 1114111)%N)
    by (destruct (decide (w = 0)%N); [|destruct (decide (w = 4)%N)]; lia).
  assert (Hv : ValidRune (w * 262144 + x * 4096 + y * 64 + z) = true).
  { unfold ValidRune, MaxRune. apply orb_true_iff. right. apply andb_true_iff. rewrite N.ltb_lt, N.leb_le. lia. }
  rewrite Hv. split; [lia|]. split; [done|].
  rewrite (proj2 (N.ltb_ge _ 128)), (proj2 (N.ltb_ge _ 2048)), (proj2 (N.ltb_ge _ 65536)) by lia.
  cbn [of_bytes negb].
  rewrite (ascii_of_value c0), (ascii_of_value c1), (ascii_of_value c2), (ascii_of_value c3);
    [done|unfold z; lia|unfold y; lia|unfold x; lia|unfold w; lia].
Qed.

Lemma DecodeRune_decoded s :
  s ≠ EmptyString → ∃ r t, DecodeRune s = (r, t) ∧ s = r_bytes r +:+ t ∧ decoded r.
Proof.
  destruct s as [|c0 s1]; [done|]. intros _. cbn [DecodeRune].
  destruct (N_of_ascii c0 <? 128)%N eqn:H0.
  { eexists _, _. split; [done|]. split; [done|]. constructor. by apply N.ltb_lt. }
  assert (Hinv : ∃ r t, (MkRune RuneError (String c0 EmptyString), s1) = (r, t) ∧
    String c0 s1 = r_bytes r +:+ t ∧ decoded r).
  { eexists _, _. split; [done|]. split; [done|]. constructor. by apply N.ltb_ge. }
  destruct (in_range 194 223 (N_of_ascii c0)) eqn:H2; [|destruct (in_range 224 239 (N_of_ascii c0)) eqn:H3;
    [|destruct (in_range 240 244 (N_of_ascii c0)) eqn:H4; [|done]]].
  - destruct s1 as [|c1 s2]; [done|]. destruct (second (N_of_ascii c0) c1) eqn:Hs; [|done].
    destruct (AppendRune_2 c0 c1 H2 Hs) as (Hge & Hv & He). eexists _, _. split; [done|]. split; [done|].
    rewrite <- He. constructor; [done..|by rewrite He; simpl; lia|]. intros t. rewrite He.
    change (_ +:+ t) with (String c0 (String c1 t)). cbn [DecodeRune]. by rewrite H0, H2, Hs.
  - destruct s1 as [|c1 [|c2 s3]]; [done..|]. destruct (second (N_of_ascii c0) c1 && cont c2) eqn:Hs; [|done].
    destruct (AppendRune_3 c0 c1 c2 H3 Hs) as (Hge & Hv & He). eexists _, _. split; [done|]. split; [done|].
    rewrite <- He. constructor; [done..|by rewrite He; simpl; lia|]. intros t. rewrite He.
    change (_ +:+ t) with (String c0 (String c1 (String c2 t))). cbn [DecodeRune]. by rewrite H0, H2, H3, Hs.
  - destruct s1 as [|c1 [|c2 [|c3 s4]]]; [done..|].
    destruct (second (N_of_ascii c0) c1 && cont c2 && cont c3) eqn:Hs; [|done].
    destruct (AppendRune_4 c0 c1 c2 c3 H4 Hs) as (Hge & Hv & He). eexists _, _. split; [done|]. split; [done|].
    rewrite <- He. constructor; [done..|by rewrite He; simpl; lia|]. intros t. rewrite He.
    change (_ +:+ t) with (String c0 (String c1 (String c2 (String c3 t)))). cbn [DecodeRune].
    by rewrite H0, H2, H3, H4, Hs.
Qed.

(** ** The runes of a string *)

Lemma length_append s t : String.length (s +:+ t) = (String.length s + String.length t)%nat.
Proof. induction s as [|c s IH]; [done|]. exact (f_equal S IH). Qed.

Lemma decoded_length r : decoded r → (1 ≤ String.length (r_bytes r))%nat.
Proof. intros []; simpl; lia. Qed.

Lemma DecodeRune_shorter c s : (String.length (DecodeRune (String c s)).2 ≤ String.length s)%nat.
Proof.
  destruct (DecodeRune_decoded (String c s)) as (r & t & -> & Hs & Hr); [done|]. simpl.
  apply (f_equal String.length) in Hs. rewrite length_append in Hs. simpl in Hs.
  pose proof (decoded_length r Hr). lia.
Qed.

Lemma runes_fuel_enough n m s :
  (String.length s ≤ n)%nat → (String.length s ≤ m)%nat → runes_fuel n s = runes_fuel m s.
Proof.
  revert m s. induction n as [|n IH]; intros m s Hn Hm; (destruct s as [|c s]; [by destruct m|]);
    simpl in Hn, Hm; [lia|]. destruct m as [|m]; [lia|]. cbn [runes_fuel].
  pose proof (DecodeRune_shorter c s). destruct (DecodeRune (String c s)) as [r t]. simpl in *.
  f_equal. apply IH; lia.
Qed.

Lemma runes_step s r t : s ≠ EmptyString → DecodeRune s = (r, t) → runes s = r :: runes t.
Proof.
  destruct s as [|c s]; [done|]. intros _ Hd. pose proof (DecodeRune_shorter c s) as Hl.
  unfold runes. cbn [String.length runes_fuel]. rewrite Hd in Hl |- *. simpl in Hl. f_equal.
  by apply runes_fuel_enough.
Qed.

Lemma runes_ascii c t :
  (N_of_ascii c < 128)%N → runes (String c t) = MkRune (N_of_ascii c) (String c EmptyString) :: runes t.
Proof.
  intros Hc. apply runes_step; [done|]. cbn [DecodeRune]. by rewrite (proj2 (N.ltb_lt _ _) Hc).
Qed.

(** Reading a string rune by rune. *)
Lemma runes_ind (P : string → Prop) :
  P EmptyString →
  (∀ r t, runes (r_bytes r +:+ t) = r :: runes t → decoded r → P t → P (r_bytes r +:+ t)) →
  ∀ s, P s.
Proof.
  intros H0 Hs s. remember (String.length s) as n eqn:Hn. revert s Hn.
  induction n as [n IH] using lt_wf_ind. intros s ->.
  destruct (decide (s = EmptyString)) as [->|Hne]; [done|].
  destruct (DecodeRune_decoded s Hne) as (r & t & Hd & -> & Hr). apply Hs; [by apply runes_step|done|].
  eapply IH; [|done]. rewrite length_append. pose proof (decoded_length r Hr). lia.
Qed.

Lemma decoded_runes r t : decoded r → invalid r = false → runes (r_bytes r +:+ t) = r :: runes t.
Proof.
  intros [c Hc|c Hc|v Hv Hval Hlen Hd] Hinv; [by apply runes_ascii|done|].
  apply runes_step; [by destruct (AppendRune v); simpl in Hlen; [lia|]|apply Hd].
Qed.

Definition text (rs : list rune) : string := foldr (λ r s, r_bytes r +:+ s) EmptyString rs.

Lemma text_runes s : text (runes s) = s.
Proof. induction s as [|r t Hr _ IH] using runes_ind; [done|]. rewrite Hr. simpl. by rewrite IH. Qed.

(** A string of valid runes is read the same whatever follows. *)
Lemma runes_app s t :
  Forall (λ r, invalid r = false) (runes s) → runes (s +:+ t) = runes s ++ runes t.
Proof.
  induction s as [|r s Hr Hd IH] using runes_ind; [done|]. rewrite Hr. intros [Hv Hall]%Forall_cons.
  rewrite string_app_assoc, (decoded_runes r (s +:+ t)) by done. simpl. by rewrite IH.
Qed.

(** Go's tables up to U+00FF, and nothing above. *)
Definition latin1 : Unicode := {|
  letter_above r := bool_decide (r = 170%N) || bool_decide (r = 181%N) || bool_decide (r = 186%N) ||
    in_range 192 214 r || in_range 216 246 r || in_range 248 255 r;
  digit_above r := false;
  print_above r := in_range 161 255 r && bool_decide (r ≠ 173%N);
  mark_not_letter := eq_refl; error_not_letter := eq_refl; error_not_digit := eq_refl |}.
