(* ===== verification/Uuid.v ===== *)
(** * UUIDs

    [src/parse/uuid-slice.go]: [UUIDLess] and [UUIDsFromStrings], over the 16-byte
    arrays of [github.com/google/uuid].  A UUID is its 128-bit big-endian value;
    [uuid_bytes] is the array the Go code indexes.  The main result is that the
    byte-wise comparison is the numeric order, so that the orders used for lock
    ordering ([sort.Slice] with [UUIDLess]) and for pagination agree. *)

From S2P Require Import Prelude.

Definition uuid : Type := N.
Bind Scope N_scope with uuid.
Definition uuid_nil : uuid := 0%N.
Definition uuid_wf (u : uuid) : Prop := (u < 2 ^ 128)%N.

#[export] Instance uuid_eq_dec : EqDecision uuid := N.eq_dec.
#[export] Instance uuid_countable : Countable uuid := N_countable.
#[export] Instance uuid_inhabited : Inhabited uuid := populate 0%N.

(** The [k] low bytes of [u], most significant first. *)
Fixpoint be_bytes (k : nat) (u : N) : list N :=
  match k with
  | O => []
  | S k' => ((u / 256 ^ N.of_nat k') mod 256)%N :: be_bytes k' u
  end.

Definition uuid_bytes (u : uuid) : list N := be_bytes 16 u.

(** The loop of [UUIDLess]. *)
Fixpoint bytes_less (a b : list N) : bool :=
  match a, b with
  | x :: a, y :: b =>
      if (x <? y)%N then true else if (y <? x)%N then false else bytes_less a b
  | _, _ => false
  end.

Definition UUIDLess (a b : uuid) : bool := bytes_less (uuid_bytes a) (uuid_bytes b).

Section Parse.
(** [uuid.Parse] of [github.com/google/uuid]. *)
Context (uuid_Parse : string → option uuid).

(** [for i, s := range values], stopping at the first parse error. *)
Fixpoint parse_all (values : list string) : outcome (list uuid) :=
  match values with
  | [] => Ok []
  | s :: values =>
      match uuid_Parse s with
      | None => Err (ErrOther "invalid UUID")
      | Some u => (λ us, u :: us) <$> parse_all values
      end
  end.

(** A Go slice may be [nil]: [None]. *)
Definition UUIDsFromStrings (values : option (list string)) : outcome (option (list uuid)) :=
  match values with
  | None => Ok None
  | Some values => Some <$> parse_all values
  end.

Lemma parse_all_Ok values us :
  parse_all values = Ok us ↔ Forall2 (λ s u, uuid_Parse s = Some u) values us.
Proof.
  revert us. induction values as [|s values IH]; intros us; simpl.
  - split; [intros; simplify_eq; constructor | by intros ->%Forall2_nil_inv_l].
  - unfold fmap, outcome_fmap in *. split.
    + destruct (uuid_Parse s) eqn:Hs; [|done].
      destruct (parse_all values); intros; simplify_eq.
      constructor; [done|]. by apply IH.
    + intros (u & us' & Hu & Hus & ->)%Forall2_cons_inv_l.
      rewrite Hu. by apply IH in Hus as ->.
Qed.

Lemma parse_all_Err values e :
  parse_all values = Err e → ∃ s, s ∈ values ∧ uuid_Parse s = None.
Proof.
  revert e. induction values as [|s values IH]; simpl; intros e He; [done|].
  destruct (uuid_Parse s) eqn:Hs; [|exists s; split; [left|done]].
  unfold fmap, outcome_fmap in He. destruct (parse_all values) as [|e'|] eqn:Hp; simplify_eq.
  destruct (IH _ eq_refl) as (s' & ? & ?). exists s'. split; [by right|done].
Qed.

Lemma parse_all_not_panic values msg : parse_all values ≠ Panic msg.
Proof.
  induction values as [|s values IH]; simpl; [done|].
  destruct (uuid_Parse s); [|done]. unfold fmap, outcome_fmap.
  destruct (parse_all values); congruence.
Qed.

(** Every id parses or the whole request is refused: the result has
    exactly one UUID per string, in order, and an error is returned iff some string
    is not a UUID. *)
Theorem UUIDsFromStrings_spec values :
  (∀ us, UUIDsFromStrings (Some values) = Ok (Some us) ↔
         Forall2 (λ s u, uuid_Parse s = Some u) values us) ∧
  (Exists (λ s, uuid_Parse s = None) values ↔
     UUIDsFromStrings (Some values) = Err (ErrOther "invalid UUID")).
Proof.
  split.
  - intros us. rewrite <- parse_all_Ok. unfold UUIDsFromStrings, fmap, outcome_fmap.
    destruct (parse_all values); naive_solver.
  - unfold UUIDsFromStrings. induction values as [|s values IH]; simpl.
    + split; [by intros ?%Exists_nil | done].
    + rewrite Exists_cons. unfold fmap, outcome_fmap in *.
      destruct (uuid_Parse s) eqn:Hs; [|naive_solver].
      destruct (parse_all values); naive_solver.
Qed.
End Parse.

(** ** The byte order is the numeric order *)

Lemma be_bytes_less k a b :
  bytes_less (be_bytes k a) (be_bytes k b)
  = (a mod 256 ^ N.of_nat k <? b mod 256 ^ N.of_nat k)%N.
Proof.
  induction k as [|k IH]; [by rewrite !N.mod_1_r|].
  simpl be_bytes. simpl bytes_less. rewrite IH.
  set (p := (256 ^ N.of_nat k)%N).
  assert (Hp : (256 ^ N.of_nat (S k) = p * 256)%N)
    by (rewrite Nat2N.inj_succ, N.pow_succ_r'; subst p; lia).
  rewrite Hp. assert (Hp0 : (p ≠ 0)%N) by (subst p; apply N.pow_nonzero; lia).
  rewrite !N.Div0.mod_mul_r by lia.
  generalize (N.mod_upper_bound a p Hp0), (N.mod_upper_bound b p Hp0).
  generalize (a mod p)%N, (b mod p)%N, ((a / p) mod 256)%N, ((b / p) mod 256)%N.
  clearbody p. intros ra rb x y Ha Hb.
  destruct (N.ltb_spec x y); [symmetry; apply N.ltb_lt; nia|].
  destruct (N.ltb_spec y x); [symmetry; apply N.ltb_ge; nia|].
  assert (x = y) as -> by lia.
  destruct (N.ltb_spec ra rb); symmetry; [apply N.ltb_lt | apply N.ltb_ge]; lia.
Qed.

Lemma UUIDLess_ltb a b : uuid_wf a → uuid_wf b → UUIDLess a b = (a <? b)%N.
Proof.
  unfold uuid_wf, UUIDLess, uuid_bytes. intros Ha Hb. rewrite be_bytes_less.
  change (256 ^ N.of_nat 16)%N with (2 ^ 128)%N. by rewrite !N.mod_small.
Qed.

(** [UUIDLess] is the numeric order of the 128-bit values, hence a strict
    total order: irreflexive, transitive, and any two distinct UUIDs compare. *)
Theorem UUIDLess_strict_total a b c :
  uuid_wf a → uuid_wf b → uuid_wf c →
  (UUIDLess a b = true ↔ (a < b)%N) ∧
  UUIDLess a a = false ∧
  (UUIDLess a b = true → UUIDLess b c = true → UUIDLess a c = true) ∧
  (a ≠ b → UUIDLess a b = true ∨ UUIDLess b a = true).
Proof. intros. rewrite !UUIDLess_ltb by done. rewrite !N.ltb_lt, N.ltb_ge. lia. Qed.

Lemma UUIDLess_strict_total_witness :
  UUIDLess 5 (2 ^ 127 + 1) = true ∧ UUIDLess 5 5 = false.
Proof.
  destruct (UUIDLess_strict_total 5 (2 ^ 127 + 1) 0) as (H1 & H2 & _); [vm_compute; reflexivity..|].
  split; [apply H1; vm_compute; reflexivity | exact H2].
Defined.
