(* ===== verification/Filter.v ===== *)
(** * Subscription filters: syntax, evaluation and printing

    [src/filter/grammar.go] (the AST), [src/filter/evaluate.go] (the [Evaluate]
    methods) and [src/filter/as-filter.go] (the [AsFilter] printer).  An attribute map
    is a [gmap string string].  A Go pointer that may be nil is an [option]; the
    pointers the code dereferences without a test ([Condition.Term] and the elements of
    the term slices) are not.  A nil slice is [None], which the code tells apart from an
    empty one.  [Evaluate] methods return [outcome bool], [AsFilter] methods the text
    they write (the writer is a [strings.Builder], whose writes do not fail).  Names and values
    are printed rune by rune, with Go's tables of [unicode] as the parameter [Unicode]. *)

From S2P Require Import Prelude Utf8.

(** ** The grammar *)

Definition OpEqual : string := "=".
Definition OpNotEqual : string := "!=".
Definition PredicateHasPrefix : string := "hasPrefix".
Definition OpAND : string := "AND".
Definition OpOR : string := "OR".

Record HasAttribute := MkHas { ha_Name : string }.

Record HasAttributeValue := MkValue { hv_Name : string; hv_Op : string; hv_Value : string }.

Record HasAttributePredicate :=
  MkPredicate { hp_Predicate : string; hp_Name : string; hp_Value : string }.

Record BasicExpression := MkBasic {
  be_Has : option HasAttribute;
  be_Value : option HasAttributeValue;
  be_Predicate : option HasAttributePredicate }.

Inductive Condition :=
  | MkCondition (c_Term : Term) (c_And c_Or : option (list Term))
with Term :=
  | MkTerm (t_Not : bool) (t_Basic : option BasicExpression) (t_Sub : option Condition).

Definition Filter := Condition.
Definition Attributes := gmap string string.

(** ** Evaluation *)

Definition HasAttribute_Evaluate (e : HasAttribute) (attrs : Attributes) : outcome bool :=
  Ok (bool_decide (is_Some (attrs !! ha_Name e))).

Definition HasAttributeValue_Evaluate (e : HasAttributeValue) (attrs : Attributes)
  : outcome bool :=
  match attrs !! hv_Name e with
  | None => Ok false
  | Some v =>
      if bool_decide (hv_Op e = OpEqual) then Ok (bool_decide (v = hv_Value e))
      else if bool_decide (hv_Op e = OpNotEqual) then Ok (bool_decide (v ≠ hv_Value e))
      else Err (ErrOther ("invalid Op '" +:+ hv_Op e +:+ "'"))
  end.

(** [strings.HasPrefix(v, prefix)] *)
Fixpoint HasPrefix (v prefix : string) : bool :=
  match prefix, v with
  | EmptyString, _ => true
  | String c prefix, String d v => bool_decide (c = d) && HasPrefix v prefix
  | String _ _, EmptyString => false
  end.

Definition HasAttributePredicate_Evaluate (e : HasAttributePredicate) (attrs : Attributes)
  : outcome bool :=
  match attrs !! hp_Name e with
  | None => Ok false
  | Some v =>
      if bool_decide (hp_Predicate e = PredicateHasPrefix) then Ok (HasPrefix v (hp_Value e))
      else Err (ErrOther ("invalid predicate '" +:+ hp_Predicate e +:+ "'"))
  end.

Definition BasicExpression_Evaluate (e : BasicExpression) (attrs : Attributes)
  : outcome bool :=
  match be_Has e, be_Value e, be_Predicate e with
  | Some h, _, _ => HasAttribute_Evaluate h attrs
  | None, Some v, _ => HasAttributeValue_Evaluate v attrs
  | None, None, Some p => HasAttributePredicate_Evaluate p attrs
  | None, None, None => Err (ErrOther "unpopulated BasicExpression")
  end.

(** The loops of [andTerms] and [orTerms]; [result] is the value of the last term
    evaluated, which the loop returns when it runs out of terms. *)
Definition andLoop (eval : Term → outcome bool) : bool → list Term → outcome bool :=
  fix loop (result : bool) (terms : list Term) : outcome bool :=
    match terms with
    | [] => Ok result
    | t :: terms =>
        match eval t with
        | Ok true => loop true terms
        | other => other
        end
    end.

Definition orLoop (eval : Term → outcome bool) : bool → list Term → outcome bool :=
  fix loop (result : bool) (terms : list Term) : outcome bool :=
    match terms with
    | [] => Ok result
    | t :: terms =>
        match eval t with
        | Ok false => loop false terms
        | other => other
        end
    end.

Definition andTerms (eval : Term → outcome bool) (terms : list Term) : outcome bool :=
  match terms with
  | [] => Err (ErrOther "AND requires a non-empty term list")
  | _ => andLoop eval false terms
  end.

Definition orTerms (eval : Term → outcome bool) (terms : list Term) : outcome bool :=
  match terms with
  | [] => Err (ErrOther "OR requires a non-empty term list")
  | _ => orLoop eval false terms
  end.

Fixpoint Condition_Evaluate (e : Condition) (attrs : Attributes) {struct e} : outcome bool :=
  match e with
  | MkCondition term and or =>
      match Term_Evaluate term attrs with
      | Ok result =>
          match and, or with
          | Some ts, _ => if result then andTerms (λ t, Term_Evaluate t attrs) ts else Ok result
          | None, Some ts => if result then Ok result else orTerms (λ t, Term_Evaluate t attrs) ts
          | None, None => Ok result
          end
      | other => other
      end
  end
with Term_Evaluate (e : Term) (attrs : Attributes) {struct e} : outcome bool :=
  match e with
  | MkTerm not basic sub =>
      (λ result, xorb result not) <$>
        match basic, sub with
        | Some b, _ => BasicExpression_Evaluate b attrs
        | None, Some c => Condition_Evaluate c attrs
        | None, None => Err (ErrOther "unpopulated Term")
        end
  end.

(** ** Printing *)

Definition underscore : ascii := "_"%char.
Definition dquote : ascii := "034"%char.
Definition backslash : ascii := "\"%char.

Definition hex_digit (n : N) : ascii :=
  ascii_of_N (if (n <? 10)%N then 48 + n else 87 + n)%N.

(** The last [n] hexadecimal digits of a number. *)
Fixpoint hex_digits (n : nat) (v : N) : string :=
  match n with
  | O => EmptyString
  | S n => String (hex_digit (v / 16 ^ N.of_nat n mod 16)) (hex_digits n v)
  end.

Definition escape (d : ascii) (digits : string) : string := String backslash (String d digits).

Section Print.
Context {U : Unicode}.

(** The loop of [formatAttrName], over the runes of the name from byte [i]. *)
Fixpoint ident_loop (i : nat) (rs : list rune) : bool :=
  match rs with
  | [] => true
  | r :: rs =>
      let ch := r_value r in
      if (ch =? N_of_ascii underscore)%N || IsLetter ch || IsDigit ch && (0 <? i)%nat
      then ident_loop (i + String.length (r_bytes r)) rs else false
  end.
Definition isIdent (name : string) : bool := ident_loop 0 (runes name).

(** [strconv.Quote]: one rune. *)
Definition appendEscapedRune (r : N) : string :=
  if (r =? N_of_ascii dquote)%N || (r =? N_of_ascii backslash)%N then escape (ascii_of_N r) EmptyString
  else if IsPrint r then AppendRune r
  else if (r =? 7)%N then escape "a"%char EmptyString
  else if (r =? 8)%N then escape "b"%char EmptyString
  else if (r =? 12)%N then escape "f"%char EmptyString
  else if (r =? 10)%N then escape "n"%char EmptyString
  else if (r =? 13)%N then escape "r"%char EmptyString
  else if (r =? 9)%N then escape "t"%char EmptyString
  else if (r =? 11)%N then escape "v"%char EmptyString
  else if (r <? 32)%N || (r =? 127)%N then escape "x"%char (hex_digits 2 r)
  else
    let r := if ValidRune r then r else RuneError in
    if (r <? 65536)%N then escape "u"%char (hex_digits 4 r) else escape "U"%char (hex_digits 8 r).

(** A byte that is not UTF-8 is written in hexadecimal. *)
Definition quote_rune (r : rune) : string :=
  if invalid r then
    escape "x"%char (match r_bytes r with String c _ => hex_digits 2 (N_of_ascii c) | EmptyString => EmptyString end)
  else appendEscapedRune (r_value r).

Definition quote_runes (rs : list rune) : string := foldr (λ r s, quote_rune r +:+ s) EmptyString rs.

Definition Quote (s : string) : string :=
  String dquote (quote_runes (runes s) +:+ String dquote EmptyString).

Definition formatAttrName (name : string) : string :=
  if isIdent name then name else Quote name.

Definition HasAttribute_AsFilter (e : HasAttribute) : string :=
  "attributes:" +:+ formatAttrName (ha_Name e).

Definition HasAttributeValue_AsFilter (e : HasAttributeValue) : string :=
  "attributes." +:+ formatAttrName (hv_Name e) +:+ hv_Op e +:+ Quote (hv_Value e).

Definition HasAttributePredicate_AsFilter (e : HasAttributePredicate) : string :=
  hp_Predicate e +:+ "(attributes." +:+ formatAttrName (hp_Name e) +:+ "," +:+
    Quote (hp_Value e) +:+ ")".

Definition BasicExpression_AsFilter (e : BasicExpression) : outcome string :=
  match be_Has e, be_Value e, be_Predicate e with
  | Some h, _, _ => Ok (HasAttribute_AsFilter h)
  | None, Some v, _ => Ok (HasAttributeValue_AsFilter v)
  | None, None, Some p => Ok (HasAttributePredicate_AsFilter p)
  | None, None, None => Err (ErrOther "unpopulated BasicExpression")
  end.

Definition appendLoop (print : Term → outcome string) (op : string)
  : list Term → outcome string :=
  fix loop (terms : list Term) : outcome string :=
    match terms with
    | [] => Ok EmptyString
    | t :: terms =>
        match print t with
        | Ok s => (λ rest, " " +:+ op +:+ " " +:+ s +:+ rest) <$> loop terms
        | Err e => Err (ErrOther ("error in " +:+ op +:+ " sequence Term"))
        | Panic p => Panic p
        end
    end.

Definition appendTerms (print : Term → outcome string) (op : string) (terms : list Term)
  : outcome string :=
  match terms with
  | [] => Err (ErrOther ("unpopulated " +:+ op +:+ " sequence"))
  | _ => appendLoop print op terms
  end.

Fixpoint Condition_AsFilter (e : Condition) : outcome string :=
  match e with
  | MkCondition term and or =>
      match Term_AsFilter term with
      | Ok s =>
          match and, or with
          | Some ts, _ => (λ rest, s +:+ rest) <$> appendTerms Term_AsFilter OpAND ts
          | None, Some ts => (λ rest, s +:+ rest) <$> appendTerms Term_AsFilter OpOR ts
          | None, None => Ok s
          end
      | other => other
      end
  end
with Term_AsFilter (e : Term) : outcome string :=
  match e with
  | MkTerm not basic sub =>
      (λ s, (if not then "NOT " else EmptyString) +:+ s) <$>
        match basic, sub with
        | Some b, _ => BasicExpression_AsFilter b
        | None, Some c => (λ s, "(" +:+ s +:+ ")") <$> Condition_AsFilter c
        | None, None => Err (ErrOther "unpopulated Term")
        end
  end.

End Print.

(** ** Induction on filters *)

Section Induction.
Context (P : Condition → Prop) (Q : Term → Prop).
Context (HP : ∀ t and or, Q t → from_option (Forall Q) True and →
                          from_option (Forall Q) True or → P (MkCondition t and or)).
Context (HQ : ∀ n b s, from_option P True s → Q (MkTerm n b s)).

Fixpoint Condition_rec' (c : Condition) : P c :=
  let terms := fix terms (ts : list Term) : Forall Q ts :=
    match ts with
    | [] => Forall_nil_2 Q
    | t :: ts => Forall_cons_2 Q t ts (Term_rec' t) (terms ts)
    end in
  let opt (o : option (list Term)) : from_option (Forall Q) True o :=
    match o with None => I | Some ts => terms ts end in
  match c with MkCondition t and or => HP t and or (Term_rec' t) (opt and) (opt or) end
with Term_rec' (t : Term) : Q t :=
  match t with
  | MkTerm n b s => HQ n b s (match s with None => I | Some c => Condition_rec' c end)
  end.

Lemma filter_ind : (∀ c, P c) ∧ (∀ t, Q t).
Proof. split; [exact Condition_rec' | exact Term_rec']. Qed.
End Induction.

(** ** Well-formed filters: what the grammar of the struct tags produces *)

Definition HasAttributeValue_wf (e : HasAttributeValue) : bool :=
  bool_decide (hv_Op e = OpEqual ∨ hv_Op e = OpNotEqual).

Definition BasicExpression_wf (e : BasicExpression) : bool :=
  match be_Has e, be_Value e, be_Predicate e with
  | Some _, None, None => true
  | None, Some v, None => HasAttributeValue_wf v
  | None, None, Some p => bool_decide (hp_Predicate p = PredicateHasPrefix)
  | _, _, _ => false
  end.

Fixpoint Condition_wf (c : Condition) : bool :=
  match c with
  | MkCondition t and or =>
      Term_wf t &&
      match and, or with
      | None, None => true
      | Some ((_ :: _) as ts), None | None, Some ((_ :: _) as ts) => forallb Term_wf ts
      | _, _ => false
      end
  end
with Term_wf (t : Term) : bool :=
  match t with
  | MkTerm _ (Some b) None => BasicExpression_wf b
  | MkTerm _ None (Some c) => Condition_wf c
  | _ => false
  end.

(** ** The meaning of a filter

    A boolean formula over atoms about one attribute each, with no errors and no
    evaluation order. *)

Definition BasicExpression_holds (e : BasicExpression) (attrs : Attributes) : bool :=
  match be_Has e, be_Value e, be_Predicate e with
  | Some h, _, _ => bool_decide (is_Some (attrs !! ha_Name h))
  | None, Some v, _ =>
      match attrs !! hv_Name v with
      | None => false
      | Some x => if bool_decide (hv_Op v = OpEqual) then bool_decide (x = hv_Value v)
                  else bool_decide (x ≠ hv_Value v)
      end
  | None, None, Some p =>
      match attrs !! hp_Name p with
      | None => false
      | Some x => HasPrefix x (hp_Value p)
      end
  | None, None, None => false
  end.

Fixpoint Condition_holds (c : Condition) (attrs : Attributes) {struct c} : bool :=
  match c with
  | MkCondition t and or =>
      match and, or with
      | Some ts, _ => Term_holds t attrs && forallb (λ t, Term_holds t attrs) ts
      | None, Some ts => Term_holds t attrs || existsb (λ t, Term_holds t attrs) ts
      | None, None => Term_holds t attrs
      end
  end
with Term_holds (t : Term) (attrs : Attributes) {struct t} : bool :=
  match t with
  | MkTerm not basic sub =>
      xorb not match basic, sub with
               | Some b, _ => BasicExpression_holds b attrs
               | None, Some c => Condition_holds c attrs
               | None, None => false
               end
  end.

Lemma BasicExpression_Evaluate_holds e attrs :
  BasicExpression_wf e = true →
  BasicExpression_Evaluate e attrs = Ok (BasicExpression_holds e attrs).
Proof.
  unfold BasicExpression_wf, BasicExpression_Evaluate, BasicExpression_holds,
    HasAttribute_Evaluate, HasAttributeValue_Evaluate, HasAttributePredicate_Evaluate,
    HasAttributeValue_wf.
  intros Hwf. repeat case_match; try done; bool_props; naive_solver.
Qed.

Lemma andLoop_holds eval val r ts :
  Forall (λ t, eval t = Ok (val t)) ts →
  andLoop eval r ts = Ok (match ts with [] => r | _ => forallb val ts end).
Proof.
  intros H. revert r. induction H as [|t ts Ht _ IH]; intros r; [done|].
  simpl. rewrite Ht. destruct (val t); [|done]. rewrite IH. by destruct ts.
Qed.

Lemma orLoop_holds eval val r ts :
  Forall (λ t, eval t = Ok (val t)) ts →
  orLoop eval r ts = Ok (match ts with [] => r | _ => existsb val ts end).
Proof.
  intros H. revert r. induction H as [|t ts Ht _ IH]; intros r; [done|].
  simpl. rewrite Ht. destruct (val t); [done|]. rewrite IH. by destruct ts.
Qed.

Lemma Forall_wf_impl (val : Term → Prop) ts :
  Forall (λ t, Term_wf t = true → val t) ts → forallb Term_wf ts = true → Forall val ts.
Proof.
  induction 1 as [|t ts Ht _ IH]; simpl; [constructor|].
  intros [??]%andb_true_iff. constructor; auto.
Qed.

Lemma Evaluate_holds attrs :
  (∀ c, Condition_wf c = true → Condition_Evaluate c attrs = Ok (Condition_holds c attrs)) ∧
  (∀ t, Term_wf t = true → Term_Evaluate t attrs = Ok (Term_holds t attrs)).
Proof.
  apply filter_ind.
  - intros t and or IHt IHand IHor [Hwft Hwf]%andb_true_iff. simpl. rewrite (IHt Hwft).
    destruct and as [[|t' ts]|], or as [[|t'' ts']|]; try done.
    + apply Forall_wf_impl in IHand; [|done].
      destruct (Term_holds t attrs); [|done].
      exact (andLoop_holds _ (λ t, Term_holds t attrs) false (t' :: ts) IHand).
    + apply Forall_wf_impl in IHor; [|done].
      destruct (Term_holds t attrs); [done|].
      exact (orLoop_holds _ (λ t, Term_holds t attrs) false (t'' :: ts') IHor).
  - intros n [b|] [c|] IHs Hwf; try done; simpl in *.
    + rewrite BasicExpression_Evaluate_holds by done. simpl. by rewrite xorb_comm.
    + rewrite (IHs Hwf). simpl. by rewrite xorb_comm.
Qed.

(** C37 Evaluating a well-formed filter never fails, and short-circuiting and
    left-to-right order do not change its meaning: the result is that of the boolean
    formula. *)
Theorem Evaluate_correct c attrs :
  Condition_wf c = true → Condition_Evaluate c attrs = Ok (Condition_holds c attrs).
Proof. apply Evaluate_holds. Qed.

(** [attributes:a AND NOT (attributes.b = "x" OR hasPrefix(attributes.b, "p"))] *)
Definition example_filter : Condition :=
  let has n := MkTerm false (Some (MkBasic (Some (MkHas n)) None None)) None in
  let eq n v := MkTerm false (Some (MkBasic None (Some (MkValue n OpEqual v)) None)) None in
  let pre n v :=
    MkTerm false (Some (MkBasic None None (Some (MkPredicate PredicateHasPrefix n v)))) None in
  MkCondition (has "a")
    (Some [MkTerm true None (Some (MkCondition (eq "b" "x") None (Some [pre "b" "p"])))]) None.

Lemma Evaluate_correct_witness :
  Condition_Evaluate example_filter {[ "a" := "1"; "b" := "y" ]} = Ok true ∧
  Condition_Evaluate example_filter {[ "a" := "1"; "b" := "pq" ]} = Ok false.
Proof.
  split; (etransitivity; [apply Evaluate_correct; vm_compute; reflexivity|]);
    vm_compute; reflexivity.
Defined.

(** ** The attributes a filter reads *)

Definition BasicExpression_names (e : BasicExpression) : list string :=
  match be_Has e with Some h => [ha_Name h] | None => [] end ++
  match be_Value e with Some v => [hv_Name v] | None => [] end ++
  match be_Predicate e with Some p => [hp_Name p] | None => [] end.

Fixpoint Condition_names (c : Condition) : list string :=
  let terms (o : option (list Term)) :=
    match o with Some ts => flat_map Term_names ts | None => [] end in
  match c with MkCondition t and or => Term_names t ++ terms and ++ terms or end
with Term_names (t : Term) : list string :=
  match t with
  | MkTerm _ b s =>
      match b with Some b => BasicExpression_names b | None => [] end ++
      match s with Some c => Condition_names c | None => [] end
  end.

Lemma BasicExpression_Evaluate_agree e (attrs1 attrs2 : Attributes) :
  (∀ n, n ∈ BasicExpression_names e → attrs1 !! n = attrs2 !! n) →
  BasicExpression_Evaluate e attrs1 = BasicExpression_Evaluate e attrs2.
Proof.
  unfold BasicExpression_Evaluate, BasicExpression_names, HasAttribute_Evaluate,
    HasAttributeValue_Evaluate, HasAttributePredicate_Evaluate. intros H.
  repeat case_match; try done; rewrite H in *; simplify_eq; try done; set_solver.
Qed.

Lemma andLoop_agree eval1 eval2 r ts :
  Forall (λ t, eval1 t = eval2 t) ts → andLoop eval1 r ts = andLoop eval2 r ts.
Proof.
  intros H. revert r. induction H as [|t ts Ht _ IH]; intros r; [done|].
  simpl. rewrite Ht. destruct (eval2 t) as [[]| |]; auto.
Qed.

Lemma orLoop_agree eval1 eval2 r ts :
  Forall (λ t, eval1 t = eval2 t) ts → orLoop eval1 r ts = orLoop eval2 r ts.
Proof.
  intros H. revert r. induction H as [|t ts Ht _ IH]; intros r; [done|].
  simpl. rewrite Ht. destruct (eval2 t) as [[]| |]; auto.
Qed.

Lemma Forall_agree (attrs1 attrs2 : Attributes) (R : Term → Prop) ts :
  Forall (λ t, (∀ n, n ∈ Term_names t → attrs1 !! n = attrs2 !! n) → R t) ts →
  (∀ n, n ∈ flat_map Term_names ts → attrs1 !! n = attrs2 !! n) → Forall R ts.
Proof.
  induction 1 as [|t ts Ht _ IH]; simpl; intros Hn; [constructor|].
  constructor; [apply Ht | apply IH]; intros; apply Hn, elem_of_app; auto.
Qed.

Lemma Evaluate_agree (attrs1 attrs2 : Attributes) :
  (∀ c, (∀ n, n ∈ Condition_names c → attrs1 !! n = attrs2 !! n) →
        Condition_Evaluate c attrs1 = Condition_Evaluate c attrs2) ∧
  (∀ t, (∀ n, n ∈ Term_names t → attrs1 !! n = attrs2 !! n) →
        Term_Evaluate t attrs1 = Term_Evaluate t attrs2).
Proof.
  apply filter_ind.
  - intros t and or IHt IHand IHor Hn. simpl in *. rewrite IHt by set_solver.
    destruct and as [[|t' ts]|], or as [[|t'' ts']|]; try done;
      repeat case_match; try done;
      first [apply andLoop_agree | apply orLoop_agree];
      eapply Forall_agree; try done; simpl in *; set_solver.
  - intros n [b|] [c|] IHs Hn; simpl in *; f_equal.
    + apply BasicExpression_Evaluate_agree. set_solver.
    + apply BasicExpression_Evaluate_agree. set_solver.
    + apply IHs. set_solver.
Qed.

(** Whatever filter a subscription holds, well-formed or not, its result
    (errors included) depends only on the attributes the filter names. *)
Theorem Evaluate_local c (attrs1 attrs2 : Attributes) :
  (∀ n, n ∈ Condition_names c → attrs1 !! n = attrs2 !! n) →
  Condition_Evaluate c attrs1 = Condition_Evaluate c attrs2.
Proof. apply Evaluate_agree. Qed.

Lemma Evaluate_local_witness :
  Condition_Evaluate example_filter {[ "a" := "1" ]}
  = Condition_Evaluate example_filter {[ "a" := "1"; "z" := "9" ]}.
Proof.
  apply Evaluate_local. intros n Hn. vm_compute in Hn.
  repeat (apply elem_of_cons in Hn as [->|Hn]; [vm_compute; reflexivity|]).
  by apply elem_of_nil in Hn.
Defined.
