(* ===== verification/FilterParse.v ===== *)
(** * Subscription filters: the grammar read as a parser

    [src/filter/parser.go] and the struct tags of [src/filter/grammar.go].  The tags are
    an EBNF grammar; [ParseString] reads it as the recursive-descent parser the
    participle library builds from it (ordered alternatives, a literal matches a token
    by its value, [Unquote("String")]), over the tokens of Go's [text/scanner]:
    identifiers, double-quoted strings and single characters, each over the runes of the
    text.  Input that is not UTF-8 and the character NUL are errors of the scanner; a byte
    order mark at the start is skipped.  Numbers, raw strings, character literals, comments
    and characters beyond ASCII that are not letters, none of which any rule of the grammar
    accepts, are refused by this lexer.

    [FilterParser] is the interface the rest of the program uses: any parser whose
    results follow the grammar. *)

From S2P Require Import Prelude Utf8 Filter.

Class FilterParser := {
  ParseString : string → option Condition;
  ParseString_wf s c : ParseString s = Some c → Condition_wf c = true }.

(** ** Tokens *)

Inductive token := TIdent (s : string) | TString (s : string) | TChar (c : ascii).

#[export] Instance token_eq_dec : EqDecision token.
Proof. solve_decision. Defined.

Definition token_value (t : token) : string :=
  match t with TIdent s | TString s => s | TChar c => String c EmptyString end.

(** Where the lexer is: between tokens, in an identifier, in a string, after a backslash, or
    at a number of base [base] with [todo] digits to come, which stands for a rune or a byte. *)
Inductive lexmode :=
  | Idle
  | InIdent (acc : string)
  | InString (acc : string)
  | InEscape (acc : string)
  | InDigits (acc : string) (is_rune : bool) (base : N) (todo : nat) (val : N).

Definition space_char (r : N) : bool := ((r =? 32) || (r =? 9) || (r =? 10) || (r =? 13))%N.

(** Characters that start a token this lexer does not read: digits (numbers), quote and
    backquote (characters and raw strings), slash (comments), anything beyond ASCII. *)
Definition other_start (r : N) : bool :=
  (in_range 48 57 r || (r =? 39) || (r =? 96) || (r =? 47) || (128 <=? r))%N.

Definition unescape (r : N) : option ascii :=
  if bool_decide (r = N_of_ascii dquote) then Some dquote
  else if bool_decide (r = N_of_ascii backslash) then Some backslash
  else if bool_decide (r = N_of_ascii "a"%char) then Some "007"%char
  else if bool_decide (r = N_of_ascii "b"%char) then Some "008"%char
  else if bool_decide (r = N_of_ascii "f"%char) then Some "012"%char
  else if bool_decide (r = N_of_ascii "n"%char) then Some "010"%char
  else if bool_decide (r = N_of_ascii "r"%char) then Some "013"%char
  else if bool_decide (r = N_of_ascii "t"%char) then Some "009"%char
  else if bool_decide (r = N_of_ascii "v"%char) then Some "011"%char
  else None.

(** [digitVal]: sixteen for what is no digit. *)
Definition digitVal (r : N) : N :=
  (if in_range 48 57 r then r - 48
   else if in_range 97 102 r then r - 87
   else if in_range 65 70 r then r - 55
   else 16)%N.

(** What the digits of an escape stand for; [strconv.Unquote] refuses what is no rune or no
    byte. *)
Definition unescaped (is_rune : bool) (val : N) : option string :=
  if is_rune then (if ValidRune val then Some (AppendRune val) else None)
  else if (val <? 256)%N then Some (String (ascii_of_N val) EmptyString) else None.

Section Lex.
Context {U : Unicode}.

Definition ident_start (r : N) : bool := (r =? N_of_ascii underscore)%N || IsLetter r.
Definition ident_char (r : N) : bool := ident_start r || IsDigit r.

(** The tokens that end at a rune, and the mode after it. *)
Definition lex_start (r : rune) : option (list token * lexmode) :=
  let v := r_value r in
  if space_char v then Some ([], Idle)
  else if ident_start v then Some ([], InIdent (r_bytes r))
  else if (v =? N_of_ascii dquote)%N then Some ([], InString EmptyString)
  else if other_start v then None
  else Some ([TChar (ascii_of_N v)], Idle).

Definition lex_step (m : lexmode) (r : rune) : option (list token * lexmode) :=
  let v := r_value r in
  if invalid r || (v =? 0)%N then None
  else match m with
  | Idle => lex_start r
  | InIdent acc =>
      if ident_char v then Some ([], InIdent (acc +:+ r_bytes r))
      else prod_map (cons (TIdent acc)) id <$> lex_start r
  | InString acc =>
      if (v =? N_of_ascii dquote)%N then Some ([TString acc], Idle)
      else if (v =? N_of_ascii backslash)%N then Some ([], InEscape acc)
      else if (v =? 10)%N then None
      else Some ([], InString (acc +:+ r_bytes r))
  | InEscape acc =>
      if in_range 48 55 v then Some ([], InDigits acc false 8 2 (v - 48))
      else if (v =? N_of_ascii "x"%char)%N then Some ([], InDigits acc false 16 2 0)
      else if (v =? N_of_ascii "u"%char)%N then Some ([], InDigits acc true 16 4 0)
      else if (v =? N_of_ascii "U"%char)%N then Some ([], InDigits acc true 16 8 0)
      else (λ d, ([], InString (acc +:+ String d EmptyString))) <$> unescape v
  | InDigits acc is_rune base todo val =>
      if (digitVal v <? base)%N then
        let val := (base * val + digitVal v)%N in
        match todo with
        | O | 1%nat => (λ s, ([], InString (acc +:+ s))) <$> unescaped is_rune val
        | S todo => Some ([], InDigits acc is_rune base todo val)
        end
      else None
  end.

Fixpoint lex_runes (m : lexmode) (rs : list rune) : option (list token) :=
  match rs with
  | [] => match m with Idle => Some [] | InIdent acc => Some [TIdent acc] | _ => None end
  | r :: rs =>
      match lex_step m r with
      | None => None
      | Some ([], m) => lex_runes m rs
      | Some (ts, m) => (ts ++.) <$> lex_runes m rs
      end
  end.

Definition lex (m : lexmode) (s : string) : option (list token) := lex_runes m (runes s).

(** The scanner skips a byte order mark at the start. *)
Definition skip_BOM (rs : list rune) : list rune :=
  match rs with r :: rs' => if (r_value r =? 65279)%N then rs' else rs | [] => [] end.
End Lex.

(** ** The rules of the grammar, one function per struct *)

Definition parser (A : Type) : Type := list token → option (A * list token).

(** A literal of the grammar. *)
Definition lit (l : string) : parser () := λ ts,
  match ts with
  | t :: ts => if bool_decide (token_value t = l) then Some ((), ts) else None
  | [] => None
  end.

(** [@(Ident|String)] *)
Definition parse_name : parser string := λ ts,
  match ts with
  | TIdent s :: ts | TString s :: ts => Some (s, ts)
  | _ => None
  end.

(** [@String] *)
Definition parse_string : parser string := λ ts,
  match ts with TString s :: ts => Some (s, ts) | _ => None end.

Definition parse_has : parser HasAttribute := λ ts,
  '(_, ts) ← lit "attributes" ts; '(_, ts) ← lit ":" ts;
  '(n, ts) ← parse_name ts; Some (MkHas n, ts).

(** [@("=" | "!" "=")] *)
Definition parse_op : parser string := λ ts,
  match lit "=" ts with
  | Some (_, ts) => Some (OpEqual, ts)
  | None => '(_, ts) ← lit "!" ts; '(_, ts) ← lit "=" ts; Some (OpNotEqual, ts)
  end.

Definition parse_value : parser HasAttributeValue := λ ts,
  '(_, ts) ← lit "attributes" ts; '(_, ts) ← lit "." ts;
  '(n, ts) ← parse_name ts; '(op, ts) ← parse_op ts;
  '(v, ts) ← parse_string ts; Some (MkValue n op v, ts).

Definition parse_predicate : parser HasAttributePredicate := λ ts,
  '(_, ts) ← lit "hasPrefix" ts; '(_, ts) ← lit "(" ts;
  '(_, ts) ← lit "attributes" ts; '(_, ts) ← lit "." ts;
  '(n, ts) ← parse_name ts; '(_, ts) ← lit "," ts;
  '(v, ts) ← parse_string ts; '(_, ts) ← lit ")" ts;
  Some (MkPredicate PredicateHasPrefix n v, ts).

Definition parse_basic : parser BasicExpression := λ ts,
  match parse_has ts with
  | Some (h, ts) => Some (MkBasic (Some h) None None, ts)
  | None =>
      match parse_value ts with
      | Some (v, ts) => Some (MkBasic None (Some v) None, ts)
      | None => '(p, ts) ← parse_predicate ts; Some (MkBasic None None (Some p), ts)
      end
  end.

(** [@("NOT"|"-")?] *)
Definition parse_not : list token → bool * list token := λ ts,
  match lit "NOT" ts with
  | Some (_, ts) => (true, ts)
  | None => match lit "-" ts with Some (_, ts) => (true, ts) | None => (false, ts) end
  end.

(** [Condition], [Term] and the repetition [( op @@ )+]; [n] bounds the depth. *)
Fixpoint parse_cond (n : nat) (ts : list token) : option (Condition * list token) :=
  match n with
  | O => None
  | S n =>
      '(t, ts) ← parse_term n ts;
      match lit OpAND ts with
      | Some _ => '(l, ts) ← parse_seq n OpAND ts; Some (MkCondition t (Some l) None, ts)
      | None =>
          match lit OpOR ts with
          | Some _ => '(l, ts) ← parse_seq n OpOR ts; Some (MkCondition t None (Some l), ts)
          | None => Some (MkCondition t None None, ts)
          end
      end
  end
with parse_term (n : nat) (ts : list token) : option (Term * list token) :=
  match n with
  | O => None
  | S n =>
      let '(not, ts) := parse_not ts in
      match parse_basic ts with
      | Some (b, ts) => Some (MkTerm not (Some b) None, ts)
      | None =>
          '(_, ts) ← lit "(" ts; '(c, ts) ← parse_cond n ts; '(_, ts) ← lit ")" ts;
          Some (MkTerm not None (Some c), ts)
      end
  end
with parse_seq (n : nat) (op : string) (ts : list token) : option (list Term * list token) :=
  match n with
  | O => None
  | S n =>
      match lit op ts with
      | None => Some ([], ts)
      | Some (_, ts) =>
          '(t, ts) ← parse_term n ts; '(l, ts) ← parse_seq n op ts; Some (t :: l, ts)
      end
  end.

(** The whole input must be consumed. *)
Definition parse_filter {U : Unicode} (s : string) : option Condition :=
  ts ← lex_runes Idle (skip_BOM (runes s));
  match parse_cond (2 * length ts + 2) ts with
  | Some (c, []) => Some c
  | _ => None
  end.

(** ** Results follow the grammar *)

Ltac inv_bind :=
  repeat match goal with
  | H : _ ≫= _ = Some _ |- _ => apply bind_Some in H as (? & ? & H)
  | H : context [match ?x with (_, _) => _ end] |- _ => destruct x
  | H : Some _ = Some _ |- _ => progress simplify_eq
  end; simplify_eq.

Lemma parse_op_wf ts op ts' : parse_op ts = Some (op, ts') → op = OpEqual ∨ op = OpNotEqual.
Proof. unfold parse_op. intros H. case_match; inv_bind; auto. Qed.

Lemma parse_basic_wf ts b ts' : parse_basic ts = Some (b, ts') → BasicExpression_wf b = true.
Proof.
  unfold parse_basic. intros H. case_match; inv_bind; [done|].
  case_match; inv_bind; cbn.
  - unfold parse_value in *. inv_bind. apply bool_decide_eq_true. by eapply parse_op_wf.
  - unfold parse_predicate in *. inv_bind. by apply bool_decide_eq_true.
Qed.

Lemma parse_wf n :
  (∀ ts c ts', parse_cond n ts = Some (c, ts') → Condition_wf c = true) ∧
  (∀ ts t ts', parse_term n ts = Some (t, ts') → Term_wf t = true) ∧
  (∀ op ts l ts', parse_seq n op ts = Some (l, ts') →
     forallb Term_wf l = true ∧ (is_Some (lit op ts) → l ≠ [])).
Proof.
  induction n as [|n (IHc & IHt & IHs)]; [done|]. split_and!.
  - intros ts c ts' H. simpl in H. inv_bind.
    assert (Ht : Term_wf t = true) by eauto.
    destruct (lit OpAND l) eqn:E1; [|destruct (lit OpOR l) eqn:E2]; inv_bind;
      cbn [Condition_wf]; rewrite Ht; [| |done].
    all: match goal with H : parse_seq _ _ _ = _ |- _ => apply IHs in H as [? Hne] end.
    all: destruct l0; [by destruct Hne; eauto | done].
  - intros ts t ts' H. simpl in H. destruct (parse_not ts) as [b ts1].
    destruct (parse_basic ts1) as [[]|] eqn:Hb; inv_bind; cbn [Term_wf];
      eauto using parse_basic_wf.
  - intros op ts l ts' H. simpl in H. destruct (lit op ts) as [[[] ts1]|]; inv_bind.
    + split; [|done]. simpl. apply andb_true_iff. split; [by eapply IHt|]. by eapply IHs.
    + split; [done|]. by intros [? ?].
Qed.

#[export] Program Instance grammar_parser {U : Unicode} : FilterParser := {| ParseString := parse_filter |}.
Next Obligation.
  intros U s c H. unfold parse_filter in H. inv_bind. repeat case_match; simplify_eq.
  by eapply parse_wf.
Qed.

(** ** Printing, then parsing *)

Section Print_parse.
Context {U : Unicode}.

Lemma app_empty_s (s : string) : s +:+ EmptyString = s.
Proof. induction s as [|c s IH]; [done|]. exact (f_equal (String c) IH). Qed.

(** A place where an identifier that was just read ends. *)
Definition delim (rest : string) : Prop :=
  match runes rest with [] => True | r :: _ => ident_char (r_value r) = false end.

Lemma delim_ascii c rest :
  (N_of_ascii c < 128)%N → ident_char (N_of_ascii c) = false → delim (String c rest).
Proof. intros Hc Hi. unfold delim. by rewrite runes_ascii. Qed.

(** Text that starts with a character that ends an identifier. *)
Definition breaks (s : string) : Prop :=
  match s with
  | EmptyString => False
  | String c _ => (N_of_ascii c < 128)%N ∧ ident_char (N_of_ascii c) = false
  end.
Lemma breaks_app s rest : breaks s → delim (s +:+ rest).
Proof. destruct s as [|c s]; [done|]. intros [Hc Hi]. by apply (delim_ascii c (s +:+ rest)). Qed.

(** Reading one ASCII character. *)
Lemma lex_ascii m c rest :
  (N_of_ascii c < 128)%N →
  lex m (String c rest) =
    match lex_step m (MkRune (N_of_ascii c) (String c EmptyString)) with
    | None => None
    | Some ([], m) => lex m rest
    | Some (ts, m) => (ts ++.) <$> lex m rest
    end.
Proof. intros Hc. unfold lex. by rewrite runes_ascii. Qed.

Lemma error_not_ident : ident_char RuneError = false.
Proof.
  unfold ident_char, ident_start, IsLetter, IsDigit, RuneError. simpl.
  by rewrite error_not_letter, error_not_digit.
Qed.
Lemma ident_valid r : ident_char (r_value r) = true → invalid r = false ∧ (r_value r =? 0)%N = false.
Proof.
  intros Hi. unfold invalid. split.
  - destruct (N.eqb_spec (r_value r) RuneError) as [He|]; [|done]. by rewrite He, error_not_ident in Hi.
  - destruct (N.eqb_spec (r_value r) 0) as [He|]; [|done]. by rewrite He in Hi.
Qed.

Lemma lex_ident_rest acc rs rest :
  Forall (λ r, ident_char (r_value r) = true) rs → delim rest →
  lex_runes (InIdent acc) (rs ++ runes rest) = (TIdent (acc +:+ text rs) ::.) <$> lex Idle rest.
Proof.
  intros Hrs Hd. revert acc. induction Hrs as [|r rs Hr _ IH]; intros acc.
  - simpl. rewrite app_empty_s. unfold lex, delim in *. destruct (runes rest) as [|r rs]; [done|].
    cbn [lex_runes]. unfold lex_step. destruct (invalid r || _); [done|]. rewrite Hd.
    destruct (lex_start r) as [[[|t ts] m]|]; simpl; [done| |done]. by destruct (lex_runes m rs).
  - cbn [app lex_runes]. unfold lex_step. destruct (ident_valid r Hr) as [-> ->]. rewrite Hr. simpl.
    rewrite IH. cbn [text foldr]. by rewrite string_app_assoc.
Qed.

(** The loop of [formatAttrName]. *)
Lemma ident_loop_rest i rs : (0 < i)%nat → ident_loop i rs = true →
  Forall (λ r, ident_char (r_value r) = true) rs.
Proof.
  revert i. induction rs as [|r rs IH]; intros i Hi; [done|]. cbn [ident_loop].
  destruct (_ || _) eqn:Hr; [|done]. intros Hl. constructor; [|eapply IH, Hl; lia].
  rewrite (proj2 (Nat.ltb_lt _ _) Hi), andb_true_r in Hr. exact Hr.
Qed.

Lemma lex_ident name rest :
  isIdent name = true → name ≠ EmptyString → delim rest →
  lex Idle (name +:+ rest) = (TIdent name ::.) <$> lex Idle rest.
Proof.
  unfold isIdent. intros Hi Hne Hd.
  destruct name as [|r name Hr Hdec _] using runes_ind; [done|]. rewrite Hr in Hi. cbn [ident_loop] in Hi.
  destruct (_ || _) eqn:Hs in Hi; [|done]. rewrite andb_false_r, orb_false_r in Hs.
  assert (Hc : ident_char (r_value r) = true) by (unfold ident_char, ident_start; by rewrite Hs).
  pose proof (decoded_length r Hdec) as Hlen.
  assert (Hrest : Forall (λ r, ident_char (r_value r) = true) (runes name)) by (eapply ident_loop_rest, Hi; lia).
  destruct (ident_valid r Hc) as [Hv H0]. unfold lex at 1. rewrite runes_app, Hr.
  2:{ rewrite Hr. constructor; [done|]. eapply Forall_impl; [exact Hrest|]. intros r' Hr'. by apply ident_valid. }
  cbn [app lex_runes]. unfold lex_step. rewrite Hv, H0. cbn [orb]. unfold lex_start.
  assert (space_char (r_value r) = false) as ->.
  { destruct (space_char (r_value r)) eqn:Hsp; [|done]. unfold space_char in Hsp.
    rewrite !orb_true_iff, !N.eqb_eq in Hsp. by destruct Hsp as [[[He|He]|He]|He]; rewrite He in Hs. }
  change (ident_start (r_value r)) with ((r_value r =? N_of_ascii underscore)%N || IsLetter (r_value r)).
  rewrite Hs, lex_ident_rest by done. by rewrite text_runes.
Qed.

(** Hexadecimal digits are read back as the number. *)
Lemma hex_digit_read d :
  (d < 16)%N →
  (N_of_ascii (hex_digit d) < 128)%N ∧ digitVal (N_of_ascii (hex_digit d)) = d ∧
  (N_of_ascii (hex_digit d) =? 0)%N = false ∧
  invalid (MkRune (N_of_ascii (hex_digit d)) (String (hex_digit d) EmptyString)) = false.
Proof.
  intros Hd. assert (Hc : d ∈ [0;1;2;3;4;5;6;7;8;9;10;11;12;13;14;15]%N).
  { rewrite !elem_of_cons. lia. }
  repeat (apply elem_of_cons in Hc as [->|Hc]; [by vm_compute|]). by apply elem_of_nil in Hc.
Qed.

Lemma lex_hex acc is_rune n v val rest :
  (0 < n)%nat →
  lex (InDigits acc is_rune 16 n val) (hex_digits n v +:+ rest) =
    match unescaped is_rune (16 ^ N.of_nat n * val + v mod 16 ^ N.of_nat n) with
    | Some s => lex (InString (acc +:+ s)) rest
    | None => None
    end.
Proof.
  revert val. induction n as [|n IH]; intros val Hn; [lia|]. cbn [hex_digits].
  set (d := (v / 16 ^ N.of_nat n mod 16)%N). assert (Hd : (d < 16)%N) by (by apply N.mod_lt).
  change (String ?c ?s +:+ rest) with (String c (s +:+ rest)).
  destruct (hex_digit_read d Hd) as (Hc & Hv & H0 & Hi). rewrite lex_ascii by done.
  unfold lex_step. rewrite Hi. cbn [r_value orb]. rewrite H0, Hv, (proj2 (N.ltb_lt _ _) Hd).
  assert (Hval : (16 ^ N.of_nat (S n) * val + v mod 16 ^ N.of_nat (S n) =
    16 ^ N.of_nat n * (16 * val + d) + v mod 16 ^ N.of_nat n)%N).
  { rewrite Nat2N.inj_succ, N.pow_succ_r', (N.mul_comm 16), N.Div0.mod_mul_r. unfold d. lia. }
  rewrite Hval. destruct n as [|n].
  - change (16 ^ N.of_nat 0)%N with 1%N. rewrite N.mod_1_r, N.mul_1_l, N.add_0_r.
    destruct (unescaped _ _); [done|done].
  - apply IH. lia.
Qed.

Lemma above_not r n : (128 ≤ r)%N → (n < 128)%N → (r =? n)%N = false.
Proof. intros. apply N.eqb_neq. lia. Qed.

(** One rune, quoted and lexed back inside a string. *)
Lemma lex_quote_rune acc r rest :
  decoded r → lex (InString acc) (quote_rune r +:+ rest) = lex (InString (acc +:+ r_bytes r)) rest.
Proof.
  intros Hr. pose proof (decoded_runes r rest Hr) as Hruns. destruct Hr as [c Hc|c Hc|v Hv Hval Hlen _].
  - clear Hruns. destruct c as [[] [] [] [] [] [] [] []]; try (by vm_compute in Hc); reflexivity.
  - clear Hruns. destruct c as [[] [] [] [] [] [] [] []]; try (by vm_compute in Hc); reflexivity.
  - assert (Hinv : invalid (MkRune v (AppendRune v)) = false).
    { unfold invalid. simpl. rewrite (proj2 (Nat.eqb_neq _ 1)) by lia. apply andb_false_r. }
    unfold quote_rune. rewrite Hinv. unfold appendEscapedRune. cbn [r_value r_bytes] in *.
    rewrite !above_not by done. cbn [orb]. destruct (IsPrint v).
    + unfold lex at 1. rewrite Hruns by done. cbn [lex_runes]. unfold lex_step. rewrite Hinv. cbn [r_value orb r_bytes].
      by rewrite !above_not.
    + rewrite (proj2 (N.ltb_ge v 32)) by lia. cbn [orb]. rewrite Hval.
      assert (Hmax : (v ≤ 1114111)%N).
      { unfold ValidRune, MaxRune in Hval. rewrite orb_true_iff, andb_true_iff, !N.ltb_lt, N.leb_le in Hval. lia. }
      assert (Hesc : ∀ c n, (c = "u"%char ∧ n = 4%nat ∨ c = "U"%char ∧ n = 8%nat) → (v < 16 ^ N.of_nat n)%N →
        lex (InString acc) (escape c (hex_digits n v) +:+ rest) = lex (InString (acc +:+ AppendRune v)) rest).
      { intros c n Hcn Hvn. unfold escape.
        change (String ?b (String ?c ?s) +:+ rest) with (String b (String c (s +:+ rest))).
        assert (He : lex (InEscape acc) (String c (hex_digits n v +:+ rest)) =
          lex (InDigits acc true 16 n 0) (hex_digits n v +:+ rest))
          by (destruct Hcn as [[-> ->]|[-> ->]]; by rewrite lex_ascii).
        etransitivity; [by apply lex_ascii|]. etransitivity; [exact He|].
        rewrite lex_hex by lia. rewrite N.mul_0_r, N.add_0_l, N.mod_small by done. cbn [unescaped]. by rewrite Hval. }
      case_match eqn:Hs; apply Hesc; [by left|by apply N.ltb_lt in Hs|by right|]. simpl. lia.
Qed.

Lemma lex_quote_runes acc s rest :
  lex (InString acc) (quote_runes (runes s) +:+ String dquote rest)
  = (TString (acc +:+ s) ::.) <$> lex Idle rest.
Proof.
  revert acc. induction s as [|r s Hr Hd IH] using runes_ind; intros acc.
  - rewrite app_empty_s. by apply lex_ascii.
  - rewrite Hr. cbn [quote_runes foldr]. rewrite string_app_assoc, lex_quote_rune by done.
    rewrite IH. by rewrite string_app_assoc.
Qed.

Lemma lex_quote s rest :
  lex Idle (Quote s +:+ rest) = (TString s ::.) <$> lex Idle rest.
Proof.
  unfold Quote. change (String dquote ?x +:+ rest) with (String dquote (x +:+ rest)).
  rewrite string_app_assoc, lex_ascii by done. exact (lex_quote_runes EmptyString s rest).
Qed.

Definition name_tok (n : string) : token := if isIdent n then TIdent n else TString n.

Lemma lex_name n rest :
  n ≠ EmptyString → delim rest →
  lex Idle (formatAttrName n +:+ rest) = (name_tok n ::.) <$> lex Idle rest.
Proof.
  unfold formatAttrName, name_tok. intros. case_match; [by apply lex_ident | by apply lex_quote].
Qed.

Definition op_toks (op : string) : list token :=
  if bool_decide (op = OpEqual) then [TChar "="%char] else [TChar "!"%char; TChar "="%char].

Definition basic_toks (e : BasicExpression) : list token :=
  match be_Has e, be_Value e, be_Predicate e with
  | Some h, _, _ => [TIdent "attributes"; TChar ":"%char; name_tok (ha_Name h)]
  | None, Some v, _ =>
      [TIdent "attributes"; TChar "."%char; name_tok (hv_Name v)] ++ op_toks (hv_Op v) ++
      [TString (hv_Value v)]
  | None, None, Some p =>
      [TIdent "hasPrefix"; TChar "("%char; TIdent "attributes"; TChar "."%char; name_tok (hp_Name p);
       TChar ","%char; TString (hp_Value p); TChar ")"%char]
  | None, None, None => []
  end.

Definition seq_toks (tt : Term → list token) (op : string) (ts : list Term) : list token :=
  flat_map (λ t, TIdent op :: tt t) ts.

Fixpoint cond_toks (c : Condition) : list token :=
  match c with
  | MkCondition t and or =>
      term_toks t ++
      match and, or with
      | Some ts, _ => seq_toks term_toks OpAND ts
      | None, Some ts => seq_toks term_toks OpOR ts
      | None, None => []
      end
  end
with term_toks (t : Term) : list token :=
  match t with
  | MkTerm not b c =>
      (if not then [TIdent "NOT"] else []) ++
      match b, c with
      | Some b, _ => basic_toks b
      | None, Some c => [TChar "("%char] ++ cond_toks c ++ [TChar ")"%char]
      | None, None => []
      end
  end.

(** Running the lexer over text that was printed: [lexes s ts] says that [s], followed by
    anything that ends an identifier, lexes to [ts] followed by the tokens of the rest. *)
Definition lexes (s : string) (ts : list token) : Prop :=
  ∀ rest, delim rest → lex Idle (s +:+ rest) = (ts ++.) <$> lex Idle rest.

Definition lexes_any (s : string) (ts : list token) : Prop :=
  ∀ rest, lex Idle (s +:+ rest) = (ts ++.) <$> lex Idle rest.

Lemma lexes_any_app s1 ts1 s2 ts2 :
  lexes_any s1 ts1 → lexes s2 ts2 → lexes (s1 +:+ s2) (ts1 ++ ts2).
Proof.
  intros H1 H2 rest Hr. rewrite string_app_assoc, H1, H2 by done.
  destruct (lex Idle rest); simpl; [by rewrite app_assoc | done].
Qed.

Lemma lexes_app s1 ts1 s2 ts2 :
  lexes s1 ts1 → lexes s2 ts2 → breaks s2 → lexes (s1 +:+ s2) (ts1 ++ ts2).
Proof.
  intros H1 H2 Hb rest Hr. rewrite string_app_assoc, H1, H2; [|done|by apply breaks_app].
  destruct (lex Idle rest); simpl; [by rewrite app_assoc | done].
Qed.

Lemma lexes_weaken s ts : lexes_any s ts → lexes s ts.
Proof. intros H rest _. apply H. Qed.

Lemma lexes_empty : lexes EmptyString [].
Proof. intros rest _. change (EmptyString +:+ rest) with rest. by destruct (lex Idle rest). Qed.

Lemma lexes_any_quote s : lexes_any (Quote s) [TString s].
Proof. intros rest. rewrite lex_quote. done. Qed.

Lemma lexes_name n : n ≠ EmptyString → lexes (formatAttrName n) [name_tok n].
Proof. intros Hn rest Hr. by rewrite lex_name. Qed.

Definition punct (c : ascii) : bool :=
  let v := N_of_ascii c in
  negb (space_char v) && negb (ident_start v) && negb (v =? N_of_ascii dquote)%N && negb (other_start v) &&
  negb (v =? 0)%N.

Lemma lexes_any_punct c : punct c = true → lexes_any (String c EmptyString) [TChar c].
Proof.
  unfold punct. rewrite !andb_true_iff, !negb_true_iff. intros [[[[H1 H2] H3] H4] H5] rest.
  change (String c EmptyString +:+ rest) with (String c rest).
  assert (Hc : (N_of_ascii c < 128)%N).
  { unfold other_start in H4. rewrite !orb_false_iff in H4. destruct H4 as [_ H4%N.leb_gt]. lia. }
  rewrite lex_ascii by done. unfold lex_step, lex_start, invalid. cbn [r_value].
  rewrite (proj2 (N.eqb_neq (N_of_ascii c) RuneError)) by (unfold RuneError; lia). cbn [andb orb].
  rewrite H1, H2, H3, H4, H5, ascii_N_embedding. done.
Qed.

Lemma lexes_any_space : lexes_any " " [].
Proof.
  intros rest. change (" " +:+ rest) with (String " " rest). rewrite lex_ascii by done.
  change (lex_step _ _) with (Some (@nil token, Idle)). cbv beta iota. by destruct (lex Idle rest).
Qed.

Lemma lexes_any_app' s1 ts1 s2 ts2 :
  lexes_any s1 ts1 → lexes_any s2 ts2 → lexes_any (s1 +:+ s2) (ts1 ++ ts2).
Proof.
  intros H1 H2 rest. rewrite string_app_assoc, H1, H2.
  destruct (lex Idle rest); simpl; [by rewrite app_assoc | done].
Qed.

(** An identifier followed by text that ends it. *)
Lemma lexes_any_word w s ts :
  isIdent w = true → w ≠ EmptyString → breaks s → lexes_any s ts →
  lexes_any (w +:+ s) (TIdent w :: ts).
Proof.
  intros Hw Hwne Hb Hs rest. rewrite string_app_assoc, lex_ident, Hs; [|done..|by apply breaks_app].
  by destruct (lex Idle rest).
Qed.

Lemma lexes_any_word_punct w c :
  isIdent w = true → w ≠ EmptyString → breaks (String c EmptyString) → punct c = true →
  lexes_any (w +:+ String c EmptyString) [TIdent w; TChar c].
Proof. intros. apply lexes_any_word; try done. by apply lexes_any_punct. Qed.

Lemma lexes_any_op_word w :
  isIdent w = true → w ≠ EmptyString → lexes_any (" " +:+ w +:+ " ") [TIdent w].
Proof.
  intros. apply (lexes_any_app' _ [] _ [_]); [apply lexes_any_space|].
  apply lexes_any_word; try done. apply lexes_any_space.
Qed.

Lemma lexes_has h : ha_Name h ≠ EmptyString →
  lexes (HasAttribute_AsFilter h) (basic_toks (MkBasic (Some h) None None)).
Proof.
  intros. apply (lexes_any_app "attributes:" [TIdent "attributes"; TChar ":"%char]).
  - by apply (lexes_any_word_punct "attributes" ":").
  - by apply lexes_name.
Qed.

Lemma lexes_any_op op : op = OpEqual ∨ op = OpNotEqual → lexes_any op (op_toks op).
Proof.
  intros [->| ->]; [by apply lexes_any_punct|].
  by apply (lexes_any_app' "!" [_] "=" [_]); apply lexes_any_punct.
Qed.

Lemma lexes_value v : HasAttributeValue_wf v = true → hv_Name v ≠ EmptyString →
  lexes (HasAttributeValue_AsFilter v) (basic_toks (MkBasic None (Some v) None)).
Proof.
  intros Hop%bool_decide_eq_true Hn.
  apply (lexes_any_app "attributes." [TIdent "attributes"; TChar "."%char]);
    [by apply (lexes_any_word_punct "attributes" ".")|].
  apply (lexes_app _ [_]); [by apply lexes_name| |by destruct Hop as [->| ->]..].
  apply lexes_any_app; [by apply lexes_any_op|]. apply lexes_weaken, lexes_any_quote.
Qed.

Lemma lexes_predicate p :
  hp_Predicate p = PredicateHasPrefix → hp_Name p ≠ EmptyString →
  lexes (HasAttributePredicate_AsFilter p) (basic_toks (MkBasic None None (Some p))).
Proof.
  intros Hp Hn. unfold HasAttributePredicate_AsFilter. rewrite Hp.
  apply (lexes_any_app (PredicateHasPrefix +:+ "(attributes.")
    [TIdent "hasPrefix"; TChar "("%char; TIdent "attributes"; TChar "."%char]).
  { apply (lexes_any_app' "hasPrefix(" [_; _] "attributes." [_; _]);
      [by apply (lexes_any_word_punct "hasPrefix" "(")
      |by apply (lexes_any_word_punct "attributes" ".")]. }
  apply (lexes_app _ [_]); [by apply lexes_name| |done..].
  apply (lexes_any_app "," [_]); [by apply lexes_any_punct|].
  apply (lexes_any_app _ [_]); [apply lexes_any_quote | by apply lexes_weaken, lexes_any_punct].
Qed.

Lemma lexes_basic b s :
  BasicExpression_wf b = true → (∀ n, n ∈ BasicExpression_names b → n ≠ EmptyString) →
  BasicExpression_AsFilter b = Ok s → lexes s (basic_toks b).
Proof.
  destruct b as [[h|] [v|] [p|]]; try done; unfold BasicExpression_names;
    cbn; intros Hwf Hn [= <-].
  - apply lexes_has. apply Hn. set_solver.
  - apply lexes_value; [done|]. apply Hn. set_solver.
  - apply lexes_predicate; [by apply bool_decide_eq_true in Hwf|]. apply Hn. set_solver.
Qed.

(** Text that starts with a space or a closing parenthesis ends an identifier. *)
Lemma appendLoop_head op ts s :
  appendLoop Term_AsFilter op ts = Ok s → ts ≠ [] → breaks s.
Proof.
  destruct ts as [|t ts]; [done|]. simpl. unfold fmap, outcome_fmap.
  intros H _. repeat case_match; simplify_eq. done.
Qed.

Lemma lexes_seq op ts s :
  op = OpAND ∨ op = OpOR →
  Forall (λ t, ∀ s, Term_AsFilter t = Ok s → lexes s (term_toks t)) ts →
  appendLoop Term_AsFilter op ts = Ok s → lexes s (seq_toks term_toks op ts).
Proof.
  intros Hop Hts. revert s. induction Hts as [|t ts Ht _ IH]; simpl; intros s Hs.
  - simplify_eq. apply lexes_empty.
  - unfold fmap, outcome_fmap in Hs. destruct (Term_AsFilter t) as [st| |] eqn:Est; try done.
    destruct (appendLoop Term_AsFilter op ts) as [sr| |] eqn:Esr; try done. simplify_eq.
    assert (Hopl : lexes_any (" " +:+ op +:+ " ") [TIdent op])
      by (destruct Hop as [->| ->]; by apply lexes_any_op_word).
    replace (" " +:+ op +:+ " " +:+ st +:+ sr) with ((" " +:+ op +:+ " ") +:+ (st +:+ sr))
      by (by rewrite !string_app_assoc).
    apply (lexes_any_app _ [_]); [done|].
    destruct ts as [|t' ts]; [simplify_eq/=; rewrite app_empty_s, app_nil_r; auto|].
    apply lexes_app; [by apply Ht|by apply IH|by eapply appendLoop_head].
Qed.

(** Every attribute name in the filter is non-empty. *)
Definition Condition_named (c : Condition) : Prop :=
  ∀ n, n ∈ Condition_names c → n ≠ EmptyString.
Definition Term_named (t : Term) : Prop := ∀ n, n ∈ Term_names t → n ≠ EmptyString.

Lemma Forall_named (P : Term → Prop) ts :
  Forall (λ t, Term_wf t = true → Term_named t → P t) ts →
  forallb Term_wf ts = true → (∀ n, n ∈ flat_map Term_names ts → n ≠ EmptyString) →
  Forall P ts.
Proof.
  induction 1 as [|t ts Ht _ IH]; simpl; [constructor|].
  intros [??]%andb_true_iff Hn. constructor.
  - apply Ht; [done|]. intros n ?. apply Hn, elem_of_app. by left.
  - apply IH; [done|]. intros n ?. apply Hn, elem_of_app. by right.
Qed.

(** A well-formed condition without the error cases: a first term and one sequence. *)
Inductive cond_shape : Condition → Prop :=
  | shape_one t : cond_shape (MkCondition t None None)
  | shape_and t t' ts : cond_shape (MkCondition t (Some (t' :: ts)) None)
  | shape_or t t' ts : cond_shape (MkCondition t None (Some (t' :: ts))).

Lemma Condition_wf_shape t and or :
  Condition_wf (MkCondition t and or) = true →
  Term_wf t = true ∧ cond_shape (MkCondition t and or) ∧
  from_option (λ ts, forallb Term_wf ts = true) True and ∧
  from_option (λ ts, forallb Term_wf ts = true) True or.
Proof.
  intros [Ht H]%andb_true_iff. split; [done|].
  destruct and as [[|]|], or as [[|]|]; try done; split_and!; try done; constructor.
Qed.

Lemma Condition_AsFilter_seq op t and or ts s :
  (op = OpAND ∧ and = Some ts ∨ op = OpOR ∧ and = None ∧ or = Some ts) → ts ≠ [] →
  Condition_AsFilter (MkCondition t and or) = Ok s →
  ∃ st sr, Term_AsFilter t = Ok st ∧ appendLoop Term_AsFilter op ts = Ok sr ∧ s = st +:+ sr.
Proof.
  intros Hop Hts. simpl. unfold appendTerms, fmap, outcome_fmap.
  destruct ts as [|t' ts]; [done|].
  destruct (Term_AsFilter t) as [st| |]; [|naive_solver..].
  destruct Hop as [[-> ->]|(-> & -> & ->)];
    destruct (appendLoop _ _ _) as [sr| |] eqn:E; intros; simplify_eq; eauto.
Qed.

Lemma lexes_cond_seq op t ts st sr :
  op = OpAND ∨ op = OpOR → ts ≠ [] → lexes st (term_toks t) →
  Forall (λ t, ∀ s, Term_AsFilter t = Ok s → lexes s (term_toks t)) ts →
  appendLoop Term_AsFilter op ts = Ok sr →
  lexes (st +:+ sr) (term_toks t ++ seq_toks term_toks op ts).
Proof.
  intros Hop Hne Hst Hts Hsr. pose proof (appendLoop_head _ _ _ Hsr Hne).
  apply lexes_app; [done| |done]. by apply lexes_seq.
Qed.

Lemma lexes_printed :
  (∀ c, Condition_wf c = true → Condition_named c →
        ∀ s, Condition_AsFilter c = Ok s → lexes s (cond_toks c)) ∧
  (∀ t, Term_wf t = true → Term_named t →
        ∀ s, Term_AsFilter t = Ok s → lexes s (term_toks t)).
Proof.
  apply filter_ind.
  - intros t and or IHt IHand IHor Hwf Hn s Hs.
    apply Condition_wf_shape in Hwf as (Ht & Hshape & Hand & Hor).
    unfold Condition_named in Hn. simpl in Hn.
    assert (Hst : ∀ st, Term_AsFilter t = Ok st → lexes st (term_toks t)).
    { apply IHt; [done|]. intros n ?; apply Hn; set_solver. }
    inversion Hshape as [|? t' ts|? t' ts]; subst.
    + simpl in *. rewrite app_nil_r. destruct (Term_AsFilter t); simplify_eq; auto.
    + apply (Condition_AsFilter_seq OpAND _ _ _ (t' :: ts)) in Hs
        as (st & sr & Hst' & Hsr & ->); [|by left|done].
      apply lexes_cond_seq; auto. apply Forall_named; [done..|].
      intros n ?. apply Hn. set_solver.
    + apply (Condition_AsFilter_seq OpOR _ _ _ (t' :: ts)) in Hs
        as (st & sr & Hst' & Hsr & ->); [|by right|done].
      apply lexes_cond_seq; auto. apply Forall_named; [done..|].
      intros n ?. apply Hn. set_solver.
  - intros not b c IHc Hwf Hn s Hs. unfold Term_named in Hn. simpl in Hs, Hn.
    assert (Hnot : lexes_any (if not then "NOT " else EmptyString) (if not then [TIdent "NOT"] else [])).
    { destruct not; [|intros rest; change (EmptyString +:+ rest) with rest; by destruct (lex Idle rest)].
      apply (lexes_any_word "NOT" " "); try done. apply lexes_any_space. }
    unfold fmap, outcome_fmap in Hs.
    destruct b as [b|], c as [c|]; try done; simpl in *.
    + destruct (BasicExpression_AsFilter b) as [sb| |] eqn:Eb; simplify_eq.
      apply lexes_any_app; [done|]. apply lexes_basic; try done. intros; apply Hn; set_solver.
    + destruct (Condition_AsFilter c) as [sc| |] eqn:Ec; simplify_eq.
      apply lexes_any_app; [done|].
      apply (lexes_any_app "(" [_]); [by apply lexes_any_punct|].
      apply lexes_app; [|by apply lexes_weaken, lexes_any_punct|done..].
      apply IHc; [done| |done]. intros n ?. apply Hn; set_solver.
Qed.

(** ** Parsing the tokens of a printed filter *)

Fixpoint csize (c : Condition) : nat :=
  let seqsize (o : option (list Term)) :=
    match o with Some ts => foldr (λ t n, 1 + tsize t + n)%nat 1%nat ts | None => 0%nat end in
  match c with MkCondition t and or => (1 + tsize t + seqsize and + seqsize or)%nat end
with tsize (t : Term) : nat :=
  match t with MkTerm _ _ s => match s with Some c => (1 + csize c)%nat | None => 1%nat end end.

(** No further term of a sequence: the next token is not [op]. *)
Definition stops (op : string) (ts : list token) : Prop := lit op ts = None.

Lemma parse_basic_toks b rest :
  BasicExpression_wf b = true → parse_basic (basic_toks b ++ rest) = Some (b, rest).
Proof.
  destruct b as [[[h]|] [[n op v]|] [[p n' v']|]]; try done; unfold BasicExpression_wf; cbn;
    intros Hwf.
  - unfold name_tok. by destruct (isIdent h).
  - apply bool_decide_eq_true in Hwf as [Hop|Hop]; simpl in Hop; subst op;
      unfold name_tok; by destruct (isIdent n).
  - apply bool_decide_eq_true in Hwf. simpl in Hwf. subst p.
    unfold name_tok. by destruct (isIdent n').
Qed.

Lemma parse_not_toks (not : bool) b c rest :
  Term_wf (MkTerm not b c) = true →
  parse_not (term_toks (MkTerm not b c) ++ rest)
  = (not, term_toks (MkTerm false b c) ++ rest).
Proof.
  intros H. destruct not; [done|].
  by destruct b as [[[h|] [v|] [p|]]|], c as [c|].
Qed.

Lemma lit_op_toks op t rest : lit op (TIdent op :: t ++ rest) = Some ((), t ++ rest).
Proof. simpl. by rewrite bool_decide_eq_true_2. Qed.

Lemma lit_other op op' rest : op ≠ op' → lit op (TIdent op' :: rest) = None.
Proof. intros. simpl. by rewrite bool_decide_eq_false_2. Qed.

Lemma parse_seq_toks op ts n rest :
  Forall (λ t, ∀ n rest, (tsize t ≤ n)%nat → parse_term n (term_toks t ++ rest) = Some (t, rest)) ts →
  (foldr (λ t n, 1 + tsize t + n)%nat 1%nat ts ≤ n)%nat → stops op rest →
  parse_seq n op (seq_toks term_toks op ts ++ rest) = Some (ts, rest).
Proof.
  intros Hts. revert n. induction Hts as [|t ts Ht _ IH]; intros n Hn Hstop.
  - destruct n as [|n]; [simpl in Hn; lia|]. simpl. unfold stops in Hstop. by rewrite Hstop.
  - destruct n as [|n]; cbn [foldr] in Hn; [lia|].
    change (seq_toks term_toks op (t :: ts)) with (TIdent op :: term_toks t ++ seq_toks term_toks op ts).
    rewrite <- app_comm_cons, <- app_assoc. cbn [parse_seq].
    rewrite (lit_op_toks op (term_toks t)). simpl. rewrite Ht by lia. simpl.
    rewrite IH; [done|lia|done].
Qed.

Lemma parse_printed :
  (∀ c, Condition_wf c = true → ∀ n rest, (csize c ≤ n)%nat →
        stops OpAND rest → stops OpOR rest → parse_cond n (cond_toks c ++ rest) = Some (c, rest)) ∧
  (∀ t, Term_wf t = true → ∀ n rest, (tsize t ≤ n)%nat →
        parse_term n (term_toks t ++ rest) = Some (t, rest)).
Proof.
  apply filter_ind.
  - intros t and or IHt IHand IHor Hwf n rest Hn HA HO.
    apply Condition_wf_shape in Hwf as (Ht & Hshape & Hand & Hor).
    assert (Hts : ∀ ts, Forall (λ t, Term_wf t = true → ∀ n rest, (tsize t ≤ n)%nat →
        parse_term n (term_toks t ++ rest) = Some (t, rest)) ts → forallb Term_wf ts = true →
      Forall (λ t, ∀ n rest, (tsize t ≤ n)%nat →
        parse_term n (term_toks t ++ rest) = Some (t, rest)) ts).
    { intros ts Hall Hwf. eapply Forall_wf_impl; [|done]. done. }
    destruct n as [|n]; [simpl in Hn; lia|].
    inversion Hshape as [|? t' ts|? t' ts]; subst; cbn [cond_toks]; rewrite <- app_assoc;
      cbn [parse_cond]; rewrite IHt by (done || (simpl in Hn; lia)).
    + simpl. unfold stops in *. by rewrite HA, HO.
    + cbn [mbind option_bind]. cbn [seq_toks flat_map app].
      rewrite <- app_assoc. rewrite (lit_op_toks OpAND (term_toks t')).
      pose proof (parse_seq_toks OpAND (t' :: ts) n rest (Hts _ IHand Hand)) as Hseq.
      cbn [seq_toks flat_map app] in Hseq. rewrite <- app_assoc in Hseq.
      rewrite Hseq; [done| |done]. simpl in Hn |- *. lia.
    + cbn [mbind option_bind]. cbn [seq_toks flat_map app].
      rewrite <- app_assoc. rewrite (lit_other OpAND OpOR) by done.
      rewrite (lit_op_toks OpOR (term_toks t')).
      pose proof (parse_seq_toks OpOR (t' :: ts) n rest (Hts _ IHor Hor)) as Hseq.
      cbn [seq_toks flat_map app] in Hseq. rewrite <- app_assoc in Hseq.
      rewrite Hseq; [done| |done]. simpl in Hn |- *. lia.
  - intros not b c IHc Hwf n rest Hn. destruct n as [|n]; [destruct c; simpl in Hn; lia|].
    cbn [parse_term]. rewrite parse_not_toks by done.
    destruct b as [b|], c as [c|]; try done.
    + cbn [term_toks]. rewrite app_nil_l, parse_basic_toks by done. done.
    + cbn [term_toks]. rewrite app_nil_l.
      assert (Hp : parse_basic (([TChar "("%char] ++ cond_toks c ++ [TChar ")"%char]) ++ rest) = None)
        by done.
      rewrite Hp. rewrite <- !app_assoc. simpl. rewrite IHc; [done|done|simpl in Hn; lia|done|done].
Qed.

Lemma basic_toks_length b : BasicExpression_wf b = true → (3 ≤ length (basic_toks b))%nat.
Proof.
  destruct b as [[h|] [v|] [p|]]; try done; unfold basic_toks; cbn; intros; try lia.
Qed.

Lemma seq_toks_size op ts :
  Forall (λ t, (tsize t + 2 ≤ 2 * length (term_toks t))%nat) ts →
  (foldr (λ t n, 1 + tsize t + n) 1 ts ≤ 1 + 2 * length (seq_toks term_toks op ts))%nat.
Proof.
  induction 1 as [|t ts Ht _ IH]; [simpl; lia|].
  cbn [foldr seq_toks flat_map length app]. rewrite length_app.
  change (flat_map (λ t, TIdent op :: term_toks t) ts) with (seq_toks term_toks op ts). lia.
Qed.

(** The fuel [parse_filter] starts with is enough for every printed filter. *)
Lemma printed_size :
  (∀ c, Condition_wf c = true → (csize c ≤ 2 * length (cond_toks c))%nat) ∧
  (∀ t, Term_wf t = true → (tsize t + 2 ≤ 2 * length (term_toks t))%nat).
Proof.
  apply filter_ind.
  - intros t and or IHt IHand IHor Hwf.
    apply Condition_wf_shape in Hwf as (Ht & Hshape & Hand & Hor). specialize (IHt Ht).
    inversion Hshape as [|? t' ts|? t' ts]; subst; cbn [csize cond_toks]; rewrite length_app.
    + simpl. lia.
    + pose proof (seq_toks_size OpAND (t' :: ts) (Forall_wf_impl _ _ IHand Hand)). lia.
    + pose proof (seq_toks_size OpOR (t' :: ts) (Forall_wf_impl _ _ IHor Hor)). lia.
  - intros not b c IHc Hwf. destruct b as [b|], c as [c|]; try done; cbn [tsize term_toks].
    + rewrite length_app. pose proof (basic_toks_length b Hwf). lia.
    + rewrite !length_app. simpl in *. specialize (IHc Hwf). destruct not; simpl; lia.
Qed.

Lemma appendLoop_total (print : Term → outcome string) op ts :
  Forall (λ t, ∃ s, print t = Ok s) ts → ∃ s, appendLoop print op ts = Ok s.
Proof.
  induction 1 as [|t ts [s Hs] _ [sr IH]]; [by eexists|]. simpl. rewrite Hs, IH. by eexists.
Qed.

Lemma AsFilter_total :
  (∀ c, Condition_wf c = true → ∃ s, Condition_AsFilter c = Ok s) ∧
  (∀ t, Term_wf t = true → ∃ s, Term_AsFilter t = Ok s).
Proof.
  apply filter_ind.
  - intros t and or IHt IHand IHor Hwf.
    apply Condition_wf_shape in Hwf as (Ht & Hshape & Hand & Hor).
    destruct (IHt Ht) as [st Hst]. cbn [Condition_AsFilter]. rewrite Hst.
    inversion Hshape as [|? t' ts|? t' ts]; subst; [by eexists|..].
    + destruct (appendLoop_total _ OpAND _ (Forall_wf_impl _ _ IHand Hand)) as [sr Hsr].
      unfold appendTerms. rewrite Hsr. by eexists.
    + destruct (appendLoop_total _ OpOR _ (Forall_wf_impl _ _ IHor Hor)) as [sr Hsr].
      unfold appendTerms. rewrite Hsr. by eexists.
  - intros not b c IHc Hwf. destruct b as [b|], c as [c|]; try done; cbn [Term_AsFilter].
    + destruct b as [[h|] [v|] [p|]]; try done; by eexists.
    + destruct (IHc Hwf) as [s ->]. by eexists.
Qed.

(** Text that is lexed starts with no byte order mark. *)
Lemma lex_no_mark s ts : lex Idle s = Some ts → skip_BOM (runes s) = runes s.
Proof.
  unfold lex. destruct (runes s) as [|r rs]; [done|]. unfold skip_BOM. destruct (N.eqb_spec (r_value r) 65279) as [He|]; [|done].
  cbn [lex_runes]. unfold lex_step, lex_start, ident_start, IsLetter. rewrite He.
  change (65279 <? 128)%N with false. cbn [N.eqb]. rewrite mark_not_letter. by destruct (invalid r).
Qed.

(** C38 Every well-formed filter whose attribute names are not empty prints,
    and the grammar reads the printed text back as the same filter: the fuel is enough,
    quoting and unquoting of names and values cancel, and parentheses are kept. *)
Theorem AsFilter_parse_roundtrip c :
  Condition_wf c = true → Condition_named c →
  ∃ s, Condition_AsFilter c = Ok s ∧ parse_filter s = Some c.
Proof.
  intros Hwf Hn. destruct (proj1 AsFilter_total c Hwf) as [s Hs]. exists s. split; [done|].
  pose proof (proj1 lexes_printed c Hwf Hn s Hs EmptyString I) as Hlex.
  rewrite app_empty_s in Hlex. change (lex Idle EmptyString) with (Some (@nil token)) in Hlex.
  cbn [fmap option_fmap option_map] in Hlex. rewrite app_nil_r in Hlex.
  unfold parse_filter. rewrite (lex_no_mark _ _ Hlex). unfold lex in Hlex. rewrite Hlex.
  cbn [mbind option_bind]. pose proof (proj1 printed_size c Hwf).
  pose proof (proj1 parse_printed c Hwf (2 * length (cond_toks c) + 2)%nat [] ltac:(lia) eq_refl eq_refl) as Hp.
  rewrite app_nil_r in Hp. by rewrite Hp.
Qed.

(** The filter [attributes:] followed by an empty quoted name. *)
Definition empty_name_filter : Condition :=
  MkCondition (MkTerm false (Some (MkBasic (Some (MkHas EmptyString)) None None)) None) None None.

(** The empty name is the exception: the grammar accepts a filter on the
    empty attribute name, but [formatAttrName] prints that name unquoted, as nothing, and
    the printed filter no longer parses. *)
Theorem AsFilter_empty_name :
  parse_filter ("attributes:" +:+ Quote EmptyString) = Some empty_name_filter ∧
  Condition_AsFilter empty_name_filter = Ok "attributes:" ∧
  parse_filter "attributes:" = None.
Proof. by vm_compute. Qed.
End Print_parse.

#[export] Existing Instance latin1.

(** A filter on [été] (letters beyond ASCII), and on an attribute whose name is no identifier,
    with a value of a quote, a newline, a byte that is not UTF-8, a zero-width space and an
    emoji. *)
Definition unicode_filter : Condition :=
  let name := of_bytes [195; 169; 116; 195; 169]%N in
  let value := of_bytes [34; 10; 255; 226; 128; 139; 240; 159; 152; 128]%N in
  MkCondition (MkTerm false (Some (MkBasic (Some (MkHas name)) None None)) None)
    (Some [MkTerm true (Some (MkBasic None (Some (MkValue "x-y" OpNotEqual value)) None)) None]) None.

Lemma AsFilter_parse_roundtrip_witness :
  ∃ s, Condition_AsFilter unicode_filter = Ok s ∧ parse_filter s = Some unicode_filter.
Proof.
  apply AsFilter_parse_roundtrip; [vm_compute; reflexivity|].
  intros n Hn. vm_compute in Hn.
  repeat (apply elem_of_cons in Hn as [->|Hn]; [discriminate|]). by apply elem_of_nil in Hn.
Defined.

Example parse_example :
  match Condition_AsFilter example_filter with Ok s => parse_filter s | _ => None end
  = Some example_filter.
Proof. vm_compute. reflexivity. Qed.
Example print_unicode :
  Condition_AsFilter unicode_filter =
    Ok ("attributes:" +:+ of_bytes [195; 169; 116; 195; 169]%N +:+ " AND NOT attributes." +:+
        String dquote ("x-y" +:+ String dquote ("!=" +:+ String dquote
          ("\" +:+ String dquote ("\n\xff\u200b\U0001f600" +:+ String dquote EmptyString))))).
Proof. vm_compute. reflexivity. Qed.

