(* ===== verification/Quote.v ===== *)
(** * Quoting for PostgreSQL

    [src/db/postgres/quote.go]: identifiers, strings and bytes in the text of a statement, and how
    the server reads them.  A Go string or slice of bytes is the string of its bytes. *)

From S2P Require Import Prelude Filter FilterParse.

(** ** Quoting *)

Definition dquote : ascii := "034".
Definition squote : ascii := "'".

(** [strings.ReplaceAll(s, q, q + q)] for a single character *)
Fixpoint double (q : ascii) (s : string) : string :=
  match s with
  | EmptyString => EmptyString
  | String c s => if decide (c = q) then String q (String q (double q s)) else String c (double q s)
  end.
Definition quoted (q : ascii) (s : string) : string := String q (double q s +:+ String q EmptyString).
Definition QuoteIdentifier (s : string) : string := quoted dquote s.
Definition QuoteString (str : string) : string := quoted squote str.

(** [hex.EncodeToString] *)
Fixpoint EncodeToString (buf : string) : string :=
  match buf with
  | EmptyString => EmptyString
  | String c buf =>
      let n := N_of_ascii c in String (hex_digit (n / 16)) (String (hex_digit (n mod 16)) (EncodeToString buf))
  end.
Definition QuoteBytes (buf : string) : string :=
  String squote (String backslash (String "x" (EncodeToString buf +:+ String squote EmptyString))).

Definition hex_value (c : ascii) : option N :=
  let d := digitVal (N_of_ascii c) in if (d <? 16)%N then Some d else None.

(** How the server reads a quoted text: up to a quote that is not doubled. *)
Fixpoint read_quoted (q : ascii) (s : string) : option (string * string) :=
  match s with
  | EmptyString => None
  | String c s =>
      if decide (c = q) then
        match s with
        | String c' s' =>
            if decide (c' = q) then (λ '(l, r), (String q l, r)) <$> read_quoted q s' else Some (EmptyString, s)
        | EmptyString => Some (EmptyString, EmptyString)
        end
      else (λ '(l, r), (String c l, r)) <$> read_quoted q s
  end.

(** How it reads the text as a [bytea]: two hexadecimal digits for every byte. *)
Fixpoint read_hex (s : string) : option string :=
  match s with
  | EmptyString => Some EmptyString
  | String h (String l s) =>
      hex_value h ≫= λ h, hex_value l ≫= λ l, String (ascii_of_N (16 * h + l)) <$> read_hex s
  | _ => None
  end.
Definition read_bytea (s : string) : option string :=
  match s with
  | String c (String x s) => if decide (c = backslash ∧ x = "x"%char) then read_hex s else None
  | _ => None
  end.

(** ** Quoted texts are read back *)

Lemma read_double q s rest :
  (∀ r, rest ≠ String q r) → read_quoted q (double q s +:+ String q rest) = Some (s, rest).
Proof.
  intros Hrest. induction s as [|c s IH].
  - change (double q EmptyString +:+ String q rest) with (String q rest). simpl. rewrite decide_True by done.
    destruct rest as [|c r]; [done|]. rewrite decide_False; [done|]. intros ->. by eapply Hrest.
  - cbn [double]. case_decide as Hc.
    + subst c. change (String q (String q (double q s)) +:+ String q rest)
        with (String q (String q (double q s +:+ String q rest))). cbn [read_quoted].
      rewrite !decide_True by done. by rewrite IH.
    + change (String c (double q s) +:+ String q rest) with (String c (double q s +:+ String q rest)).
      cbn [read_quoted]. rewrite decide_False by done. by rewrite IH.
Qed.

Lemma quoted_read q s rest :
  (∀ r, rest ≠ String q r) → ∃ body, quoted q s +:+ rest = String q body ∧ read_quoted q body = Some (s, rest).
Proof.
  intros Hq. exists (double q s +:+ String q rest). split; [|by apply read_double].
  unfold quoted. clear. induction (double q s) as [|c t IH]; [done|].
  change (String c t +:+ String q EmptyString) with (String c (t +:+ String q EmptyString)).
  injection IH as IH. change (String q (String c (t +:+ String q EmptyString)) +:+ rest)
    with (String q (String c ((t +:+ String q EmptyString) +:+ rest))). rewrite IH. done.
Qed.

(** What [QuoteIdentifier] and [QuoteString] quote, whatever characters it has, is
    read by the server as exactly that text, and what follows it in the statement is left as it
    was: no text can end its quotes early. *)
Theorem quote_roundtrip s rest :
  (∀ r, rest ≠ String dquote r) → (∀ r, rest ≠ String squote r) →
  (∃ body, QuoteIdentifier s +:+ rest = String dquote body ∧ read_quoted dquote body = Some (s, rest)) ∧
  (∃ body, QuoteString s +:+ rest = String squote body ∧ read_quoted squote body = Some (s, rest)).
Proof. intros Hd Hs. split; by apply quoted_read. Qed.

(** ** Bytes are read back *)

Lemma hex_digit_value n : (n < 16)%N → hex_value (hex_digit n) = Some n ∧ hex_digit n ≠ squote.
Proof.
  intros Hn. assert (Hc : n ∈ [0;1;2;3;4;5;6;7;8;9;10;11;12;13;14;15]%N).
  { rewrite !elem_of_cons. lia. }
  repeat (apply elem_of_cons in Hc as [->|Hc]; [by vm_compute|]). by apply elem_of_nil in Hc.
Qed.

Lemma nibbles c : (N_of_ascii c / 16 < 16)%N ∧ (N_of_ascii c mod 16 < 16)%N.
Proof.
  pose proof (N_ascii_bounded c). split; [|by apply N.mod_lt]. apply N.Div0.div_lt_upper_bound. lia.
Qed.

Lemma read_encoded buf : read_hex (EncodeToString buf) = Some buf.
Proof.
  induction buf as [|c buf IH]; [done|]. cbn [EncodeToString read_hex]. destruct (nibbles c) as [Hh Hl].
  destruct (hex_digit_value _ Hh) as [-> _], (hex_digit_value _ Hl) as [-> _]. simpl. rewrite IH. simpl.
  rewrite <- (N.div_mod' (N_of_ascii c) 16), ascii_N_embedding. done.
Qed.

Lemma double_encoded buf : double squote (EncodeToString buf) = EncodeToString buf.
Proof.
  induction buf as [|c buf IH]; [done|]. cbn [EncodeToString double]. destruct (nibbles c) as [Hh Hl].
  destruct (hex_digit_value _ Hh) as [_ H1], (hex_digit_value _ Hl) as [_ H2].
  rewrite !decide_False by done. by rewrite IH.
Qed.

(** Quoted bytes are the string the bytes are written as in hexadecimal. *)
Lemma QuoteBytes_quoted buf : QuoteBytes buf = QuoteString (String backslash (String "x" (EncodeToString buf))).
Proof.
  unfold QuoteBytes, QuoteString, quoted. cbn [double]. rewrite !decide_False by done. by rewrite double_encoded.
Qed.

(** Any bytes are read back by the server as they were. *)
Theorem QuoteBytes_roundtrip buf rest :
  (∀ r, rest ≠ String squote r) →
  ∃ body text, QuoteBytes buf +:+ rest = String squote body ∧
    read_quoted squote body = Some (text, rest) ∧ read_bytea text = Some buf.
Proof.
  intros Hr. rewrite QuoteBytes_quoted. destruct (quoted_read squote (String backslash (String "x" (EncodeToString buf))) rest Hr) as (body & Hb & Hq).
  exists body, (String backslash (String "x" (EncodeToString buf))). split; [done|]. split; [done|]. cbn [read_bytea].
  rewrite decide_True by done. apply read_encoded.
Qed.

(** ** Witness *)

Lemma quote_roundtrip_witness :
  ∃ body, QuoteString "it's" +:+ ", 1" = String squote body ∧ read_quoted squote body = Some ("it's", ", 1").
Proof. apply (quote_roundtrip "it's" ", 1"); intros r; discriminate. Defined.
