(* ===== verification/Schema.v ===== *)
(** * The entities

    [src/ent/schema/message-bus.go]: the five entity types with the fields of their
    schemas, and the mutation hook [checkLiveOrDeleted].  A nillable column is an
    [option]; JSON payloads are the bytes of the text the column holds. *)

From S2P Require Import Prelude Uuid Filter.

Definition labels := gmap string string.

Record topic := MkTopic {
  t_id : uuid; t_name : string; t_createdAt : time; t_live : option bool;
  t_deletedAt : option time; t_labels : labels }.

Record subscription := MkSubscription {
  s_id : uuid; s_topicID : uuid; s_name : string; s_createdAt : time; s_expiresAt : time;
  s_live : option bool; s_deletedAt : option time; s_ttl : duration; s_messageTTL : duration;
  s_orderedDelivery : bool; s_labels : labels;
  s_minBackoff : option duration; s_maxBackoff : option duration;
  s_pushEndpoint : option string; s_messageFilter : option string;
  s_maxDeliveryAttempts : option Z; s_deadLetterTopicID : option uuid;
  s_deliveryDelay : duration }.

Record message := MkMessage {
  m_id : uuid; m_topicID : uuid; m_payload : string; m_attributes : Attributes;
  m_publishedAt : time; m_orderKey : option string }.

Record delivery := MkDelivery {
  d_id : uuid; d_messageID : uuid; d_subscriptionID : uuid; d_publishedAt : time;
  d_attemptAt : time; d_lastAttemptedAt : option time; d_attempts : Z;
  d_completedAt : option time; d_expiresAt : time; d_notBeforeID : option uuid }.

Record snapshot := MkSnapshot {
  n_id : uuid; n_topicID : uuid; n_name : string; n_createdAt : time; n_expiresAt : time;
  n_labels : labels; n_ackedMessagesBefore : time; n_ackedMessageIDs : list uuid }.

#[export] Instance topic_eq_dec : EqDecision topic.
Proof. solve_decision. Defined.
#[export] Instance subscription_eq_dec : EqDecision subscription.
Proof. solve_decision. Defined.
#[export] Instance message_eq_dec : EqDecision message.
Proof. solve_decision. Defined.
#[export] Instance delivery_eq_dec : EqDecision delivery.
Proof. solve_decision. Defined.
#[export] Instance snapshot_eq_dec : EqDecision snapshot.
Proof. solve_decision. Defined.

(** ** Field updates *)

Definition topic_deleted (at_ : time) (t : topic) : topic :=
  MkTopic (t_id t) (t_name t) (t_createdAt t) None (Some at_) (t_labels t).
Definition topic_set_labels (l : labels) (t : topic) : topic :=
  MkTopic (t_id t) (t_name t) (t_createdAt t) (t_live t) (t_deletedAt t) l.

Definition sub_deleted (at_ : time) (s : subscription) : subscription :=
  MkSubscription (s_id s) (s_topicID s) (s_name s) (s_createdAt s) (s_expiresAt s) None (Some at_)
    (s_ttl s) (s_messageTTL s) (s_orderedDelivery s) (s_labels s) (s_minBackoff s) (s_maxBackoff s)
    (s_pushEndpoint s) (s_messageFilter s) (s_maxDeliveryAttempts s) (s_deadLetterTopicID s)
    (s_deliveryDelay s).
Definition sub_set_expiresAt (at_ : time) (s : subscription) : subscription :=
  MkSubscription (s_id s) (s_topicID s) (s_name s) (s_createdAt s) at_ (s_live s) (s_deletedAt s)
    (s_ttl s) (s_messageTTL s) (s_orderedDelivery s) (s_labels s) (s_minBackoff s) (s_maxBackoff s)
    (s_pushEndpoint s) (s_messageFilter s) (s_maxDeliveryAttempts s) (s_deadLetterTopicID s)
    (s_deliveryDelay s).
Definition sub_set_deadLetterTopicID (i : option uuid) (s : subscription) : subscription :=
  MkSubscription (s_id s) (s_topicID s) (s_name s) (s_createdAt s) (s_expiresAt s) (s_live s)
    (s_deletedAt s) (s_ttl s) (s_messageTTL s) (s_orderedDelivery s) (s_labels s) (s_minBackoff s)
    (s_maxBackoff s) (s_pushEndpoint s) (s_messageFilter s) (s_maxDeliveryAttempts s) i
    (s_deliveryDelay s).

Definition del_set_completedAt (at_ : option time) (d : delivery) : delivery :=
  MkDelivery (d_id d) (d_messageID d) (d_subscriptionID d) (d_publishedAt d) (d_attemptAt d)
    (d_lastAttemptedAt d) (d_attempts d) at_ (d_expiresAt d) (d_notBeforeID d).
Definition del_set_attemptAt (at_ : time) (d : delivery) : delivery :=
  MkDelivery (d_id d) (d_messageID d) (d_subscriptionID d) (d_publishedAt d) at_
    (d_lastAttemptedAt d) (d_attempts d) (d_completedAt d) (d_expiresAt d) (d_notBeforeID d).
Definition del_set_expiresAt (at_ : time) (d : delivery) : delivery :=
  MkDelivery (d_id d) (d_messageID d) (d_subscriptionID d) (d_publishedAt d) (d_attemptAt d)
    (d_lastAttemptedAt d) (d_attempts d) (d_completedAt d) at_ (d_notBeforeID d).
Definition del_set_notBeforeID (i : option uuid) (d : delivery) : delivery :=
  MkDelivery (d_id d) (d_messageID d) (d_subscriptionID d) (d_publishedAt d) (d_attemptAt d)
    (d_lastAttemptedAt d) (d_attempts d) (d_completedAt d) (d_expiresAt d) i.
(** [SetLastAttemptedAt(now).AddAttempts(1).SetAttemptAt(at_)] *)
Definition del_attempted (now at_ : time) (d : delivery) : delivery :=
  MkDelivery (d_id d) (d_messageID d) (d_subscriptionID d) (d_publishedAt d) at_
    (Some now) (d_attempts d + 1) (d_completedAt d) (d_expiresAt d) (d_notBeforeID d).

(** [HasFullDeadLetterConfig] of [src/ent/entity-addons.go]. *)
Definition HasFullDeadLetterConfig (s : subscription) : bool :=
  match s_maxDeliveryAttempts s, s_deadLetterTopicID s with
  | Some n, Some _ => 0 <? n
  | _, _ => false
  end.

(** ** The live / deleted hook

    A create or update mutation, restricted to the two columns the hook looks at: a
    column may be set, cleared, or left alone. *)

Inductive column_change (A : Type) := Keep | Set_ (a : A) | Clear.
Arguments Keep {A}.
Arguments Set_ {A} a.
Arguments Clear {A}.

Inductive mutation_op := OpCreate | OpUpdate | OpDelete.
Record mutation := MkMutation {
  mu_op : mutation_op; mu_live : column_change bool; mu_deletedAt : column_change time }.

Definition is_set {A} (c : column_change A) : bool := match c with Set_ _ => true | _ => false end.
Definition is_clear {A} (c : column_change A) : bool := match c with Clear => true | _ => false end.

Definition checkLiveOrDeleted (m : mutation) : option error :=
  match mu_op m with
  | OpDelete => None
  | _ =>
    let live := match mu_live m with Set_ l => Some l | _ => None end in
    let clearedLive := is_clear (mu_live m) in
    let setDeletedAt := is_set (mu_deletedAt m) in
    let clearedDeletedAt := is_clear (mu_deletedAt m) ||
      (negb setDeletedAt && negb (is_clear (mu_deletedAt m)) &&
       match mu_op m with OpCreate => true | _ => false end) in
    if bool_decide (live = Some false) then
      Some (ErrOther "live can only be set to null or true, not false")
    else if setDeletedAt && negb clearedLive then
      Some (ErrOther "live must be cleared when setting deletedAt")
    else if clearedLive && negb setDeletedAt then
      Some (ErrOther "deletedAt must be set when clearing live")
    else if clearedDeletedAt && negb (bool_decide (live = Some true)) then
      Some (ErrOther "live must be set true when clearing deletedAt")
    else if bool_decide (live = Some true) && negb clearedDeletedAt then
      Some (ErrOther "deletedAt must be cleared when setting live true")
    else None
  end.

Definition change {A} (c : column_change A) (old : option A) : option A :=
  match c with Keep => old | Set_ a => Some a | Clear => None end.

(** The check constraint of [migrations/message-bus/0012_live_unique.up.sql]. *)
Definition live_ok (live : option bool) (deletedAt : option time) : Prop :=
  (live = Some true ∧ deletedAt = None) ∨ (live = None ∧ is_Some deletedAt).
#[export] Instance live_ok_dec l d : Decision (live_ok l d).
Proof. unfold live_ok. apply _. Defined.

(** The Go hook stands in for the database check: a create mutation that it
    lets through makes a row that is either live or deleted, an update that it lets through
    keeps any such row such a row; and on a row for which it accepts an update, exactly the
    changes that leave both columns alone, soft-delete, or revive are accepted. *)
Theorem checkLiveOrDeleted_sound m live deletedAt :
  checkLiveOrDeleted m = None → mu_op m ≠ OpDelete →
  (mu_op m = OpCreate ∧ live = None ∧ deletedAt = None ∨
   mu_op m = OpUpdate ∧ live_ok live deletedAt) →
  live_ok (change (mu_live m) live) (change (mu_deletedAt m) deletedAt) ∧
  (mu_op m = OpUpdate →
    mu_live m = Keep ∧ mu_deletedAt m = Keep ∨
    (∃ at_, mu_live m = Clear ∧ mu_deletedAt m = Set_ at_) ∨
    mu_live m = Set_ true ∧ mu_deletedAt m = Clear).
Proof.
  unfold checkLiveOrDeleted, live_ok.
  destruct m as [op [|[]|] [|at_|]]; destruct op; simpl; intros H Hop Hrow; try discriminate;
    try done; naive_solver.
Qed.

Lemma checkLiveOrDeleted_sound_witness :
  live_ok (change Clear (Some true)) (change (Set_ 5) None).
Proof.
  apply (checkLiveOrDeleted_sound (MkMutation OpUpdate Clear (Set_ 5)) (Some true) None);
    [reflexivity | discriminate | right; split; [reflexivity | left; split; reflexivity]].
Defined.
