(* ===== verification/Backoff.v ===== *)
(** * Retry delays

    [NextDelayFor] of [src/actions/get-subscription-messages.go]: an exponential backoff in
    float64 seconds, capped, plus a fuzz below one second taken from a CRC-32 of the
    subscription id and the attempt number.  The CRC is computed exactly.  The float64
    operations are an interface ([Float64]); [Float64Laws] are the order facts the proofs
    use, and [exact_float] is the instance that does not round. *)

From Stdlib Require Import QArith Qpower Qround.
From S2P Require Import Prelude Uuid Schema.

Open Scope Z_scope.

(** ** CRC-32 (IEEE), [hash/crc32] *)

Definition crc_poly : N := 0xEDB88320%N.
Definition crc_bit (c : N) : N :=
  if N.testbit c 0 then N.lxor (N.shiftr c 1) crc_poly else N.shiftr c 1.
Definition crc_byte (c b : N) : N :=
  let c := N.lxor c b in
  crc_bit (crc_bit (crc_bit (crc_bit (crc_bit (crc_bit (crc_bit (crc_bit c))))))).
Definition crc32 (bytes : list N) : N :=
  N.lxor (fold_left crc_byte bytes 0xFFFFFFFF%N) 0xFFFFFFFF%N.

(** The published check value of CRC-32. *)
Example crc32_check : crc32 [49; 50; 51; 52; 53; 54; 55; 56; 57]%N = 0xCBF43926%N.
Proof. vm_compute. reflexivity. Qed.

(** The four bytes of an [int32] in memory on a little-endian machine. *)
Definition int32_bytes (z : Z) : list N :=
  let u := Z.to_N (int32_wrap z mod 2 ^ 32) in
  [u mod 256; (u / 256) mod 256; (u / 65536) mod 256; (u / 16777216) mod 256]%N.

(** ** float64 *)

(** The numbers (not NaN) of type float64. *)
Class Float64 := {
  flt : Type;
  f_ofZ : Z → flt;
  f_ofQ : Q → flt;
  f_add : flt → flt → flt;
  f_mul : flt → flt → flt;
  f_div : flt → flt → flt;
  f_gtb : flt → flt → bool;
  f_trunc : flt → Z;
  f_pow : flt → flt → flt }.

Section NextDelay.
Context {F : Float64}.

(** [Duration.Seconds] *)
Definition Seconds (d : duration) : flt :=
  f_add (f_ofZ (Z.quot d Second)) (f_div (f_ofZ (Z.rem d Second)) (f_ofZ 1000000000)).

Definition defaultMinDelay : duration := 10 * Second.
Definition defaultMaxDelay : duration := 10 * Minute.
Definition retryBackoffFactor : Q := 11 # 10.

Definition positive_or (default : duration) (o : option duration) : duration :=
  match o with Some d => if 0 <? d then d else default | None => default end.
Definition min_delay (sub : subscription) := positive_or defaultMinDelay (s_minBackoff sub).
Definition max_delay (sub : subscription) := positive_or defaultMaxDelay (s_maxBackoff sub).

(** The delay in seconds, after the cap. *)
Definition delay_seconds (sub : subscription) (attempts : Z) : flt :=
  let delay := f_mul (f_pow (f_ofQ retryBackoffFactor) (f_ofZ attempts)) (Seconds (min_delay sub)) in
  if f_gtb delay (Seconds (max_delay sub)) then Seconds (max_delay sub) else delay.

Definition fuzz_nanos (sub : subscription) (attempts : Z) : Z :=
  Z.of_N (crc32 (uuid_bytes (s_id sub) ++ int32_bytes attempts)) mod Second.

Definition NextDelayFor (sub : subscription) (attempts : Z) : duration * duration :=
  let delay := delay_seconds sub attempts in
  let fuzzNanos := if f_gtb delay (f_ofQ (1 # 2)) then fuzz_nanos sub attempts else 0 in
  let nominalDelay := f_trunc (f_mul delay (f_ofZ Second)) in
  (nominalDelay, nominalDelay + fuzzNanos).
End NextDelay.

(** [x ≤ y] *)
Definition f_le {F : Float64} (x y : flt) : Prop := f_gtb x y = false.

(** float64 operations round monotonically, and [math.Pow(x, _)] grows when [x > 1]. *)
Class Float64Laws (F : Float64) := {
  f_le_refl : ∀ x, f_le x x;
  f_le_trans : ∀ x y z, f_le x y → f_le y z → f_le x z;
  f_gt_le : ∀ x y, f_gtb x y = true → f_le y x;
  f_trunc_mono : ∀ x y, f_le x y → f_trunc x ≤ f_trunc y;
  f_mul_mono : ∀ x y z, f_le (f_ofZ 0) z → f_le x y → f_le (f_mul x z) (f_mul y z);
  f_ofZ_mono : ∀ a b, a ≤ b → f_le (f_ofZ a) (f_ofZ b);
  f_seconds_pos : ∀ d, 0 ≤ d → f_le (f_ofZ 0) (Seconds d);
  f_pow_mono : ∀ a b, a ≤ b →
    f_le (f_pow (f_ofQ retryBackoffFactor) (f_ofZ a)) (f_pow (f_ofQ retryBackoffFactor) (f_ofZ b)) }.

Section Delay_laws.
Context {F : Float64} {L : Float64Laws F}.

Lemma delay_capped sub attempts :
  f_le (delay_seconds sub attempts) (Seconds (max_delay sub)).
Proof. unfold delay_seconds. cbv zeta. case_match eqn:E; [apply f_le_refl|done]. Qed.

Lemma min_delay_pos sub : 0 < min_delay sub.
Proof.
  unfold min_delay, positive_or, defaultMinDelay, Second. repeat case_match; bool_props; lia.
Qed.

Lemma delay_mono sub a b :
  a ≤ b → f_le (delay_seconds sub a) (delay_seconds sub b).
Proof.
  intros Hab. unfold delay_seconds. cbv zeta.
  set (x a := f_mul (f_pow (f_ofQ retryBackoffFactor) (f_ofZ a)) (Seconds (min_delay sub))).
  fold (x a) (x b).
  assert (Hx : f_le (x a) (x b)).
  { apply f_mul_mono; [apply f_seconds_pos; pose proof (min_delay_pos sub); lia|by apply f_pow_mono]. }
  destruct (f_gtb (x a) _) eqn:Ha, (f_gtb (x b) _) eqn:Hb.
  - apply f_le_refl.
  - apply f_gt_le in Ha. by eapply f_le_trans.
  - done.
  - done.
Qed.

Lemma fuzz_range sub attempts : 0 ≤ fuzz_nanos sub attempts < Second.
Proof. apply Z.mod_pos_bound. unfold Second. lia. Qed.

(** The retry delay grows with the number of attempts and is capped: the nominal
    delay never exceeds the configured maximum (as float64 renders it) nor falls as the
    attempts grow; the fuzz is never negative and stays below one second, so the fuzzed
    delay is within a second of the nominal one; without a nominal delay above half a
    second there is no fuzz. *)
Theorem NextDelayFor_bounds sub a b :
  a ≤ b →
  (NextDelayFor sub a).1 ≤ (NextDelayFor sub b).1 ∧
  (NextDelayFor sub b).1 ≤ f_trunc (f_mul (Seconds (max_delay sub)) (f_ofZ Second)) ∧
  (NextDelayFor sub a).1 ≤ (NextDelayFor sub a).2 < (NextDelayFor sub a).1 + Second ∧
  (f_le (delay_seconds sub a) (f_ofQ (1 # 2)) →
    (NextDelayFor sub a).2 = (NextDelayFor sub a).1).
Proof.
  intros Hab. unfold NextDelayFor. cbv zeta. simpl.
  assert (Hs : f_le (f_ofZ 0) (f_ofZ Second)) by (apply f_ofZ_mono; unfold Second; lia).
  split_and!.
  - by apply f_trunc_mono, f_mul_mono, delay_mono.
  - apply f_trunc_mono, f_mul_mono; [done|apply delay_capped].
  - pose proof (fuzz_range sub a). destruct (f_gtb _ _); lia.
  - pose proof (fuzz_range sub a). destruct (f_gtb _ _); unfold Second in *; lia.
  - unfold f_le. intros ->. lia.
Qed.
End Delay_laws.

(** ** The instance without rounding *)

#[export] Instance exact_float : Float64 := {|
  flt := Q; f_ofZ := inject_Z; f_ofQ q := q; f_add := Qplus; f_mul := Qmult; f_div := Qdiv;
  f_gtb x y := negb (Qle_bool x y);
  f_trunc q := Z.quot (Qnum q) (Zpos (Qden q));
  f_pow x y := Qpower x (Z.quot (Qnum y) (Zpos (Qden y))) |}.

Lemma exact_le (x y : Q) : f_le x y ↔ (x <= y)%Q.
Proof. unfold f_le. simpl. rewrite negb_false_iff. apply Qle_bool_iff. Qed.

Lemma quot_mono a b c d : 0 < b → 0 < d → a * d ≤ c * b → Z.quot a b ≤ Z.quot c d.
Proof.
  intros Hb Hd H. destruct (Z.le_gt_cases 0 a) as [Ha|Ha].
  - rewrite !Z.quot_div_nonneg by nia. apply Z.div_le_lower_bound; [done|].
    pose proof (Z.mul_div_le a b Hb). nia.
  - destruct (Z.le_gt_cases 0 c) as [Hc|Hc].
    + transitivity 0; [apply Z.quot_le_upper_bound; lia|apply Z.quot_pos; lia].
    + remember (- a) as a' eqn:Ea. remember (- c) as c' eqn:Ec.
      assert (a = - a') as -> by lia. assert (c = - c') as -> by lia.
      rewrite !Z.quot_opp_l by lia. apply (proj1 (Z.opp_le_mono _ _)).
      rewrite !Z.quot_div_nonneg by lia. apply Z.div_le_lower_bound; [done|].
      pose proof (Z.mul_div_le c' d Hd). nia.
Qed.

#[export] Instance exact_float_laws : Float64Laws exact_float.
Proof.
  split.
  - intros x. apply exact_le. apply Qle_refl.
  - intros x y z. rewrite !exact_le. apply Qle_trans.
  - intros x y H. apply exact_le. simpl in H. apply negb_true_iff in H.
    apply Qlt_le_weak, Qnot_le_lt. rewrite <- Qle_bool_iff. congruence.
  - intros x y. rewrite exact_le. unfold Qle. simpl. apply quot_mono; lia.
  - intros x y z. rewrite !exact_le. intros. by apply Qmult_le_compat_r.
  - intros a b. rewrite exact_le. by rewrite <- Zle_Qle.
  - intros d Hd. apply exact_le. unfold Seconds. simpl. change (inject_Z 0) with (0 + 0)%Q.
    apply Qplus_le_compat.
    + change 0%Q with (inject_Z 0). rewrite <- Zle_Qle. apply Z.quot_pos; unfold Second; lia.
    + apply Qle_shift_div_l; [done|]. rewrite Qmult_0_l. change 0%Q with (inject_Z 0).
      rewrite <- Zle_Qle. apply Z.rem_nonneg; unfold Second; lia.
  - intros a b Hab. apply exact_le. simpl. rewrite !Z.quot_1_r.
    apply Qpower_le_compat_l; [done|]. by apply Qle_bool_iff.
Qed.

Definition plain_sub : subscription :=
  MkSubscription 7 1 "s" 0 0 (Some true) None Hour Hour false ∅ None None None None None None 0.

(** The default policy waits 11 s after the first attempt and is capped at 10 min from the
    43rd on. *)
Example NextDelayFor_default :
  (NextDelayFor plain_sub 1).1 = 11 * Second ∧ (NextDelayFor plain_sub 42).1 < 10 * Minute ∧
  (NextDelayFor plain_sub 43).1 = 10 * Minute ∧ (NextDelayFor plain_sub 1000).1 = 10 * Minute.
Proof. vm_compute. auto. Qed.

Lemma NextDelayFor_bounds_witness :
  (NextDelayFor plain_sub 1).1 ≤ (NextDelayFor plain_sub 2).1.
Proof.
  assert (H : 1 <= 2) by lia. exact (proj1 (NextDelayFor_bounds plain_sub 1 2 H)).
Defined.
