(* ===== verification/Notify.v ===== *)
(** * In-process notifications

    [src/actions/notify.go].  Waiters are Go channels that are only ever closed; a
    channel is its allocation number and [closed] is the set of closed ones.  Closing a
    closed channel panics, so [close_chan] is a partial operation and the main invariant
    shows no operation of the registry can reach that panic.  The maps keep the shape of
    the Go maps: an absent entry (a nil set) differs from an empty one.  A hook is its
    handle; the calls made to hooks are recorded in [hook_calls].

    Every exported function holds the mutex [nmu] for its whole body, so an operation is
    one atomic step.  Go iterates maps in an arbitrary order: here each loop over a set
    only closes its channels, and the result does not depend on the order. *)

From S2P Require Import Prelude Uuid.

Definition chan := nat.
Definition handle := nat.
Definition modifyKey : Type := uuid * string.

Inductive hook_call :=
  | CallPublish (h : handle) (subID : uuid)
  | CallTopicModify (h : handle) (id : uuid) (name : string)
  | CallSubModify (h : handle) (id : uuid) (name : string).

(** [topicModifyHooks], [topicModifyWaiters], [anyTopicModifiedWaiters], and the same
    three for subscriptions. *)
Record modset := MkModset {
  ms_hooks : gset handle;
  ms_waiters : gmap modifyKey (gset chan);
  ms_any : gset chan }.

Record registry := MkRegistry {
  next_id : nat;
  closed : gset chan;
  hook_calls : list hook_call;
  pubNotifyHooks : gset handle;
  pubWaiters : gmap uuid (gset chan);
  topicMod : modset;
  subMod : modset }.

Definition empty_modset : modset := MkModset ∅ ∅ ∅.
Definition empty_registry : registry :=
  MkRegistry 0 ∅ [] ∅ ∅ empty_modset empty_modset.

Section Setters.
Context (r : registry).
Definition set_next n := MkRegistry n (closed r) (hook_calls r) (pubNotifyHooks r) (pubWaiters r) (topicMod r) (subMod r).
Definition set_closed c := MkRegistry (next_id r) c (hook_calls r) (pubNotifyHooks r) (pubWaiters r) (topicMod r) (subMod r).
Definition set_calls l := MkRegistry (next_id r) (closed r) l (pubNotifyHooks r) (pubWaiters r) (topicMod r) (subMod r).
Definition set_pubHooks h := MkRegistry (next_id r) (closed r) (hook_calls r) h (pubWaiters r) (topicMod r) (subMod r).
Definition set_pubWaiters w := MkRegistry (next_id r) (closed r) (hook_calls r) (pubNotifyHooks r) w (topicMod r) (subMod r).
Definition set_topicMod m := MkRegistry (next_id r) (closed r) (hook_calls r) (pubNotifyHooks r) (pubWaiters r) m (subMod r).
Definition set_subMod m := MkRegistry (next_id r) (closed r) (hook_calls r) (pubNotifyHooks r) (pubWaiters r) (topicMod r) m.
End Setters.

(** The topic and subscription halves share code, parametrised by which maps it works on. *)
Inductive side := TopicSide | SubSide.
#[export] Instance side_eq_dec : EqDecision side.
Proof. solve_decision. Defined.

Definition get_mod (sd : side) (r : registry) : modset :=
  match sd with TopicSide => topicMod r | SubSide => subMod r end.
Definition set_mod (sd : side) (r : registry) (m : modset) : registry :=
  match sd with TopicSide => set_topicMod r m | SubSide => set_subMod r m end.
Definition call_modify (sd : side) (h : handle) (id : uuid) (name : string) : hook_call :=
  match sd with TopicSide => CallTopicModify h id name | SubSide => CallSubModify h id name end.

Definition Reg := M registry.

(** [make(chan struct{})] and the address of a new hook. *)
Definition alloc : Reg nat := λ r, Ok (next_id r, set_next r (S (next_id r))).

(** [close(c)] *)
Definition close_chan (c : chan) : Reg () := λ r,
  if decide (c ∈ closed r) then Panic "close of closed channel"
  else Ok ((), set_closed r ({[c]} ∪ closed r)).

Definition close_all (cs : gset chan) : Reg () := forM (elements cs) close_chan.

(** ** Hooks *)

(** [hook = None] is a nil function, [h = None] a nil handle. *)
Definition AddPublishHook (hook : option ()) : Reg handle :=
  match hook with
  | None => panic "nil hook"
  | Some _ =>
      alloc ≫= λ h, modify (λ r, set_pubHooks r ({[h]} ∪ pubNotifyHooks r)) ≫= λ _, mret h
  end.

Definition RemovePublishHook (h : option handle) : Reg bool :=
  match h with
  | None => panic "nil handle"
  | Some h =>
      gets (λ r, bool_decide (h ∈ pubNotifyHooks r)) ≫= λ found,
      modify (λ r, set_pubHooks r (pubNotifyHooks r ∖ {[h]})) ≫= λ _, mret found
  end.

Definition AddModifyHook (sd : side) (hook : option ()) : Reg handle :=
  match hook with
  | None => panic "nil hook"
  | Some _ =>
      alloc ≫= λ h,
      modify (λ r, let m := get_mod sd r in
        set_mod sd r (MkModset ({[h]} ∪ ms_hooks m) (ms_waiters m) (ms_any m))) ≫= λ _, mret h
  end.
Definition AddTopicModifyHook := AddModifyHook TopicSide.
Definition AddSubscriptionModifyHook := AddModifyHook SubSide.

Definition RemoveModifyHook (sd : side) (h : option handle) : Reg bool :=
  match h with
  | None => panic "nil handle"
  | Some h =>
      gets (λ r, bool_decide (h ∈ ms_hooks (get_mod sd r))) ≫= λ found,
      modify (λ r, let m := get_mod sd r in
        set_mod sd r (MkModset (ms_hooks m ∖ {[h]}) (ms_waiters m) (ms_any m))) ≫= λ _, mret found
  end.
Definition RemoveTopicModifyHook := RemoveModifyHook TopicSide.
Definition RemoveSubscriptionModifyHook := RemoveModifyHook SubSide.

(** ** Waking *)

(** The loop over [subIDs]: a subscription nobody waits on ends it ([return]). *)
Fixpoint wakeSubs (subIDs : list uuid) : Reg () :=
  match subIDs with
  | [] => mret ()
  | subID :: subIDs =>
      gets (λ r, pubWaiters r !! subID) ≫= λ waitSet,
      match waitSet with
      | None => mret ()
      | Some waitSet =>
          close_all waitSet ≫= λ _,
          modify (λ r, set_pubWaiters r (delete subID (pubWaiters r))) ≫= λ _,
          wakeSubs subIDs
      end
  end.

Definition WakePublishListeners (onlyInternal : bool) (subIDs : list uuid) : Reg () :=
  gets pubNotifyHooks ≫= λ hooks,
  if onlyInternal then wakeSubs subIDs
  else
    modify (λ r, set_calls r (hook_calls r ++
      flat_map (λ h, map (CallPublish h) subIDs) (elements hooks))) ≫= λ _,
    if decide (hooks = ∅) then wakeSubs subIDs else mret ().

Definition wakeKey (sd : side) (mk : modifyKey) : Reg () :=
  gets (λ r, ms_waiters (get_mod sd r) !! mk) ≫= λ waitSet,
  match waitSet with
  | None => mret ()
  | Some waitSet =>
      close_all waitSet ≫= λ _,
      modify (λ r, let m := get_mod sd r in
        set_mod sd r (MkModset (ms_hooks m) (delete mk (ms_waiters m)) (ms_any m)))
  end.

Definition wakeAny (sd : side) : Reg () :=
  gets (λ r, ms_any (get_mod sd r)) ≫= λ cs, close_all cs ≫= λ _,
  modify (λ r, let m := get_mod sd r in
    set_mod sd r (MkModset (ms_hooks m) (ms_waiters m) ∅)).

Definition wakeModifyListeners (sd : side) (onlyInternal : bool) (id : uuid) (name : string)
  : Reg () :=
  gets (λ r, ms_hooks (get_mod sd r)) ≫= λ hooks,
  let internal :=
    forM [(id, name); (id, EmptyString); (uuid_nil, name)] (wakeKey sd) ≫= λ _, wakeAny sd in
  if onlyInternal then internal
  else
    modify (λ r, set_calls r (hook_calls r ++
      map (λ h, call_modify sd h id name) (elements hooks))) ≫= λ _,
    if decide (hooks = ∅) then internal else mret ().

Definition WakeTopicListeners := wakeModifyListeners TopicSide.
Definition WakeSubscriptionListeners := wakeModifyListeners SubSide.

(** The three groups of loops of [WakeAllInternal]. *)
Definition wakeAllPub : Reg () :=
  gets pubWaiters ≫= λ ws,
  forM (map_to_list ws) (λ '(subID, waitSet),
    close_all waitSet ≫= λ _, modify (λ r, set_pubWaiters r (delete subID (pubWaiters r)))).

Definition wakeAllKeys (sd : side) : Reg () :=
  gets (λ r, ms_waiters (get_mod sd r)) ≫= λ ws,
  forM (map_to_list ws) (λ '(mk, waitSet),
    close_all waitSet ≫= λ _,
    modify (λ r, let m := get_mod sd r in
      set_mod sd r (MkModset (ms_hooks m) (delete mk (ms_waiters m)) (ms_any m)))).

Definition WakeAllInternal : Reg () :=
  wakeAllPub ≫= λ _, wakeAllKeys TopicSide ≫= λ _, wakeAllKeys SubSide ≫= λ _,
  wakeAny TopicSide ≫= λ _, wakeAny SubSide.

(** ** Awaiting *)

Definition PublishAwaiter (subID : uuid) : Reg chan :=
  alloc ≫= λ c,
  modify (λ r, set_pubWaiters r
    (<[subID := {[c]} ∪ default ∅ (pubWaiters r !! subID)]> (pubWaiters r))) ≫= λ _, mret c.

(** A nil channel is [None]. *)
Definition CancelPublishAwaiter (subID : uuid) (c : option chan) : Reg () :=
  match c with
  | None => mret ()
  | Some c => modify (λ r, set_pubWaiters r (alter (.∖ {[c]}) subID (pubWaiters r)))
  end.

Definition ModifiedAwaiter (sd : side) (id : uuid) (name : string) : Reg chan :=
  alloc ≫= λ c,
  modify (λ r, let m := get_mod sd r in set_mod sd r (MkModset (ms_hooks m)
    (<[(id, name) := {[c]} ∪ default ∅ (ms_waiters m !! (id, name))]> (ms_waiters m))
    (ms_any m))) ≫= λ _, mret c.
Definition SubModifiedAwaiter := ModifiedAwaiter SubSide.
Definition TopicModifiedAwaiter := ModifiedAwaiter TopicSide.

Definition CancelModifiedAwaiter (sd : side) (id : uuid) (name : string) (c : option chan)
  : Reg () :=
  match c with
  | None => mret ()
  | Some c => modify (λ r, let m := get_mod sd r in set_mod sd r (MkModset (ms_hooks m)
      (alter (.∖ {[c]}) (id, name) (ms_waiters m)) (ms_any m)))
  end.
Definition CancelSubModifiedAwaiter := CancelModifiedAwaiter SubSide.
Definition CancelTopicModifiedAwaiter := CancelModifiedAwaiter TopicSide.

Definition AnyModifiedAwaiter (sd : side) : Reg chan :=
  alloc ≫= λ c,
  modify (λ r, let m := get_mod sd r in
    set_mod sd r (MkModset (ms_hooks m) (ms_waiters m) ({[c]} ∪ ms_any m))) ≫= λ _, mret c.
Definition AnySubModifiedAwaiter := AnyModifiedAwaiter SubSide.
Definition AnyTopicModifiedAwaiter := AnyModifiedAwaiter TopicSide.

Definition CancelAnyModifiedAwaiter (sd : side) (c : option chan) : Reg () :=
  match c with
  | None => mret ()
  | Some c => modify (λ r, let m := get_mod sd r in
      set_mod sd r (MkModset (ms_hooks m) (ms_waiters m) (ms_any m ∖ {[c]})))
  end.
Definition CancelAnySubModifiedAwaiter := CancelAnyModifiedAwaiter SubSide.
Definition CancelAnyTopicModifiedAwaiter := CancelAnyModifiedAwaiter TopicSide.

(** ** Operations *)

Inductive nop :=
  | OpAddPublishHook | OpRemovePublishHook (h : handle)
  | OpAddModifyHook (sd : side) | OpRemoveModifyHook (sd : side) (h : handle)
  | OpWakePublish (onlyInternal : bool) (subIDs : list uuid)
  | OpWakeModify (sd : side) (onlyInternal : bool) (id : uuid) (name : string)
  | OpWakeAll
  | OpPublishAwaiter (subID : uuid) | OpCancelPublish (subID : uuid) (c : option chan)
  | OpModifiedAwaiter (sd : side) (id : uuid) (name : string)
  | OpCancelModified (sd : side) (id : uuid) (name : string) (c : option chan)
  | OpAnyAwaiter (sd : side) | OpCancelAny (sd : side) (c : option chan).

Definition run_op (o : nop) : Reg () :=
  match o with
  | OpAddPublishHook => AddPublishHook (Some ()) ≫= λ _, mret ()
  | OpRemovePublishHook h => RemovePublishHook (Some h) ≫= λ _, mret ()
  | OpAddModifyHook sd => AddModifyHook sd (Some ()) ≫= λ _, mret ()
  | OpRemoveModifyHook sd h => RemoveModifyHook sd (Some h) ≫= λ _, mret ()
  | OpWakePublish oi ids => WakePublishListeners oi ids
  | OpWakeModify sd oi id name => wakeModifyListeners sd oi id name
  | OpWakeAll => WakeAllInternal
  | OpPublishAwaiter id => PublishAwaiter id ≫= λ _, mret ()
  | OpCancelPublish id c => CancelPublishAwaiter id c
  | OpModifiedAwaiter sd id name => ModifiedAwaiter sd id name ≫= λ _, mret ()
  | OpCancelModified sd id name c => CancelModifiedAwaiter sd id name c
  | OpAnyAwaiter sd => AnyModifiedAwaiter sd ≫= λ _, mret ()
  | OpCancelAny sd c => CancelAnyModifiedAwaiter sd c
  end.

(** The calls of several goroutines, in the order the mutex serialises them. *)
Definition run_ops (os : list nop) : Reg () := forM os run_op.

(** ** Places *)

(** Where a channel can be registered. *)
Inductive place := PPub (subID : uuid) | PKey (sd : side) (mk : modifyKey) | PAny (sd : side).
#[export] Instance place_eq_dec : EqDecision place.
Proof. solve_decision. Defined.

Definition at_place (p : place) (r : registry) : gset chan :=
  match p with
  | PPub id => default ∅ (pubWaiters r !! id)
  | PKey sd mk => default ∅ (ms_waiters (get_mod sd r) !! mk)
  | PAny sd => ms_any (get_mod sd r)
  end.

(** A registered channel has been allocated, is open, and is registered once. *)
Record registry_wf (r : registry) : Prop := {
  wf_fresh : ∀ p c, c ∈ at_place p r → (c < next_id r)%nat;
  wf_open : ∀ p c, c ∈ at_place p r → c ∉ closed r;
  wf_once : ∀ p p' c, c ∈ at_place p r → c ∈ at_place p' r → p = p';
  wf_closed : ∀ c, c ∈ closed r → (c < next_id r)%nat }.

(** What a wake of the places in [P] does. *)
Record woken (P : place → bool) (r r' : registry) : Prop := {
  wk_next : next_id r' = next_id r;
  wk_keep : ∀ p, P p = false → at_place p r' = at_place p r;
  wk_empty : ∀ p, P p = true → at_place p r' = ∅;
  wk_closed : ∀ c, c ∈ closed r' ↔ c ∈ closed r ∨ ∃ p, P p = true ∧ c ∈ at_place p r;
  wk_pub_keep : ∀ id, P (PPub id) = false → pubWaiters r' !! id = pubWaiters r !! id;
  wk_pub_del : ∀ id, P (PPub id) = true → pubWaiters r' !! id = None;
  wk_key_keep : ∀ sd mk, P (PKey sd mk) = false →
    ms_waiters (get_mod sd r') !! mk = ms_waiters (get_mod sd r) !! mk }.

Lemma woken_none r : woken (λ _, false) r r.
Proof. split; naive_solver. Qed.

Lemma woken_trans P1 P2 r r1 r2 :
  woken P1 r r1 → woken P2 r1 r2 → woken (λ p, P1 p || P2 p) r r2.
Proof.
  intros H1 H2. split.
  - by rewrite (wk_next _ _ _ H2), (wk_next _ _ _ H1).
  - intros p [Hp1 Hp2]%orb_false_iff. by rewrite (wk_keep _ _ _ H2), (wk_keep _ _ _ H1).
  - intros p Hp. destruct (P2 p) eqn:Hp2; [by apply (wk_empty _ _ _ H2)|].
    rewrite orb_false_r in Hp. by rewrite (wk_keep _ _ _ H2), (wk_empty _ _ _ H1).
  - intros c. rewrite (wk_closed _ _ _ H2), (wk_closed _ _ _ H1).
    split; [intros [[?|(p & Hp & Hc)]|(p & Hp & Hc)]|intros [?|(p & Hp & Hc)]].
    + by left.
    + right. exists p. by rewrite Hp.
    + destruct (P1 p) eqn:Hp1; [rewrite (wk_empty _ _ _ H1) in Hc by done; set_solver|].
      rewrite (wk_keep _ _ _ H1) in Hc by done. right. exists p. by rewrite Hp, orb_true_r.
    + by do 2 left.
    + destruct (P1 p) eqn:Hp1; [left; right; eauto|].
      right. exists p. by rewrite (wk_keep _ _ _ H1).
  - intros id [? ?]%orb_false_iff. by rewrite (wk_pub_keep _ _ _ H2), (wk_pub_keep _ _ _ H1).
  - intros id Hp. destruct (P2 (PPub id)) eqn:Hp2; [by apply (wk_pub_del _ _ _ H2)|].
    rewrite orb_false_r in Hp. by rewrite (wk_pub_keep _ _ _ H2), (wk_pub_del _ _ _ H1).
  - intros sd mk [? ?]%orb_false_iff. by rewrite (wk_key_keep _ _ _ H2), (wk_key_keep _ _ _ H1).
Qed.

Lemma woken_ext P P' r r' : (∀ p, P p = P' p) → woken P r r' → woken P' r r'.
Proof.
  intros HP []. split; intros; rewrite <-?HP in *; auto.
  rewrite wk_closed0. by setoid_rewrite HP.
Qed.

Lemma woken_wf P r r' : registry_wf r → woken P r r' → registry_wf r'.
Proof.
  intros Hw H. assert (Hat : ∀ p c, c ∈ at_place p r' → P p = false ∧ c ∈ at_place p r).
  { intros p c Hc. destruct (P p) eqn:Hp.
    - rewrite (wk_empty _ _ _ H) in Hc by done. set_solver.
    - by rewrite (wk_keep _ _ _ H) in Hc. }
  split.
  - intros p c [_ Hc]%Hat. rewrite (wk_next _ _ _ H). by eapply wf_fresh.
  - intros p c [Hp Hc]%Hat. rewrite (wk_closed _ _ _ H). intros [Hcl|(p' & Hp' & Hc')].
    + by eapply wf_open.
    + assert (p = p') as -> by (by eapply wf_once). congruence.
  - intros p p' c [_ Hc]%Hat [_ Hc']%Hat. by eapply wf_once.
  - intros c. rewrite (wk_next _ _ _ H), (wk_closed _ _ _ H).
    intros [?|(p & _ & ?)]; [by apply wf_closed | by eapply wf_fresh].
Qed.

(** Places that hold nothing may be counted as woken. *)
Lemma woken_widen P P' r r' :
  woken P r r' → (∀ p, P p = true → P' p = true) →
  (∀ p, P' p = true → P p = false →
    at_place p r = ∅ ∧ ∀ id, p = PPub id → pubWaiters r !! id = None) →
  woken P' r r'.
Proof.
  intros H HP HP'.
  assert (Hf : ∀ p, P' p = false → P p = false).
  { intros p Hp. destruct (P p) eqn:E; [|done]. apply HP in E. congruence. }
  split; [apply H|..].
  - intros p Hp. apply H; auto.
  - intros p Hp. destruct (P p) eqn:E; [by apply (wk_empty _ _ _ H)|].
    rewrite (wk_keep _ _ _ H) by done. by apply HP'.
  - intros c. rewrite (wk_closed _ _ _ H). split; (intros [?|(p & Hp & Hc)]; [by left|]).
    + right. eauto.
    + destruct (P p) eqn:E; [right; eauto|]. destruct (HP' p Hp E) as [He _].
      rewrite He in Hc. set_solver.
  - intros id Hp. apply H; auto.
  - intros id Hp. destruct (P (PPub id)) eqn:E; [by apply (wk_pub_del _ _ _ H)|].
    rewrite (wk_pub_keep _ _ _ H) by done. by eapply HP'.
  - intros sd mk Hp. apply H; auto.
Qed.

(** Closing open channels does not panic. *)
Lemma close_list_run cs r :
  NoDup cs → (∀ c, c ∈ cs → c ∉ closed r) →
  forM cs close_chan r = Ok ((), set_closed r (list_to_set cs ∪ closed r)).
Proof.
  revert r. induction cs as [|c cs IH]; intros r Hnd Hcl; simpl.
  - unfold mret, M_ret. destruct r; simpl. do 2 f_equal. unfold set_closed; simpl. f_equal. set_solver.
  - apply NoDup_cons in Hnd as [Hc Hnd]. unfold mbind, M_bind, close_chan at 1.
    rewrite decide_False by (apply Hcl; left). rewrite IH; [|done|].
    + destruct r; unfold set_closed; simpl. do 3 f_equal. set_solver.
    + intros c' Hc'. simpl. apply not_elem_of_union. split.
      * apply not_elem_of_singleton. by intros ->.
      * apply Hcl. by right.
Qed.

Lemma wp_close_all cs Q r :
  (∀ c, c ∈ cs → c ∉ closed r) → Q () (set_closed r (cs ∪ closed r)) → wp (close_all cs) Q r.
Proof.
  intros Hcl HQ. unfold wp, close_all. rewrite close_list_run.
  - by rewrite list_to_set_elements_L.
  - apply NoDup_elements.
  - intros c ?%elem_of_elements. by apply Hcl.
Qed.

(** One place: close what it holds, then drop it. *)
Definition just (p p' : place) : bool := bool_decide (p' = p).
Lemma just_true p p' : just p p' = true ↔ p' = p.
Proof. apply bool_decide_eq_true. Qed.
Lemma just_false p p' : just p p' = false ↔ p' ≠ p.
Proof. apply bool_decide_eq_false. Qed.

Lemma woken_pub id s r :
  pubWaiters r !! id = Some s →
  woken (just (PPub id)) r
    (set_pubWaiters (set_closed r (s ∪ closed r))
       (delete id (pubWaiters (set_closed r (s ∪ closed r))))).
Proof.
  intros Hs. split; try setoid_rewrite just_true; try setoid_rewrite just_false.
  - done.
  - intros [id'|[] mk|[]] Hp; simpl; try done. rewrite lookup_delete_ne; [done|congruence].
  - intros p ->. simpl. by rewrite lookup_delete_eq.
  - intros c. simpl. rewrite elem_of_union. split.
    + intros [?|?]; [right|by left]. exists (PPub id). simpl. by rewrite Hs.
    + intros [?|(p & -> & Hc)]; [by right|]. simpl in Hc. rewrite Hs in Hc. by left.
  - intros id' Hp. simpl. rewrite lookup_delete_ne; [done|congruence].
  - intros id' Hp. simplify_eq. simpl. by rewrite lookup_delete_eq.
  - by intros [] mk _.
Qed.

Lemma woken_key sd mk s r :
  ms_waiters (get_mod sd r) !! mk = Some s →
  let r1 := set_closed r (s ∪ closed r) in
  woken (just (PKey sd mk)) r
    (set_mod sd r1 (MkModset (ms_hooks (get_mod sd r1)) (delete mk (ms_waiters (get_mod sd r1)))
       (ms_any (get_mod sd r1)))).
Proof.
  intros Hs r1. split; try setoid_rewrite just_true; try setoid_rewrite just_false.
  - by destruct sd.
  - intros [id'|[] mk'|[]] Hp; destruct sd; simpl; try done;
      (rewrite lookup_delete_ne; [done|congruence]).
  - intros p ->. destruct sd; simpl; by rewrite lookup_delete_eq.
  - intros c. replace (closed _) with (s ∪ closed r) by by destruct sd. rewrite elem_of_union. split.
    + intros [?|?]; [right|by left]. exists (PKey sd mk). simpl. by rewrite Hs.
    + intros [?|(p & -> & Hc)]; [by right|]. simpl in Hc. rewrite Hs in Hc. by left.
  - by destruct sd.
  - done.
  - intros sd' mk' Hp. destruct sd, sd'; simpl; try done;
      (rewrite lookup_delete_ne; [done|congruence]).
Qed.

Lemma woken_any sd r :
  let r1 := set_closed r (ms_any (get_mod sd r) ∪ closed r) in
  woken (just (PAny sd)) r
    (set_mod sd r1 (MkModset (ms_hooks (get_mod sd r1)) (ms_waiters (get_mod sd r1)) ∅)).
Proof.
  intros r1. split; try setoid_rewrite just_true; try setoid_rewrite just_false.
  - by destruct sd.
  - by intros [id'|[] mk'|[]] Hp; destruct sd.
  - intros p ->. by destruct sd.
  - intros c. replace (closed _) with (ms_any (get_mod sd r) ∪ closed r) by by destruct sd.
    rewrite elem_of_union. split.
    + intros [?|?]; [right|by left]. by exists (PAny sd).
    + intros [?|(p & -> & Hc)]; [by right|by left].
  - by destruct sd.
  - done.
  - intros sd' mk' Hp. by destruct sd, sd'.
Qed.

Lemma wp_wakeKey sd mk r :
  registry_wf r → wp (wakeKey sd mk) (λ _ r', woken (just (PKey sd mk)) r r') r.
Proof.
  intros Hw. unfold wakeKey. wp_pure.
  destruct (ms_waiters (get_mod sd r) !! mk) as [s|] eqn:Hs.
  - wp_pure. apply wp_close_all; [|wp_pure; by apply woken_key].
    intros c Hc. apply (wf_open _ Hw (PKey sd mk)). simpl. by rewrite Hs.
  - apply wp_ret. split; try setoid_rewrite just_true; try setoid_rewrite just_false; try done.
    + intros p ->. simpl. by rewrite Hs.
    + intros c. split; [by left|]. intros [?|(p & -> & Hc)]; [done|].
      simpl in Hc. rewrite Hs in Hc. set_solver.
Qed.

Lemma wp_wakeAny sd r :
  registry_wf r → wp (wakeAny sd) (λ _ r', woken (just (PAny sd)) r r') r.
Proof.
  intros Hw. unfold wakeAny. wp_pure. apply wp_close_all; [|wp_pure; by apply woken_any].
  intros c Hc. by apply (wf_open _ Hw (PAny sd)).
Qed.

(** Two wakes in a row. *)
Lemma wp_woken_seq {A} (m : Reg A) (k : A → Reg ()) P1 P2 r :
  registry_wf r → wp m (λ _ r', woken P1 r r') r →
  (∀ a r', registry_wf r' → woken P1 r r' → wp (k a) (λ _ r2, woken P2 r' r2) r') →
  wp (m ≫= k) (λ _ r', woken (λ p, P1 p || P2 p) r r') r.
Proof.
  intros Hw Hm Hk. apply wp_bind. eapply wp_mono, Hm. cbn beta. intros a r' H1.
  eapply wp_mono; [|apply Hk; [by eapply woken_wf|done]]. intros [] r2 H2. by eapply woken_trans.
Qed.

(** The longest prefix whose subscriptions have a (possibly empty) set of waiters. *)
Fixpoint watched_prefix (watched : uuid → bool) (ids : list uuid) : list uuid :=
  match ids with
  | [] => []
  | id :: ids => if watched id then id :: watched_prefix watched ids else []
  end.
Definition watched (r : registry) (id : uuid) : bool := bool_decide (is_Some (pubWaiters r !! id)).
Definition pub_in (ids : list uuid) (p : place) : bool :=
  match p with PPub id => bool_decide (id ∈ ids) | _ => false end.

Lemma watched_prefix_ext w w' ids :
  (∀ id, id ∈ ids → w id = w' id) → watched_prefix w ids = watched_prefix w' ids.
Proof.
  induction ids as [|id ids IH]; intros H; [done|]. simpl. rewrite (H id) by left.
  destruct (w' id); [|done]. f_equal. apply IH. intros; apply H. by right.
Qed.

Lemma wp_wakeSubs ids r :
  registry_wf r → NoDup ids →
  wp (wakeSubs ids) (λ _ r', woken (pub_in (watched_prefix (watched r) ids)) r r') r.
Proof.
  revert r. induction ids as [|id ids IH]; intros r Hw Hnd.
  - apply wp_ret. eapply woken_ext, woken_none. by intros [].
  - apply NoDup_cons in Hnd as [Hid Hnd]. simpl. wp_pure.
    assert (Hwd : watched r id = bool_decide (is_Some (pubWaiters r !! id))) by done.
    rewrite Hwd. clear Hwd.
    destruct (pubWaiters r !! id) as [s|] eqn:Hs.
    + rewrite bool_decide_true by eauto. wp_pure. apply wp_close_all.
      { intros c Hc. apply (wf_open _ Hw (PPub id)). simpl. by rewrite Hs. }
      wp_pure. pose proof (woken_pub _ _ _ Hs) as H1. set (r1 := set_pubWaiters _ _) in *.
      eapply wp_mono; [|apply IH; [by eapply woken_wf|done]]. intros [] r2 H2.
      rewrite (watched_prefix_ext _ (watched r)) in H2.
      * eapply woken_ext; [|by eapply woken_trans]. intros [id'|sd mk|sd]; simpl.
        -- apply eq_true_iff_eq. unfold just.
           rewrite orb_true_iff, !bool_decide_eq_true, elem_of_cons. naive_solver.
        -- by rewrite ?orb_false_r.
        -- by rewrite ?orb_false_r.
      * intros id' Hid'. unfold watched. rewrite (wk_pub_keep _ _ _ H1); [done|].
        apply just_false. intros [= ->]. done.
    + rewrite bool_decide_false by (intros [? ?]; done).
      apply wp_ret. eapply woken_ext, woken_none. by intros [].
Qed.

(** Without [NoDup] the loop still closes only what it finds. *)
Lemma wp_wakeSubs_some ids r :
  registry_wf r →
  wp (wakeSubs ids)
    (λ _ r', ∃ P, woken P r r' ∧ ∀ p, P p = true → ∃ id, id ∈ ids ∧ p = PPub id) r.
Proof.
  revert r. induction ids as [|id ids IH]; intros r Hw.
  - apply wp_ret. eexists. split; [apply woken_none|done].
  - simpl. wp_pure. destruct (pubWaiters r !! id) as [s|] eqn:Hs.
    + wp_pure. apply wp_close_all.
      { intros c Hc. apply (wf_open _ Hw (PPub id)). simpl. by rewrite Hs. }
      wp_pure. pose proof (woken_pub _ _ _ Hs) as H1. set (r1 := set_pubWaiters _ _) in *.
      eapply wp_mono; [|apply IH; by eapply woken_wf]. intros [] r2 (P & H2 & HP).
      eexists. split; [by eapply woken_trans|]. intros p [Hp%just_true|Hp]%orb_true_iff.
      * exists id. split; [by left|done].
      * destruct (HP p Hp) as (id' & ? & ->). exists id'. split; [by right|done].
    + apply wp_ret. eexists. split; [apply woken_none|done].
Qed.

Definition listeners (sd : side) (id : uuid) (name : string) (p : place) : bool :=
  match p with
  | PKey sd' mk => bool_decide (sd' = sd ∧ mk ∈ [(id, name); (id, EmptyString); (uuid_nil, name)])
  | PAny sd' => bool_decide (sd' = sd)
  | PPub _ => false
  end.

Lemma wp_wakeListeners sd id name r :
  registry_wf r →
  wp (forM [(id, name); (id, EmptyString); (uuid_nil, name)] (wakeKey sd) ≫= λ _, wakeAny sd)
    (λ _ r', woken (listeners sd id name) r r') r.
Proof.
  intros Hw. eapply wp_mono; [|eapply wp_woken_seq; [done| |]].
  - cbn beta. intros [] r' H. eapply woken_ext, H. cbn beta.
    instantiate (1 := just (PAny sd)).
    instantiate (1 := λ p, just (PKey sd (id, name)) p || (just (PKey sd (id, EmptyString)) p
      || (just (PKey sd (uuid_nil, name)) p || false))).
    intros p. apply eq_true_iff_eq. rewrite !orb_true_iff, !just_true.
    destruct p; simpl; rewrite ?bool_decide_eq_true, ?elem_of_cons, ?elem_of_nil; naive_solver.
  - simpl. do 3 (apply wp_woken_seq; [done|by apply wp_wakeKey|]; intros ????).
    apply wp_ret, woken_none.
  - intros. by apply wp_wakeAny.
Qed.

Definition any_pub (p : place) : bool := match p with PPub _ => true | _ => false end.
Definition any_key (sd : side) (p : place) : bool :=
  match p with PKey sd' _ => bool_decide (sd' = sd) | _ => false end.

Lemma wp_wakeAllPub r :
  registry_wf r →
  wp wakeAllPub (λ _ r', woken any_pub r r') r.
Proof.
  intros Hw. unfold wakeAllPub. wp_pure.
  assert (Hgen : ∀ l r0, registry_wf r0 → NoDup l.*1 →
    (∀ id s, (id, s) ∈ l → pubWaiters r0 !! id = Some s) →
    wp (forM l (λ '(subID, waitSet), close_all waitSet ≫= λ _,
       modify (λ r, set_pubWaiters r (delete subID (pubWaiters r)))))
      (λ _ r', woken (pub_in l.*1) r0 r') r0).
  { clear. induction l as [|[id s] l IH]; intros r Hw Hnd Hl.
    - apply wp_ret. eapply woken_ext, woken_none. by intros [].
    - apply NoDup_cons in Hnd as [Hid Hnd]. simpl.
      pose proof (Hl id s ltac:(by left)) as Hs.
      eapply wp_mono; [|eapply (wp_woken_seq _ _ (just (PPub id)) (pub_in l.*1)); [done| |]].
      + cbn beta. intros [] r' H. eapply woken_ext, H. intros p. apply eq_true_iff_eq.
        unfold just. rewrite orb_true_iff, bool_decide_eq_true.
        destruct p; simpl; rewrite ?bool_decide_eq_true, ?elem_of_cons; naive_solver.
      + wp_pure. apply wp_close_all; [|wp_pure; by apply woken_pub].
        intros c Hc. apply (wf_open _ Hw (PPub id)). simpl. by rewrite Hs.
      + intros [] r' Hw' H1. apply IH; [done..|]. intros id' s' Hin.
        rewrite (wk_pub_keep _ _ _ H1); [apply Hl; by right|].
        apply just_false. intros [= ->]. by apply Hid, (list_elem_of_fmap_2 fst _ (id, s')). }
  eapply wp_mono; [|apply Hgen; [done|apply NoDup_fst_map_to_list|by intros ???%elem_of_map_to_list]].
  intros [] r' H. eapply woken_widen; [done|by intros []|].
  intros [id| |] Hp Hn; try done. simpl in *. apply bool_decide_eq_false in Hn.
  destruct (pubWaiters r !! id) as [s|] eqn:Hs; [|naive_solver].
  by destruct Hn; apply (list_elem_of_fmap_2 fst _ (id, s)), elem_of_map_to_list.
Qed.

Definition keys_in (sd : side) (l : list modifyKey) (p : place) : bool :=
  match p with PKey sd' mk => bool_decide (sd' = sd ∧ mk ∈ l) | _ => false end.

Lemma wp_wakeAllKeys sd r :
  registry_wf r →
  wp (wakeAllKeys sd) (λ _ r', woken (any_key sd) r r') r.
Proof.
  intros Hw. unfold wakeAllKeys. wp_pure.
  assert (Hgen : ∀ l r0, registry_wf r0 → NoDup l.*1 →
    (∀ mk s, (mk, s) ∈ l → ms_waiters (get_mod sd r0) !! mk = Some s) →
    wp (forM l (λ '(mk, waitSet), close_all waitSet ≫= λ _,
       modify (λ r, let m := get_mod sd r in
         set_mod sd r (MkModset (ms_hooks m) (delete mk (ms_waiters m)) (ms_any m)))))
      (λ _ r', woken (keys_in sd l.*1) r0 r') r0).
  { clear. induction l as [|[mk s] l IH]; intros r Hw Hnd Hl.
    - apply wp_ret. eapply woken_ext, woken_none. intros [|sd' mk|]; [done| |done].
      simpl. symmetry. apply bool_decide_eq_false. by intros [_ ?%elem_of_nil].
    - apply NoDup_cons in Hnd as [Hid Hnd]. simpl.
      pose proof (Hl mk s ltac:(by left)) as Hs.
      eapply wp_mono; [|eapply (wp_woken_seq _ _ (just (PKey sd mk)) (keys_in sd l.*1)); [done| |]].
      + cbn beta. intros [] r' H. eapply woken_ext, H. intros p. apply eq_true_iff_eq.
        unfold just. rewrite orb_true_iff, bool_decide_eq_true.
        destruct p; simpl; rewrite ?bool_decide_eq_true, ?elem_of_cons; naive_solver.
      + wp_pure. apply wp_close_all; [|wp_pure; by apply woken_key].
        intros c Hc. apply (wf_open _ Hw (PKey sd mk)). simpl. by rewrite Hs.
      + intros [] r' Hw' H1. apply IH; [done..|]. intros mk' s' Hin.
        rewrite (wk_key_keep _ _ _ H1); [apply Hl; by right|].
        apply just_false. intros [= ->]. by apply Hid, (list_elem_of_fmap_2 fst _ (mk, s')). }
  eapply wp_mono; [|apply Hgen; [done|apply NoDup_fst_map_to_list|by intros ???%elem_of_map_to_list]].
  intros [] r' H. eapply woken_widen; [done| |].
  - intros [|sd' mk|]; simpl; rewrite ?bool_decide_eq_true; naive_solver.
  - intros [|sd' mk|] Hp Hn; try done. simpl in *.
    apply bool_decide_eq_true in Hp as ->. apply bool_decide_eq_false in Hn.
    split; [|done]. destruct (ms_waiters (get_mod sd r) !! mk) as [s|] eqn:Hs; [|done].
    destruct Hn. split; [done|]. by apply (list_elem_of_fmap_2 fst _ (mk, s)), elem_of_map_to_list.
Qed.

Lemma wp_WakeAllInternal r :
  registry_wf r → wp WakeAllInternal (λ _ r', woken (λ _, true) r r') r.
Proof.
  intros Hw. eapply wp_mono.
  2:{ apply wp_woken_seq; [done|by apply wp_wakeAllPub|intros _ r1 Hw1 _].
      apply wp_woken_seq; [done|by apply wp_wakeAllKeys|intros _ r2 Hw2 _].
      apply wp_woken_seq; [done|by apply wp_wakeAllKeys|intros _ r3 Hw3 _].
      apply wp_woken_seq; [done|by apply wp_wakeAny|intros _ r4 Hw4 _; by apply wp_wakeAny]. }
  cbn beta. intros [] r' H. eapply woken_ext, H. intros p. unfold just.
  by destruct p as [|[]|[]]; simpl.
Qed.

(** ** Registering *)

(** The fresh channel [c] is registered at [p] and nothing else changes. *)
Record awaited (p : place) (c : chan) (r r' : registry) : Prop := {
  aw_chan : c = next_id r;
  aw_next : next_id r' = S (next_id r);
  aw_closed : closed r' = closed r;
  aw_at : ∀ p', at_place p' r' = if decide (p' = p) then {[c]} ∪ at_place p r else at_place p' r }.

Lemma awaited_wf p c r r' : registry_wf r → awaited p c r r' → registry_wf r'.
Proof.
  intros Hw [-> Hn Hc Hat].
  assert (Hin : ∀ p' c, c ∈ at_place p' r' → c ∈ at_place p' r ∨ c = next_id r ∧ p' = p).
  { intros p' c. rewrite Hat. case_decide; set_solver. }
  assert (Hfresh : ∀ p', next_id r ∉ at_place p' r).
  { intros p' Hp. apply (wf_fresh _ Hw) in Hp. lia. }
  split; rewrite ?Hn, ?Hc.
  - intros p' c [?%(wf_fresh _ Hw)|[-> _]]%Hin; lia.
  - intros p' c [?%(wf_open _ Hw)|[-> _]]%Hin; [done|].
    intros ?%(wf_closed _ Hw). lia.
  - intros p1 p2 c [H1|[E1 ->]]%Hin [H2|[E2 ->]]%Hin; subst; try done.
    + by eapply (wf_once _ Hw).
    + by apply Hfresh in H1.
    + by apply Hfresh in H2.
  - intros c ?%(wf_closed _ Hw). lia.
Qed.

Lemma wp_PublishAwaiter id r : wp (PublishAwaiter id) (λ c r', awaited (PPub id) c r r') r.
Proof.
  unfold wp. simpl. split; [done..|]. intros [id'|[]|[]]; case_decide; simplify_eq/=; try done.
  - by rewrite lookup_insert_eq.
  - rewrite lookup_insert_ne; [done|congruence].
Qed.

Lemma wp_ModifiedAwaiter sd id name r :
  wp (ModifiedAwaiter sd id name) (λ c r', awaited (PKey sd (id, name)) c r r') r.
Proof.
  unfold wp. simpl. split; [done|by destruct sd..|].
  intros [id'|[] mk|[]]; case_decide; destruct sd; simplify_eq/=; try done;
    first [by rewrite lookup_insert_eq | rewrite lookup_insert_ne; [done|congruence]].
Qed.

Lemma wp_AnyModifiedAwaiter sd r :
  wp (AnyModifiedAwaiter sd) (λ c r', awaited (PAny sd) c r r') r.
Proof.
  unfold wp. simpl. split; [done|by destruct sd..|].
  by intros [id'|[] mk|[]]; case_decide; destruct sd; simplify_eq/=.
Qed.

(** The channels in [cs] are no longer registered at [p]. *)
Record cancelled (p : place) (c : chan) (r r' : registry) : Prop := {
  ca_next : next_id r' = next_id r;
  ca_closed : closed r' = closed r;
  ca_at : ∀ p', at_place p' r' = if decide (p' = p) then at_place p r ∖ {[c]} else at_place p' r }.

Lemma cancelled_wf p c r r' : registry_wf r → cancelled p c r r' → registry_wf r'.
Proof.
  intros Hw [Hn Hc Hat].
  assert (Hin : ∀ p' c, c ∈ at_place p' r' → c ∈ at_place p' r).
  { intros p' c'. rewrite Hat. case_decide; set_solver. }
  split; rewrite ?Hn, ?Hc.
  - intros p' c' ?%Hin. by eapply (wf_fresh _ Hw).
  - intros p' c' ?%Hin. by eapply (wf_open _ Hw).
  - intros p1 p2 c' ?%Hin ?%Hin. by eapply (wf_once _ Hw).
  - apply Hw.
Qed.

Lemma wp_CancelPublishAwaiter id c r :
  wp (CancelPublishAwaiter id (Some c)) (λ _ r', cancelled (PPub id) c r r') r.
Proof.
  unfold wp. simpl. split; [done..|]. intros [id'|[]|[]]; case_decide; simplify_eq/=; try done.
  - rewrite lookup_alter_eq. destruct (pubWaiters r !! id); simpl; set_solver.
  - rewrite lookup_alter_ne; [done|congruence].
Qed.

Lemma wp_CancelModifiedAwaiter sd id name c r :
  wp (CancelModifiedAwaiter sd id name (Some c)) (λ _ r', cancelled (PKey sd (id, name)) c r r') r.
Proof.
  unfold wp. simpl. split; [by destruct sd..|].
  intros [id'|[] mk|[]]; case_decide; destruct sd; simplify_eq/=; try done;
    first [rewrite lookup_alter_eq | by (rewrite lookup_alter_ne; [done|congruence])];
    destruct (ms_waiters _ !! _); simpl; set_solver.
Qed.

Lemma wp_CancelAnyModifiedAwaiter sd c r :
  wp (CancelAnyModifiedAwaiter sd (Some c)) (λ _ r', cancelled (PAny sd) c r r') r.
Proof.
  unfold wp. simpl. split; [by destruct sd..|].
  by intros [id'|[] mk|[]]; case_decide; destruct sd; simplify_eq/=.
Qed.

(** ** The effect of any operation *)

Definition op_wakes (o : nop) (p : place) : Prop :=
  match o with
  | OpWakePublish _ ids => ∃ id, id ∈ ids ∧ p = PPub id
  | OpWakeModify sd _ id name => listeners sd id name p = true
  | OpWakeAll => True
  | _ => False
  end.

Definition op_cancels (o : nop) (p : place) (c : chan) : Prop :=
  match o with
  | OpCancelPublish id c' => c' = Some c ∧ p = PPub id
  | OpCancelModified sd id name c' => c' = Some c ∧ p = PKey sd (id, name)
  | OpCancelAny sd c' => c' = Some c ∧ p = PAny sd
  | _ => False
  end.

Record op_effect (o : nop) (r r' : registry) : Prop := {
  oe_wf : registry_wf r';
  oe_next : (next_id r ≤ next_id r')%nat;
  oe_mono : closed r ⊆ closed r';
  oe_keep : ∀ p c, c ∈ at_place p r →
    c ∈ at_place p r' ∨ op_wakes o p ∧ c ∈ closed r' ∨ op_cancels o p c;
  oe_closed : ∀ c, c ∈ closed r' → c ∈ closed r ∨ ∃ p, op_wakes o p ∧ c ∈ at_place p r;
  oe_new : ∀ p c, c ∈ at_place p r' → c ∈ at_place p r ∨ c = next_id r }.

Lemma woken_effect o P r r' :
  registry_wf r → woken P r r' → (∀ p, P p = true → op_wakes o p) → op_effect o r r'.
Proof.
  intros Hw H HP. split.
  - by eapply woken_wf.
  - by rewrite (wk_next _ _ _ H).
  - intros c. rewrite (wk_closed _ _ _ H). by left.
  - intros p c Hc. destruct (P p) eqn:Hp.
    + right. left. split; [by apply HP|]. rewrite (wk_closed _ _ _ H). eauto.
    + left. by rewrite (wk_keep _ _ _ H).
  - intros c. rewrite (wk_closed _ _ _ H). naive_solver.
  - intros p c. destruct (P p) eqn:Hp.
    + rewrite (wk_empty _ _ _ H) by done. set_solver.
    + rewrite (wk_keep _ _ _ H) by done. by left.
Qed.

Lemma awaited_effect o p c r r' : registry_wf r → awaited p c r r' → op_effect o r r'.
Proof.
  intros Hw H. pose proof (awaited_wf _ _ _ _ Hw H). destruct H as [-> Hn Hc Hat].
  split; rewrite ?Hn, ?Hc; try done; [lia|..].
  - intros p' c. rewrite Hat. case_decide; set_solver.
  - by left.
  - intros p' c. rewrite Hat. case_decide; set_solver.
Qed.

Lemma cancelled_effect o p c r r' :
  registry_wf r → cancelled p c r r' → op_cancels o p c → op_effect o r r'.
Proof.
  intros Hw H Ho. pose proof (cancelled_wf _ _ _ _ Hw H). destruct H as [Hn Hc Hat].
  split; rewrite ?Hn, ?Hc; try done.
  - intros p' c'. rewrite Hat. case_decide; [|set_solver]. subst.
    destruct (decide (c' = c)) as [->|]; [naive_solver|]. set_solver.
  - by left.
  - intros p' c'. rewrite Hat. case_decide; set_solver.
Qed.

(** The registry changes only in its hooks, the calls made to them, and the counter. *)
Lemma hooks_effect o r r' :
  registry_wf r → (next_id r ≤ next_id r')%nat → closed r' = closed r →
  (∀ p, at_place p r' = at_place p r) → op_effect o r r'.
Proof.
  intros Hw Hn Hc Hat. split.
  - split.
    + intros p c. rewrite Hat. intros ?%(wf_fresh _ Hw). lia.
    + intros p c. rewrite Hat, Hc. apply Hw.
    + intros p p' c. rewrite !Hat. apply Hw.
    + intros c. rewrite Hc. intros ?%(wf_closed _ Hw). lia.
  - done.
  - by rewrite Hc.
  - intros p c. rewrite Hat. by left.
  - intros c. rewrite Hc. by left.
  - intros p c. rewrite Hat. by left.
Qed.

Lemma calls_wf l r : registry_wf r → registry_wf (set_calls r l).
Proof. by intros []. Qed.

Lemma calls_effect o l r r' : op_effect o (set_calls r l) r' → op_effect o r r'.
Proof. by intros []. Qed.

Lemma op_effect_refl o r : registry_wf r → op_effect o r r.
Proof. intros. by apply hooks_effect. Qed.

Lemma run_op_effect o r : registry_wf r → wp (run_op o) (λ _ r', op_effect o r r') r.
Proof.
  intros Hw. destruct o as [|h|sd|sd h|oi ids|sd oi id name| |id|id c|sd id name|sd id name c|sd|sd c];
    simpl.
  - unfold wp; simpl. apply hooks_effect; simpl; auto.
  - unfold wp; simpl. apply hooks_effect; simpl; auto.
  - unfold wp; simpl. destruct sd; (apply hooks_effect; simpl; auto; try by intros [|[]|[]]).
  - unfold wp; simpl. destruct sd; (apply hooks_effect; simpl; auto; try by intros [|[]|[]]).
  - assert (Hs : ∀ r, registry_wf r → wp (wakeSubs ids) (λ _ r', op_effect (OpWakePublish oi ids) r r') r).
    { intros r0 Hw0. eapply wp_mono, wp_wakeSubs_some; [|done]. intros [] r' (P & HP & ?).
      by eapply woken_effect. }
    unfold WakePublishListeners. wp_pure. destruct oi; [by apply Hs|]. wp_pure.
    case_decide.
    + eapply wp_mono, Hs, calls_wf, Hw. intros [] r'. apply calls_effect.
    + apply wp_ret. apply hooks_effect; auto.
  - assert (Hs : ∀ r, registry_wf r → wp (forM [(id, name); (id, EmptyString); (uuid_nil, name)]
      (wakeKey sd) ≫= λ _, wakeAny sd) (λ _ r', op_effect (OpWakeModify sd oi id name) r r') r).
    { intros r0 Hw0. eapply wp_mono, wp_wakeListeners; [|done]. intros [] r' ?.
      by eapply woken_effect. }
    unfold wakeModifyListeners. wp_pure. destruct oi; [by apply Hs|]. apply wp_bind, wp_modify.
    case_decide.
    + eapply wp_mono, Hs, calls_wf, Hw. intros [] r'. apply calls_effect.
    + apply wp_ret. apply hooks_effect; auto.
  - eapply wp_mono, wp_WakeAllInternal; [|done]. cbn beta. intros [] r' ?. by eapply woken_effect.
  - apply wp_bind. eapply wp_mono, wp_PublishAwaiter. cbn beta. intros c r' ?.
    apply wp_ret. by eapply awaited_effect.
  - destruct c as [c|]; [|by apply wp_ret, op_effect_refl].
    eapply wp_mono, wp_CancelPublishAwaiter. cbn beta. intros [] r' ?. by eapply cancelled_effect.
  - apply wp_bind. eapply wp_mono, wp_ModifiedAwaiter. cbn beta. intros c r' ?.
    apply wp_ret. by eapply awaited_effect.
  - destruct c as [c|]; [|by apply wp_ret, op_effect_refl].
    eapply wp_mono, wp_CancelModifiedAwaiter. cbn beta. intros [] r' ?. by eapply cancelled_effect.
  - apply wp_bind. eapply wp_mono, wp_AnyModifiedAwaiter. cbn beta. intros c r' ?.
    apply wp_ret. by eapply awaited_effect.
  - destruct c as [c|]; [|by apply wp_ret, op_effect_refl].
    eapply wp_mono, wp_CancelAnyModifiedAwaiter. cbn beta. intros [] r' ?. by eapply cancelled_effect.
Qed.

Lemma empty_registry_wf : registry_wf empty_registry.
Proof. split; [intros [|[]|[]]|intros [|[]|[]]|intros [|[]|[]]|]; set_solver. Qed.

Lemma wp_run_ops os r : registry_wf r → wp (run_ops os) (λ _, registry_wf) r.
Proof.
  revert r. induction os as [|o os IH]; intros r Hw; [by apply wp_ret|].
  apply wp_bind. eapply wp_mono, run_op_effect, Hw. intros [] r' H. apply IH, H.
Qed.

(** ** Properties *)

(** Whatever goroutines call, in whatever order the mutex serialises
    the calls, no channel is ever closed twice (which would panic the process), and every
    registered channel is still open and registered in one place only. *)
Theorem run_ops_never_panics os :
  ∃ r, run_ops os empty_registry = Ok ((), r) ∧ registry_wf r.
Proof.
  pose proof (wp_run_ops os _ empty_registry_wf) as H.
  apply wp_run in H as ([] & r & ? & ?). by exists r.
Qed.

Section FollowChannel.
Context (id : uuid) (c : chan).

(** What holds of a channel handed out by [PublishAwaiter id] and not cancelled after
    the operations [os]. *)
Definition followed (os : list nop) (r : registry) : Prop :=
  (c < next_id r)%nat ∧
  (c ∈ at_place (PPub id) r ∨ c ∈ closed r ∧ ∃ o, o ∈ os ∧ op_wakes o (PPub id)) ∧
  ∀ p, c ∈ at_place p r → p = PPub id.

Lemma followed_step o os r r' :
  registry_wf r → op_effect o r r' → ¬ op_cancels o (PPub id) c →
  followed os r → followed (os ++ [o]) r'.
Proof.
  intros Hw He Hn (Hlt & Hc & Ho). split_and!.
  - pose proof (oe_next _ _ _ He). lia.
  - destruct Hc as [Hc|(Hc & o' & ? & ?)].
    + destruct (oe_keep _ _ _ He _ _ Hc) as [?|[[??]|?]]; [by left| |done].
      right. split; [done|]. exists o. set_solver.
    + right. split; [by apply (oe_mono _ _ _ He)|]. exists o'. set_solver.
  - intros p [?| ->]%(oe_new _ _ _ He); [by apply Ho|lia].
Qed.

Lemma followed_run os2 os1 r :
  registry_wf r → followed os1 r → OpCancelPublish id (Some c) ∉ os2 →
  wp (run_ops os2) (λ _ r', registry_wf r' ∧ followed (os1 ++ os2) r') r.
Proof.
  revert os1 r. induction os2 as [|o os2 IH]; intros os1 r Hw Hf Hn.
  - apply wp_ret. by rewrite app_nil_r.
  - apply wp_bind. eapply wp_mono, run_op_effect, Hw. cbn beta. intros [] r1 He.
    rewrite (assoc_L (++) os1 [o] os2 : os1 ++ o :: os2 = _).
    apply IH; [apply He| |set_solver]. apply (followed_step _ _ r); try done.
    intros Hc. apply Hn. destruct o; simpl in Hc; destruct Hc; simplify_eq. by left.
Qed.
End FollowChannel.

(** No wakeup is lost and none is spurious: a channel [c] obtained from
    [PublishAwaiter id] in any reachable registry and never cancelled is, after any further
    calls [os2], either closed, and then one of those calls was a wake for [id], or still
    registered; and the next internal wake for [id] leaves it closed. *)
Theorem PublishAwaiter_wakeup os1 os2 id r c r1 r2 :
  run_ops os1 empty_registry = Ok ((), r) →
  PublishAwaiter id r = Ok (c, r1) →
  OpCancelPublish id (Some c) ∉ os2 →
  run_ops os2 r1 = Ok ((), r2) →
  (c ∈ closed r2 → ∃ o, o ∈ os2 ∧ op_wakes o (PPub id)) ∧
  (c ∉ closed r2 → c ∈ at_place (PPub id) r2) ∧
  ∃ r3, WakePublishListeners true [id] r2 = Ok ((), r3) ∧ c ∈ closed r3.
Proof.
  intros H0 H1 Hn H2.
  assert (Hw : registry_wf r).
  { pose proof (wp_run_ops os1 _ empty_registry_wf) as H. unfold wp in H. by rewrite H0 in H. }
  pose proof (wp_PublishAwaiter id r) as Ha. unfold wp in Ha. rewrite H1 in Ha.
  pose proof (awaited_wf _ _ _ _ Hw Ha) as Hw1.
  assert (Hf1 : followed id c [] r1).
  { destruct Ha as [-> Hnx Hcl Hat]. split_and!; [lia| |].
    - left. rewrite Hat, decide_True by done. set_solver.
    - intros p. rewrite Hat. case_decide; [done|]. intros ?%(wf_fresh _ Hw). lia. }
  pose proof (followed_run id c os2 [] r1 Hw1 Hf1 Hn) as H. unfold wp in H. rewrite H2 in H.
  destruct H as (Hw2 & _ & Hc & Ho).
  split_and!; [|naive_solver|].
  - intros Hcl. destruct Hc as [Hc|[_ ?]]; [by apply (wf_open _ Hw2) in Hc|done].
  - pose proof (wp_wakeSubs [id] r2 Hw2 ltac:(apply NoDup_singleton)) as Hwk.
    apply wp_run in Hwk as ([] & r3 & Hr3 & Hwk). exists r3. split; [done|].
    rewrite (wk_closed _ _ _ Hwk). destruct Hc as [Hc|[? _]]; [|by left].
    right. exists (PPub id). split; [|done].
    assert (watched r2 id = true) as Hwd.
    { apply bool_decide_eq_true. simpl in Hc. destruct (pubWaiters r2 !! id); [by eauto|set_solver]. }
    simpl. rewrite Hwd. apply bool_decide_eq_true. by left.
Qed.

Lemma PublishAwaiter_wakeup_witness :
  ∃ r3, WakePublishListeners true [7%N]
    (set_pubWaiters (set_next empty_registry 2) {[7%N := {[0%nat]}; 8%N := {[1%nat]}]}) = Ok ((), r3)
    ∧ 0%nat ∈ closed r3.
Proof.
  edestruct (PublishAwaiter_wakeup [] [OpPublishAwaiter 8; OpWakePublish true [9%N]] 7%N)
    as (_ & _ & H); [reflexivity|reflexivity| |reflexivity|].
  - apply not_elem_of_cons. split; [done|]. apply not_elem_of_cons. split; [done|].
    apply not_elem_of_nil.
  - exact H.
Defined.

(** Waking several subscriptions (in-process, or with no hook
    installed) closes the channels of those before the first one nobody has registered for,
    and no others: the loop returns at the first id with no entry, so the ids after it are
    not woken. *)
Theorem WakePublishListeners_prefix oi ids r :
  registry_wf r → NoDup ids → oi = true ∨ pubNotifyHooks r = ∅ →
  ∃ r', WakePublishListeners oi ids r = Ok ((), r') ∧ registry_wf r' ∧
    ∀ c, c ∈ closed r' ↔ c ∈ closed r ∨
      ∃ id, id ∈ watched_prefix (watched r) ids ∧ c ∈ at_place (PPub id) r.
Proof.
  intros Hw Hnd Hoi.
  assert (Hs : ∃ l, wp (WakePublishListeners oi ids)
    (λ _ r', woken (pub_in (watched_prefix (watched r) ids)) (set_calls r l) r') r).
  { unfold WakePublishListeners. destruct oi.
    - exists (hook_calls r). wp_pure. replace (set_calls _ _) with r by by destruct r.
      by apply wp_wakeSubs.
    - destruct Hoi as [?|Hh]; [done|]. eexists. wp_pure. rewrite decide_True by done.
      apply (wp_wakeSubs ids (set_calls r _)); [by apply calls_wf|done]. }
  destruct Hs as [l ([] & r' & Hr & H)%wp_run]. exists r'. split_and!; [done| |].
  - eapply woken_wf, H. by apply calls_wf.
  - intros c. rewrite (wk_closed _ _ _ H). simpl. split; (intros [?|Hp]; [by left|right]).
    + destruct Hp as ([id| |] & Hp & Hc); try done. apply bool_decide_eq_true in Hp. by exists id.
    + destruct Hp as (id & Hp & Hc). exists (PPub id). split; [|done]. by apply bool_decide_eq_true.
Qed.

Lemma WakePublishListeners_prefix_witness :
  let r := set_pubWaiters (set_next empty_registry 1) {[8%N := {[0%nat]}]} in
  ∃ r', WakePublishListeners true [7%N; 8%N] r = Ok ((), r') ∧ 0%nat ∉ closed r'.
Proof.
  intros r. destruct (WakePublishListeners_prefix true [7%N; 8%N] r) as (r' & H & _ & Hc).
  - pose proof (awaited_wf (PPub 8) 0%nat empty_registry r empty_registry_wf) as H. apply H.
    apply (wp_PublishAwaiter 8 empty_registry).
  - apply (bool_decide_unpack _). reflexivity.
  - by left.
  - exists r'. split; [exact H|]. rewrite Hc. intros [?|(id & Hid & _)].
    + by apply not_elem_of_empty in H0.
    + by apply elem_of_nil in Hid.
Defined.

(** Waking the listeners of a topic or subscription (in-process, or
    with no hook) closes exactly the channels registered for its id and name, its id alone,
    its name alone, or any object of its kind. *)
Theorem wakeModifyListeners_exact sd oi id name r :
  registry_wf r → oi = true ∨ ms_hooks (get_mod sd r) = ∅ →
  ∃ r', wakeModifyListeners sd oi id name r = Ok ((), r') ∧ registry_wf r' ∧
    ∀ c, c ∈ closed r' ↔ c ∈ closed r ∨
      c ∈ at_place (PKey sd (id, name)) r ∨ c ∈ at_place (PKey sd (id, EmptyString)) r ∨
      c ∈ at_place (PKey sd (uuid_nil, name)) r ∨ c ∈ at_place (PAny sd) r.
Proof.
  intros Hw Hoi.
  assert (Hs : ∃ l, wp (wakeModifyListeners sd oi id name)
    (λ _ r', woken (listeners sd id name) (set_calls r l) r') r).
  { unfold wakeModifyListeners. destruct oi.
    - exists (hook_calls r). apply wp_bind, wp_gets.
      replace (set_calls _ _) with r by by destruct r. by apply wp_wakeListeners.
    - destruct Hoi as [?|Hh]; [done|]. eexists. apply wp_bind, wp_gets, wp_bind, wp_modify.
      rewrite decide_True by done. apply (wp_wakeListeners sd id name (set_calls r _)).
      by apply calls_wf. }
  destruct Hs as [l ([] & r' & Hr & H)%wp_run]. exists r'. split_and!; [done| |].
  - eapply woken_wf, H. by apply calls_wf.
  - intros c. rewrite (wk_closed _ _ _ H).
    assert (Hat : ∀ p, at_place p (set_calls r l) = at_place p r) by by intros [|[]|[]].
    setoid_rewrite Hat. split.
    + intros [?|([|sd' mk|sd'] & Hp & Hc)]; [by left|done|..];
        apply bool_decide_eq_true in Hp; [|naive_solver].
      destruct Hp as [-> Hmk]. rewrite !elem_of_cons, elem_of_nil in Hmk. naive_solver.
    + intros [?|[?|[?|[?|?]]]]; [by left|right; eexists; split; [|done]; apply bool_decide_eq_true..].
      all: rewrite ?elem_of_cons; naive_solver.
Qed.

Lemma wakeModifyListeners_exact_witness :
  ∃ r r', AnyModifiedAwaiter TopicSide empty_registry = Ok (0%nat, r) ∧
    WakeTopicListeners false 3 "t" r = Ok ((), r') ∧ 0%nat ∈ closed r'.
Proof.
  exists (set_topicMod (set_next empty_registry 1) (MkModset ∅ ∅ ({[0%nat]} ∪ ∅))).
  destruct (wakeModifyListeners_exact TopicSide false 3 "t"
    (set_topicMod (set_next empty_registry 1) (MkModset ∅ ∅ ({[0%nat]} ∪ ∅)))) as (r' & H & _ & Hc).
  - apply (awaited_wf (PAny TopicSide) 0%nat empty_registry); [exact empty_registry_wf|].
    apply (wp_AnyModifiedAwaiter TopicSide empty_registry).
  - by right.
  - exists r'. split; [reflexivity|]. split; [exact H|]. apply Hc. right. right. right. right.
    change (0%nat ∈ ({[0%nat]} ∪ ∅ : gset chan)). apply elem_of_union_l, elem_of_singleton_2.
    reflexivity.
Defined.
