(* ===== verification/Store.v ===== *)
(** * The database and its transactions

    The five tables with the constraints of [src/ent/schema/message-bus.go] and
    [src/migrations/message-bus/*.up.sql]: primary keys, the unique [(name, live)] indexes
    (nulls are distinct), the unique snapshot name, the checks, the foreign keys, and
    [ON DELETE SET NULL] for [not_before_id] and [dead_letter_topic_id].

    A statement runs against the table's rows in an order the database chooses ([plan]).
    A transaction is a computation over [txn]: the database, the commit hooks registered so
    far, and the number of ids drawn.  [DoTx] of [src/ent/client-addons.go] commits it and
    runs the hooks, or drops it. *)

From S2P Require Import Prelude Uuid Schema Notify.

(** What the database engine and the id generator choose freely: the order of rows without an
    [ORDER BY], the ids, the text a JSON column holds of a text that is written to it
    ([None]: it is not JSON and the write fails), and the duration a column for intervals holds
    of one that is written (PostgreSQL keeps whole microseconds, SQLite all). *)
Create HintDb respects.

Class Engine := {
  plan : ∀ {A}, list A → list A;
  plan_perm : ∀ {A} (l : list A), plan l ≡ₚ l;
  new_uuid : nat → uuid;
  stored_json : string → option string;
  stored_interval : duration → duration }.

Record db := MkDb {
  topics : gmap uuid topic;
  subscriptions : gmap uuid subscription;
  messages : gmap uuid message;
  deliveries : gmap uuid delivery;
  snapshots : gmap uuid snapshot }.
Definition empty_db : db := MkDb ∅ ∅ ∅ ∅ ∅.

Definition with_topics m d := MkDb m (subscriptions d) (messages d) (deliveries d) (snapshots d).
Definition with_subscriptions m d := MkDb (topics d) m (messages d) (deliveries d) (snapshots d).
Definition with_messages m d := MkDb (topics d) (subscriptions d) m (deliveries d) (snapshots d).
Definition with_deliveries m d := MkDb (topics d) (subscriptions d) (messages d) m (snapshots d).
Definition with_snapshots m d := MkDb (topics d) (subscriptions d) (messages d) (deliveries d) m.

(** ** Tables

    [row_check], [row_unique], [row_fk]: what must hold of a row to be written.
    [restrict]: no row refers to the deleted ids.  [set_null]: the columns a delete nulls. *)
Class Table (A : Type) := {
  table : db → gmap uuid A;
  with_table : gmap uuid A → db → db;
  pk : A → uuid;
  row_check : A → Prop;
  row_unique : db → A → Prop;
  row_fk : db → A → Prop;
  restrict : db → gset uuid → Prop;
  set_null : gset uuid → db → db;
  row_check_dec :: ∀ r, Decision (row_check r);
  row_unique_dec :: ∀ d r, Decision (row_unique d r);
  row_fk_dec :: ∀ d r, Decision (row_fk d r);
  restrict_dec :: ∀ d s, Decision (restrict d s) }.

Definition option_ok {A} (P : A → Prop) (o : option A) : Prop :=
  match o with None => True | Some a => P a end.
#[export] Instance option_ok_dec {A} (P : A → Prop) `{∀ a, Decision (P a)} o : Decision (option_ok P o).
Proof. destruct o; simpl; apply _. Defined.

(** A condition on the other side of an inner join. *)
Definition joined {A} (P : A → Prop) (o : option A) : Prop :=
  match o with None => False | Some a => P a end.
#[export] Instance joined_dec {A} (P : A → Prop) `{∀ a, Decision (P a)} o : Decision (joined P o).
Proof. destruct o; simpl; apply _. Defined.

(** Two rows clash on the [(name, live)] index. *)
Definition name_live_distinct (n1 n2 : string) (l1 l2 : option bool) : Prop :=
  l1 = None ∨ n1 ≠ n2 ∨ l1 ≠ l2.
Definition null_if {A} `{EqDecision A, Countable A} (ids : gset A) (o : option A) : option A :=
  match o with Some i => if decide (i ∈ ids) then None else Some i | None => None end.

#[local] Obligation Tactic := intros; simpl; unfold name_live_distinct; apply _.

#[export] Program Instance topic_table : Table topic := {|
  table := topics; with_table := with_topics; pk := t_id;
  row_check t := live_ok (t_live t) (t_deletedAt t);
  row_unique d t := map_Forall (λ k t', k = t_id t ∨
    name_live_distinct (t_name t) (t_name t') (t_live t) (t_live t')) (topics d);
  row_fk d t := True;
  restrict d ids :=
    map_Forall (λ _ s, s_topicID s ∉ ids) (subscriptions d) ∧
    map_Forall (λ _ m, m_topicID m ∉ ids) (messages d) ∧
    map_Forall (λ _ n, n_topicID n ∉ ids) (snapshots d);
  set_null ids d := with_subscriptions ((λ s,
    sub_set_deadLetterTopicID (null_if ids (s_deadLetterTopicID s)) s) <$> subscriptions d) d |}.

#[export] Program Instance subscription_table : Table subscription := {|
  table := subscriptions; with_table := with_subscriptions; pk := s_id;
  row_check s := live_ok (s_live s) (s_deletedAt s) ∧
    option_ok (λ n, 0 ≤ n) (s_maxDeliveryAttempts s);
  row_unique d s := map_Forall (λ k s', k = s_id s ∨
    name_live_distinct (s_name s) (s_name s') (s_live s) (s_live s')) (subscriptions d);
  row_fk d s := is_Some (topics d !! s_topicID s) ∧
    option_ok (λ i, is_Some (topics d !! i)) (s_deadLetterTopicID s);
  restrict d ids := map_Forall (λ _ e, d_subscriptionID e ∉ ids) (deliveries d);
  set_null ids d := d |}.

#[export] Program Instance message_table : Table message := {|
  table := messages; with_table := with_messages; pk := m_id;
  row_check m := True; row_unique d m := True;
  row_fk d m := is_Some (topics d !! m_topicID m);
  restrict d ids := map_Forall (λ _ e, d_messageID e ∉ ids) (deliveries d);
  set_null ids d := d |}.

#[export] Program Instance delivery_table : Table delivery := {|
  table := deliveries; with_table := with_deliveries; pk := d_id;
  row_check e := True; row_unique d e := True;
  row_fk d e := is_Some (messages d !! d_messageID e) ∧
    is_Some (subscriptions d !! d_subscriptionID e) ∧
    option_ok (λ i, is_Some (deliveries d !! i)) (d_notBeforeID e);
  restrict d ids := True;
  set_null ids d := with_deliveries ((λ e,
    del_set_notBeforeID (null_if ids (d_notBeforeID e)) e) <$> deliveries d) d |}.

#[export] Program Instance snapshot_table : Table snapshot := {|
  table := snapshots; with_table := with_snapshots; pk := n_id;
  row_check n := True;
  row_unique d n := map_Forall (λ k n', k = n_id n ∨ n_name n ≠ n_name n') (snapshots d);
  row_fk d n := is_Some (topics d !! n_topicID n);
  restrict d ids := True; set_null ids d := d |}.

(** ** Transactions *)

(** A commit hook, by the wakes it performs. *)
Inductive hook :=
  | NotifyPublish (subIDs : list uuid)      (* one call for all of them *)
  | NotifyEach (subIDs : list uuid)         (* one call each *)
  | NotifyTopic (id : uuid) (name : string)
  | NotifySubscription (id : uuid) (name : string).

Record txn := MkTxn { tx_db : db; tx_hooks : list hook; tx_fresh : nat }.
Definition with_db (d : db) (t : txn) : txn := MkTxn d (tx_hooks t) (tx_fresh t).

Definition Tx := M txn.

Section Statements.
Context {E : Engine}.

Definition uuid_New : Tx uuid := λ t,
  Ok (new_uuid (tx_fresh t), MkTxn (tx_db t) (tx_hooks t) (S (tx_fresh t))).
Definition OnCommit (h : hook) : Tx () :=
  modify (λ t, MkTxn (tx_db t) (tx_hooks t ++ [h]) (tx_fresh t)).

Context {A : Type} {T : Table A}.

(** The rows that satisfy [P], in the order the engine chose. *)
Definition rows_where (P : A → Prop) `{∀ x, Decision (P x)} (d : db) : list A :=
  filter P (plan (map_to_list (table d)).*2).
Definition All (P : A → Prop) `{∀ x, Decision (P x)} : Tx (list A) :=
  gets (λ t, rows_where P (tx_db t)).
Definition Exist (P : A → Prop) `{∀ x, Decision (P x)} : Tx bool :=
  gets (λ t, match rows_where P (tx_db t) with [] => false | _ => true end).

Definition only (l : list A) : outcome A :=
  match l with [] => Err EntNotFound | [x] => Ok x | _ => Err EntNotSingular end.
Definition first (l : list A) : outcome A :=
  match l with [] => Err EntNotFound | x :: _ => Ok x end.
Definition Only (P : A → Prop) `{∀ x, Decision (P x)} : Tx A :=
  All P ≫= λ l, lift (only l).
Definition Get (id : uuid) : Tx A := Only (λ r, pk r = id).

Definition row_error (d : db) (r : A) : option error :=
  if decide (row_check r) then
    if decide (row_unique d r) then
      if decide (row_fk d r) then None else Some SqlForeignKey
    else Some SqlUnique
  else Some (ErrOther "check constraint").

(** Write one row, replacing the row with its key if there is one. *)
Definition put (r : A) : Tx () := λ t,
  match row_error (tx_db t) r with
  | Some e => Err e
  | None => Ok ((), with_db (with_table (<[pk r := r]> (table (tx_db t))) (tx_db t)) t)
  end.

Definition Create (r : A) : Tx () :=
  gets (λ t, table (tx_db t) !! pk r) ≫= λ old,
  match old with Some _ => fail SqlUnique | None => put r end.

(** [UPDATE ... SET f WHERE P]: the rows are chosen, then changed one by one. *)
Definition Update (P : A → Prop) `{∀ x, Decision (P x)} (f : A → A) : Tx nat :=
  All P ≫= λ rs, forM rs (λ r, put (f r)) ≫= λ _, mret (length rs).
(** [UpdateOneID(id)]: not found unless the row exists. *)
Definition UpdateOneID (id : uuid) (f : A → A) : Tx () :=
  gets (λ t, table (tx_db t) !! id) ≫= λ old,
  match old with Some r => put (f r) | None => fail EntNotFound end.

Definition delete_ids (ids : gset uuid) (d : db) : db :=
  set_null ids (with_table (filter (λ kr, kr.1 ∉ ids) (table d)) d).
Definition Delete (P : A → Prop) `{∀ x, Decision (P x)} : Tx nat :=
  All P ≫= λ rs,
  gets tx_db ≫= λ d,
  let ids := list_to_set (pk <$> rs) : gset uuid in
  if decide (restrict d ids) then
    modify (with_db (delete_ids ids d)) ≫= λ _, mret (length rs)
  else fail SqlForeignKey.

(** A create or update of topics or subscriptions goes through the schema's hook. *)
Definition hooked {B} (m : mutation) (body : Tx B) : Tx B :=
  match checkLiveOrDeleted m with Some e => fail e | None => body end.
End Statements.

Definition soft_delete_mutation (at_ : time) : mutation := MkMutation OpUpdate Clear (Set_ at_).
Definition create_mutation : mutation := MkMutation OpCreate (Set_ true) Keep.
Definition other_mutation : mutation := MkMutation OpUpdate Keep Keep.

(** ** Running a transaction *)

Record world := MkWorld { w_db : db; w_reg : registry; w_fresh : nat }.
Definition empty_world : world := MkWorld empty_db empty_registry 0.

Definition run_hook (h : hook) : Reg () :=
  match h with
  | NotifyPublish subIDs => WakePublishListeners false subIDs
  | NotifyEach subIDs => forM subIDs (λ s, WakePublishListeners false [s])
  | NotifyTopic id name => WakeTopicListeners false id name
  | NotifySubscription id name =>
      WakeSubscriptionListeners false id name ≫= λ _, WakePublishListeners true [id]
  end.

(** [tx.Commit]: the hooks are wrapped around the commit so that the first registered is the
    outermost; each acts after the commit it wraps, so they act in reverse order, and only
    if the commit succeeded. *)
Definition run_hooks (hooks : list hook) : Reg () := forM (reverse hooks) run_hook.

(** [DoTx]: [committed] is what the database answers to [COMMIT].  The result is the
    caller's error and the world left behind.  A panic inside is re-raised after the
    deferred rollback. *)
Definition DoTx {A} (committed : outcome ()) (inner : Tx A) (w : world) : outcome A * world :=
  let rolled_back := MkWorld (w_db w) (w_reg w) (S (w_fresh w)) in
  match inner (MkTxn (w_db w) [] (w_fresh w)) with
  | Ok (a, t) =>
      match committed with
      | Ok _ =>
          let committed_world r := MkWorld (tx_db t) r (tx_fresh t) in
          match run_hooks (tx_hooks t) (w_reg w) with
          | Ok (_, r) => (Ok a, committed_world r)
          | Err e => (Err e, committed_world (w_reg w))
          | Panic p => (Panic p, committed_world (w_reg w))
          end
      | Err e => (Err e, rolled_back)
      | Panic p => (Panic p, rolled_back)
      end
  | Err e => (Err e, rolled_back)
  | Panic p => (Panic p, rolled_back)
  end.

(** [src/db/postgres/error-codes.go] *)
Definition DeadlockDetected : string := "40P01".
Definition RetryOnErrorCode (sqlstate : string) (codes : list string) (e : error) : bool :=
  match e with PgError c => bool_decide (c ∈ sqlstate :: codes) | _ => false end.

(** [DoCtxTxRetry]: one answer of the database per round; [retry] looks at the error. *)
Fixpoint DoCtxTxRetry {A} (rounds : list (outcome ())) (inner : Tx A) (retry : error → bool)
    (w : world) : option (outcome A * world) :=
  match rounds with
  | [] => None
  | committed :: rounds =>
      let '(res, w') := DoTx committed inner w in
      match res with
      | Err e => if retry e then DoCtxTxRetry rounds inner retry w' else Some (Err e, w')
      | _ => Some (res, w')
      end
  end.

(** ** Well-formed databases *)

Record table_wf {A} `{Table A} (d : db) : Prop := {
  tw_key : ∀ k (r : A), table d !! k = Some r → pk r = k;
  tw_check : ∀ k (r : A), table d !! k = Some r → row_check r;
  tw_unique : ∀ k (r : A), table d !! k = Some r → row_unique d r;
  tw_fk : ∀ k (r : A), table d !! k = Some r → row_fk d r }.
Arguments table_wf A {_} d.

(** Every stored row satisfies the constraints of its table in the database as it is. *)
Record db_wf (d : db) : Prop := {
  wf_topics : table_wf topic d;
  wf_subscriptions : table_wf subscription d;
  wf_messages : table_wf message d;
  wf_deliveries : table_wf delivery d;
  wf_snapshots : table_wf snapshot d }.

(** The same, decided row by row. *)
Definition table_wf_b (A : Type) `{Table A} (d : db) : bool :=
  bool_decide (map_Forall (λ k (r : A),
    pk r = k ∧ row_check r ∧ row_unique d r ∧ row_fk d r) (table d)).
Definition db_wf_b (d : db) : bool :=
  table_wf_b topic d && table_wf_b subscription d && table_wf_b message d &&
  table_wf_b delivery d && table_wf_b snapshot d.

Lemma table_wf_b_sound A `{Table A} d : table_wf_b A d = true → table_wf A d.
Proof.
  intros Hb%bool_decide_eq_true. split; intros k r Hr; destruct (Hb k r Hr) as (? & ? & ? & ?); done.
Qed.
Lemma db_wf_b_sound d : db_wf_b d = true → db_wf d.
Proof.
  intros [[[[??]%andb_true_iff ?]%andb_true_iff ?]%andb_true_iff ?]%andb_true_iff.
  split; by apply table_wf_b_sound.
Qed.

Lemma empty_db_wf : db_wf empty_db.
Proof. by split; split. Qed.

(** [d'] has every referenced row [d] has. *)
Record grows (d d' : db) : Prop := {
  gr_topics : ∀ k, is_Some (topics d !! k) → is_Some (topics d' !! k);
  gr_subscriptions : ∀ k, is_Some (subscriptions d !! k) → is_Some (subscriptions d' !! k);
  gr_messages : ∀ k, is_Some (messages d !! k) → is_Some (messages d' !! k);
  gr_deliveries : ∀ k, is_Some (deliveries d !! k) → is_Some (deliveries d' !! k) }.

Section Fk.
Context (d d' : db) (G : grows d d').

Lemma option_ok_impl {A} (P Q : A → Prop) o :
  (∀ a, P a → Q a) → option_ok P o → option_ok Q o.
Proof. destruct o; simpl; auto. Qed.

Lemma fk_grows_sub (s : subscription) : row_fk d s → row_fk d' s.
Proof. intros [? H]. split; [by apply G|]. eapply option_ok_impl, H. apply G. Qed.
Lemma fk_grows_msg (m : message) : row_fk d m → row_fk d' m.
Proof. apply G. Qed.
Lemma fk_grows_del (e : delivery) : row_fk d e → row_fk d' e.
Proof.
  intros (? & ? & H). split_and!; [by apply G|by apply G|]. eapply option_ok_impl, H. apply G.
Qed.
Lemma fk_grows_snap (n : snapshot) : row_fk d n → row_fk d' n.
Proof. apply G. Qed.
End Fk.

Lemma is_Some_insert {A} (m : gmap uuid A) i x k :
  is_Some (m !! k) → is_Some (<[i := x]> m !! k).
Proof. rewrite lookup_insert_is_Some'. by right. Qed.
#[export] Hint Resolve is_Some_insert fk_grows_sub fk_grows_msg fk_grows_del fk_grows_snap : mmmbbb.

(** Every row of the new table comes from a row of the old one. *)
Lemma table_wf_from {A} `{Table A} (d d' : db) :
  (∀ k (r' : A), table d' !! k = Some r' → ∃ r, table d !! k = Some r ∧ pk r' = pk r ∧
    (row_check r → row_check r') ∧ (row_unique d r → row_unique d' r') ∧
    (row_fk d r → row_fk d' r')) →
  table_wf A d → table_wf A d'.
Proof.
  intros Hf [Wk Wc Wu Wf]. split; intros k r' (r & Hr & Hpk & ? & ? & ?)%Hf; eauto.
  rewrite Hpk. eauto.
Qed.

(** Tables whose map is the same are as well-formed as before, if references still hold. *)
Lemma table_wf_same {A} `{Table A} (d d' : db) :
  table d' = table d → (∀ r : A, row_unique d r → row_unique d' r) →
  (∀ r : A, row_fk d r → row_fk d' r) → table_wf A d → table_wf A d'.
Proof.
  intros Ht Hu Hf [Hk Hc Hun Hfk]. split; intros k r; rewrite Ht; intros Hr; eauto.
Qed.

(** The table that was written: the new row was checked, the others stay unique next to it. *)
Lemma table_wf_put {A} `{Table A} (d d' : db) (r : A) :
  table d' = <[pk r := r]> (table d) →
  row_check r → row_unique d' r → row_fk d' r →
  (∀ x : A, table d !! pk x = Some x → pk x ≠ pk r → row_unique d x → row_unique d' x) →
  (∀ x : A, row_fk d x → row_fk d' x) → table_wf A d → table_wf A d'.
Proof.
  intros Ht Hc Hu Hf Hus Hfs [Wk Wc Wu Wf].
  split; intros k x; rewrite Ht, lookup_insert_Some; intros [[<- <-]|[Hne Hx]]; eauto.
  pose proof (Wk _ _ Hx). subst k. apply Hus; eauto.
Qed.

Lemma row_error_None {A} `{Table A} d (r : A) :
  row_error d r = None ↔ row_check r ∧ row_unique d r ∧ row_fk d r.
Proof. unfold row_error. repeat case_decide; naive_solver. Qed.

Lemma put_run {A} `{Table A} (r : A) t u t' :
  put r t = Ok (u, t') ↔ row_error (tx_db t) r = None ∧
    t' = with_db (with_table (<[pk r := r]> (table (tx_db t))) (tx_db t)) t.
Proof. unfold put. destruct u, (row_error (tx_db t) r); naive_solver. Qed.

Lemma name_live_distinct_sym n1 n2 l1 l2 :
  name_live_distinct n1 n2 l1 l2 → name_live_distinct n2 n1 l2 l1.
Proof. unfold name_live_distinct. destruct l2; naive_solver. Qed.

(** What a table promises to the generic statements: a checked write keeps the database
    well-formed, and so does an unrestricted delete. *)
Class TableLaws (A : Type) `{Table A} := {
  table_with : ∀ (d : db) (m : gmap uuid A), table (with_table m d) = m;
  with_with : ∀ (d : db) (m m' : gmap uuid A), with_table m' (with_table m d) = with_table m' d;
  with_same : ∀ (d : db), with_table (table d) d = d;
  wf_table : ∀ (d : db), db_wf d → table_wf A d;
  put_keeps_wf : ∀ (d : db) (r : A), db_wf d → row_error d r = None →
    db_wf (with_table (<[pk r := r]> (table d)) d);
  delete_keeps_wf : ∀ (d : db) (ids : gset uuid), db_wf d → restrict d ids →
    db_wf (delete_ids ids d) }.

Ltac row_kept r := exists r; split_and!; try done; try (let H := fresh in intros H; exact H).
Ltac other_table :=
  eapply table_wf_same; [| | |eassumption]; [reflexivity|by intros ?|solve [by intros ?|eauto with mmmbbb]].

#[export] Instance topic_laws : TableLaws topic.
Proof.
  split; [done|done|by intros []|by intros d []|..].
  - intros d r W (Hc & Hu & Hf)%row_error_None. set (d' := with_table _ d).
    assert (G : grows d d') by (split; simpl; auto with mmmbbb).
    destruct W as [Wt Ws Wm We Wn]. split; [|other_table..].
    eapply table_wf_put; eauto.
    + intros k t'. simpl. rewrite lookup_insert_Some. intros [[<- <-]|[? ?]]; [by left|by apply Hu].
    + intros x Hx Hne Hux k t'. simpl. rewrite lookup_insert_Some.
      intros [[<- <-]|[? ?]]; [|by apply Hux]. right.
      destruct (Hu _ _ Hx) as [?|?]; [done|]. by apply name_live_distinct_sym.
  - intros d ids W (Hs & Hm & Hn). set (ts := filter (λ kr, kr.1 ∉ ids) (topics d)).
    assert (Hts : ∀ k, k ∉ ids → is_Some (topics d !! k) → is_Some (ts !! k)).
    { intros k Hk [t Ht]. exists t. by apply map_lookup_filter_Some. }
    destruct W as [Wt Ws Wm We Wn]. split; (eapply table_wf_from; [|eassumption]); intros k r Hr.
    + apply map_lookup_filter_Some in Hr as [Hr _]. row_kept r.
      intros Hu k' r'. simpl. intros [Hr' _]%map_lookup_filter_Some. by apply (Hu k').
    + apply lookup_fmap_Some in Hr as (s & <- & Hr). exists s. split_and!; try done.
      * intros Hu k' s'. simpl. rewrite lookup_fmap_Some. intros (s1 & <- & Hs1). exact (Hu k' s1 Hs1).
      * intros [H1 H2]. split; [apply Hts; [by apply (Hs _ _ Hr)|done]|].
        simpl. destruct (s_deadLetterTopicID s) as [i|]; simpl in *; [|done].
        case_decide; simpl; [done|]. by apply Hts.
    + row_kept r. intros ?. apply Hts; [by apply (Hm _ _ Hr)|done].
    + row_kept r. intros (? & ? & ?). split_and!; try done.
      simpl. by rewrite lookup_fmap, fmap_is_Some.
    + row_kept r. intros ?. apply Hts; [by apply (Hn _ _ Hr)|done].
Qed.

#[export] Instance subscription_laws : TableLaws subscription.
Proof.
  split; [done|done|by intros []|by intros d []|..].
  - intros d r W (Hc & Hu & Hf)%row_error_None. set (d' := with_table _ d).
    assert (G : grows d d') by (split; simpl; auto with mmmbbb).
    destruct W as [Wt Ws Wm We Wn]. split; [other_table| |other_table..].
    eapply table_wf_put; eauto with mmmbbb.
    + intros k t'. simpl. rewrite lookup_insert_Some. intros [[<- <-]|[? ?]]; [by left|by apply Hu].
    + intros x Hx Hne Hux k t'. simpl. rewrite lookup_insert_Some.
      intros [[<- <-]|[? ?]]; [|by apply Hux]. right.
      destruct (Hu _ _ Hx) as [?|?]; [done|]. by apply name_live_distinct_sym.
  - intros d ids W He. destruct W as [Wt Ws Wm We Wn].
    split; (eapply table_wf_from; [|eassumption]); intros k r Hr.
    + row_kept r.
    + apply map_lookup_filter_Some in Hr as [Hr _]. row_kept r.
      intros Hu k' r'. simpl. intros [Hr' _]%map_lookup_filter_Some. by apply (Hu k').
    + row_kept r.
    + row_kept r. intros (? & [s Hs] & ?). split_and!; try done.
      exists s. apply map_lookup_filter_Some. split; [done|]. by apply (He _ _ Hr).
    + row_kept r.
Qed.

#[export] Instance message_laws : TableLaws message.
Proof.
  split; [done|done|by intros []|by intros d []|..].
  - intros d r W (Hc & Hu & Hf)%row_error_None. set (d' := with_table _ d).
    assert (G : grows d d') by (split; simpl; auto with mmmbbb).
    destruct W as [Wt Ws Wm We Wn]. split; [other_table|other_table| |other_table..].
    eapply table_wf_put; eauto with mmmbbb.
  - intros d ids W He. destruct W as [Wt Ws Wm We Wn].
    split; (eapply table_wf_from; [|eassumption]); intros k r Hr;
      try apply map_lookup_filter_Some in Hr as [Hr _]; row_kept r.
    intros ([m Hm] & ? & ?). split_and!; try done.
    exists m. apply map_lookup_filter_Some. split; [done|]. by apply (He _ _ Hr).
Qed.

#[export] Instance delivery_laws : TableLaws delivery.
Proof.
  split; [done|done|by intros []|by intros d []|..].
  - intros d r W (Hc & Hu & Hf)%row_error_None. set (d' := with_table _ d).
    assert (G : grows d d') by (split; simpl; auto with mmmbbb).
    destruct W as [Wt Ws Wm We Wn]. split; [other_table..| |other_table].
    eapply table_wf_put; eauto with mmmbbb.
  - intros d ids W _. destruct W as [Wt Ws Wm We Wn].
    split; (eapply table_wf_from; [|eassumption]); intros k r Hr; try (row_kept r; done).
    apply lookup_fmap_Some in Hr as (e & <- & [Hr _]%map_lookup_filter_Some).
    exists e. split_and!; try done. intros (? & ? & H). split_and!; try done.
    simpl. destruct (d_notBeforeID e) as [i|]; simpl in *; [|done].
    case_decide; simpl; [done|]. rewrite lookup_fmap, fmap_is_Some.
    destruct H as [e' He']. exists e'. by apply map_lookup_filter_Some.
Qed.

#[export] Instance snapshot_laws : TableLaws snapshot.
Proof.
  split; [done|done|by intros []|by intros d []|..].
  - intros d r W (Hc & Hu & Hf)%row_error_None. set (d' := with_table _ d).
    assert (G : grows d d') by (split; simpl; auto with mmmbbb).
    destruct W as [Wt Ws Wm We Wn]. split; [other_table..|].
    eapply table_wf_put; eauto with mmmbbb.
    + intros k t'. simpl. rewrite lookup_insert_Some. intros [[<- <-]|[? ?]]; [by left|by apply Hu].
    + intros x Hx Hne Hux k t'. simpl. rewrite lookup_insert_Some.
      intros [[<- <-]|[? ?]]; [|by apply Hux]. right.
      destruct (Hu _ _ Hx) as [?|?]; [done|congruence].
  - intros d ids W _. destruct W as [Wt Ws Wm We Wn].
    split; (eapply table_wf_from; [|eassumption]); intros k r Hr;
      try apply map_lookup_filter_Some in Hr as [Hr _]; row_kept r.
    intros Hu k' r'. simpl. intros [Hr' _]%map_lookup_filter_Some. by apply (Hu k').
Qed.

(** ** Statements on well-formed databases *)

(** The map after [UPDATE ... SET f WHERE P]. *)
Definition update_map {A} (P : A → Prop) `{∀ x, Decision (P x)} (f : A → A) (m : gmap uuid A)
  : gmap uuid A := (λ r, if decide (P r) then f r else r) <$> m.

Section Statements_run.
Context {E : Engine} {A : Type} `{TableLaws A}.
Implicit Types (d : db) (r : A).

Lemma elem_of_rows_where (P : A → Prop) `{∀ x, Decision (P x)} d r :
  r ∈ rows_where P d ↔ P r ∧ ∃ k, table d !! k = Some r.
Proof.
  unfold rows_where. rewrite list_elem_of_filter, plan_perm, list_elem_of_fmap.
  split; intros [HP Hr]; (split; [done|]).
  - destruct Hr as ([k r'] & -> & Hr%elem_of_map_to_list). by exists k.
  - destruct Hr as [k Hr]. exists (k, r). by rewrite elem_of_map_to_list.
Qed.

Lemma elem_of_rows_wf (P : A → Prop) `{∀ x, Decision (P x)} d r :
  db_wf d → r ∈ rows_where P d ↔ P r ∧ table d !! pk r = Some r.
Proof.
  intros W. rewrite elem_of_rows_where. split; [|naive_solver].
  intros [? [k Hr]]. by rewrite (tw_key _ (wf_table _ W) _ _ Hr).
Qed.

Lemma rows_where_NoDup (P : A → Prop) `{∀ x, Decision (P x)} d :
  db_wf d → NoDup (pk <$> rows_where P d).
Proof.
  intros W. unfold rows_where.
  assert (Hp : NoDup (pk <$> plan (map_to_list (table d)).*2)).
  { rewrite plan_perm, <- list_fmap_compose.
    erewrite list_fmap_ext; [apply (NoDup_fst_map_to_list (table d))|].
    intros i [k r] Hi. simpl. apply (tw_key _ (wf_table _ W)).
    by apply elem_of_map_to_list, list_elem_of_lookup_2 with i. }
  revert Hp. generalize (plan (map_to_list (table d)).*2). intros l.
  induction l as [|r l IH]; [done|]. rewrite fmap_cons, NoDup_cons. intros [Hr Hl].
  rewrite filter_cons. case_decide; [|by apply IH].
  rewrite fmap_cons, NoDup_cons. split; [|by apply IH].
  intros Hin. apply Hr. apply list_elem_of_fmap in Hin as (r' & -> & Hr').
  apply list_elem_of_fmap. exists r'. split; [done|]. by apply list_elem_of_filter in Hr' as [_ ?].
Qed.

(** Conditions that agree on the stored rows. *)
Lemma rows_where_ext (P Q : A → Prop) `{∀ x, Decision (P x)} `{∀ x, Decision (Q x)} d :
  db_wf d → (∀ r, table d !! pk r = Some r → P r ↔ Q r) → rows_where P d = rows_where Q d.
Proof.
  intros W HPQ. unfold rows_where.
  assert (Hin : ∀ r, r ∈ plan (map_to_list (table d)).*2 → table d !! pk r = Some r).
  { intros r. rewrite plan_perm. intros ([k r'] & -> & Hr%elem_of_map_to_list)%list_elem_of_fmap.
    simpl. by rewrite (tw_key _ (wf_table _ W) _ _ Hr). }
  revert Hin. generalize (plan (map_to_list (table d)).*2). intros l Hin.
  induction l as [|r l IH]; [done|]. rewrite !filter_cons, IH; [|intros; apply Hin; by right].
  specialize (HPQ r (Hin r ltac:(left))). repeat case_decide; tauto.
Qed.

(** A query that fixes the key. *)
Lemma rows_where_key (P : A → Prop) `{∀ x, Decision (P x)} d id :
  db_wf d → (∀ r, P r → pk r = id) →
  rows_where P d = match table d !! id with
                   | Some r => if decide (P r) then [r] else []
                   | None => []
                   end.
Proof.
  intros W HP.
  assert (Hel : ∀ r, r ∈ rows_where P d ↔ P r ∧ table d !! id = Some r).
  { intros r. rewrite elem_of_rows_wf by done. split; intros [Hr ?]; by rewrite (HP r Hr) in *. }
  pose proof (rows_where_NoDup P d W) as Hnd.
  destruct (rows_where P d) as [|r [|r' l]] eqn:Hl.
  - destruct (table d !! id) as [r|] eqn:Hr; [|done]. case_decide; [|done].
    exfalso. eapply elem_of_nil, (Hel r). done.
  - destruct (proj1 (Hel r) ltac:(left)) as [? ->]. by rewrite decide_True.
  - destruct (proj1 (Hel r) ltac:(left)) as [H2 Hr].
    destruct (proj1 (Hel r') ltac:(right; left)) as [_ Hr'].
    simplify_eq. apply NoDup_cons in Hnd as [Hnd _]. destruct Hnd. left.
Qed.

Lemma Get_run id r t :
  db_wf (tx_db t) → table (tx_db t) !! id = Some r → Get id t = Ok (r, t).
Proof.
  intros W Hr. unfold Get, Only, All, mbind, M_bind, gets.
  rewrite (rows_where_key _ _ id) by done. rewrite Hr, decide_True; [done|].
  by apply (tw_key _ (wf_table _ W)).
Qed.

(** Writing [f r] for a stored [r] breaks no constraint. *)
Definition harmless (P : A → Prop) (f : A → A) : Prop := ∀ d r,
  db_wf d → table d !! pk r = Some r → P r → pk (f r) = pk r ∧ row_error d (f r) = None.

Lemma put_ok r t :
  row_error (tx_db t) r = None →
  put r t = Ok ((), with_db (with_table (<[pk r := r]> (table (tx_db t))) (tx_db t)) t).
Proof. unfold put. by intros ->. Qed.

Lemma update_rows P f l t :
  harmless P f → db_wf (tx_db t) → NoDup (pk <$> l) →
  (∀ r, r ∈ l → P r ∧ table (tx_db t) !! pk r = Some r) →
  ∃ m, forM l (λ r, put (f r)) t = Ok ((), with_db (with_table m (tx_db t)) t) ∧
    db_wf (with_table m (tx_db t)) ∧
    (∀ k, (∀ r, r ∈ l → pk r ≠ k) → m !! k = table (tx_db t) !! k) ∧
    (∀ r, r ∈ l → m !! pk r = Some (f r)).
Proof.
  intros Hf. revert t. induction l as [|r l IH]; intros t W Hnd Hl.
  - exists (table (tx_db t)). rewrite with_same. split_and!; try done; [by destruct t|].
    intros r Hr. by apply elem_of_nil in Hr.
  - rewrite fmap_cons, NoDup_cons in Hnd. destruct Hnd as [Hr Hnd].
    destruct (Hl r ltac:(by left)) as [HP Htr].
    destruct (Hf _ _ W Htr HP) as [Hpk Herr].
    set (d1 := with_table (<[pk (f r) := f r]> (table (tx_db t))) (tx_db t)).
    assert (Hne : ∀ r', r' ∈ l → pk r' ≠ pk r).
    { intros r' Hr' Heq. apply Hr. rewrite <- Heq. by apply list_elem_of_fmap_2. }
    destruct (IH (with_db d1 t)) as (m & Hm & Wm & Hm1 & Hm2); [by apply put_keeps_wf|done| |].
    { intros r' Hr'. destruct (Hl r' ltac:(by right)) as [? Ht']. split; [done|].
      subst d1. simpl. rewrite table_with, Hpk, lookup_insert_ne; [done|].
      intros Heq. by apply (Hne r'). }
    exists m. simpl forM. unfold mbind, M_bind. rewrite (put_ok _ _ Herr). fold d1. rewrite Hm.
    subst d1. simpl in *. rewrite with_with in *. split_and!; [done|done|..].
    + intros k Hk. rewrite Hm1, table_with, lookup_insert_ne; [done| |].
      * rewrite Hpk. apply Hk. by left.
      * intros r' ?. apply Hk. by right.
    + intros r' [->|Hr']%elem_of_cons; [|by apply Hm2].
      rewrite Hm1, table_with, Hpk, lookup_insert_eq; [done|]. intros r' ?. by apply Hne.
Qed.

Lemma Update_run (P : A → Prop) `{∀ x, Decision (P x)} f t :
  harmless P f → db_wf (tx_db t) →
  Update P f t = Ok (length (rows_where P (tx_db t)),
    with_db (with_table (update_map P f (table (tx_db t))) (tx_db t)) t) ∧
  db_wf (with_table (update_map P f (table (tx_db t))) (tx_db t)).
Proof.
  intros Hf W.
  destruct (update_rows P f (rows_where P (tx_db t)) t) as (m & Hm & Wm & Hm1 & Hm2);
    [done|done|by apply rows_where_NoDup|by intros r ?%elem_of_rows_wf|].
  assert (m = update_map P f (table (tx_db t))) as <-.
  { apply map_eq. intros k. unfold update_map. rewrite lookup_fmap.
    destruct (table (tx_db t) !! k) as [r|] eqn:Hr; simpl.
    - pose proof (tw_key _ (wf_table _ W) _ _ Hr) as <-.
      case_decide.
      + apply Hm2. by apply elem_of_rows_wf.
      + rewrite Hm1; [done|]. intros r' [? Hr']%elem_of_rows_wf Heq; [|done].
        rewrite Heq in Hr'. by simplify_eq.
    - rewrite Hm1; [done|]. intros r' [? Hr']%elem_of_rows_wf Heq; [|done].
      rewrite Heq in Hr'. by simplify_eq. }
  split; [|done]. unfold Update, All, mbind, M_bind, gets. by rewrite Hm.
Qed.

Lemma UpdateOneID_run (P : A → Prop) f id r t :
  harmless P f → db_wf (tx_db t) → table (tx_db t) !! id = Some r → P r →
  UpdateOneID id f t
    = Ok ((), with_db (with_table (<[id := f r]> (table (tx_db t))) (tx_db t)) t) ∧
  db_wf (with_table (<[id := f r]> (table (tx_db t))) (tx_db t)).
Proof.
  intros Hf W Hr HP. pose proof (tw_key _ (wf_table _ W) _ _ Hr) as <-.
  destruct (Hf _ _ W Hr HP) as [Hpk Herr]. rewrite <- Hpk at 2 3. split.
  - unfold UpdateOneID, mbind, M_bind, gets. rewrite Hr. by apply put_ok.
  - by apply put_keeps_wf.
Qed.

Lemma Create_run r t :
  table (tx_db t) !! pk r = None → row_error (tx_db t) r = None → db_wf (tx_db t) →
  Create r t = Ok ((), with_db (with_table (<[pk r := r]> (table (tx_db t))) (tx_db t)) t) ∧
  db_wf (with_table (<[pk r := r]> (table (tx_db t))) (tx_db t)).
Proof.
  intros Hr He W. split; [|by apply put_keeps_wf].
  unfold Create, mbind, M_bind, gets. rewrite Hr. by apply put_ok.
Qed.

Lemma UpdateOneID_inv id f t u t' :
  UpdateOneID id f t = Ok (u, t') → db_wf (tx_db t) →
  ∃ r, table (tx_db t) !! id = Some r ∧
    t' = with_db (with_table (<[pk (f r) := f r]> (table (tx_db t))) (tx_db t)) t ∧ db_wf (tx_db t').
Proof.
  unfold UpdateOneID, mbind, M_bind, gets. destruct (table (tx_db t) !! id) as [r|]; [|done].
  intros [He ->]%put_run W. exists r. split_and!; [done|done|]. by apply put_keeps_wf.
Qed.

(** The ids [DELETE ... WHERE P] removes. *)
Definition doomed (P : A → Prop) `{∀ x, Decision (P x)} (d : db) : gset uuid :=
  list_to_set (pk <$> rows_where P d).

Lemma elem_of_doomed (P : A → Prop) `{∀ x, Decision (P x)} d k :
  db_wf d → k ∈ doomed P d ↔ ∃ r, table d !! k = Some r ∧ P r.
Proof.
  intros W. unfold doomed. rewrite elem_of_list_to_set, list_elem_of_fmap. split.
  - intros (r & -> & [? ?]%elem_of_rows_wf); [|done]. by exists r.
  - intros (r & Hr & HP). pose proof (tw_key _ (wf_table _ W) _ _ Hr) as <-.
    exists r. by rewrite elem_of_rows_wf.
Qed.

Lemma Delete_run (P : A → Prop) `{∀ x, Decision (P x)} t :
  db_wf (tx_db t) → restrict (tx_db t) (doomed P (tx_db t)) →
  Delete P t = Ok (length (rows_where P (tx_db t)),
    with_db (delete_ids (doomed P (tx_db t)) (tx_db t)) t) ∧
  db_wf (delete_ids (doomed P (tx_db t)) (tx_db t)).
Proof.
  intros W Hr. split; [|by apply delete_keeps_wf].
  unfold Delete, All, mbind, M_bind, gets. by rewrite decide_True.
Qed.

(** The rows with the ids of [rs] are [rs]. *)
Lemma rows_pk_perm (P : A → Prop) `{∀ x, Decision (P x)} (rs : list A) d :
  db_wf d → NoDup (pk <$> rs) → (∀ r, r ∈ rs → table d !! pk r = Some r) →
  (∀ r, P r ↔ pk r ∈ pk <$> rs) → rows_where P d ≡ₚ rs.
Proof.
  intros W Hnd Hs HP. apply NoDup_Permutation.
  - eapply NoDup_fmap_1. by apply rows_where_NoDup.
  - by eapply NoDup_fmap_1.
  - intros r. rewrite elem_of_rows_wf, HP by done. split.
    + intros [(r' & Heq & Hr')%list_elem_of_fmap Hst]. pose proof (Hs _ Hr') as Hst'.
      rewrite Heq, Hst' in Hst. by simplify_eq.
    + intros Hin. split; [by apply list_elem_of_fmap_2|by apply Hs].
Qed.

Lemma Delete_restricted (P : A → Prop) `{∀ x, Decision (P x)} t :
  ¬ restrict (tx_db t) (doomed P (tx_db t)) → Delete P t = Err SqlForeignKey.
Proof. intros Hr. unfold Delete, All, mbind, M_bind, gets. by rewrite decide_False. Qed.
End Statements_run.

(** ** Fresh ids

    From the [n]th draw on, the generator returns ids the database does not hold, and
    never the same one twice. *)

Record fresh_uuids `{Engine} (d : db) (n : nat) : Prop := {
  fu_inj : ∀ i j, (n ≤ i)%nat → (n ≤ j)%nat → new_uuid i = new_uuid j → i = j;
  fu_topics : ∀ i, (n ≤ i)%nat → topics d !! new_uuid i = None;
  fu_subscriptions : ∀ i, (n ≤ i)%nat → subscriptions d !! new_uuid i = None;
  fu_messages : ∀ i, (n ≤ i)%nat → messages d !! new_uuid i = None;
  fu_deliveries : ∀ i, (n ≤ i)%nat → deliveries d !! new_uuid i = None;
  fu_snapshots : ∀ i, (n ≤ i)%nat → snapshots d !! new_uuid i = None }.

Section Fresh.
Context {E : Engine}.

Lemma fresh_delivery d n e :
  fresh_uuids d n → d_id e = new_uuid n →
  fresh_uuids (with_deliveries (<[d_id e := e]> (deliveries d)) d) (S n).
Proof.
  intros [Hi ?????] He. split; simpl; intros; try (match goal with H : _ |- _ => apply H; lia end).
  rewrite He, lookup_insert_ne; [auto with lia|]. intros Heq%Hi; lia.
Qed.

Lemma fresh_message d n m :
  fresh_uuids d n → m_id m = new_uuid n →
  fresh_uuids (with_messages (<[m_id m := m]> (messages d)) d) (S n).
Proof.
  intros [Hi ?????] He. split; simpl; intros; try (match goal with H : _ |- _ => apply H; lia end).
  rewrite He, lookup_insert_ne; [auto with lia|]. intros Heq%Hi; lia.
Qed.
End Fresh.

(** ** Harmless updates *)

Lemma delivery_harmless P (f : delivery → delivery) :
  (∀ e, d_id (f e) = d_id e ∧ d_messageID (f e) = d_messageID e ∧
        d_subscriptionID (f e) = d_subscriptionID e ∧ d_notBeforeID (f e) = d_notBeforeID e) →
  harmless P f.
Proof.
  intros Hf d e W He _. destruct (Hf e) as (H1 & H2 & H3 & H4). split; [done|].
  apply row_error_None. split_and!; [done|done|].
  destruct (tw_fk _ (wf_deliveries _ W) _ _ He) as (? & ? & ?). by rewrite <- H2, <- H3, <- H4 in *.
Qed.

Lemma sub_harmless P (f : subscription → subscription) :
  (∀ s, s_id (f s) = s_id s ∧ s_topicID (f s) = s_topicID s ∧ s_name (f s) = s_name s ∧
     s_maxDeliveryAttempts (f s) = s_maxDeliveryAttempts s ∧
     s_deadLetterTopicID (f s) = s_deadLetterTopicID s) →
  (∀ s, s_live (f s) = s_live s ∧ s_deletedAt (f s) = s_deletedAt s ∨
        s_live (f s) = None ∧ is_Some (s_deletedAt (f s))) →
  harmless P f.
Proof.
  intros Hf Hl d s W Hs _. destruct (Hf s) as (H1 & H2 & H3 & H4 & H5). split; [done|].
  destruct (wf_subscriptions _ W) as [_ Hc Hu Hk].
  specialize (Hc _ _ Hs). specialize (Hu _ _ Hs). specialize (Hk _ _ Hs). simpl in *.
  apply row_error_None. simpl. rewrite H1, H2, H3, H4, H5. split_and!; try apply Hc; try apply Hk.
  - destruct (Hl s) as [[-> ->]|[-> ?]]; [apply Hc|by right].
  - destruct (Hl s) as [[-> _]|[-> _]]; [done|]. intros k s' _. right. by left.
Qed.

Lemma topic_harmless P (f : topic → topic) :
  (∀ t, t_id (f t) = t_id t ∧ t_name (f t) = t_name t) →
  (∀ t, t_live (f t) = t_live t ∧ t_deletedAt (f t) = t_deletedAt t ∨
        t_live (f t) = None ∧ is_Some (t_deletedAt (f t))) →
  harmless P f.
Proof.
  intros Hf Hl d t W Ht _. destruct (Hf t) as (H1 & H2). split; [done|].
  destruct (wf_topics _ W) as [_ Hc Hu _]. specialize (Hc _ _ Ht). specialize (Hu _ _ Ht). simpl in *.
  apply row_error_None. simpl. rewrite H1, H2. split_and!; [|..|done].
  - destruct (Hl t) as [[-> ->]|[-> ?]]; [done|by right].
  - destruct (Hl t) as [[-> _]|[-> _]]; [done|]. intros k s' _. right. by left.
Qed.

(** ** What every transaction keeps *)

(** [m], when it succeeds, relates the transaction's states before and after. *)
Definition respects {A} (R : txn → txn → Prop) (m : Tx A) : Prop :=
  ∀ t a t', m t = Ok (a, t') → R t t'.

(** A relation that commit hooks and drawn ids do not disturb. *)
Class TxRel (R : txn → txn → Prop) := {
  tr_preorder :: PreOrder R;
  tr_hook : ∀ t h, R t (MkTxn (tx_db t) (tx_hooks t ++ h) (tx_fresh t));
  tr_fresh : ∀ t, R t (MkTxn (tx_db t) (tx_hooks t) (S (tx_fresh t))) }.

Definition keeps_wf (t t' : txn) : Prop := db_wf (tx_db t) → db_wf (tx_db t').

#[export] Instance keeps_wf_rel : TxRel keeps_wf.
Proof. split; [|by intros ? ? W; exact W|by intros ? W; exact W]. split; unfold keeps_wf; [by intros ?|intros ???; auto]. Qed.

Section Respects.
Context {R : txn → txn → Prop} `{!TxRel R}.

Lemma respects_bind {A B} (m : Tx A) (f : A → Tx B) :
  respects R m → (∀ a, respects R (f a)) → respects R (m ≫= f).
Proof. intros Hm Hf t b t' H. inv_monad. etrans; [by eapply Hm|by eapply Hf]. Qed.
Lemma respects_ret {A} (a : A) : respects R (mret a).
Proof. intros t b t' H. by inv_monad. Qed.
Lemma respects_gets {A} (f : txn → A) : respects R (gets f).
Proof. intros t b t' H. by inv_monad. Qed.
Lemma respects_fail {A} e : respects R (fail e : Tx A).
Proof. by intros ????. Qed.
Lemma respects_panic {A} e : respects R (panic e : Tx A).
Proof. by intros ????. Qed.
Lemma respects_lift {A} (o : outcome A) : respects R (lift o).
Proof. intros t b t' H. by inv_monad. Qed.
Lemma respects_OnCommit h : respects R (OnCommit h).
Proof. intros t b t' H. unfold OnCommit in H. inv_monad. apply tr_hook. Qed.
Lemma respects_uuid_New `{Engine} : respects R uuid_New.
Proof. intros t b t' H'. unfold uuid_New in H'. simplify_eq. apply tr_fresh. Qed.
Lemma respects_forM {A} (l : list A) (f : A → Tx ()) :
  (∀ x, x ∈ l → respects R (f x)) → respects R (forM l f).
Proof.
  induction l as [|x l IH]; intros Hf; simpl; [apply respects_ret|].
  apply respects_bind; [apply Hf; by left|]. intros _. apply IH. intros; apply Hf. by right.
Qed.
Lemma respects_traverseM {A B} (l : list A) (f : A → Tx B) :
  (∀ x, x ∈ l → respects R (f x)) → respects R (traverseM l f).
Proof.
  induction l as [|x l IH]; intros Hf; simpl; [apply respects_ret|].
  apply respects_bind; [apply Hf; by left|]. intros y. apply respects_bind.
  - apply IH. intros; apply Hf. by right.
  - intros ys. apply respects_ret.
Qed.
Lemma respects_hooked {A} m (body : Tx A) : respects R body → respects R (hooked m body).
Proof. unfold hooked. intros. case_match; [apply respects_fail|done]. Qed.

(** The statements, from what one write does. *)
Context {E : Engine} {A : Type} `{TableLaws A}.

Lemma respects_All (P : A → Prop) `{∀ x, Decision (P x)} : respects R (All P).
Proof. apply respects_gets. Qed.
Lemma respects_Only (P : A → Prop) `{∀ x, Decision (P x)} : respects R (Only P).
Proof. apply respects_bind; [apply respects_All|intros; apply respects_lift]. Qed.
Lemma respects_Exist (P : A → Prop) `{∀ x, Decision (P x)} : respects R (Exist P).
Proof. apply respects_gets. Qed.
End Respects.

Section Keeps_wf.
Context {E : Engine} {A : Type} `{TableLaws A}.

Lemma put_wf (r : A) : respects keeps_wf (put r).
Proof. intros t [] t' [? ->]%put_run W. by apply put_keeps_wf. Qed.
Lemma Create_wf (r : A) : respects keeps_wf (Create r).
Proof.
  apply respects_bind; [apply respects_gets|]. intros []; [apply respects_fail|apply put_wf].
Qed.
Lemma Update_wf (P : A → Prop) `{∀ x, Decision (P x)} f : respects keeps_wf (Update P f).
Proof.
  apply respects_bind; [apply respects_gets|]. intros rs.
  apply respects_bind; [|intros; apply respects_ret]. apply respects_forM. intros. apply put_wf.
Qed.
Lemma UpdateOneID_wf id (f : A → A) : respects keeps_wf (UpdateOneID id f).
Proof.
  apply respects_bind; [apply respects_gets|]. intros []; [apply put_wf|apply respects_fail].
Qed.
Lemma Delete_wf (P : A → Prop) `{∀ x, Decision (P x)} : respects keeps_wf (Delete P).
Proof.
  intros t n t' Ht W. unfold Delete, All in Ht. inv_monad. case_decide; inv_monad.
  by apply delete_keeps_wf.
Qed.
End Keeps_wf.

#[export] Hint Resolve respects_ret respects_gets respects_fail respects_panic respects_lift
  respects_OnCommit respects_uuid_New respects_All respects_Only respects_Exist
  put_wf Create_wf Update_wf UpdateOneID_wf Delete_wf : respects.
#[export] Hint Extern 1 (respects _ (_ ≫= _)) => apply respects_bind; [|intros ?] : respects.
#[export] Hint Extern 1 (respects _ (forM _ _)) => apply respects_forM; intros ? ? : respects.
#[export] Hint Extern 1 (respects _ (traverseM _ _)) => apply respects_traverseM; intros ? ? : respects.
#[export] Hint Extern 1 (respects _ (hooked _ _)) => apply respects_hooked : respects.
#[export] Hint Extern 2 (respects _ (match ?x with _ => _ end)) => destruct x : respects.

(** ** Commit and rollback *)

Lemma wp_run_hook h r : registry_wf r → wp (run_hook h) (λ _, registry_wf) r.
Proof.
  intros Hw. destruct h as [ids|ids|id name|id name]; simpl.
  - eapply wp_mono, (run_op_effect (OpWakePublish false ids)), Hw. cbn beta. intros [] r' H. apply H.
  - assert (Heq : ∀ l, forM l (λ s, WakePublishListeners false [s])
      = run_ops ((λ s, OpWakePublish false [s]) <$> l)).
    { induction l as [|s l IH]; [done|]. unfold run_ops in *. simpl. by rewrite IH. }
    rewrite Heq. by apply wp_run_ops.
  - eapply wp_mono, (run_op_effect (OpWakeModify TopicSide false id name)), Hw.
    cbn beta. intros [] r' H. apply H.
  - apply wp_bind. eapply wp_mono, (run_op_effect (OpWakeModify SubSide false id name)), Hw.
    cbn beta. intros [] r' H. eapply wp_mono, (run_op_effect (OpWakePublish true [id])), H.
    cbn beta. intros [] r2 H2. apply H2.
Qed.

Lemma wp_run_hooks hooks r : registry_wf r → wp (run_hooks hooks) (λ _, registry_wf) r.
Proof.
  unfold run_hooks. generalize (reverse hooks). intros l. revert r.
  induction l as [|h l IH]; intros r Hw; [by apply wp_ret|].
  apply wp_bind. eapply wp_mono, wp_run_hook, Hw. cbn beta. intros [] r' H. by apply IH.
Qed.

Record world_wf (w : world) : Prop := {
  ww_db : db_wf (w_db w);
  ww_reg : registry_wf (w_reg w) }.

Lemma DoTx_world_wf {A} committed (inner : Tx A) w :
  respects keeps_wf inner → world_wf w → world_wf (DoTx committed inner w).2.
Proof.
  intros Hi [Wd Wr]. unfold DoTx. destruct (inner _) as [[a t]|e|p] eqn:Ht; try by split.
  apply Hi in Ht. simpl in Ht. destruct committed; try by split.
  pose proof (wp_run_hooks (tx_hooks t) _ Wr) as Hh. unfold wp in Hh.
  destruct (run_hooks _ _) as [[[] r]|e|p]; try done. split; simpl; auto.
Qed.

(** [DoTx] is atomic: either the function succeeded and the database accepted the
    commit, and then the caller sees its result, the new database, and a registry in which
    every registered wake has been performed, last registered first; or the caller sees an
    error or a panic, and the database and all waiters are as they were. *)
Theorem DoTx_atomic {A} committed (inner : Tx A) w :
  registry_wf (w_reg w) →
  (∃ a t u, inner (MkTxn (w_db w) [] (w_fresh w)) = Ok (a, t) ∧ committed = Ok u ∧
     (DoTx committed inner w).1 = Ok a ∧ w_db (DoTx committed inner w).2 = tx_db t ∧
     run_hooks (tx_hooks t) (w_reg w) = Ok ((), w_reg (DoTx committed inner w).2) ∧
     registry_wf (w_reg (DoTx committed inner w).2)) ∨
  (¬ (∃ a, (DoTx committed inner w).1 = Ok a) ∧
     w_db (DoTx committed inner w).2 = w_db w ∧ w_reg (DoTx committed inner w).2 = w_reg w).
Proof.
  intros Wr. unfold DoTx. destruct (inner _) as [[a t]|e|p] eqn:Ht;
    [|right; split_and!; [by intros [? ?]|done..]..].
  destruct committed as [u|e|p]; [|right; split_and!; [by intros [? ?]|done..]..].
  left. exists a, t, u. pose proof (wp_run_hooks (tx_hooks t) _ Wr) as Hh. unfold wp in Hh.
  destruct (run_hooks _ _) as [[[] r]|e|p]; try done.
Qed.

Lemma DoTx_atomic_witness :
  w_db (DoTx (Ok ()) (fail ErrNotFound : Tx ()) empty_world).2 = empty_db.
Proof.
  destruct (DoTx_atomic (Ok ()) (fail ErrNotFound : Tx ()) empty_world empty_registry_wf)
    as [(a & t & u & H & _)|(_ & H & _)]; [discriminate H | exact H].
Defined.

Lemma DoTx_Ok_inv {A} committed (inner : Tx A) w a w' :
  DoTx committed inner w = (Ok a, w') → ∃ t, inner (MkTxn (w_db w) [] (w_fresh w)) = Ok (a, t).
Proof.
  unfold DoTx. destruct (inner _) as [[a' t]|e|s]; [|done..].
  destruct committed; [|done..]. destruct (run_hooks _ _) as [[? ?]|?|?]; naive_solver.
Qed.

(** A transaction that succeeds and is committed; one that fails. *)
Definition txn_of (w : world) : txn := MkTxn (w_db w) [] (w_fresh w).
Lemma DoTx_run {A} (inner : Tx A) w a t :
  registry_wf (w_reg w) → inner (txn_of w) = Ok (a, t) →
  ∃ r, DoTx (Ok ()) inner w = (Ok a, MkWorld (tx_db t) r (tx_fresh t)) ∧ registry_wf r ∧
    run_hooks (tx_hooks t) (w_reg w) = Ok ((), r).
Proof.
  intros Wr Hi. unfold DoTx. fold (txn_of w). rewrite Hi. pose proof (wp_run_hooks (tx_hooks t) _ Wr) as Hh. unfold wp in Hh.
  destruct (run_hooks _ _) as [[[] r]|e|p]; [|done..]. by exists r.
Qed.
Lemma DoTx_fail {A} committed (inner : Tx A) w e :
  inner (txn_of w) = Err e →
  DoTx committed inner w = (Err e, MkWorld (w_db w) (w_reg w) (S (w_fresh w))).
Proof. unfold DoTx. fold (txn_of w). by intros ->. Qed.

Lemma DoTx_Ok_db {A} committed (inner : Tx A) w a w' :
  registry_wf (w_reg w) → DoTx committed inner w = (Ok a, w') →
  ∃ t, inner (txn_of w) = Ok (a, t) ∧ w_db w' = tx_db t ∧ registry_wf (w_reg w').
Proof.
  intros Wr. unfold DoTx. fold (txn_of w). destruct (inner _) as [[a' t]|e|s]; [|done..].
  destruct committed; [|done..]. pose proof (wp_run_hooks (tx_hooks t) _ Wr) as Hh. unfold wp in Hh.
  destruct (run_hooks _ _) as [[[] r]|?|?]; try done. intros [= <- <-]. by exists t.
Qed.

Lemma DoTx_err {A} committed (inner : Tx A) w e w' :
  registry_wf (w_reg w) → DoTx committed inner w = (Err e, w') →
  w_db w' = w_db w ∧ w_reg w' = w_reg w.
Proof.
  intros Wr. unfold DoTx. destruct (inner _) as [[a t]|e'|p]; [|by intros [= _ <-]|done].
  destruct committed as [u|e'|p]; [|by intros [= _ <-]|done].
  pose proof (wp_run_hooks (tx_hooks t) _ Wr) as Hh. unfold wp in Hh.
  by destruct (run_hooks _ _) as [[[] r]|e'|p].
Qed.

(** [DoCtxTxRetry] applies the function's effects at most once: when it
    returns, its result and its effect are those of one run of the transaction, on the
    database and the waiters it was called with, and that run did not end in an error that is
    to be retried. *)
Theorem DoCtxTxRetry_once {A} rounds (inner : Tx A) retry w res w' :
  registry_wf (w_reg w) →
  DoCtxTxRetry rounds inner retry w = Some (res, w') →
  (∃ committed w1, committed ∈ rounds ∧ w_db w1 = w_db w ∧ w_reg w1 = w_reg w ∧
     DoTx committed inner w1 = (res, w')) ∧
  (∀ e, res = Err e → retry e = false).
Proof.
  revert w. induction rounds as [|c rounds IH]; intros w Wr H; [done|]. simpl in H.
  destruct (DoTx c inner w) as [res1 w1] eqn:H1.
  assert (Hdone : Some (res1, w1) = Some (res, w') → (∀ e, res1 = Err e → retry e = false) →
    (∃ committed w1, committed ∈ c :: rounds ∧ w_db w1 = w_db w ∧ w_reg w1 = w_reg w ∧
     DoTx committed inner w1 = (res, w')) ∧ (∀ e, res = Err e → retry e = false)).
  { intros [= -> ->] Hr. split; [|done]. exists c, w. set_solver. }
  destruct res1 as [a|e|p]; [by apply Hdone| |by apply Hdone].
  destruct (retry e) eqn:Hr; [|apply Hdone; [done|congruence]].
  destruct (DoTx_err _ _ _ _ _ Wr H1) as [Hd Hg].
  destruct (IH w1) as [(c' & w2 & ? & ? & ? & ?) ?]; [by rewrite Hg|done|].
  split; [|done]. exists c', w2. split_and!; [by right|congruence|congruence|done].
Qed.

Lemma DoCtxTxRetry_once_witness :
  ∃ w', DoCtxTxRetry [Err (PgError "40P01"); Ok ()] (mret 5%nat : Tx nat)
    (λ e, bool_decide (e = PgError "40P01")) empty_world = Some (Ok 5%nat, w') ∧
  (∀ e, Ok 5%nat = Err e → bool_decide (e = PgError "40P01") = false).
Proof.
  eexists. split; [reflexivity|].
  exact (proj2 (DoCtxTxRetry_once [Err (PgError "40P01"); Ok ()] (mret 5%nat : Tx nat)
    (λ e, bool_decide (e = PgError "40P01")) empty_world (Ok 5%nat) _ empty_registry_wf eq_refl)).
Defined.
