(* ===== verification/Example.v ===== *)
(** * A small database

    The concrete engine, database and world the witnesses evaluate on: a topic ["t"] with a
    plain subscription, an ordered subscription with a dead-letter policy, and a filtered
    one; the dead-letter topic ["dlq"] with a subscription; a deleted topic; two messages,
    the second of which is acknowledged in the plain subscription. *)

From S2P Require Import Prelude Uuid Filter FilterParse Schema Notify Store.

Definition id_engine : Engine := {|
  plan A l := l; plan_perm A l := reflexivity l; new_uuid n := N.of_nat (1000 + n);
  stored_json s := if bool_decide (s = EmptyString) then None else Some s;
  stored_interval d := d |}.

Definition topic_t : topic := MkTopic 1 "t" 0 (Some true) None ∅.
Definition topic_dlq : topic := MkTopic 2 "dlq" 0 (Some true) None ∅.
Definition topic_old : topic := MkTopic 3 "old" 0 None (Some 5) ∅.

Definition sub_plain : subscription :=
  MkSubscription 11 1 "plain" 0 1000000 (Some true) None 1000000 5000 false ∅ None None None None
    None None 0.
Definition sub_ordered : subscription :=
  MkSubscription 12 1 "ordered" 0 1000000 (Some true) None 1000000 5000 true ∅ (Some Second)
    (Some Minute) None None (Some 2) (Some 2%N) 10.
Definition sub_filtered : subscription :=
  MkSubscription 13 1 "filtered" 0 1000000 (Some true) None 1000000 5000 false ∅ None None None
    (Some "attributes:color") None None 0.
Definition sub_dlq : subscription :=
  MkSubscription 14 2 "dead" 0 1000000 (Some true) None 1000000 5000 false ∅ None None None None
    None None 0.

Definition msg_1 : message := MkMessage 21 1 "one" ∅ 100 (Some "k").
Definition msg_2 : message := MkMessage 22 1 "two" ∅ 200 (Some "k").

Definition del_1 : delivery := MkDelivery 31 21 11 100 100 None 0 None 5100 None.
Definition del_2 : delivery := MkDelivery 32 22 11 200 200 (Some 300) 1 (Some 310) 5200 None.
Definition del_3 : delivery := MkDelivery 33 21 12 100 100 (Some 150) 2 None 5100 None.
Definition del_4 : delivery := MkDelivery 34 22 12 200 200 None 0 None 5200 (Some 33%N).

Definition snap_1 : snapshot := MkSnapshot 41 1 "snap" 0 9000 ∅ 200 [].

Definition example_db : db := MkDb
  {[1%N := topic_t; 2%N := topic_dlq; 3%N := topic_old]}
  {[11%N := sub_plain; 12%N := sub_ordered; 13%N := sub_filtered; 14%N := sub_dlq]}
  {[21%N := msg_1; 22%N := msg_2]}
  {[31%N := del_1; 32%N := del_2; 33%N := del_3; 34%N := del_4]}
  {[41%N := snap_1]}.

Definition example_txn : txn := MkTxn example_db [] 0.

Lemma example_db_wf : db_wf example_db.
Proof. apply db_wf_b_sound. vm_compute. reflexivity. Qed.

(** The generator of [id_engine] is fresh for a database whose keys are small. *)
Definition small_keys (d : db) : bool :=
  bool_decide (map_Forall (λ k _, (k < 1000)%N) (topics d)) &&
  bool_decide (map_Forall (λ k _, (k < 1000)%N) (subscriptions d)) &&
  bool_decide (map_Forall (λ k _, (k < 1000)%N) (messages d)) &&
  bool_decide (map_Forall (λ k _, (k < 1000)%N) (deliveries d)) &&
  bool_decide (map_Forall (λ k _, (k < 1000)%N) (snapshots d)).

Lemma small_key_fresh {A} (m : gmap uuid A) i :
  map_Forall (λ k _, (k < 1000)%N) m → m !! new_uuid (Engine := id_engine) i = None.
Proof.
  intros Hm. destruct (m !! _) as [a|] eqn:Ha; [|done]. apply Hm in Ha. simpl in Ha. lia.
Qed.

Lemma small_keys_fresh d n : small_keys d = true → fresh_uuids (H := id_engine) d n.
Proof.
  unfold small_keys. intros H. bool_props. split; intros; try by apply small_key_fresh.
  simpl in *. lia.
Qed.

Lemma example_fresh : fresh_uuids (H := id_engine) example_db 0.
Proof. apply small_keys_fresh. vm_compute. reflexivity. Qed.
