(* ===== verification/Deliver.v ===== *)
(** * Publishing, delivering, dead-lettering

    [src/actions/delivery-utils.go] and [src/actions/publish-message.go]: a published message
    becomes one row in [messages] and one delivery per live subscription of its topic whose
    filter lets it through; a delivery that has used up its attempts is completed and its
    message delivered to the subscriptions of the dead-letter topic. *)

From S2P Require Import Prelude Uuid Filter FilterParse Schema Notify Store Example.

(** A row that still lacks its id, as an ent [DeliveryCreate]. *)
Definition DeliveryCreate := uuid → delivery.

Definition live_topic_named (name : string) (t : topic) : Prop :=
  t_name t = name ∧ t_deletedAt t = None.
Definition live_sub_named (name : string) (s : subscription) : Prop :=
  s_name s = name ∧ s_deletedAt s = None.
(** The subscriptions [WithSubscriptions(DeletedAtIsNil())] loads. *)
Definition live_sub_of (topicID : uuid) (s : subscription) : Prop :=
  s_topicID s = topicID ∧ s_deletedAt s = None.
#[export] Instance live_topic_named_dec n t : Decision (live_topic_named n t).
Proof. unfold live_topic_named. apply _. Defined.
#[export] Instance live_sub_named_dec n s : Decision (live_sub_named n s).
Proof. unfold live_sub_named. apply _. Defined.
#[export] Instance live_sub_of_dec i s : Decision (live_sub_of i s).
Proof. unfold live_sub_of. apply _. Defined.

(** An error of the query is reported as the action's [ErrNotFound] when it is ent's. *)
Definition not_found {A} (o : outcome A) : outcome A :=
  match o with Err EntNotFound => Err ErrNotFound | o => o end.

Definition notifyPublish (subIDs : list uuid) : Tx () := OnCommit (NotifyPublish subIDs).
Definition NotifyModifyTopic (id : uuid) (name : string) : Tx () := OnCommit (NotifyTopic id name).
Definition NotifyModifySubscription (id : uuid) (name : string) : Tx () :=
  OnCommit (NotifySubscription id name).

Section Deliver.
Context {E : Engine} {FP : FilterParser}.

(** Whether the filter drops the message: it does not parse, it fails, or it is false. *)
Definition filtered_out (s : subscription) (m : message) : outcome bool :=
  match s_messageFilter s with
  | None | Some EmptyString => Ok false
  | Some src =>
      match ParseString src with
      | None => Ok true
      | Some f =>
          match Condition_Evaluate f (m_attributes m) with
          | Ok match_ => Ok (negb match_)
          | Err _ => Ok true
          | Panic p => Panic p
          end
      end
  end.

Definition has_order_key (m : message) : bool :=
  match m_orderKey m with Some k => negb (bool_decide (k = EmptyString)) | None => false end.

(** The rows the [NotBefore] lookup ranges over. *)
Definition predecessor (d : db) (s : subscription) (m : message) (now : time) (e : delivery) : Prop :=
  d_subscriptionID e = s_id s ∧ now < d_expiresAt e ∧
  joined (λ m', m_topicID m' = m_topicID m) (messages d !! d_messageID e).
#[export] Instance predecessor_dec d s m now e : Decision (predecessor d s m now e).
Proof. unfold predecessor. apply _. Defined.

Definition deliverToSubscription (s : subscription) (m : message) (now : time)
  : Tx (option DeliveryCreate) :=
  lift (filtered_out s m) ≫= λ out,
  if (out : bool) then mret None
  else
    gets tx_db ≫= λ d,
    let lastDelivery :=
      if s_orderedDelivery s && has_order_key m then
        match sort_by (λ e, - d_publishedAt e) (rows_where (predecessor d s m now) d) with
        | e :: _ => Some (d_id e)
        | [] => None
        end
      else None in
    notifyPublish [s_id s] ≫= λ _,
    mret (Some (λ id, MkDelivery id (m_id m) (s_id s) now (now + s_deliveryDelay s) None 0 None
      (now + s_messageTTL s) lastDelivery)).

(** [CreateBulk(dc...).Save] *)
Definition CreateBulk (dc : list DeliveryCreate) : Tx () :=
  forM dc (λ c, uuid_New ≫= λ id, Create (c id)).

(** The loop over the topic's subscriptions. *)
Definition deliver_all (subs : list subscription) (m : message) (now : time) : Tx nat :=
  traverseM subs (λ s, deliverToSubscription s m now) ≫= λ dc,
  let dc := omap id dc in
  CreateBulk dc ≫= λ _, mret (length dc).

(** ** Dead letters *)

Record deadLetterData := MkDeadLetterData {
  DeliveryID : uuid; DeliverySubscriptionID : uuid; DeliveryMessageID : uuid;
  DeadLetterTopicID : uuid }.

(** Dereferences the topic id: the callers have checked it. *)
Definition deadLetterDataFromEntities (e : delivery) (sub : subscription) : outcome deadLetterData :=
  match s_deadLetterTopicID sub with
  | Some i => Ok (MkDeadLetterData (d_id e) (d_subscriptionID e) (d_messageID e) i)
  | None => Panic "nil pointer dereference"
  end.

(** New deliveries of the original message, if the dead-letter topic still has anyone. *)
Definition deliverToDeadLetterTopic (data : deadLetterData) (now : time) : Tx () :=
  All (λ t, t_id t = DeadLetterTopicID data ∧ t_deletedAt t = None) ≫= λ ts,
  match only ts with
  | Ok dlTopic =>
      All (live_sub_of (t_id dlTopic)) ≫= λ subs,
      match subs with
      | [] => mret ()
      | _ => Get (DeliveryMessageID data) ≫= λ m,
          deliver_all subs m now ≫= λ _, mret ()
      end
  | Err EntNotFound => mret ()
  | Err e => fail e
  | Panic p => panic p
  end.

Definition deadLetterDelivery (data : deadLetterData) (now : time) : Tx () :=
  deliverToDeadLetterTopic data now ≫= λ _,
  UpdateOneID (DeliveryID data) (del_set_completedAt (Some now)) ≫= λ _,
  OnCommit (NotifyPublish [DeliverySubscriptionID data]).

(** ** Publishing *)

Record PublishMessageParams := MkPublish {
  pm_TopicName : string; pm_TopicID : option uuid; pm_Payload : string;
  pm_Attributes : Attributes; pm_OrderKey : string }.
Record publishMessageResults := MkPublished { pr_ID : uuid; pr_NumDeliveries : nat }.

Definition NewPublishMessage (p : PublishMessageParams) : outcome PublishMessageParams :=
  if bool_decide (pm_TopicName p = EmptyString) && bool_decide (pm_TopicID p = None)
  then Panic "must provide Name or ID" else Ok p.

Definition topicMatch (p : PublishMessageParams) (t : topic) : Prop :=
  t_deletedAt t = None ∧ option_ok (λ i, t_id t = i) (pm_TopicID p) ∧
  (pm_TopicName p = EmptyString ∨ t_name t = pm_TopicName p).
#[export] Instance topicMatch_dec p t : Decision (topicMatch p t).
Proof. unfold topicMatch. apply _. Defined.

(** The encoding of [field.JSON("payload", json.RawMessage{})]. *)
Definition payload_column (payload : string) : outcome string :=
  match stored_json payload with Some text => Ok text | None => Err (ErrOther "invalid JSON") end.

Definition PublishMessage_Execute (p : PublishMessageParams) (now : time)
  : Tx publishMessageResults :=
  All (topicMatch p) ≫= λ ts,
  lift (not_found (only ts)) ≫= λ t,
  All (live_sub_of (t_id t)) ≫= λ subs,
  let orderKey := if bool_decide (pm_OrderKey p = EmptyString) then None else Some (pm_OrderKey p) in
  uuid_New ≫= λ id,
  lift (payload_column (pm_Payload p)) ≫= λ payload,
  let m := MkMessage id (t_id t) payload (pm_Attributes p) now orderKey in
  Create m ≫= λ _,
  deliver_all subs m now ≫= λ n,
  mret (MkPublished id n).
End Deliver.

(** ** What the loops do *)

Section Deliver_run.
Context {E : Engine} {FP : FilterParser}.
Implicit Types (d : db) (s : subscription) (m : message).

(** The filter as a predicate. *)
Definition passes (s : subscription) (m : message) : bool :=
  match s_messageFilter s with
  | None | Some EmptyString => true
  | Some src =>
      match ParseString src with Some f => Condition_holds f (m_attributes m) | None => false end
  end.

Lemma filtered_out_passes s m : filtered_out s m = Ok (negb (passes s m)).
Proof.
  unfold filtered_out, passes. destruct (s_messageFilter s) as [[|c src]|]; try done.
  destruct (ParseString _) as [f|] eqn:Hf; [|done].
  apply ParseString_wf in Hf. by rewrite (proj1 (Evaluate_holds _) f Hf).
Qed.

(** The delivery a message gets in a subscription, but for its id. *)
Definition new_delivery d s m (now : time) : DeliveryCreate := λ id,
  MkDelivery id (m_id m) (s_id s) now (now + s_deliveryDelay s) None 0 None (now + s_messageTTL s)
    (if s_orderedDelivery s && has_order_key m
     then d_id <$> head (sort_by (λ e, - d_publishedAt e) (rows_where (predecessor d s m now) d))
     else None).

Definition add_hooks (hs : list hook) (t : txn) : txn :=
  MkTxn (tx_db t) (tx_hooks t ++ hs) (tx_fresh t).

Lemma add_hooks_app hs1 hs2 t : add_hooks hs2 (add_hooks hs1 t) = add_hooks (hs1 ++ hs2) t.
Proof. unfold add_hooks. simpl. by rewrite (assoc_L (++)). Qed.
Lemma add_hooks_nil t : add_hooks [] t = t.
Proof. unfold add_hooks. rewrite app_nil_r. by destruct t. Qed.

Lemma deliverToSubscription_run s m now t :
  deliverToSubscription s m now t =
    if passes s m
    then Ok (Some (new_delivery (tx_db t) s m now), add_hooks [NotifyPublish [s_id s]] t)
    else Ok (None, t).
Proof.
  unfold deliverToSubscription, lift, mbind, M_bind. rewrite filtered_out_passes.
  destruct (passes s m); [|done]. simpl. unfold notifyPublish, OnCommit, modify, gets, new_delivery.
  do 2 f_equal. destruct (s_orderedDelivery s && has_order_key m); [|done].
  by destruct (sort_by _ _).
Qed.

Lemma traverse_deliver_run subs m now t :
  traverseM subs (λ s, deliverToSubscription s m now) t =
    Ok ((λ s, if passes s m then Some (new_delivery (tx_db t) s m now) else None) <$> subs,
        add_hooks ((λ s, NotifyPublish [s_id s]) <$> filter (λ s, passes s m = true) subs) t).
Proof.
  revert t. induction subs as [|s subs IH]; intros t; simpl.
  { by rewrite add_hooks_nil. }
  unfold mbind, M_bind. rewrite deliverToSubscription_run, filter_cons.
  destruct (passes s m) eqn:Hp; simpl; rewrite IH; simpl.
  - unfold mret, M_ret. by rewrite add_hooks_app.
  - done.
Qed.

(** The rows [CreateBulk] makes, when the first id is the [n]th. *)
Fixpoint created (n : nat) (dc : list DeliveryCreate) : list delivery :=
  match dc with [] => [] | c :: dc => c (new_uuid n) :: created (S n) dc end.

Definition add_deliveries (es : list delivery) (d : db) : db :=
  with_deliveries (foldl (λ acc e, <[d_id e := e]> acc) (deliveries d) es) d.

Lemma CreateBulk_run dc t :
  db_wf (tx_db t) → fresh_uuids (tx_db t) (tx_fresh t) →
  (∀ c, c ∈ dc → ∀ id, d_id (c id) = id ∧ row_fk (tx_db t) (c id)) →
  CreateBulk dc t = Ok ((), MkTxn (add_deliveries (created (tx_fresh t) dc) (tx_db t)) (tx_hooks t)
    (tx_fresh t + length dc)) ∧
  db_wf (add_deliveries (created (tx_fresh t) dc) (tx_db t)) ∧
  fresh_uuids (add_deliveries (created (tx_fresh t) dc) (tx_db t)) (tx_fresh t + length dc).
Proof.
  revert t. induction dc as [|c dc IH]; intros t W Fr Hc.
  { rewrite Nat.add_0_r. unfold add_deliveries. simpl.
    replace (with_deliveries _ _) with (tx_db t) by by destruct (tx_db t). by destruct t. }
  destruct (Hc c ltac:(by left) (new_uuid (tx_fresh t))) as [Hid Hfk].
  set (e := c (new_uuid (tx_fresh t))) in *.
  set (t0 := MkTxn (tx_db t) (tx_hooks t) (S (tx_fresh t))).
  destruct (Create_run e t0) as [Hrun Hwf]; [| |done|].
  { simpl. rewrite Hid. by apply (fu_deliveries _ _ Fr). }
  { by apply row_error_None. }
  set (t1 := with_db _ t0) in Hrun.
  destruct (IH t1) as (Hrun' & Hwf' & Hfr'); [done| | |].
  { by apply fresh_delivery. }
  { intros c' Hc' id. destruct (Hc c' ltac:(by right) id) as [? Hfk']. split; [done|].
    eapply fk_grows_del, Hfk'. split; simpl; auto with mmmbbb. }
  replace (tx_fresh t + length (c :: dc))%nat with (S (tx_fresh t) + length dc)%nat
    by (simpl; lia).
  split_and!; [|exact Hwf'|exact Hfr'].
  transitivity (CreateBulk dc t1); [|exact Hrun'].
  unfold CreateBulk at 1. simpl. unfold mbind, M_bind, uuid_New. fold e t0. by rewrite Hrun.
Qed.

Lemma add_deliveries_lookup n dc d k e :
  (∀ c, c ∈ dc → ∀ id, d_id (c id) = id) → fresh_uuids d n →
  deliveries (add_deliveries (created n dc) d) !! k = Some e ↔
    deliveries d !! k = Some e ∨ (e ∈ created n dc ∧ d_id e = k).
Proof.
  revert n d. induction dc as [|c dc IH]; intros n d Hc Fr; simpl.
  { rewrite elem_of_nil. naive_solver. }
  pose proof (Hc c ltac:(by left) (new_uuid n)) as Hid. set (e0 := c (new_uuid n)) in *.
  change (deliveries (add_deliveries (created (S n) dc)
    (with_deliveries (<[d_id e0 := e0]> (deliveries d)) d)) !! k = Some e ↔
    deliveries d !! k = Some e ∨ (e ∈ e0 :: created (S n) dc ∧ d_id e = k)).
  rewrite IH; [|intros; apply Hc; by right|by apply fresh_delivery].
  simpl. rewrite lookup_insert_Some, elem_of_cons. rewrite Hid.
  pose proof (fu_deliveries _ _ Fr n ltac:(lia)) as Hn.
  destruct (decide (new_uuid n = k)) as [<-|]; naive_solver.
Qed.

(** The subscriptions of [subs] that get the message, and what they get. *)
Definition recipients (subs : list subscription) m : list subscription :=
  filter (λ s, passes s m = true) subs.
Definition new_deliveries d subs m (now : time) : list DeliveryCreate :=
  (λ s, new_delivery d s m now) <$> recipients subs m.

Lemma omap_recipients d subs m now :
  omap id ((λ s, if passes s m then Some (new_delivery d s m now) else None) <$> subs)
  = new_deliveries d subs m now.
Proof.
  unfold new_deliveries, recipients. induction subs as [|s subs IH]; [done|].
  rewrite filter_cons. simpl. destruct (passes s m); simpl; [f_equal|]; exact IH.
Qed.

Lemma new_delivery_fk d s m now id :
  db_wf d → messages d !! m_id m = Some m → subscriptions d !! s_id s = Some s →
  d_id (new_delivery d s m now id) = id ∧ row_fk d (new_delivery d s m now id).
Proof.
  intros W Hm Hs. split; [done|]. split_and!; simpl; [by eauto..|].
  destruct (s_orderedDelivery s && has_order_key m); [|done].
  destruct (sort_by _ _) as [|e l] eqn:Hl; [done|]. simpl.
  assert (He : e ∈ sort_by (λ e, - d_publishedAt e) (rows_where (predecessor d s m now) d))
    by (rewrite Hl; left).
  apply elem_of_sort_by, elem_of_rows_wf in He as [_ He]; [|done]. by exists e.
Qed.

Lemma deliver_all_run subs m now t :
  db_wf (tx_db t) → fresh_uuids (tx_db t) (tx_fresh t) →
  messages (tx_db t) !! m_id m = Some m →
  (∀ s, s ∈ subs → subscriptions (tx_db t) !! s_id s = Some s) →
  let dc := new_deliveries (tx_db t) subs m now in
  let d' := add_deliveries (created (tx_fresh t) dc) (tx_db t) in
  deliver_all subs m now t = Ok (length dc, MkTxn d'
    (tx_hooks t ++ ((λ s, NotifyPublish [s_id s]) <$> recipients subs m))
    (tx_fresh t + length dc)) ∧
  db_wf d' ∧ fresh_uuids d' (tx_fresh t + length dc).
Proof.
  intros W Fr Hm Hs dc d'.
  set (t1 := add_hooks ((λ s, NotifyPublish [s_id s]) <$> recipients subs m) t).
  destruct (CreateBulk_run dc t1 W Fr) as (Hrun & Hwf & Hfr).
  { intros c (s & -> & [_ Hin]%list_elem_of_filter)%list_elem_of_fmap id.
    apply new_delivery_fk; auto. }
  split; [|done]. unfold deliver_all, mbind, M_bind. rewrite traverse_deliver_run.
  rewrite omap_recipients. change (filter _ subs) with (recipients subs m). fold t1 dc.
  by rewrite Hrun.
Qed.

Lemma created_elem n dc c :
  c ∈ dc → ∃ i, (n ≤ i)%nat ∧ c (new_uuid i) ∈ created n dc.
Proof.
  revert n. induction dc as [|c' dc IH]; intros n; [by intros ?%elem_of_nil|].
  intros [->|Hc]%elem_of_cons; [exists n; split; [done|by left]|].
  destruct (IH (S n) Hc) as (i & ? & ?). exists i. split; [lia|by right].
Qed.

Lemma created_inv n dc e :
  e ∈ created n dc → ∃ c i, c ∈ dc ∧ (n ≤ i)%nat ∧ e = c (new_uuid i).
Proof.
  revert n. induction dc as [|c dc IH]; intros n; [by intros ?%elem_of_nil|].
  intros [->|Hc]%elem_of_cons; [exists c, n; split_and!; [by left|done..]|].
  destruct (IH _ Hc) as (c' & i & ? & ? & ->). exists c', i. split_and!; [by right|lia|done].
Qed.

Lemma recipients_NoDup topicID m d :
  db_wf d → NoDup (s_id <$> recipients (rows_where (live_sub_of topicID) d) m).
Proof.
  intros W. pose proof (rows_where_NoDup (live_sub_of topicID) d W) as Hnd.
  unfold recipients. revert Hnd. generalize (rows_where (live_sub_of topicID) d). intros l.
  induction l as [|s l IH]; [done|]. rewrite fmap_cons, NoDup_cons. intros [Hs Hl].
  rewrite filter_cons. case_decide; [|by apply IH]. rewrite fmap_cons, NoDup_cons.
  split; [|by apply IH]. intros (s' & Heq & Hs')%list_elem_of_fmap. apply Hs.
  apply list_elem_of_fmap. exists s'. split; [done|]. by apply list_elem_of_filter in Hs' as [_ ?].
Qed.

Lemma created_once n d rs m now e e' :
  NoDup (s_id <$> rs) →
  let l := created n ((λ s, new_delivery d s m now) <$> rs) in
  e ∈ l → e' ∈ l → d_subscriptionID e = d_subscriptionID e' → e = e'.
Proof.
  assert (Hsub : ∀ n rs e, e ∈ created n ((λ s, new_delivery d s m now) <$> rs) →
    d_subscriptionID e ∈ s_id <$> rs).
  { intros k l x (c & i & (s & -> & Hs)%list_elem_of_fmap & _ & ->)%created_inv.
    by apply (list_elem_of_fmap_2 s_id). }
  simpl. revert n. induction rs as [|s rs IH]; intros n; [by intros _ ?%elem_of_nil|].
  rewrite fmap_cons, NoDup_cons. intros [Hs Hnd].
  intros [->|He]%elem_of_cons [->|He']%elem_of_cons Heq; [done|exfalso..|by eapply IH].
  - apply Hs. apply Hsub in He'. by rewrite <- Heq in He'.
  - apply Hs. apply Hsub in He. by rewrite Heq in He.
Qed.

(** What publishing [m], with deliveries to [subs], does to the database. *)
Record published (d d' : db) (now : time) (m : message) (subs : list subscription) : Prop := {
  pu_message_new : messages d !! m_id m = None;
  pu_messages : messages d' = <[m_id m := m]> (messages d);
  pu_subs_once : NoDup (s_id <$> subs);
  pu_subs : ∀ s, s ∈ subs ↔ subscriptions d !! s_id s = Some s ∧
    s_topicID s = m_topicID m ∧ s_deletedAt s = None ∧ passes s m = true;
  pu_delivered : ∀ s, s ∈ subs → ∃ e, deliveries d' !! d_id e = Some e ∧
    deliveries d !! d_id e = None ∧
    d_subscriptionID e = s_id s ∧ d_messageID e = m_id m ∧ d_completedAt e = None ∧
    d_attempts e = 0 ∧ d_publishedAt e = now ∧
    d_attemptAt e = now + s_deliveryDelay s ∧ d_expiresAt e = now + s_messageTTL s;
  pu_only : ∀ k e, deliveries d' !! k = Some e → deliveries d !! k = Some e ∨
    d_messageID e = m_id m ∧ ∃ s, s ∈ subs ∧ d_subscriptionID e = s_id s;
  pu_once : ∀ k k' e e', deliveries d' !! k = Some e → deliveries d' !! k' = Some e' →
    d_messageID e = m_id m → d_messageID e' = m_id m →
    d_subscriptionID e = d_subscriptionID e' → k = k';
  pu_kept : ∀ k e, deliveries d !! k = Some e → deliveries d' !! k = Some e;
  pu_others : topics d' = topics d ∧ subscriptions d' = subscriptions d ∧ snapshots d' = snapshots d }.

Definition new_message (p : PublishMessageParams) (tp : topic) (text : string) (now : time) (id : uuid)
  : message :=
  MkMessage id (t_id tp) text (pm_Attributes p) now
    (if bool_decide (pm_OrderKey p = EmptyString) then None else Some (pm_OrderKey p)).

(** The run up to the encoding of the payload. *)
Lemma PublishMessage_start p now t tp :
  rows_where (topicMatch p) (tx_db t) = [tp] →
  PublishMessage_Execute p now t =
    (lift (payload_column (pm_Payload p)) ≫= λ text,
       let m := new_message p tp text now (new_uuid (tx_fresh t)) in
       Create m ≫= λ _, deliver_all (rows_where (live_sub_of (t_id tp)) (tx_db t)) m now ≫= λ n,
       mret (MkPublished (m_id m) n)) (MkTxn (tx_db t) (tx_hooks t) (S (tx_fresh t))).
Proof.
  intros Htp. unfold PublishMessage_Execute.
  rewrite (bind_step _ _ t [tp] t) by (unfold All, gets; by rewrite Htp).
  by rewrite (bind_step _ _ t tp t), (bind_step _ _ t (rows_where (live_sub_of (t_id tp)) (tx_db t)) t).
Qed.

Lemma PublishMessage_not_json p now t tp :
  rows_where (topicMatch p) (tx_db t) = [tp] → stored_json (pm_Payload p) = None →
  PublishMessage_Execute p now t = Err (ErrOther "invalid JSON").
Proof. intros Htp Hj. rewrite (PublishMessage_start p now t tp Htp). unfold payload_column. by rewrite Hj. Qed.

Lemma PublishMessage_run p now t tp text :
  db_wf (tx_db t) → fresh_uuids (tx_db t) (tx_fresh t) →
  rows_where (topicMatch p) (tx_db t) = [tp] → stored_json (pm_Payload p) = Some text →
  let m := new_message p tp text now (new_uuid (tx_fresh t)) in
  ∃ t' subs, PublishMessage_Execute p now t = Ok (MkPublished (m_id m) (length subs), t') ∧
    published (tx_db t) (tx_db t') now m subs ∧
    db_wf (tx_db t') ∧ fresh_uuids (tx_db t') (tx_fresh t') ∧
    tx_hooks t' = tx_hooks t ++ ((λ s, NotifyPublish [s_id s]) <$> subs).
Proof.
  intros W Fr Htp Hj m.
  assert (Htp' : tp ∈ rows_where (topicMatch p) (tx_db t)) by (rewrite Htp; left).
  apply elem_of_rows_wf in Htp' as [_ Htp']; [|done].
  set (subs := rows_where (live_sub_of (t_id tp)) (tx_db t)).
  set (t0 := MkTxn (tx_db t) (tx_hooks t) (S (tx_fresh t))).
  assert (Hnew : messages (tx_db t) !! m_id m = None) by by apply (fu_messages _ _ Fr).
  destruct (Create_run m t0) as [Hm Wm];
    [done|apply row_error_None; split_and!; [done|done|by exists tp]|done|].
  set (t1 := with_db _ t0) in Hm.
  destruct (deliver_all_run subs m now t1) as (Hrun & Wd & Frd); [done|by apply fresh_message| |..].
  { simpl. by rewrite lookup_insert_eq. }
  { intros s Hs. by apply elem_of_rows_wf in Hs as [_ Hs]. }
  set (dc := new_deliveries (tx_db t1) subs m now) in *.
  exists (MkTxn (add_deliveries (created (tx_fresh t1) dc) (tx_db t1))
    (tx_hooks t ++ ((λ s, NotifyPublish [s_id s]) <$> recipients subs m))
    (tx_fresh t1 + length dc)), (recipients subs m).
  assert (Hids : ∀ c, c ∈ dc → ∀ i, d_id (c i) = i).
  { by intros c (s & -> & _)%list_elem_of_fmap i. }
  pose proof (fresh_message _ _ m Fr eq_refl) as Fr1.
  split_and!; try done.
  { rewrite (PublishMessage_start p now t tp Htp). unfold payload_column. rewrite Hj.
    rewrite (bind_step _ _ _ text t0) by done. cbv zeta. fold m subs.
    rewrite (bind_step _ _ t0 () t1 Hm), (bind_step _ _ _ _ _ Hrun).
    unfold mret, M_ret, dc, new_deliveries. by rewrite length_fmap. }
  assert (Hold : ∀ k e, deliveries (tx_db t) !! k = Some e → d_messageID e ≠ m_id m).
  { intros k e He Heq. destruct (tw_fk _ (wf_deliveries _ W) _ _ He) as [[? Hmsg] _]. congruence. }
  split; try done.
  - by apply recipients_NoDup.
  - intros s. unfold recipients, subs. rewrite list_elem_of_filter, elem_of_rows_wf by done.
    unfold live_sub_of. simpl. naive_solver.
  - intros s Hs. destruct (created_elem (tx_fresh t1) dc (new_delivery (tx_db t1) s m now)) as (i & Hi & He).
    { apply list_elem_of_fmap. by exists s. }
    eexists. split; [apply add_deliveries_lookup; [done|done|right; by split]|].
    split_and!; try done. apply (fu_deliveries _ _ Fr1). done.
  - intros k e [He|[He <-]]%add_deliveries_lookup; [by left| |done|done].
    right. apply created_inv in He as (c & i & (s & -> & Hs)%list_elem_of_fmap & _ & ->).
    split; [done|]. by exists s.
  - intros k k' e e' [He|[He <-]]%add_deliveries_lookup [He'|[He' <-]]%add_deliveries_lookup Hme Hme' Hsub;
      try done; try (by exfalso; eapply Hold).
    f_equal. eapply created_once; [|exact He|exact He'|done]. by apply recipients_NoDup.
  - intros k e He. apply add_deliveries_lookup; [done|done|]. by left.
Qed.

(** Publishing to a live topic succeeds exactly for a payload that is
    JSON, and does exactly this: it adds one message, with what the JSON column holds of the
    payload, and, for each live subscription of the topic whose filter lets the
    message through, exactly one delivery, due after the subscription's delivery delay, expiring
    after its message TTL, not yet attempted; it wakes exactly these subscriptions at
    commit; no other row of any table changes. *)
Theorem PublishMessage_delivers p now t tp :
  db_wf (tx_db t) → fresh_uuids (tx_db t) (tx_fresh t) →
  rows_where (topicMatch p) (tx_db t) = [tp] →
  (stored_json (pm_Payload p) = None →
    PublishMessage_Execute p now t = Err (ErrOther "invalid JSON")) ∧
  ∀ text, stored_json (pm_Payload p) = Some text → ∃ m t' subs,
    PublishMessage_Execute p now t = Ok (MkPublished (m_id m) (length subs), t') ∧
    db_wf (tx_db t') ∧
    (** the message *)
    m_topicID m = t_id tp ∧ m_payload m = text ∧ m_attributes m = pm_Attributes p ∧
    messages (tx_db t) !! m_id m = None ∧
    messages (tx_db t') = <[m_id m := m]> (messages (tx_db t)) ∧
    (** the recipients, each once *)
    NoDup (s_id <$> subs) ∧
    (∀ s, s ∈ subs ↔ subscriptions (tx_db t) !! s_id s = Some s ∧
       s_topicID s = t_id tp ∧ s_deletedAt s = None ∧ passes s m = true) ∧
    (** their deliveries *)
    (∀ s, s ∈ subs → ∃ e, deliveries (tx_db t') !! d_id e = Some e ∧
       deliveries (tx_db t) !! d_id e = None ∧
       d_subscriptionID e = s_id s ∧ d_messageID e = m_id m ∧ d_completedAt e = None ∧
       d_attempts e = 0 ∧ d_publishedAt e = now ∧
       d_attemptAt e = now + s_deliveryDelay s ∧ d_expiresAt e = now + s_messageTTL s) ∧
    (∀ k e, deliveries (tx_db t') !! k = Some e → deliveries (tx_db t) !! k = Some e ∨
       d_messageID e = m_id m ∧ ∃ s, s ∈ subs ∧ d_subscriptionID e = s_id s) ∧
    (∀ k k' e e', deliveries (tx_db t') !! k = Some e → deliveries (tx_db t') !! k' = Some e' →
       d_messageID e = m_id m → d_messageID e' = m_id m →
       d_subscriptionID e = d_subscriptionID e' → k = k') ∧
    (∀ k e, deliveries (tx_db t) !! k = Some e → deliveries (tx_db t') !! k = Some e) ∧
    topics (tx_db t') = topics (tx_db t) ∧ subscriptions (tx_db t') = subscriptions (tx_db t) ∧
    snapshots (tx_db t') = snapshots (tx_db t) ∧
    tx_hooks t' = tx_hooks t ++ ((λ s, NotifyPublish [s_id s]) <$> subs).
Proof.
  intros W Fr Htp. split; [by eapply PublishMessage_not_json|]. intros text Hj.
  destruct (PublishMessage_run p now t tp text W Fr Htp Hj) as (t' & subs & Hrun & [] & ? & _ & ?).
  do 3 eexists. split; [exact Hrun|]. split_and!; try done; tauto.
Qed.
End Deliver_run.

Section DeadLetter_run.
Context {E : Engine} {FP : FilterParser}.

(** The live subscriptions of a live dead-letter topic. *)
Definition dl_subs (d : db) (topicID : uuid) : list subscription :=
  match topics d !! topicID with
  | Some tp => if decide (t_deletedAt tp = None) then rows_where (live_sub_of topicID) d else []
  | None => []
  end.

(** The database after [deadLetterDelivery]. *)
Definition dead_lettered (d : db) (n : nat) (data : deadLetterData) (e : delivery) (m : message)
    (now : time) : db :=
  let d1 := add_deliveries
    (created n (new_deliveries d (dl_subs d (DeadLetterTopicID data)) m now)) d in
  with_deliveries (<[DeliveryID data := del_set_completedAt (Some now) e]> (deliveries d1)) d1.

Lemma dl_subs_stored d i s : db_wf d → s ∈ dl_subs d i → subscriptions d !! s_id s = Some s.
Proof.
  intros W. unfold dl_subs. destruct (topics d !! i) as [tp|]; [|by intros ?%elem_of_nil].
  case_decide; [|by intros ?%elem_of_nil]. by intros [_ ?]%elem_of_rows_wf.
Qed.

Lemma completed_harmless P at_ : harmless P (del_set_completedAt at_).
Proof. by apply delivery_harmless. Qed.
Lemma attemptAt_harmless P at_ : harmless P (del_set_attemptAt at_).
Proof. by apply delivery_harmless. Qed.

Lemma deliverToDeadLetterTopic_run data now t m :
  db_wf (tx_db t) → fresh_uuids (tx_db t) (tx_fresh t) →
  messages (tx_db t) !! DeliveryMessageID data = Some m →
  let subs := dl_subs (tx_db t) (DeadLetterTopicID data) in
  let dc := new_deliveries (tx_db t) subs m now in
  let d' := add_deliveries (created (tx_fresh t) dc) (tx_db t) in
  deliverToDeadLetterTopic data now t = Ok ((), MkTxn d'
    (tx_hooks t ++ ((λ s, NotifyPublish [s_id s]) <$> recipients subs m))
    (tx_fresh t + length dc)) ∧
  db_wf d' ∧ fresh_uuids d' (tx_fresh t + length dc).
Proof.
  intros W Fr Hm subs dc d'.
  assert (Hmid : m_id m = DeliveryMessageID data) by apply (tw_key _ (wf_messages _ W) _ _ Hm).
  destruct (deliver_all_run subs m now t W Fr) as (Hall & W1 & Fr1);
    [by rewrite Hmid|by intros s; apply dl_subs_stored|].
  split; [|done]. fold dc d' in Hall.
  assert (Hnone : subs = [] → Ok ((), t) = Ok ((), MkTxn d'
    (tx_hooks t ++ ((λ s, NotifyPublish [s_id s]) <$> recipients subs m))
    (tx_fresh t + length dc)) :> outcome (() * txn)).
  { intros Hs. unfold d', dc, new_deliveries, add_deliveries. rewrite Hs. simpl.
    rewrite app_nil_r, Nat.add_0_r. do 2 f_equal. by destruct t as [[] ??]. }
  unfold deliverToDeadLetterTopic. rewrite (bind_step _ _ t _ t eq_refl).
  rewrite (rows_where_key _ _ (DeadLetterTopicID data)) by (done || by intros ? [? _]).
  unfold subs, dl_subs in Hnone, Hall |- *. change (table (tx_db t)) with (topics (tx_db t)).
  destruct (topics (tx_db t) !! DeadLetterTopicID data) as [tp|] eqn:Htp; [|by apply Hnone].
  pose proof (tw_key _ (wf_topics _ W) _ _ Htp) as Hid. simpl in Hid.
  destruct (decide (t_deletedAt tp = None)) as [Hlive|Hdead].
  - rewrite decide_True by done. change (only [tp]) with (Ok tp : outcome topic). cbv iota. rewrite Hid.
    rewrite (bind_step _ _ t _ t eq_refl).
    destruct (rows_where (live_sub_of _) _) as [|s l] eqn:Hrows; [by apply Hnone|].
    rewrite (bind_step _ _ t m t) by (by apply Get_run).
    by rewrite (bind_step _ _ _ _ _ Hall).
  - rewrite decide_False by naive_solver. by apply Hnone.
Qed.

Lemma deadLetterDelivery_run data now t e m :
  db_wf (tx_db t) → fresh_uuids (tx_db t) (tx_fresh t) →
  deliveries (tx_db t) !! DeliveryID data = Some e →
  messages (tx_db t) !! DeliveryMessageID data = Some m →
  let subs := dl_subs (tx_db t) (DeadLetterTopicID data) in
  let d' := dead_lettered (tx_db t) (tx_fresh t) data e m now in
  let n' := (tx_fresh t + length (new_deliveries (tx_db t) subs m now))%nat in
  deadLetterDelivery data now t = Ok ((), MkTxn d'
    (tx_hooks t ++ ((λ s, NotifyPublish [s_id s]) <$> recipients subs m)
      ++ [NotifyPublish [DeliverySubscriptionID data]]) n') ∧
  db_wf d' ∧ fresh_uuids d' n'.
Proof.
  intros W Fr He Hm subs d' n'.
  destruct (deliverToDeadLetterTopic_run data now t m W Fr Hm) as (H1 & W1 & Fr1).
  set (t1 := MkTxn _ _ _) in H1.
  assert (He1 : deliveries (tx_db t1) !! DeliveryID data = Some e).
  { apply add_deliveries_lookup; [|done|by left]. by intros c (s & -> & _)%list_elem_of_fmap i. }
  destruct (UpdateOneID_run (λ _, True) (del_set_completedAt (Some now)) (DeliveryID data) e t1)
    as [H2 W2]; [apply completed_harmless|done|done|done|].
  split_and!.
  - unfold deadLetterDelivery. rewrite (bind_step _ _ _ _ _ H1), (bind_step _ _ _ _ _ H2).
    unfold OnCommit, modify. simpl. by rewrite <- (assoc_L (++)).
  - exact W2.
  - destruct Fr1 as [Hi ?? ? Hd ?]. split; try done. simpl. intros i Hin.
    rewrite lookup_insert_ne; [by apply Hd|]. intros Heq.
    specialize (Hd i Hin). rewrite <- Heq in Hd. discriminate (eq_trans (eq_sym He1) Hd).
Qed.

(** C11 Dead-lettering a stored delivery always succeeds: the delivery is
    completed at [now], never to be attempted again, and its original message is delivered
    once to each live subscription of the (live) dead-letter topic whose filter lets it
    through; nothing else changes in any table, and the delivery's own subscription is
    woken, since an ordered successor may have become eligible. *)
Theorem deadLetterDelivery_moves data now t e m :
  db_wf (tx_db t) → fresh_uuids (tx_db t) (tx_fresh t) →
  deliveries (tx_db t) !! DeliveryID data = Some e →
  messages (tx_db t) !! DeliveryMessageID data = Some m →
  ∃ t' subs,
    deadLetterDelivery data now t = Ok ((), t') ∧ db_wf (tx_db t') ∧
    deliveries (tx_db t') !! DeliveryID data = Some (del_set_completedAt (Some now) e) ∧
    NoDup (s_id <$> subs) ∧
    (∀ s, s ∈ subs ↔ subscriptions (tx_db t) !! s_id s = Some s ∧ s_deletedAt s = None ∧
       passes s m = true ∧ s_topicID s = DeadLetterTopicID data ∧
       ∃ tp, topics (tx_db t) !! DeadLetterTopicID data = Some tp ∧ t_deletedAt tp = None) ∧
    (∀ s, s ∈ subs → ∃ e', deliveries (tx_db t') !! d_id e' = Some e' ∧
       deliveries (tx_db t) !! d_id e' = None ∧ d_messageID e' = m_id m ∧
       d_subscriptionID e' = s_id s ∧ d_attempts e' = 0 ∧ d_completedAt e' = None ∧
       d_expiresAt e' = now + s_messageTTL s) ∧
    (∀ k e', k ≠ DeliveryID data → deliveries (tx_db t') !! k = Some e' →
       deliveries (tx_db t) !! k = Some e' ∨
       d_messageID e' = m_id m ∧ ∃ s, s ∈ subs ∧ d_subscriptionID e' = s_id s) ∧
    (∀ k e', k ≠ DeliveryID data → deliveries (tx_db t) !! k = Some e' →
       deliveries (tx_db t') !! k = Some e') ∧
    messages (tx_db t') = messages (tx_db t) ∧ topics (tx_db t') = topics (tx_db t) ∧
    subscriptions (tx_db t') = subscriptions (tx_db t) ∧
    NotifyPublish [DeliverySubscriptionID data] ∈ tx_hooks t'.
Proof.
  intros W Fr He Hm.
  destruct (deadLetterDelivery_run data now t e m W Fr He Hm) as (Hrun & W' & _).
  set (subs0 := dl_subs (tx_db t) (DeadLetterTopicID data)) in *.
  set (dc := new_deliveries (tx_db t) subs0 m now) in *.
  assert (Hids : ∀ c, c ∈ dc → ∀ i, d_id (c i) = i).
  { by intros c (s & -> & _)%list_elem_of_fmap i. }
  eexists _, (recipients subs0 m). split; [exact Hrun|]. split_and!; try done; simpl.
  - apply lookup_insert_eq.
  - unfold subs0, dl_subs. destruct (topics _ !! _); [|constructor].
    case_decide; [by apply recipients_NoDup|constructor].
  - intros s. unfold recipients, subs0, dl_subs. rewrite list_elem_of_filter.
    destruct (topics _ !! _) as [tp|] eqn:Htp; [|rewrite elem_of_nil; naive_solver].
    case_decide; [|rewrite elem_of_nil; naive_solver].
    rewrite elem_of_rows_wf by done. unfold live_sub_of. simpl. naive_solver.
  - intros s Hs. destruct (created_elem (tx_fresh t) dc (new_delivery (tx_db t) s m now)) as (i & Hi & He').
    { apply list_elem_of_fmap. by exists s. }
    assert (Hnew : deliveries (tx_db t) !! new_uuid i = None) by by apply (fu_deliveries _ _ Fr).
    exists (new_delivery (tx_db t) s m now (new_uuid i)). split_and!; try done. simpl.
    rewrite lookup_insert_ne by congruence. apply add_deliveries_lookup; [done|done|right; by split].
  - intros k e' Hk. rewrite lookup_insert_ne by done.
    intros [?|[Hin <-]]%add_deliveries_lookup; [by left| |done|done].
    right. apply created_inv in Hin as (c & i & (s & -> & Hs)%list_elem_of_fmap & _ & ->).
    split; [done|]. by exists s.
  - intros k e' Hk Hin. rewrite lookup_insert_ne by done. apply add_deliveries_lookup; [done|done|by left].
  - rewrite !elem_of_app. right. right. by left.
Qed.
End DeadLetter_run.

(** ** Loops that settle deliveries one by one *)

Section Settle.
Context {E : Engine} {FP : FilterParser}.

Definition good (t : txn) : Prop := db_wf (tx_db t) ∧ fresh_uuids (tx_db t) (tx_fresh t).

(** From [t] to [t'] only deliveries change, and no other stored delivery than those with
    the given ids. *)
Record only_deliveries (ids : list uuid) (t t' : txn) : Prop := {
  od_good : good t';
  od_topics : topics (tx_db t') = topics (tx_db t);
  od_subscriptions : subscriptions (tx_db t') = subscriptions (tx_db t);
  od_messages : messages (tx_db t') = messages (tx_db t);
  od_snapshots : snapshots (tx_db t') = snapshots (tx_db t);
  od_kept : ∀ k e, k ∉ ids → deliveries (tx_db t) !! k = Some e →
    deliveries (tx_db t') !! k = Some e }.

Lemma only_deliveries_refl t : good t → only_deliveries [] t t.
Proof. intros. by split. Qed.

Lemma only_deliveries_trans ids1 ids2 t t1 t2 :
  only_deliveries ids1 t t1 → only_deliveries ids2 t1 t2 → only_deliveries (ids1 ++ ids2) t t2.
Proof.
  intros H1 H2. split; [apply H2|..].
  - by rewrite (od_topics _ _ _ H2), (od_topics _ _ _ H1).
  - by rewrite (od_subscriptions _ _ _ H2), (od_subscriptions _ _ _ H1).
  - by rewrite (od_messages _ _ _ H2), (od_messages _ _ _ H1).
  - by rewrite (od_snapshots _ _ _ H2), (od_snapshots _ _ _ H1).
  - intros k e [Hk1 Hk2]%not_elem_of_app He. apply (od_kept _ _ _ H2); [done|].
    by apply (od_kept _ _ _ H1).
Qed.

Lemma only_deliveries_weaken ids1 ids2 t t' :
  ids1 ⊆ ids2 → only_deliveries ids1 t t' → only_deliveries ids2 t t'.
Proof. intros Hs []. split; auto. Qed.

(** [m] settles [e]: it turns the stored row [e] into [g e]. *)
Definition settles {B} (m : Tx B) (R : B → Prop) (e : delivery) (g : delivery → delivery)
    (t : txn) : Prop :=
  ∃ b t', m t = Ok (b, t') ∧ R b ∧ only_deliveries [d_id e] t t' ∧
    deliveries (tx_db t') !! d_id e = Some (g e).

Lemma settle_items {X B} (row : X → delivery) (f : X → Tx B) (R : X → B → Prop)
    (g : X → delivery → delivery) l t :
  good t → NoDup ((λ x, d_id (row x)) <$> l) →
  (∀ x, x ∈ l → deliveries (tx_db t) !! d_id (row x) = Some (row x)) →
  (∀ x t1, x ∈ l → good t1 → topics (tx_db t1) = topics (tx_db t) →
     subscriptions (tx_db t1) = subscriptions (tx_db t) →
     messages (tx_db t1) = messages (tx_db t) →
     deliveries (tx_db t1) !! d_id (row x) = Some (row x) →
     settles (f x) (R x) (row x) (g x) t1) →
  ∃ bs t', traverseM l f t = Ok (bs, t') ∧ Forall2 R l bs ∧
    only_deliveries ((λ x, d_id (row x)) <$> l) t t' ∧
    (∀ x, x ∈ l → deliveries (tx_db t') !! d_id (row x) = Some (g x (row x))).
Proof.
  revert t. induction l as [|x l IH]; intros t Hg Hnd Hst Hf.
  { exists [], t. split_and!; [done|constructor|by apply only_deliveries_refl|].
    by intros x ?%elem_of_nil. }
  rewrite fmap_cons, NoDup_cons in Hnd. destruct Hnd as [Hni Hnd].
  destruct (Hf x t ltac:(by left) Hg eq_refl eq_refl eq_refl (Hst x ltac:(by left)))
    as (b & t1 & H1 & Hb & Ho & He).
  assert (Hne : ∀ x', x' ∈ l → d_id (row x') ≠ d_id (row x)).
  { intros x' Hin Heq. apply Hni. rewrite <- Heq.
    by apply (list_elem_of_fmap_2 (λ x, d_id (row x))). }
  destruct (IH t1) as (bs & t2 & H2 & Hbs & Ho2 & He2); [apply Ho|done|..].
  { intros x' Hin. apply (od_kept _ _ _ Ho); [|apply Hst; by right].
    intros Heq%list_elem_of_singleton. by apply (Hne x'). }
  { intros x' t3 Hin Hg3 H3 H4 H5. apply Hf; try done; [by right|..].
    - by rewrite H3, (od_topics _ _ _ Ho).
    - by rewrite H4, (od_subscriptions _ _ _ Ho).
    - by rewrite H5, (od_messages _ _ _ Ho). }
  exists (b :: bs), t2. split_and!.
  - simpl. by rewrite (bind_step _ _ _ _ _ H1), (bind_step _ _ _ _ _ H2).
  - by constructor.
  - exact (only_deliveries_trans _ _ _ _ _ Ho Ho2).
  - intros x' [->|Hin]%elem_of_cons; [|by apply He2].
    by apply (od_kept _ _ _ Ho2).
Qed.

Lemma settle_loop {B} (f : delivery → Tx B) (R : delivery → B → Prop)
    (g : delivery → delivery) l t :
  good t → NoDup (d_id <$> l) →
  (∀ e, e ∈ l → deliveries (tx_db t) !! d_id e = Some e) →
  (∀ e t1, e ∈ l → good t1 → topics (tx_db t1) = topics (tx_db t) →
     subscriptions (tx_db t1) = subscriptions (tx_db t) →
     messages (tx_db t1) = messages (tx_db t) →
     deliveries (tx_db t1) !! d_id e = Some e → settles (f e) (R e) e g t1) →
  ∃ bs t', traverseM l f t = Ok (bs, t') ∧ Forall2 R l bs ∧
    only_deliveries (d_id <$> l) t t' ∧
    (∀ e, e ∈ l → deliveries (tx_db t') !! d_id e = Some (g e)).
Proof. exact (settle_items (λ e, e) f R (λ _, g) l t). Qed.

Lemma deadLetter_settles data now e t :
  good t → deliveries (tx_db t) !! d_id e = Some e → DeliveryID data = d_id e →
  DeliveryMessageID data = d_messageID e →
  settles (deadLetterDelivery data now) (λ _, True) e (del_set_completedAt (Some now)) t.
Proof.
  intros [W Fr] He Hid Hmid.
  destruct (tw_fk _ (wf_deliveries _ W) _ _ He) as ([m Hm] & _). rewrite <- Hmid in Hm.
  rewrite <- Hid in He.
  destruct (deadLetterDelivery_run data now t e m W Fr He Hm) as (Hrun & W' & Fr').
  eexists (), _. split_and!; [exact Hrun|done| |].
  - split; try done. simpl. intros k e' Hk He'. rewrite Hid, lookup_insert_ne by set_solver.
    apply add_deliveries_lookup; [|done|by left]. by intros c (s & -> & _)%list_elem_of_fmap i.
  - simpl. rewrite Hid. apply lookup_insert_eq.
Qed.

Lemma update_settles (g : delivery → delivery) e t :
  good t → deliveries (tx_db t) !! d_id e = Some e → harmless (λ _, True) g →
  settles (UpdateOneID (d_id e) g) (λ _, True) e g t.
Proof.
  intros [W Fr] He Hg.
  destruct (UpdateOneID_run (λ _, True) g (d_id e) e t) as [Hrun W']; [done..|].
  eexists (), _. split_and!; [exact Hrun|done| |apply lookup_insert_eq].
  split; try done.
  - split; [done|]. destruct Fr as [Hi ??? Hd ?]. split; try done. simpl. intros i Hin.
    rewrite lookup_insert_ne; [by apply Hd|]. intros Heq.
    specialize (Hd i Hin). rewrite <- Heq, He in Hd. done.
  - simpl. intros k e' Hk He'. rewrite lookup_insert_ne; [done|set_solver].
Qed.

Lemma settles_bind {B C} (m : Tx B) (R : B → Prop) (f : B → Tx C) (R' : C → Prop) e g t :
  settles m R e g t → (∀ b t', R b → ∃ c, f b t' = Ok (c, t') ∧ R' c) →
  settles (m ≫= f) R' e g t.
Proof.
  intros (b & t' & Hm & HR & Ho & He) Hf. destruct (Hf b t' HR) as (c & Hc & HR').
  exists c, t'. by rewrite (bind_step _ _ _ _ _ Hm).
Qed.
End Settle.

Definition publish_one : PublishMessageParams := MkPublish "t" None "hello" ∅ "k".

Lemma PublishMessage_delivers_witness :
  ∃ m t' (subs : list subscription),
    PublishMessage_Execute (E := id_engine) publish_one 400 example_txn
      = Ok (MkPublished (m_id m) (length subs), t') ∧
    messages (tx_db t') !! m_id m = Some m.
Proof.
  destruct (PublishMessage_delivers (E := id_engine) publish_one 400 example_txn topic_t
    example_db_wf example_fresh eq_refl) as [_ H].
  destruct (H "hello" eq_refl)
    as (m & t' & subs & H1 & _ & _ & _ & _ & _ & H2 & _).
  exists m, t', subs. split; [exact H1|]. rewrite H2. apply lookup_insert_eq.
Defined.

Lemma deadLetterDelivery_moves_witness :
  ∃ t', deadLetterDelivery (E := id_engine) (MkDeadLetterData 33 12 21 2) 400 example_txn = Ok ((), t') ∧
    deliveries (tx_db t') !! 33%N = Some (del_set_completedAt (Some 400) del_3).
Proof.
  destruct (deadLetterDelivery_moves (E := id_engine) (MkDeadLetterData 33 12 21 2) 400 example_txn
    del_3 msg_1 example_db_wf example_fresh eq_refl eq_refl) as (t' & subs & H1 & _ & H2 & _).
  exists t'. split; [exact H1|exact H2].
Defined.
