(* ===== verification/Lifecycle.v ===== *)
(** * Creating and deleting topics and subscriptions

    [src/actions/create-topic.go], [delete-topic.go], [create-subscription.go],
    [delete-subscription.go], [delete-expired-subscriptions.go] and the parameters of
    [prune-common.go].  Deletes are soft: the row stays, no longer live, and its name
    becomes free. *)

From S2P Require Import Prelude Uuid Filter FilterParse Schema Notify Store Example Deliver.

(** Look at the error a statement returned. *)
Definition on_error {A} (m : Tx A) (f : error → error) : Tx A := λ t,
  match m t with Err e => Err (f e) | r => r end.
(** [isSqlDuplicateKeyError(err)]: two creates raced. *)
Definition duplicate_exists (e : error) : error := match e with SqlUnique => ErrExists | e => e end.

Record PruneCommonParams := MkPrune { MinAge : duration; MaxDelete : nat }.
Definition newPruneAction (minAge maxDelete : Z) : outcome PruneCommonParams :=
  if minAge <? 0 then Panic "minAge must be >= 0"
  else if maxDelete <=? 0 then Panic "maxDelete must be > 0"
  else Ok (MkPrune minAge (Z.to_nat maxDelete)).

Section Lifecycle.
Context {E : Engine} {FP : FilterParser}.

(** ** Topics *)

Record CreateTopicParams := MkCreateTopic { ct_Name : string; ct_Labels : labels }.

Definition NewCreateTopic (p : CreateTopicParams) : outcome CreateTopicParams :=
  if bool_decide (ct_Name p = EmptyString) then Panic "topic must have a non-empty name" else Ok p.

(** The schema's [NotEmpty] validator. *)
Definition validate_name (name : string) : Tx () :=
  if bool_decide (name = EmptyString) then fail (ErrOther "validator failed") else mret ().

Definition CreateTopic_Execute (p : CreateTopicParams) (now : time) : Tx uuid :=
  Exist (live_topic_named (ct_Name p)) ≫= λ exists_,
  if (exists_ : bool) then fail ErrExists
  else
    uuid_New ≫= λ id,
    let t := MkTopic id (ct_Name p) now (Some true) None (ct_Labels p) in
    on_error (hooked create_mutation (validate_name (ct_Name p) ≫= λ _, Create t))
      duplicate_exists ≫= λ _,
    NotifyModifyTopic id (ct_Name p) ≫= λ _, mret id.

Definition DeleteTopic_Execute (name : string) (now : time) : Tx nat :=
  All (live_topic_named name) ≫= λ ts,
  match ts with
  | [] => fail ErrNotFound
  | _ =>
      let ids := t_id <$> ts in
      hooked (soft_delete_mutation now)
        (Update (λ t, t_id t ∈ ids) (topic_deleted now)) ≫= λ numDeleted,
      Delete (λ n, n_topicID n ∈ ids) ≫= λ _,
      forM ts (λ t, NotifyModifyTopic (t_id t) (t_name t)) ≫= λ _, mret numDeleted
  end.

(** ** Subscriptions *)

Record CreateSubscriptionParams := MkCreateSub {
  cs_TopicName : string; cs_Name : string; cs_TTL : duration; cs_MessageTTL : duration;
  cs_OrderedDelivery : bool; cs_Labels : labels; cs_PushEndpoint : string;
  cs_MinBackoff : duration; cs_MaxBackoff : duration; cs_Filter : string;
  cs_MaxDeliveryAttempts : Z; cs_DeadLetterTopic : string }.

Definition is_empty (s : string) : bool := bool_decide (s = EmptyString).
Definition if_set (s : string) : option string := if is_empty s then None else Some s.
Definition if_positive (d : duration) : option duration := if 0 <? d then Some d else None.

Definition NewCreateSubscription (p : CreateSubscriptionParams) : outcome CreateSubscriptionParams :=
  if cs_TTL p <=? 0 then Panic "TTL must be > 0"
  else if cs_MessageTTL p <=? 0 then Panic "messageTTL must be > 0"
  else if cs_MaxDeliveryAttempts p <? 0 then Panic "maxDeliveryAttempts must be >= 0"
  else if xorb (negb (cs_MaxDeliveryAttempts p =? 0)) (negb (is_empty (cs_DeadLetterTopic p)))
  then Panic "must set both or neither of MaxDeliveryAttempts and DeadLetterTopic"
  else Ok p.

Definition findTopic (name : string) : Tx topic :=
  All (live_topic_named name) ≫= λ ts, lift (not_found (only ts)).

(** The builder chain of [CreateSubscription], with the topics already resolved. *)
Definition new_subscription (p : CreateSubscriptionParams) (now createdAt : time) (tp : topic)
    (dlTopicID : option uuid) (id : uuid) : subscription :=
  MkSubscription id (t_id tp) (cs_Name p) createdAt (now + cs_TTL p) (Some true) None
    (cs_TTL p) (cs_MessageTTL p) (cs_OrderedDelivery p) (cs_Labels p)
    (if_positive (cs_MinBackoff p)) (if_positive (cs_MaxBackoff p)) (if_set (cs_PushEndpoint p))
    (if_set (cs_Filter p))
    (if cs_MaxDeliveryAttempts p =? 0 then None else Some (cs_MaxDeliveryAttempts p))
    dlTopicID 0.

(** The row that is stored of an entity; the entity itself, which [Save] returns, keeps the
    durations it was given. *)
Definition store_intervals (s : subscription) : subscription :=
  MkSubscription (s_id s) (s_topicID s) (s_name s) (s_createdAt s) (s_expiresAt s) (s_live s) (s_deletedAt s)
    (stored_interval (s_ttl s)) (stored_interval (s_messageTTL s)) (s_orderedDelivery s) (s_labels s)
    (stored_interval <$> s_minBackoff s) (stored_interval <$> s_maxBackoff s) (s_pushEndpoint s)
    (s_messageFilter s) (s_maxDeliveryAttempts s) (s_deadLetterTopicID s) (stored_interval (s_deliveryDelay s)).

Definition save_subscription (p : CreateSubscriptionParams) (now createdAt : time) (tp : topic)
    (dlTopicID : option uuid) : Tx subscription :=
  uuid_New ≫= λ id,
  let s := new_subscription p now createdAt tp dlTopicID id in
  on_error (hooked create_mutation (validate_name (cs_Name p) ≫= λ _, Create (store_intervals s)))
    duplicate_exists ≫= λ _,
  NotifyModifySubscription id (cs_Name p) ≫= λ _, mret s.

Definition CreateSubscription_Execute (p : CreateSubscriptionParams) (now createdAt : time)
  : Tx subscription :=
  Exist (live_sub_named (cs_Name p)) ≫= λ exists_,
  if (exists_ : bool) then fail ErrExists
  else
    findTopic (cs_TopicName p) ≫= λ tp,
    (if is_empty (cs_Filter p) then mret ()
     else match ParseString (cs_Filter p) with
          | Some _ => mret ()
          | None => fail (ErrOther "invalid message filter")
          end) ≫= λ _,
    (if is_empty (cs_DeadLetterTopic p) then mret None
     else findTopic (cs_DeadLetterTopic p) ≫= λ dl, mret (Some (t_id dl))) ≫= λ dlTopicID,
    save_subscription p now createdAt tp dlTopicID.

(** [Update().Where(IDIn(ids...)).SetDeletedAt(now).ClearLive()], then one wake per row. *)
Definition delete_subs (subs : list subscription) (now : time) : Tx nat :=
  let ids := s_id <$> subs in
  hooked (soft_delete_mutation now) (Update (λ s, s_id s ∈ ids) (sub_deleted now)) ≫= λ numDeleted,
  forM subs (λ s, NotifyModifySubscription (s_id s) (s_name s)) ≫= λ _, mret numDeleted.

Definition DeleteSubscription_Execute (name : string) (now : time) : Tx nat :=
  All (live_sub_named name) ≫= λ subs,
  match subs with [] => fail ErrNotFound | _ => delete_subs subs now end.

Definition expired_live (now : time) (s : subscription) : Prop :=
  s_expiresAt s < now ∧ s_deletedAt s = None.
#[export] Instance expired_live_dec now s : Decision (expired_live now s).
Proof. unfold expired_live. apply _. Defined.

Definition DeleteExpiredSubscriptions_Execute (p : PruneCommonParams) (now : time) : Tx nat :=
  All (expired_live now) ≫= λ subs, delete_subs (take (MaxDelete p) subs) now.
End Lifecycle.

(** ** Lemmas *)

Section Lifecycle_run.
Context {E : Engine} {FP : FilterParser}.

Lemma forM_OnCommit_run {A} (l : list A) (h : A → hook) t :
  forM l (λ x, OnCommit (h x)) t = Ok ((), add_hooks (h <$> l) t).
Proof.
  revert t. induction l as [|x l IH]; intros t; simpl; [by rewrite add_hooks_nil|].
  unfold mbind, M_bind. unfold OnCommit at 1, modify at 1. rewrite IH.
  unfold add_hooks. simpl. by rewrite <- (assoc_L (++)).
Qed.

Lemma live_topics_named name d :
  db_wf d → rows_where (live_topic_named name) d = [] ∨
    ∃ tp, rows_where (live_topic_named name) d = [tp] ∧ topics d !! t_id tp = Some tp ∧
      live_topic_named name tp.
Proof.
  intros W. pose proof (rows_where_NoDup (live_topic_named name) d W) as Hnd.
  assert (Hin : ∀ tp, tp ∈ rows_where (live_topic_named name) d →
    topics d !! t_id tp = Some tp ∧ live_topic_named name tp).
  { intros tp ?%elem_of_rows_wf; [naive_solver|done]. }
  destruct (rows_where _ d) as [|t1 [|t2 l]] eqn:Hl; [by left|right; exists t1|].
  { split; [done|]. apply Hin. left. }
  exfalso. destruct (Hin t1 ltac:(left)) as [H1 [N1 D1]].
  destruct (Hin t2 ltac:(right; left)) as [H2 [N2 D2]].
  apply NoDup_cons in Hnd as [Hnd _]. apply Hnd. simpl. rewrite elem_of_cons. left.
  destruct (wf_topics _ W) as [_ Hc Hu _].
  destruct (Hc _ _ H1) as [[L1 _]|[_ [? ?]]]; [|congruence].
  destruct (Hc _ _ H2) as [[L2 _]|[_ [? ?]]]; [|congruence].
  destruct (Hu _ _ H1 _ _ H2) as [->|[?|[?|?]]]; congruence.
Qed.

Lemma live_subs_named name d :
  db_wf d → rows_where (live_sub_named name) d = [] ∨
    ∃ s, rows_where (live_sub_named name) d = [s] ∧ subscriptions d !! s_id s = Some s ∧
      live_sub_named name s.
Proof.
  intros W. pose proof (rows_where_NoDup (live_sub_named name) d W) as Hnd.
  assert (Hin : ∀ s, s ∈ rows_where (live_sub_named name) d →
    subscriptions d !! s_id s = Some s ∧ live_sub_named name s).
  { intros s ?%elem_of_rows_wf; [naive_solver|done]. }
  destruct (rows_where _ d) as [|t1 [|t2 l]] eqn:Hl; [by left|right; exists t1|].
  { split; [done|]. apply Hin. left. }
  exfalso. destruct (Hin t1 ltac:(left)) as [H1 [N1 D1]].
  destruct (Hin t2 ltac:(right; left)) as [H2 [N2 D2]].
  apply NoDup_cons in Hnd as [Hnd _]. apply Hnd. simpl. rewrite elem_of_cons. left.
  destruct (wf_subscriptions _ W) as [_ Hc Hu _].
  destruct (Hc _ _ H1) as [[[L1 _]|[_ [? ?]]] _]; [|congruence].
  destruct (Hc _ _ H2) as [[[L2 _]|[_ [? ?]]] _]; [|congruence].
  destruct (Hu _ _ H1 _ _ H2) as [->|[?|[?|?]]]; congruence.
Qed.

Lemma topic_deleted_harmless P now : harmless P (topic_deleted now).
Proof. apply topic_harmless; intros tp; [done|right; split; [done|by eexists]]. Qed.
Lemma sub_deleted_harmless P now : harmless P (sub_deleted now).
Proof. apply sub_harmless; intros s; [done|right; split; [done|by eexists]]. Qed.
Lemma sub_expiresAt_harmless P now : harmless P (sub_set_expiresAt now).
Proof. apply sub_harmless; intros s; [done|by left]. Qed.

Lemma rows_named_none {A} `{Table A} (P : A → Prop) `{∀ x, Decision (P x)} d r :
  rows_where P d = [] → table d !! pk r = Some r → ¬ P r.
Proof.
  intros Hn Hr HP. eapply elem_of_nil. rewrite <- Hn. apply elem_of_rows_where. eauto.
Qed.

(** Creating a topic refuses a name a live topic has, with the
    "already exists" error and no effect; with a free name (a deleted topic does not hold
    it) it adds exactly one live topic, with its labels, and schedules its wake. *)
Theorem CreateTopic_spec p now t :
  db_wf (tx_db t) → fresh_uuids (tx_db t) (tx_fresh t) → ct_Name p ≠ EmptyString →
  (∃ tp, topics (tx_db t) !! t_id tp = Some tp ∧ live_topic_named (ct_Name p) tp) ∧
    CreateTopic_Execute p now t = Err ErrExists ∨
  (∀ tp, topics (tx_db t) !! t_id tp = Some tp → ¬ live_topic_named (ct_Name p) tp) ∧
    ∃ tp t', CreateTopic_Execute p now t = Ok (t_id tp, t') ∧
      tp = MkTopic (t_id tp) (ct_Name p) now (Some true) None (ct_Labels p) ∧
      topics (tx_db t) !! t_id tp = None ∧
      tx_db t' = with_topics (<[t_id tp := tp]> (topics (tx_db t))) (tx_db t) ∧
      db_wf (tx_db t') ∧ tx_hooks t' = tx_hooks t ++ [NotifyTopic (t_id tp) (ct_Name p)].
Proof.
  intros W Fr Hname. destruct (live_topics_named (ct_Name p) _ W) as [Hn|(tp & Hn & Htp & Hl)].
  - right. split; [intros tp Htp; by eapply rows_named_none|].
    set (id := new_uuid (tx_fresh t)). set (t0 := MkTxn (tx_db t) (tx_hooks t) (S (tx_fresh t))).
    set (tp := MkTopic id (ct_Name p) now (Some true) None (ct_Labels p)).
    assert (Hnone : topics (tx_db t) !! id = None) by by apply (fu_topics _ _ Fr).
    destruct (Create_run tp t0) as [Hc Wc]; [done| |done|].
    { apply row_error_None. split_and!; [by left| |done]. intros k tp' Htp'. right.
      destruct (decide (t_deletedAt tp' = None)) as [Hd|Hd]; [right; left|right; right].
      - intros Heq. eapply rows_named_none; [exact Hn| |split; [by symmetry|done]].
        by rewrite (tw_key _ (wf_topics _ W) _ _ Htp').
      - destruct (tw_check _ (wf_topics _ W) _ _ Htp') as [[_ ?]|[-> _]]; done. }
    exists tp, (add_hooks [NotifyTopic id (ct_Name p)]
      (with_db (with_topics (<[id := tp]> (topics (tx_db t))) (tx_db t)) t0)).
    split; [|by split_and!].
    unfold CreateTopic_Execute. rewrite (bind_step _ _ t false t) by (unfold Exist, gets; by rewrite Hn).
    rewrite (bind_step _ _ t id t0) by done. cbv zeta. fold tp.
    erewrite (bind_step _ _ t0); [reflexivity|]. unfold on_error, hooked, validate_name. simpl.
    rewrite bool_decide_false by done. unfold mbind, M_bind, mret, M_ret. by rewrite Hc.
  - left. split; [by exists tp|]. unfold CreateTopic_Execute.
    by rewrite (bind_step _ _ t true t) by (unfold Exist, gets; by rewrite Hn).
Qed.

(** Deleting a topic by name fails with "not found" when no live
    topic has it; otherwise it soft-deletes that one topic, frees the name, removes its
    snapshots and no others, and leaves subscriptions, messages and deliveries alone. *)
Theorem DeleteTopic_spec name now t :
  db_wf (tx_db t) →
  (∀ tp, topics (tx_db t) !! t_id tp = Some tp → ¬ live_topic_named name tp) ∧
    DeleteTopic_Execute name now t = Err ErrNotFound ∨
  ∃ tp t', topics (tx_db t) !! t_id tp = Some tp ∧ live_topic_named name tp ∧
    DeleteTopic_Execute name now t = Ok (1%nat, t') ∧ db_wf (tx_db t') ∧
    topics (tx_db t') = <[t_id tp := topic_deleted now tp]> (topics (tx_db t)) ∧
    (∀ tp', topics (tx_db t') !! t_id tp' = Some tp' → ¬ live_topic_named name tp') ∧
    (∀ k n, snapshots (tx_db t') !! k = Some n ↔
       snapshots (tx_db t) !! k = Some n ∧ n_topicID n ≠ t_id tp) ∧
    subscriptions (tx_db t') = subscriptions (tx_db t) ∧
    messages (tx_db t') = messages (tx_db t) ∧ deliveries (tx_db t') = deliveries (tx_db t) ∧
    tx_hooks t' = tx_hooks t ++ [NotifyTopic (t_id tp) (t_name tp)].
Proof.
  intros W. destruct (live_topics_named name _ W) as [Hn|(tp & Hn & Htp & Hl)].
  - left. split; [intros tp Htp; by eapply rows_named_none|]. unfold DeleteTopic_Execute.
    by rewrite (bind_step _ _ t [] t) by (unfold All, gets; by rewrite Hn).
  - right. set (P := λ tp', t_id tp' ∈ [t_id tp]).
    destruct (Update_run P (topic_deleted now) t) as [H1 W1]; [apply topic_deleted_harmless|done|].
    set (t1 := with_db _ t) in H1.
    assert (Hmap : update_map P (topic_deleted now) (topics (tx_db t))
      = <[t_id tp := topic_deleted now tp]> (topics (tx_db t))).
    { apply map_eq. intros k. unfold update_map. rewrite lookup_fmap.
      destruct (decide (k = t_id tp)) as [->|Hne].
      - rewrite lookup_insert_eq, Htp. simpl. rewrite decide_True; [done|]. unfold P. by left.
      - rewrite lookup_insert_ne by done. destruct (topics _ !! k) as [tp'|] eqn:Htp'; [|done].
        simpl. rewrite decide_False; [done|]. unfold P. rewrite list_elem_of_singleton.
        pose proof (tw_key _ (wf_topics _ W) _ _ Htp'). simpl in *. congruence. }
    destruct (Delete_run (λ n, n_topicID n ∈ [t_id tp]) t1) as [H2 W2]; [done|done|].
    set (t2 := with_db _ t1) in H2.
    exists tp, (add_hooks [NotifyTopic (t_id tp) (t_name tp)] t2). split_and!; try done.
    + unfold DeleteTopic_Execute.
      rewrite (bind_step _ _ t [tp] t) by (unfold All, gets; by rewrite Hn).
      cbv zeta iota. unfold hooked. simpl checkLiveOrDeleted. cbv iota.
      change (t_id <$> [tp]) with [t_id tp]. rewrite (bind_step _ _ _ _ _ H1).
      rewrite (bind_step _ _ _ _ _ H2).
      rewrite (bind_step _ _ _ _ _ (forM_OnCommit_run [tp] (λ t, NotifyTopic (t_id t) (t_name t)) t2)).
      unfold mret, M_ret. do 2 f_equal.
      rewrite (rows_where_key P _ (t_id tp)); [|done|by intros tp' ?%list_elem_of_singleton].
      change (table (tx_db t)) with (topics (tx_db t)). rewrite Htp, decide_True; [done|]. by left.
    + intros tp'. change (topics (tx_db (add_hooks _ t2))) with
        (update_map P (topic_deleted now) (topics (tx_db t))). rewrite Hmap.
      rewrite lookup_insert_Some. intros [[_ <-]|[Hne Htp']]; [by intros []|].
      intros Hl'. assert (Hin : tp' ∈ [tp]) by (rewrite <- Hn; by apply elem_of_rows_wf).
      apply list_elem_of_singleton in Hin as ->. done.
    + intros k n. change (snapshots (tx_db (add_hooks _ t2))) with
        (filter (λ kr, kr.1 ∉ doomed (λ n, n_topicID n ∈ [t_id tp]) (tx_db t1)) (snapshots (tx_db t))).
      rewrite map_lookup_filter_Some, elem_of_doomed by done. simpl.
      setoid_rewrite list_elem_of_singleton. naive_solver.
Qed.

Lemma delete_subs_run subs now t :
  db_wf (tx_db t) → NoDup (s_id <$> subs) →
  (∀ s, s ∈ subs → subscriptions (tx_db t) !! s_id s = Some s) →
  let d' := with_subscriptions (update_map (λ s, s_id s ∈ s_id <$> subs) (sub_deleted now)
    (subscriptions (tx_db t))) (tx_db t) in
  delete_subs subs now t = Ok (length subs,
    add_hooks ((λ s, NotifySubscription (s_id s) (s_name s)) <$> subs) (with_db d' t)) ∧ db_wf d'.
Proof.
  intros W Hnd Hs d'.
  destruct (Update_run (λ s, s_id s ∈ s_id <$> subs) (sub_deleted now) t) as [H1 W1];
    [apply sub_deleted_harmless|done|].
  assert (Hp : rows_where (λ s, s_id s ∈ s_id <$> subs) (tx_db t) ≡ₚ subs).
  { by apply (rows_pk_perm (A := subscription)). }
  rewrite Hp in H1. split; [|done].
  unfold delete_subs, hooked. simpl checkLiveOrDeleted. cbv iota zeta.
  rewrite (bind_step _ _ _ _ _ H1), (bind_step _ _ _ _ _
    (forM_OnCommit_run subs (λ s, NotifySubscription (s_id s) (s_name s)) _)). done.
Qed.

(** The expiration job soft-deletes only live subscriptions whose expiry has
    passed, as many as the limit allows (all of them if they are no more than that), and
    schedules the wake of each; nothing else changes. *)
Theorem DeleteExpired_spec p now t :
  db_wf (tx_db t) →
  ∃ subs t', DeleteExpiredSubscriptions_Execute p now t = Ok (length subs, t') ∧
    db_wf (tx_db t') ∧ NoDup (s_id <$> subs) ∧
    length subs = (MaxDelete p `min` length (rows_where (expired_live now) (tx_db t)))%nat ∧
    (∀ s, s ∈ subs → subscriptions (tx_db t) !! s_id s = Some s ∧ expired_live now s) ∧
    (∀ k, subscriptions (tx_db t') !! k = (λ s, if decide (s ∈ subs) then sub_deleted now s else s)
       <$> subscriptions (tx_db t) !! k) ∧
    topics (tx_db t') = topics (tx_db t) ∧ messages (tx_db t') = messages (tx_db t) ∧
    deliveries (tx_db t') = deliveries (tx_db t) ∧ snapshots (tx_db t') = snapshots (tx_db t) ∧
    tx_hooks t' = tx_hooks t ++ ((λ s, NotifySubscription (s_id s) (s_name s)) <$> subs).
Proof.
  intros W. set (rows := rows_where (expired_live now) (tx_db t)).
  set (subs := take (MaxDelete p) rows).
  assert (Hin : ∀ s, s ∈ subs → subscriptions (tx_db t) !! s_id s = Some s ∧ expired_live now s).
  { intros s Hs%elem_of_take_incl. apply elem_of_rows_wf in Hs; [naive_solver|done]. }
  assert (Hnd : NoDup (s_id <$> subs)).
  { unfold subs. rewrite fmap_take. eapply sublist_NoDup, sublist_take.
    exact (rows_where_NoDup (expired_live now) _ W). }
  destruct (delete_subs_run subs now t) as [H1 W1]; [done..|naive_solver|].
  eexists subs, _. split; [exact H1|]. split_and!; try done.
  - unfold subs. by rewrite length_take.
  - intros k. simpl. unfold update_map. rewrite lookup_fmap.
    destruct (subscriptions (tx_db t) !! k) as [s|] eqn:Hs; [|done]. simpl. f_equal.
    pose proof (tw_key _ (wf_subscriptions _ W) _ _ Hs) as Hk. simpl in Hk.
    destruct (decide (s ∈ subs)) as [Hi|Hi].
    + rewrite decide_True; [done|]. by apply list_elem_of_fmap_2.
    + rewrite decide_False; [done|]. intros (s' & Heq & Hs')%list_elem_of_fmap.
      destruct (Hin _ Hs') as [Hst _]. congruence.
Qed.

Definition topic_missing (name : string) (d : db) : Prop :=
  rows_where (live_topic_named name) d = [].
Definition filter_refused (src : string) : Prop :=
  src ≠ EmptyString ∧ ParseString src = None.

Lemma findTopic_run name t :
  db_wf (tx_db t) →
  topic_missing name (tx_db t) ∧ findTopic name t = Err ErrNotFound ∨
  ∃ tp, ¬ topic_missing name (tx_db t) ∧ findTopic name t = Ok (tp, t) ∧
    topics (tx_db t) !! t_id tp = Some tp ∧ live_topic_named name tp.
Proof.
  intros W. unfold findTopic, topic_missing.
  destruct (live_topics_named name _ W) as [Hn|(tp & Hn & Htp & Hl)].
  - left. split; [done|]. rewrite (bind_step _ _ t [] t); [done|]. unfold All, gets. by rewrite Hn.
  - right. exists tp. rewrite Hn. split_and!; try done.
    rewrite (bind_step _ _ t [tp] t); [done|]. unfold All, gets. by rewrite Hn.
Qed.

Lemma NewCreateSubscription_ok p :
  NewCreateSubscription p = Ok p →
  0 ≤ cs_MaxDeliveryAttempts p ∧
  (cs_MaxDeliveryAttempts p =? 0) = is_empty (cs_DeadLetterTopic p).
Proof.
  unfold NewCreateSubscription. intros H.
  destruct (cs_TTL p <=? 0); [done|]. destruct (cs_MessageTTL p <=? 0); [done|].
  destruct (cs_MaxDeliveryAttempts p <? 0) eqn:Hmax; [done|]. apply Z.ltb_ge in Hmax.
  split; [done|]. by destruct (_ =? 0), (is_empty _).
Qed.

Lemma save_subscription_run p now createdAt tp dlID t :
  db_wf (tx_db t) → fresh_uuids (tx_db t) (tx_fresh t) → cs_Name p ≠ EmptyString →
  0 ≤ cs_MaxDeliveryAttempts p → rows_where (live_sub_named (cs_Name p)) (tx_db t) = [] →
  topics (tx_db t) !! t_id tp = Some tp → option_ok (λ i, is_Some (topics (tx_db t) !! i)) dlID →
  let s := new_subscription p now createdAt tp dlID (new_uuid (tx_fresh t)) in
  let d' := with_subscriptions (<[s_id s := store_intervals s]> (subscriptions (tx_db t))) (tx_db t) in
  save_subscription p now createdAt tp dlID t = Ok (s,
    MkTxn d' (tx_hooks t ++ [NotifySubscription (s_id s) (cs_Name p)]) (S (tx_fresh t))) ∧
  subscriptions (tx_db t) !! s_id s = None ∧ db_wf d'.
Proof.
  intros W Fr Hname Hmax Hn Htp Hdl s d'.
  set (t0 := MkTxn (tx_db t) (tx_hooks t) (S (tx_fresh t))).
  assert (Hnone : subscriptions (tx_db t) !! s_id s = None) by by apply (fu_subscriptions _ _ Fr).
  destruct (Create_run (store_intervals s) t0) as [Hc Wc]; [done| |done|].
  { apply row_error_None. split_and!; [split; [by left|]| |split; [by exists tp|done]].
    - simpl. destruct (_ =? 0); [done|exact Hmax].
    - intros k s' Hs'. right.
      destruct (decide (s_deletedAt s' = None)) as [Hd|Hd]; [right; left|right; right].
      + intros Heq. eapply (rows_named_none (A := subscription)); [exact Hn| |split; [by symmetry|done]].
        by rewrite (tw_key _ (wf_subscriptions _ W) _ _ Hs').
      + destruct (tw_check _ (wf_subscriptions _ W) _ _ Hs') as [[[_ ?]|[-> _]] _]; done. }
  split_and!; [|done..]. unfold save_subscription.
  rewrite (bind_step _ _ t (new_uuid (tx_fresh t)) t0) by done. cbv zeta. fold s.
  rewrite (bind_step _ _ t0 () (with_db d' t0)); [done|].
  unfold on_error, hooked, validate_name.
  change (checkLiveOrDeleted create_mutation) with (@None error).
  rewrite bool_decide_false by done. unfold mbind, M_bind, mret, M_ret. by rewrite Hc.
Qed.

(** What a successful run did. *)
Lemma CreateSubscription_inv p now createdAt t s t' :
  db_wf (tx_db t) → CreateSubscription_Execute p now createdAt t = Ok (s, t') →
  ∃ tp dlID,
    topics (tx_db t) !! t_id tp = Some tp ∧ live_topic_named (cs_TopicName p) tp ∧
    (if is_empty (cs_DeadLetterTopic p) then dlID = None
     else ∃ dl, dlID = Some (t_id dl) ∧ topics (tx_db t) !! t_id dl = Some dl ∧
       live_topic_named (cs_DeadLetterTopic p) dl) ∧
    s = new_subscription p now createdAt tp dlID (new_uuid (tx_fresh t)) ∧
    rows_where (live_sub_named (cs_Name p)) (tx_db t) = [] ∧
    tx_db t' = with_subscriptions (<[s_id s := store_intervals s]> (subscriptions (tx_db t))) (tx_db t) ∧
    db_wf (tx_db t').
Proof.
  intros W H. unfold CreateSubscription_Execute in H.
  apply bind_Ok in H as (ex & t0 & Hex & H). unfold Exist in Hex. apply gets_Ok in Hex as [-> <-].
  destruct (rows_where (live_sub_named (cs_Name p)) (tx_db t)) eqn:Hn; [|by apply fail_Ok in H].
  apply bind_Ok in H as (tp & t0 & Htp & H).
  destruct (findTopic_run (cs_TopicName p) t W) as [[_ Hf]|(tp' & _ & Hf & Hst & Hl)]; [congruence|].
  rewrite Hf in Htp. simplify_eq.
  apply bind_Ok in H as ([] & t0' & Hfilter & H). assert (t0' = t0) as ->.
  { destruct (is_empty (cs_Filter p)); [by apply ret_Ok in Hfilter as [_ ->]|].
    destruct (ParseString _); [by apply ret_Ok in Hfilter as [_ ->]|by apply fail_Ok in Hfilter]. }
  clear Hfilter. apply bind_Ok in H as (dlID & t1 & Hdl & H).
  assert (Hdl' : t1 = t0 ∧ if is_empty (cs_DeadLetterTopic p) then dlID = None
     else ∃ dl, dlID = Some (t_id dl) ∧ topics (tx_db t0) !! t_id dl = Some dl ∧
       live_topic_named (cs_DeadLetterTopic p) dl).
  { destruct (is_empty (cs_DeadLetterTopic p)); [by apply ret_Ok in Hdl as [<- <-]|].
    apply bind_Ok in Hdl as (dl & t2 & Hdl & [<- <-]%ret_Ok).
    destruct (findTopic_run (cs_DeadLetterTopic p) t0 W) as [[_ Hf']|(dl' & _ & Hf' & ? & ?)]; [congruence|].
    rewrite Hf' in Hdl. simplify_eq. eauto. }
  destruct Hdl' as [-> Hdl']. clear Hdl.
  unfold save_subscription in H. apply bind_Ok in H as (id & t2 & Hid & H). unfold uuid_New in Hid.
  injection Hid as <- <-. cbv zeta in H. apply bind_Ok in H as ([] & t3 & Hc & H).
  apply bind_Ok in H as ([] & t4 & Hn4 & [<- <-]%ret_Ok).
  unfold NotifyModifySubscription, OnCommit in Hn4. apply modify_Ok in Hn4 as ->.
  set (s := new_subscription _ _ _ _ _ _) in *.
  assert (Hput : put (store_intervals s) (MkTxn (tx_db t0) (tx_hooks t0) (S (tx_fresh t0))) = Ok ((), t3));
    [|apply put_run in Hput as [He ->]; exists tp, dlID; split_and!; try done; by apply put_keeps_wf].
  unfold on_error in Hc. destruct (hooked _ _ _) as [[[] t5]|e|m] eqn:Hk; [|done..]. simplify_eq.
  unfold hooked in Hk. change (checkLiveOrDeleted create_mutation) with (@None error) in Hk. cbv iota in Hk.
  apply bind_Ok in Hk as ([] & t6 & Hv & Hk). unfold validate_name in Hv.
  destruct (bool_decide _); [by apply fail_Ok in Hv|]. apply ret_Ok in Hv as [_ <-].
  unfold Create in Hk. apply bind_Ok in Hk as (old & t7 & [-> <-]%gets_Ok & Hk).
  destruct (_ !! _) ; [by apply fail_Ok in Hk|exact Hk].
Qed.

(** Creating a subscription reports, in this order: a live subscription
    with the name ("already exists"), a missing topic ("not found"), a filter that does not
    parse, a missing dead-letter topic ("not found"), each without effect; otherwise it
    succeeds and adds one live subscription with the requested settings, a filter that
    parses, an expiry one TTL away, and a dead-letter policy that is complete or absent. *)
Theorem CreateSubscription_spec p now createdAt t :
  db_wf (tx_db t) → fresh_uuids (tx_db t) (tx_fresh t) → cs_Name p ≠ EmptyString →
  NewCreateSubscription p = Ok p →
  let taken := ∃ s, subscriptions (tx_db t) !! s_id s = Some s ∧ live_sub_named (cs_Name p) s in
  let run := CreateSubscription_Execute p now createdAt t in
  let dl_missing := cs_DeadLetterTopic p ≠ EmptyString ∧
    topic_missing (cs_DeadLetterTopic p) (tx_db t) in
  taken ∧ run = Err ErrExists ∨
  ¬ taken ∧ topic_missing (cs_TopicName p) (tx_db t) ∧ run = Err ErrNotFound ∨
  ¬ taken ∧ ¬ topic_missing (cs_TopicName p) (tx_db t) ∧ filter_refused (cs_Filter p) ∧
    run = Err (ErrOther "invalid message filter") ∨
  ¬ taken ∧ ¬ topic_missing (cs_TopicName p) (tx_db t) ∧ ¬ filter_refused (cs_Filter p) ∧
    dl_missing ∧ run = Err ErrNotFound ∨
  ¬ taken ∧ ¬ filter_refused (cs_Filter p) ∧ ¬ dl_missing ∧
    ∃ s t' tp, run = Ok (s, t') ∧ db_wf (tx_db t') ∧
      subscriptions (tx_db t) !! s_id s = None ∧
      tx_db t' = with_subscriptions (<[s_id s := store_intervals s]> (subscriptions (tx_db t))) (tx_db t) ∧
      live_sub_named (cs_Name p) s ∧ s_topicID s = t_id tp ∧
      topics (tx_db t) !! t_id tp = Some tp ∧ live_topic_named (cs_TopicName p) tp ∧
      s_expiresAt s = now + cs_TTL p ∧ s_messageTTL s = cs_MessageTTL p ∧
      HasFullDeadLetterConfig s = negb (is_empty (cs_DeadLetterTopic p)) ∧
      tx_hooks t' = tx_hooks t ++ [NotifySubscription (s_id s) (cs_Name p)].
Proof.
  intros W Fr Hname Hnew taken run dl_missing.
  destruct (live_subs_named (cs_Name p) _ W) as [Hn|(s & Hn & Hs & Hl)].
  2:{ left. split; [by exists s|]. unfold run, CreateSubscription_Execute.
      rewrite (bind_step _ _ t true t); [done|]. unfold Exist, gets. by rewrite Hn. }
  right. assert (Hnt : ¬ taken) by (intros (s & Hs & Hl); by eapply (rows_named_none (A := subscription))).
  unfold run, CreateSubscription_Execute.
  rewrite (bind_step _ _ t false t) by (unfold Exist, gets; by rewrite Hn).
  destruct (findTopic_run (cs_TopicName p) t W) as [[Hm Hf]|(tp & Hm & Hf & Htp & Hl)].
  { left. split_and!; [done..|]. by rewrite (bind_err _ _ _ _ Hf). }
  right. rewrite (bind_step _ _ _ _ _ Hf). unfold filter_refused.
  assert (Hcheck : (if is_empty (cs_Filter p) then mret () else
      match ParseString (cs_Filter p) with
      | Some _ => mret () | None => fail (ErrOther "invalid message filter") end) t
    = (if decide (cs_Filter p ≠ EmptyString ∧ ParseString (cs_Filter p) = None)
       then Err (ErrOther "invalid message filter") else Ok ((), t)) :> outcome (() * txn)).
  { unfold is_empty. case_bool_decide; case_decide; try naive_solver;
      destruct (ParseString (cs_Filter p)); naive_solver. }
  case_decide as Hr.
  { left. split_and!; [done..|apply Hr|apply Hr|]. by rewrite (bind_err _ _ _ _ Hcheck). }
  right. rewrite (bind_step _ _ _ _ _ Hcheck).
  assert (Hmax : 0 ≤ cs_MaxDeliveryAttempts p ∧
    (cs_MaxDeliveryAttempts p =? 0) = is_empty (cs_DeadLetterTopic p)).
  { by apply NewCreateSubscription_ok. }
  destruct Hmax as [Hmax Hboth].
  destruct (is_empty (cs_DeadLetterTopic p)) eqn:Hdl;
    [apply bool_decide_eq_true in Hdl|apply bool_decide_eq_false in Hdl].
  - right. split_and!; [done|done|by intros [? _]|]. rewrite (bind_step _ _ t None t) by done.
    destruct (save_subscription_run p now createdAt tp None t) as (Hs & ? & ?); [done..|].
    eexists _, _, tp. split; [exact Hs|]. split_and!; try done. simpl.
    unfold HasFullDeadLetterConfig. simpl.
    by destruct (cs_MaxDeliveryAttempts p =? 0).
  - destruct (findTopic_run (cs_DeadLetterTopic p) t W) as [[Hdm Hdf]|(dl & Hdm & Hdf & Hdt & _)].
    { left. split_and!; [done..|]. by rewrite (bind_err _ _ t ErrNotFound) by by rewrite (bind_err _ _ _ _ Hdf). }
    right. split_and!; [done|done|by intros [_ ?]|].
    rewrite (bind_step _ _ t (Some (t_id dl)) t) by by rewrite (bind_step _ _ _ _ _ Hdf).
    destruct (save_subscription_run p now createdAt tp (Some (t_id dl)) t) as (Hs & ? & ?);
      [done..|by exists dl|].
    eexists _, _, tp. split; [exact Hs|]. split_and!; try done. simpl.
    unfold HasFullDeadLetterConfig. simpl. rewrite Hboth. apply Z.ltb_lt.
    apply Z.eqb_neq in Hboth. lia.
Qed.
End Lifecycle_run.

(** ** Witnesses *)

Lemma CreateTopic_spec_witness :
  CreateTopic_Execute (E := id_engine) (MkCreateTopic "t" ∅) 400 example_txn = Err ErrExists.
Proof.
  destruct (CreateTopic_spec (E := id_engine) (MkCreateTopic "t" ∅) 400 example_txn example_db_wf
    example_fresh) as [[_ H]|[H _]]; [discriminate|exact H|].
  exfalso. apply (H topic_t); [reflexivity|split; reflexivity].
Defined.

Lemma DeleteTopic_spec_witness :
  ∃ t', DeleteTopic_Execute (E := id_engine) "t" 400 example_txn = Ok (1%nat, t') ∧
    snapshots (tx_db t') !! 41%N = None.
Proof.
  destruct (DeleteTopic_spec (E := id_engine) "t" 400 example_txn example_db_wf)
    as [[H _]|(tp & t' & Htp & _ & H & _ & _ & _ & Hn & _)].
  - exfalso. apply (H topic_t); [reflexivity|split; reflexivity].
  - exists t'. split; [exact H|]. vm_compute in H. injection H as <-. reflexivity.
Defined.

Lemma DeleteExpired_spec_witness :
  ∃ (subs : list subscription) t', DeleteExpiredSubscriptions_Execute (E := id_engine) (MkPrune 0 3) 2000000 example_txn
    = Ok (length subs, t') ∧ length subs = 3%nat.
Proof.
  destruct (DeleteExpired_spec (E := id_engine) (MkPrune 0 3) 2000000 example_txn example_db_wf)
    as (subs & t' & H & _ & _ & Hlen & _).
  exists subs, t'. split; [exact H|]. rewrite Hlen. reflexivity.
Defined.

Definition create_params : CreateSubscriptionParams :=
  MkCreateSub "t" "new" Hour Minute true ∅ EmptyString 0 0 EmptyString 5 "dlq".

Lemma CreateSubscription_spec_witness :
  CreateSubscription_Execute (E := id_engine)
    (MkCreateSub "nowhere" "new" Hour Minute true ∅ EmptyString 0 0 EmptyString 5 "dlq") 400 400 example_txn
    = Err ErrNotFound.
Proof.
  destruct (CreateSubscription_spec (E := id_engine)
    (MkCreateSub "nowhere" "new" Hour Minute true ∅ EmptyString 0 0 EmptyString 5 "dlq") 400 400 example_txn
    example_db_wf example_fresh) as [[(s & Hs & Hn & Hd) _]|[(_ & _ & H)|[(_ & H & _)|[(_ & H & _)|(_ & _ & _ & H)]]]];
    [discriminate|reflexivity|..].
  - exfalso. revert Hn. vm_compute in Hs. destruct s as [[|p] ?????????????????]; [discriminate Hs|].
    repeat (destruct p as [p|p|]; try discriminate Hs); injection Hs; intros; subst; discriminate.
  - exact H.
  - exfalso. apply H. reflexivity.
  - exfalso. apply H. reflexivity.
  - destruct H as (s & t' & tp & H & _). discriminate H.
Defined.
