(* ===== verification/Ack.v ===== *)
(** * Acknowledging, refusing, delaying and dead-lettering deliveries

    [src/actions/ack-deliveries.go], [nack-deliveries.go], [delay-deliveries.go],
    [dead-letter-deliveries.go].  Ack completes the pending deliveries among the given ids;
    nack schedules the next attempt by the retry policy, or dead-letters a delivery that has
    used up its attempts; delay moves the next attempt; the last one is the background job. *)

From S2P Require Import Prelude Uuid Filter FilterParse Schema Backoff Notify Store Example Deliver.

(** [sort.Slice(ids, parse.UUIDLess)]: the numeric order. *)
Definition sort_uuids (ids : list uuid) : list uuid := sort_by Z.of_N ids.

Section Ack.
Context {E : Engine} {FP : FilterParser} {F : Float64}.

Definition pending_in (ids : list uuid) (e : delivery) : Prop :=
  d_id e ∈ ids ∧ d_completedAt e = None.
#[export] Instance pending_in_dec ids e : Decision (pending_in ids e).
Proof. unfold pending_in. apply _. Defined.

(** [SELECT DISTINCT subscription_id] *)
Definition distinct_subs (es : list delivery) : list uuid :=
  remove_dups (d_subscriptionID <$> es).

Definition AckDeliveries_Execute (ids : list uuid) (now : time) : Tx nat :=
  let ids := sort_uuids ids in
  All (pending_in ids) ≫= λ es,
  let subIDs := distinct_subs es in
  Update (pending_in ids) (del_set_completedAt (Some now)) ≫= λ numAcked,
  OnCommit (NotifyEach subIDs) ≫= λ _, mret numAcked.

Definition DelayDeliveries_Execute (ids : list uuid) (delay : duration) (now : time) : Tx nat :=
  let ids := sort_uuids ids in
  let newAttemptAt := now + delay in
  (if delay <=? 0 then
     All (pending_in ids) ≫= λ es, mret (distinct_subs es)
   else mret []) ≫= λ subIDs,
  (if delay <=? 0 then Update (pending_in ids) (del_set_attemptAt newAttemptAt)
   else Update (λ e, pending_in ids e ∧ d_attemptAt e < newAttemptAt)
          (del_set_attemptAt newAttemptAt)) ≫= λ numDelayed,
  (match subIDs with [] => mret () | _ => notifyPublish subIDs end) ≫= λ _,
  mret numDelayed.

(** ** Nack *)

Definition nackable (ids : list uuid) (now : time) (e : delivery) : Prop :=
  pending_in ids e ∧ now < d_expiresAt e.
#[export] Instance nackable_dec ids now e : Decision (nackable ids now e).
Proof. unfold nackable. apply _. Defined.

Definition attempts_used_up (sub : subscription) (e : delivery) : bool :=
  HasFullDeadLetterConfig sub &&
  match s_maxDeliveryAttempts sub with Some n => n <=? d_attempts e | None => false end.

(** One round of the loop; the result says whether the delivery was dead-lettered. *)
Definition nack_one (subById : gmap uuid subscription) (now : time) (e : delivery) : Tx bool :=
  match subById !! d_subscriptionID e with
  | None => panic "nil pointer dereference"
  | Some sub =>
      if attempts_used_up sub e then
        lift (deadLetterDataFromEntities e sub) ≫= λ data,
        deadLetterDelivery data now ≫= λ _, mret true
      else
        let fuzzedDelay := (NextDelayFor sub (d_attempts e)).2 in
        UpdateOneID (d_id e) (del_set_attemptAt (now + fuzzedDelay)) ≫= λ _, mret false
  end.

Definition NackDeliveries_Execute (ids : list uuid) (now : time) : Tx (nat * nat) :=
  All (nackable ids now) ≫= λ es,
  let es := sort_by (λ e, Z.of_N (d_id e)) es in
  let subIDs := distinct_subs es in
  All (λ s, s_id s ∈ subIDs) ≫= λ subs,
  let subById := list_to_map ((λ s, (s_id s, s)) <$> subs) : gmap uuid subscription in
  traverseM es (nack_one subById now) ≫= λ dls,
  mret (length es, length (filter (λ b, b = true) dls)).

(** The transaction of [doAcksNacks] in [message-streamer.go]: both at once. *)
Definition AckNack (ack nack : list uuid) (now now2 : time) : Tx () :=
  AckDeliveries_Execute ack now ≫= λ _, NackDeliveries_Execute nack now2 ≫= λ _, mret ().

(** ** The background job *)

Definition NewDeadLetterDeliveries (maxDeliveries : Z) : outcome nat :=
  if maxDeliveries <? 1 then Panic "maxDeliveries must be > 0" else Ok (Z.to_nat maxDeliveries).

(** The [JOIN] and the predicates of the query. *)
Definition overdue (d : db) (now : time) (e : delivery) : Prop :=
  joined (λ s, s_deletedAt s = None ∧ joined (λ n, 0 < n ∧ n ≤ d_attempts e) (s_maxDeliveryAttempts s)
    ∧ is_Some (s_deadLetterTopicID s)) (subscriptions d !! d_subscriptionID e) ∧
  d_completedAt e = None ∧ now < d_expiresAt e ∧ d_attemptAt e ≤ now.
#[export] Instance overdue_dec d now e : Decision (overdue d now e).
Proof. unfold overdue. apply _. Defined.

(** The row of the query for a delivery that matches. *)
Definition overdue_data (d : db) (e : delivery) : option deadLetterData :=
  subscriptions d !! d_subscriptionID e ≫= λ s,
  s_deadLetterTopicID s ≫= λ i,
  Some (MkDeadLetterData (d_id e) (d_subscriptionID e) (d_messageID e) i).

Definition DeadLetterDeliveries_Execute (maxDeliveries : nat) (now : time) : Tx nat :=
  gets tx_db ≫= λ d,
  All (overdue d now) ≫= λ es,
  let deliveryData := omap (overdue_data d) (take maxDeliveries es) in
  forM deliveryData (λ datum, deadLetterDelivery datum now) ≫= λ _,
  mret (length deliveryData).
End Ack.

Section Ack_run.
Context {E : Engine} {FP : FilterParser} {F : Float64}.

Lemma elem_of_sort_uuids ids i : i ∈ sort_uuids ids ↔ i ∈ ids.
Proof. apply elem_of_sort_by. Qed.

Lemma elem_of_distinct_subs es i :
  i ∈ distinct_subs es ↔ ∃ e, e ∈ es ∧ d_subscriptionID e = i.
Proof.
  unfold distinct_subs. rewrite elem_of_remove_dups, list_elem_of_fmap. naive_solver.
Qed.

Lemma lookup_update_map {A} (P : A → Prop) `{∀ x, Decision (P x)} f (m : gmap uuid A) k :
  update_map P f m !! k = (λ r, if decide (P r) then f r else r) <$> m !! k.
Proof. apply lookup_fmap. Qed.

(** What acknowledging does. *)
Lemma AckDeliveries_exact ids now t :
  db_wf (tx_db t) →
  ∃ n subIDs t', AckDeliveries_Execute ids now t = Ok (n, t') ∧ db_wf (tx_db t') ∧
    n = length (rows_where (pending_in (sort_uuids ids)) (tx_db t)) ∧
    (∀ k, deliveries (tx_db t') !! k = (λ e, if decide (d_id e ∈ ids ∧ d_completedAt e = None)
       then del_set_completedAt (Some now) e else e) <$> deliveries (tx_db t) !! k) ∧
    topics (tx_db t') = topics (tx_db t) ∧ subscriptions (tx_db t') = subscriptions (tx_db t) ∧
    messages (tx_db t') = messages (tx_db t) ∧ snapshots (tx_db t') = snapshots (tx_db t) ∧
    tx_hooks t' = tx_hooks t ++ [NotifyEach subIDs] ∧ NoDup subIDs ∧
    (∀ i, i ∈ subIDs ↔ ∃ k e, deliveries (tx_db t) !! k = Some e ∧ d_id e ∈ ids ∧
       d_completedAt e = None ∧ d_subscriptionID e = i) ∧
    (∀ now2, ∃ t2, AckDeliveries_Execute ids now2 t' = Ok (0%nat, t2) ∧ tx_db t2 = tx_db t').
Proof.
  intros W.
  set (P := pending_in (sort_uuids ids)).
  assert (Hrun : ∀ now t, db_wf (tx_db t) →
    AckDeliveries_Execute ids now t = Ok (length (rows_where P (tx_db t)),
      add_hooks [NotifyEach (distinct_subs (rows_where P (tx_db t)))]
        (with_db (with_deliveries (update_map P (del_set_completedAt (Some now))
           (deliveries (tx_db t))) (tx_db t)) t)) ∧
    db_wf (with_deliveries (update_map P (del_set_completedAt (Some now))
           (deliveries (tx_db t))) (tx_db t))).
  { intros now0 t0 W0. destruct (Update_run P (del_set_completedAt (Some now0)) t0) as [H1 W1];
      [apply completed_harmless|done|]. split; [|done].
    unfold AckDeliveries_Execute. fold P. cbv zeta. rewrite (bind_step _ _ t0 _ t0 eq_refl).
    by rewrite (bind_step _ _ _ _ _ H1). }
  destruct (Hrun now t W) as [H1 W1]. set (t1 := add_hooks _ _) in H1.
  eexists _, _, t1. split; [exact H1|]. split_and!; try done.
  - intros k. simpl. rewrite lookup_update_map. apply option_fmap_ext. intros e.
    unfold P, pending_in. apply decide_ext. by rewrite elem_of_sort_uuids.
  - apply NoDup_remove_dups.
  - intros i. rewrite elem_of_distinct_subs. setoid_rewrite elem_of_rows_where.
    unfold P, pending_in. setoid_rewrite elem_of_sort_uuids. simpl. naive_solver.
  - intros now2. destruct (Hrun now2 t1 W1) as [H2 _].
    set (d' := tx_db t1) in *.
    assert (Hnone : ∀ k e, deliveries d' !! k = Some e → ¬ P e).
    { intros k e. simpl. rewrite lookup_update_map, fmap_Some. intros (e0 & He0 & ->).
      case_decide; [intros [_ ?]; done|done]. }
    assert (Hrows : rows_where P d' = []).
    { apply elem_of_nil_inv. intros e [HP [k He]]%elem_of_rows_where. by apply Hnone in He. }
    eexists. split; [etrans; [exact H2|]|].
    + rewrite Hrows. reflexivity.
    + change (with_deliveries (update_map P (del_set_completedAt (Some now2)) (deliveries d')) d' = d').
      transitivity (with_deliveries (deliveries d') d'); [|by destruct d']. f_equal.
      apply map_eq. intros k. rewrite lookup_update_map.
      destruct (deliveries d' !! k) as [e|] eqn:He; [|done]. simpl. f_equal.
      apply decide_False. by apply (Hnone k).
Qed.

(** C25 Acknowledging always succeeds. Exactly the deliveries among the given ids
    that are not completed yet become completed, at [now] (a completed one keeps its
    completion time, an unknown id is ignored); the count is their number; every subscription
    of such a delivery, and no other, is woken after the commit; and acknowledging
    the same ids again changes nothing and counts none. *)
Theorem AckDeliveries_spec ids now t :
  db_wf (tx_db t) →
  ∃ n subIDs t', AckDeliveries_Execute ids now t = Ok (n, t') ∧ db_wf (tx_db t') ∧
    n = length (rows_where (pending_in (sort_uuids ids)) (tx_db t)) ∧
    (∀ k, deliveries (tx_db t') !! k = (λ e, if decide (d_id e ∈ ids ∧ d_completedAt e = None)
       then del_set_completedAt (Some now) e else e) <$> deliveries (tx_db t) !! k) ∧
    topics (tx_db t') = topics (tx_db t) ∧ subscriptions (tx_db t') = subscriptions (tx_db t) ∧
    messages (tx_db t') = messages (tx_db t) ∧ snapshots (tx_db t') = snapshots (tx_db t) ∧
    tx_hooks t' = tx_hooks t ++ [NotifyEach subIDs] ∧ NoDup subIDs ∧
    (∀ i, i ∈ subIDs ↔ ∃ k e, deliveries (tx_db t) !! k = Some e ∧ d_id e ∈ ids ∧
       d_completedAt e = None ∧ d_subscriptionID e = i) ∧
    (∀ now2, ∃ t2, AckDeliveries_Execute ids now2 t' = Ok (0%nat, t2) ∧ tx_db t2 = tx_db t').
Proof. apply AckDeliveries_exact. Qed.

Lemma pending_sort ids e : pending_in (sort_uuids ids) e ↔ d_id e ∈ ids ∧ d_completedAt e = None.
Proof. unfold pending_in. by rewrite elem_of_sort_uuids. Qed.

(** Delaying always succeeds. With a positive delay it only ever moves the next
    attempt of a pending delivery later, to [now + delay], and wakes nobody; with a zero
    or negative delay it sets it unconditionally and wakes the subscriptions concerned. *)
Theorem DelayDeliveries_spec ids delay now t :
  db_wf (tx_db t) →
  ∃ n t', DelayDeliveries_Execute ids delay now t = Ok (n, t') ∧ db_wf (tx_db t') ∧
    (∀ k, deliveries (tx_db t') !! k = (λ e,
       if decide ((d_id e ∈ ids ∧ d_completedAt e = None) ∧
                  (delay ≤ 0 ∨ d_attemptAt e < now + delay))
       then del_set_attemptAt (now + delay) e else e) <$> deliveries (tx_db t) !! k) ∧
    (0 < delay → tx_hooks t' = tx_hooks t ∧
       ∀ k e e', deliveries (tx_db t) !! k = Some e → deliveries (tx_db t') !! k = Some e' →
         d_attemptAt e ≤ d_attemptAt e') ∧
    (delay ≤ 0 → ∀ k e, deliveries (tx_db t) !! k = Some e → d_id e ∈ ids → d_completedAt e = None →
       ∃ subIDs, NotifyPublish subIDs ∈ tx_hooks t' ∧ d_subscriptionID e ∈ subIDs) ∧
    topics (tx_db t') = topics (tx_db t) ∧ subscriptions (tx_db t') = subscriptions (tx_db t) ∧
    messages (tx_db t') = messages (tx_db t) ∧ snapshots (tx_db t') = snapshots (tx_db t).
Proof.
  intros W. unfold DelayDeliveries_Execute. cbv zeta.
  destruct (Z.leb_spec delay 0) as [Hd|Hd].
  - set (P := pending_in (sort_uuids ids)).
    destruct (Update_run P (del_set_attemptAt (now + delay)) t) as [H1 W1];
      [apply attemptAt_harmless|done|]. set (t1 := with_db _ t) in H1.
    set (subs := distinct_subs (rows_where P (tx_db t))).
    rewrite (bind_step _ _ t subs t) by done. rewrite (bind_step _ _ _ _ _ H1).
    exists (length (rows_where P (tx_db t))),
      (match subs with [] => t1 | _ => add_hooks [NotifyPublish subs] t1 end).
    assert (Hdb : tx_db (match subs with [] => t1 | _ => add_hooks [NotifyPublish subs] t1 end)
      = tx_db t1) by by destruct subs. rewrite !Hdb.
    split_and!; try done.
    + by destruct subs.
    + intros k. simpl. rewrite lookup_update_map. apply option_fmap_ext. intros e.
      apply decide_ext. unfold P. rewrite pending_sort. tauto.
    + lia.
    + intros _ k e He Hid Hc. exists subs.
      assert (Hin : d_subscriptionID e ∈ subs).
      { apply elem_of_distinct_subs. exists e. split; [|done]. apply elem_of_rows_where.
        split; [by apply pending_sort|eauto]. }
      split; [|done]. destruct subs; [by apply elem_of_nil in Hin|].
      simpl. rewrite elem_of_app. right. by left.
  - set (P := λ e, pending_in (sort_uuids ids) e ∧ d_attemptAt e < now + delay).
    destruct (Update_run P (del_set_attemptAt (now + delay)) t) as [H1 W1];
      [apply attemptAt_harmless|done|]. set (t1 := with_db _ t) in H1.
    rewrite (bind_step _ _ t [] t) by done. rewrite (bind_step _ _ _ _ _ H1).
    exists (length (rows_where P (tx_db t))), t1. split_and!; try done.
    + intros k. simpl. rewrite lookup_update_map. apply option_fmap_ext. intros e.
      apply decide_ext. unfold P. rewrite pending_sort. split; [tauto|].
      intros [? [?|?]]; [lia|done].
    + intros _. split; [done|]. intros k e e' He. simpl. rewrite lookup_update_map, He. simpl.
      intros [= <-]. case_decide as HP; [|done]. simpl. destruct HP. lia.
    + lia.
Qed.

Lemma sub_map_lookup d (ids : list uuid) i :
  db_wf d → i ∈ ids →
  (list_to_map ((λ s, (s_id s, s)) <$> rows_where (λ s, s_id s ∈ ids) d) : gmap uuid subscription) !! i
  = subscriptions d !! i.
Proof.
  intros W Hi. set (l := rows_where _ d).
  assert (Hnd : NoDup ((λ s, (s_id s, s)) <$> l).*1).
  { rewrite <- list_fmap_compose. exact (rows_where_NoDup (λ s, s_id s ∈ ids) d W). }
  destruct (subscriptions d !! i) as [s|] eqn:Hs.
  - apply elem_of_list_to_map; [done|]. apply list_elem_of_fmap.
    pose proof (tw_key _ (wf_subscriptions _ W) _ _ Hs) as Hk. simpl in Hk.
    exists s. split; [by rewrite Hk|]. apply elem_of_rows_wf; [done|]. simpl. by rewrite Hk.
  - apply not_elem_of_list_to_map. rewrite <- list_fmap_compose.
    intros (s & -> & [_ Hst]%elem_of_rows_wf)%list_elem_of_fmap; [|done].
    simpl in *. congruence.
Qed.

(** What nack makes of a delivery. *)
Definition nacked (d : db) (now : time) (e : delivery) : delivery :=
  match subscriptions d !! d_subscriptionID e with
  | Some sub =>
      if attempts_used_up sub e then del_set_completedAt (Some now) e
      else del_set_attemptAt (now + (NextDelayFor sub (d_attempts e)).2) e
  | None => e
  end.
Definition nack_dead_letters (d : db) (e : delivery) : bool :=
  match subscriptions d !! d_subscriptionID e with
  | Some sub => attempts_used_up sub e
  | None => false
  end.

Lemma nack_one_settles subById d now e t :
  good t → deliveries (tx_db t) !! d_id e = Some e → subscriptions (tx_db t) = subscriptions d →
  subById !! d_subscriptionID e = subscriptions d !! d_subscriptionID e →
  settles (nack_one subById now e) (λ b, b = nack_dead_letters d e) e (nacked d now) t.
Proof.
  intros Hg He Hsubs Hby. unfold nack_one, nack_dead_letters. rewrite Hby.
  destruct (tw_fk _ (wf_deliveries _ (proj1 Hg)) _ _ He) as (_ & [sub Hsub] & _).
  rewrite Hsubs in Hsub. rewrite Hsub.
  assert (Hn : nacked d now e = if attempts_used_up sub e then del_set_completedAt (Some now) e
    else del_set_attemptAt (now + (NextDelayFor sub (d_attempts e)).2) e)
    by (unfold nacked; by rewrite Hsub).
  destruct (attempts_used_up sub e) eqn:Hu.
  - unfold attempts_used_up, HasFullDeadLetterConfig in Hu.
    destruct (s_maxDeliveryAttempts sub); [|done].
    destruct (s_deadLetterTopicID sub) as [i|] eqn:Hi; [|done].
    set (data := MkDeadLetterData (d_id e) (d_subscriptionID e) (d_messageID e) i).
    destruct (deadLetter_settles data now e t Hg He eq_refl eq_refl) as (b & t' & Hrun & _ & Ho & Hd).
    exists true, t'. rewrite Hn. split_and!; try done.
    rewrite (bind_step _ _ t data t); [by rewrite (bind_step _ _ _ _ _ Hrun)|].
    unfold lift, deadLetterDataFromEntities. by rewrite Hi.
  - destruct (update_settles (del_set_attemptAt (now + (NextDelayFor sub (d_attempts e)).2)) e t)
      as (b & t' & Hrun & _ & Ho & Hd); [done|done|apply attemptAt_harmless|].
    exists false, t'. rewrite Hn. split_and!; try done. by rewrite (bind_step _ _ _ _ _ Hrun).
Qed.

(** C26 Refusing always succeeds. Each unexpired pending delivery among the ids is
    either dead-lettered (completed), exactly when its subscription has a full dead-letter
    policy and its attempts have reached the maximum, or scheduled for another attempt
    after the retry delay for its number of attempts; other stored deliveries and all
    other tables are unchanged, and the counts are those of the two groups. *)
Theorem NackDeliveries_spec ids now t :
  good t →
  ∃ es t', NackDeliveries_Execute ids now t
      = Ok ((length es, length (filter (λ e, nack_dead_letters (tx_db t) e = true) es)), t') ∧
    db_wf (tx_db t') ∧ NoDup (d_id <$> es) ∧
    (∀ e, e ∈ es ↔ deliveries (tx_db t) !! d_id e = Some e ∧ d_id e ∈ ids ∧
       d_completedAt e = None ∧ now < d_expiresAt e) ∧
    (∀ e, e ∈ es → deliveries (tx_db t') !! d_id e = Some (nacked (tx_db t) now e)) ∧
    (∀ k e, deliveries (tx_db t) !! k = Some e → e ∉ es → deliveries (tx_db t') !! k = Some e) ∧
    topics (tx_db t') = topics (tx_db t) ∧ subscriptions (tx_db t') = subscriptions (tx_db t) ∧
    messages (tx_db t') = messages (tx_db t) ∧ snapshots (tx_db t') = snapshots (tx_db t).
Proof.
  intros Hg. pose proof (proj1 Hg) as W.
  set (es := sort_by (λ e, Z.of_N (d_id e)) (rows_where (nackable ids now) (tx_db t))).
  set (subs := rows_where (λ s, s_id s ∈ distinct_subs es) (tx_db t)).
  set (subById := list_to_map ((λ s, (s_id s, s)) <$> subs) : gmap uuid subscription).
  assert (Hin : ∀ e, e ∈ es ↔ deliveries (tx_db t) !! d_id e = Some e ∧ d_id e ∈ ids ∧
    d_completedAt e = None ∧ now < d_expiresAt e).
  { intros e. unfold es. rewrite elem_of_sort_by, elem_of_rows_wf by done.
    unfold nackable, pending_in. simpl. tauto. }
  assert (Hnd : NoDup (d_id <$> es)).
  { unfold es. rewrite sort_by_perm. exact (rows_where_NoDup (nackable ids now) _ W). }
  destruct (settle_loop (nack_one subById now) (λ e b, b = nack_dead_letters (tx_db t) e)
    (nacked (tx_db t) now) es t) as (bs & t' & Hrun & Hbs & Ho & He); [done|done|by intros e [? _]%Hin| |].
  { intros e t1 Hes Hg1 _ Hs1 _ Hst. apply nack_one_settles; try done.
    apply sub_map_lookup; [done|]. apply elem_of_distinct_subs. by exists e. }
  exists es, t'. split_and!; try done; try (by apply Ho).
  - unfold NackDeliveries_Execute.
    rewrite (bind_step _ _ t _ t eq_refl). cbv zeta. fold es.
    rewrite (bind_step _ _ t subs t) by done. fold subById. rewrite (bind_step _ _ _ _ _ Hrun).
    unfold mret, M_ret. do 3 f_equal. clear -Hbs.
    induction Hbs as [|e b es bs -> _ IH]; [done|]. rewrite !filter_cons.
    destruct (nack_dead_letters _ e); simpl; by rewrite IH.
  - intros k e Hk Hne. apply (od_kept _ _ _ Ho); [|done].
    intros (e' & -> & He')%list_elem_of_fmap. apply Hne.
    apply Hin in He' as Hst. destruct Hst as [Hst _]. by simplify_eq.
Qed.

Lemma overdue_has_data d now e :
  overdue d now e → ∃ data, overdue_data d e = Some data ∧ DeliveryID data = d_id e ∧
    DeliveryMessageID data = d_messageID e.
Proof.
  intros [Hj _]. unfold overdue_data, joined in *.
  destruct (subscriptions d !! d_subscriptionID e) as [s|]; [|done].
  destruct Hj as (_ & _ & [i Hi]). simpl. rewrite Hi. simpl. by eexists.
Qed.

(** The background dead-letter job always succeeds. It completes, at [now], only
    pending, unexpired, due deliveries of live subscriptions whose attempts have reached the
    maximum of a full dead-letter policy, all of them if they are no more than the limit;
    every other stored delivery, and every other table, is unchanged. *)
Theorem DeadLetterDeliveries_spec maxDeliveries now t :
  good t →
  ∃ es t', DeadLetterDeliveries_Execute maxDeliveries now t = Ok (length es, t') ∧
    db_wf (tx_db t') ∧ NoDup (d_id <$> es) ∧
    length es = (maxDeliveries `min` length (rows_where (overdue (tx_db t) now) (tx_db t)))%nat ∧
    (∀ e, e ∈ es → deliveries (tx_db t) !! d_id e = Some e ∧ overdue (tx_db t) now e ∧
       deliveries (tx_db t') !! d_id e = Some (del_set_completedAt (Some now) e)) ∧
    (∀ k e, deliveries (tx_db t) !! k = Some e → e ∉ es → deliveries (tx_db t') !! k = Some e) ∧
    topics (tx_db t') = topics (tx_db t) ∧ subscriptions (tx_db t') = subscriptions (tx_db t) ∧
    messages (tx_db t') = messages (tx_db t) ∧ snapshots (tx_db t') = snapshots (tx_db t).
Proof.
  intros Hg. pose proof (proj1 Hg) as W. set (d := tx_db t).
  set (rows := rows_where (overdue d now) d). set (es := take maxDeliveries rows).
  assert (Hin : ∀ e, e ∈ es → deliveries d !! d_id e = Some e ∧ overdue d now e).
  { intros e He%elem_of_take_incl. apply elem_of_rows_wf in He; [naive_solver|done]. }
  assert (Hnd : NoDup (d_id <$> es)).
  { unfold es. rewrite fmap_take. eapply sublist_NoDup, sublist_take.
    exact (rows_where_NoDup (overdue d now) _ W). }
  set (f := λ e, match overdue_data d e with
    | Some data => deadLetterDelivery data now | None => mret () end : Tx ()).
  destruct (settle_loop f (λ _ _, True) (del_set_completedAt (Some now)) es t)
    as (bs & t' & Hrun & _ & Ho & He); [done|done|by intros e [? _]%Hin| |].
  { intros e t1 Hes Hg1 _ _ _ Hst. destruct (Hin e Hes) as [_ Hov].
    destruct (overdue_has_data _ _ _ Hov) as (data & Hd & Hid & Hmid). unfold f. rewrite Hd.
    by apply deadLetter_settles. }
  assert (Hlen : length (omap (overdue_data d) es) = length es).
  { clear -Hin. induction es as [|e es IH]; [done|]. simpl.
    destruct (Hin e ltac:(by left)) as [_ Hov].
    destruct (overdue_has_data _ _ _ Hov) as (data & -> & _). simpl. f_equal. apply IH.
    intros e' He'. apply Hin. by right. }
  exists es, t'. split_and!; try done; try (by apply Ho).
  - unfold DeadLetterDeliveries_Execute.
    rewrite (bind_step _ _ t _ t eq_refl), (bind_step _ _ t _ t eq_refl). cbv zeta. fold d rows es.
    rewrite (bind_step _ _ t () t'); [by rewrite Hlen|].
    rewrite forM_omap. eapply forM_traverseM, Hrun. intros e s [] s1 H. exact H.
  - unfold es, rows. by rewrite length_take.
  - intros e Hes. destruct (Hin e Hes). split_and!; [done|done|by apply He].
  - intros k e Hk Hne. apply (od_kept _ _ _ Ho); [|done].
    intros (e' & -> & He')%list_elem_of_fmap. apply Hne.
    destruct (Hin _ He') as [Hst _]. assert (e = e') as -> by congruence. done.
Qed.
End Ack_run.

(** ** Witnesses *)

Lemma example_good : good (E := id_engine) example_txn.
Proof. split; [exact example_db_wf|exact example_fresh]. Qed.

Lemma AckDeliveries_spec_witness :
  ∃ n t', AckDeliveries_Execute (E := id_engine) [32; 31; 99]%N 400 example_txn = Ok (n, t') ∧ n = 1%nat.
Proof.
  destruct (AckDeliveries_spec (E := id_engine) [32; 31; 99]%N 400 example_txn example_db_wf)
    as (n & ss & t' & H & _ & Hn & _).
  exists n, t'. split; [exact H|]. rewrite Hn. vm_compute. reflexivity.
Defined.

Lemma DelayDeliveries_spec_witness :
  ∃ n t', DelayDeliveries_Execute (E := id_engine) [31%N] 50 400 example_txn = Ok (n, t') ∧
    tx_hooks t' = [].
Proof.
  destruct (DelayDeliveries_spec (E := id_engine) [31%N] 50 400 example_txn example_db_wf)
    as (n & t' & H & _ & _ & Hd & _).
  exists n, t'. split; [exact H|]. apply Hd. reflexivity.
Defined.

Lemma NackDeliveries_spec_witness :
  ∃ (es : list delivery) n t', NackDeliveries_Execute (E := id_engine) [33; 34]%N 400 example_txn
    = Ok ((length es, n), t') ∧
    (∀ e, e ∈ es → deliveries (tx_db t') !! d_id e = Some (nacked example_db 400 e)).
Proof.
  destruct (NackDeliveries_spec (E := id_engine) [33; 34]%N 400 example_txn example_good)
    as (es & t' & H & _ & _ & _ & He & _).
  eexists es, _, t'. split; [exact H|exact He].
Defined.

Lemma DeadLetterDeliveries_spec_witness :
  ∃ (es : list delivery) t', DeadLetterDeliveries_Execute (E := id_engine) 10 400 example_txn
    = Ok (length es, t') ∧ length es = 1%nat.
Proof.
  destruct (DeadLetterDeliveries_spec (E := id_engine) 10 400 example_txn example_good)
    as (es & t' & H & _ & _ & Hn & _).
  exists es, t'. split; [exact H|]. rewrite Hn. vm_compute. reflexivity.
Defined.
