(* ===== verification/Receive.v ===== *)
(** * Receiving messages

    [src/actions/get-subscription-messages.go].  One transaction checks the subscription,
    looks up the due deliveries and, if there are any, applies the limits, dead-letters what
    has used up its attempts and books the next attempt of the rest; otherwise it computes
    when to look again.  [execute] repeats it until something is found, the caller's wait
    is over or its context is cancelled.

    A transaction skips the rows other transactions hold locked ([SKIP LOCKED]): [locked] is
    the set of their ids.  Several readings of the clock are several arguments. *)

From S2P Require Import Prelude Uuid Filter FilterParse Schema Backoff Notify Store Example Deliver.
From S2P Require Import Ack.

Record GetSubscriptionMessagesParams := MkGet {
  g_Name : string; g_ID : option uuid; g_MaxMessages : Z; g_MaxBytes : Z; g_MaxBytesStrict : bool;
  g_MaxWait : duration }.

Definition NewGetSubscriptionMessages (p : GetSubscriptionMessagesParams)
  : outcome GetSubscriptionMessagesParams :=
  if g_MaxMessages p <? 1 then Panic "maxMessages must be > 0"
  else if g_MaxBytes p <? 1 then Panic "maxBytes must be > 0"
  else if g_MaxWait p <? 0 then Panic "maxWait must be >= 0"
  else if bool_decide (g_Name p = EmptyString) && bool_decide (g_ID p = None)
  then Panic "must provide Name or ID" else Ok p.

Record SubscriptionMessageDelivery := MkSMD {
  smd_ID : uuid; smd_MessageID : uuid; smd_PublishedAt : time; smd_NumAttempts : Z;
  smd_NextAttemptAt : time; smd_fuzzDelay : duration; smd_OrderKey : option string;
  smd_Payload : string; smd_Attributes : Attributes }.

Record getSubscriptionMessagesResults := MkGot {
  Deliveries : list SubscriptionMessageDelivery; NumDeadLettered : nat }.

(** [initializeMaxWait]: the time after which [findTimeout] fires. *)
Definition initializeMaxWait (p : GetSubscriptionMessagesParams) : duration :=
  if 0 <? g_MaxWait p then g_MaxWait p else Minute - Second.

Definition payload_len (m : message) : Z := Z.of_nat (String.length (m_payload m)).

Section Receive.
Context {E : Engine} {FP : FilterParser} {F : Float64}.

Definition subMatch (name : string) (id : option uuid) (s : subscription) : Prop :=
  s_deletedAt s = None ∧ option_ok (λ i, s_id s = i) id ∧ (name = EmptyString ∨ s_name s = name).
#[export] Instance subMatch_dec name id s : Decision (subMatch name id s).
Proof. unfold subMatch. apply _. Defined.

Definition verifySub (p : GetSubscriptionMessagesParams) : Tx subscription :=
  All (subMatch (g_Name p) (g_ID p)) ≫= λ ss, lift (not_found (only ss)).

(** The left join on [not_before_id]. *)
Definition predecessor_settled (d : db) (now : time) (e : delivery) : Prop :=
  match d_notBeforeID e with
  | None => True
  | Some i => joined (λ dnb, is_Some (d_completedAt dnb) ∨ d_expiresAt dnb ≤ now) (deliveries d !! i)
  end.
#[export] Instance predecessor_settled_dec d now e : Decision (predecessor_settled d now e).
Proof. unfold predecessor_settled. destruct (d_notBeforeID e); apply _. Defined.

(** [buildDeliveryQuery] *)
Definition deliverable (d : db) (sub : subscription) (now : time) (e : delivery) : Prop :=
  (s_orderedDelivery sub = true → predecessor_settled d now e) ∧
  d_completedAt e = None ∧ now < d_expiresAt e ∧ d_subscriptionID e = s_id sub.
#[export] Instance deliverable_dec d sub now e : Decision (deliverable d sub now e).
Proof. unfold deliverable. apply _. Defined.

Definition due (d : db) (sub : subscription) (now nowB : time) (locked : gset uuid) (e : delivery) : Prop :=
  deliverable d sub nowB e ∧ d_attemptAt e ≤ now ∧ d_id e ∉ locked.
#[export] Instance due_dec d sub now nowB locked e : Decision (due d sub now nowB locked e).
Proof. unfold due. apply _. Defined.

(** [WithMessage()] *)
Definition with_message (d : db) (e : delivery) : option (delivery * message) :=
  (λ m, (e, m)) <$> messages d !! d_messageID e.

Definition queryAndLockDeliveriesOnce (p : GetSubscriptionMessagesParams) (sub : subscription)
    (now nowB : time) (locked : gset uuid) : Tx (list (delivery * message)) :=
  gets (λ t, let d := tx_db t in
    omap (with_message d) (take (Z.to_nat (g_MaxMessages p))
      (sort_by d_attemptAt (rows_where (due d sub now nowB locked) d)))).

(** Both queries of [nextAttempt] order by [attempt_at]. *)
Definition nextAttempt (sub : subscription) (now1 now2 : time) : Tx (option time) :=
  gets (λ t, let d := tx_db t in
    match sort_by d_attemptAt (rows_where (deliverable d sub now1) d),
          sort_by d_attemptAt (rows_where (deliverable d sub now2) d) with
    | nextAttempt :: _, nextExpires :: _ =>
        if d_expiresAt nextExpires <? d_attemptAt nextAttempt
        then Some (d_expiresAt nextExpires) else Some (d_attemptAt nextAttempt)
    | _, _ => None
    end).

(** ** [applyResults] *)

Definition to_result (sub : subscription) (now : time) (em : delivery * message)
  : SubscriptionMessageDelivery :=
  let '(e, m) := em in
  let '(nominalDelay, fuzzedDelay) := NextDelayFor sub (d_attempts e + 1) in
  MkSMD (d_id e) (m_id m) (m_publishedAt m) (d_attempts e + 1) (now + nominalDelay)
    (fuzzedDelay - nominalDelay) (m_orderKey m) (m_payload m) (m_attributes m).

(** The loop: [i] is the index, [bytes] the size so far. *)
Fixpoint apply_loop (p : GetSubscriptionMessagesParams) (sub : subscription) (now : time)
    (i bytes : Z) (ds : list (delivery * message)) : Tx getSubscriptionMessagesResults :=
  match ds with
  | [] => mret (MkGot [] 0)
  | (e, m) :: ds =>
      if (g_MaxBytesStrict p || (0 <? i)) && (g_MaxBytes p <? bytes + payload_len m) then
        apply_loop p sub now (i + 1) bytes ds
      else if attempts_used_up sub e then
        lift (deadLetterDataFromEntities e sub) ≫= λ data,
        deadLetterDelivery data now ≫= λ _,
        apply_loop p sub now (i + 1) bytes ds ≫= λ r,
        mret (MkGot (Deliveries r) (S (NumDeadLettered r)))
      else
        (if g_MaxMessages p <=? i + 1 then mret (MkGot [] 0)
         else apply_loop p sub now (i + 1) (bytes + payload_len m) ds) ≫= λ r,
        mret (MkGot (to_result sub now (e, m) :: Deliveries r) (NumDeadLettered r))
  end.

(** The comparator passed to [sort.Slice] compares [deliveries[i]], not the elements being
    sorted, so the order it yields is unspecified: any permutation. *)
Definition sortedDeliveries (l : list SubscriptionMessageDelivery) : list SubscriptionMessageDelivery :=
  plan l.

Definition applyResults (p : GetSubscriptionMessagesParams) (sub : subscription) (now : time)
    (ds : list (delivery * message)) : Tx getSubscriptionMessagesResults :=
  UpdateOneID (s_id sub) (sub_set_expiresAt (now + s_ttl sub)) ≫= λ _,
  apply_loop p sub now 0 0 ds ≫= λ results,
  forM (sortedDeliveries (Deliveries results)) (λ r,
    UpdateOneID (smd_ID r) (del_attempted now (smd_NextAttemptAt r + smd_fuzzDelay r))) ≫= λ _,
  mret results.

(** ** The transactions and the loop *)

(** What one round reads from its surroundings. *)
Record clock := MkClock {
  c_query : time; c_build : time; c_apply : time; c_next1 : time; c_next2 : time;
  c_locked : gset uuid }.

(** [single_sqlite_tx]: the deprecated [Execute] on SQLite cannot wait. *)
Definition get_round (single_sqlite_tx : bool) (p : GetSubscriptionMessagesParams) (c : clock)
  : Tx (subscription * option getSubscriptionMessagesResults * option time) :=
  verifySub p ≫= λ sub,
  queryAndLockDeliveriesOnce p sub (c_query c) (c_build c) (c_locked c) ≫= λ ds,
  if negb (bool_decide (ds = [])) || single_sqlite_tx then
    applyResults p sub (c_apply c) ds ≫= λ r, mret (sub, Some r, None)
  else
    nextAttempt sub (c_next1 c) (c_next2 c) ≫= λ next, mret (sub, None, next).

Definition first_tx (p : GetSubscriptionMessagesParams) (now : time) : Tx uuid :=
  verifySub p ≫= λ sub,
  UpdateOneID (s_id sub) (sub_set_expiresAt (now + s_ttl sub)) ≫= λ _, mret (s_id sub).

(** An attempt at a transaction: what others do to the world before it, what it reads from the
    clock, and the database's answer to the commit. *)
Record attempt (C : Type) := MkAttempt { a_others : world → world; a_clock : C; a_commit : outcome () }.
#[global] Arguments MkAttempt {C} _ _ _.
#[global] Arguments a_others {C} _.
#[global] Arguments a_clock {C} _.
#[global] Arguments a_commit {C} _.

Definition is_deadlock : error → bool := RetryOnErrorCode DeadlockDetected [].

(** [runTx] of [ExecuteClient]: [DoCtxTxRetry] with [RetryOnErrorCode(DeadlockDetected)].  The
    closure works on variables of the caller ([v]); what an attempt assigns to them stays
    when it is rolled back.  [None]: the attempts are used up. *)
Fixpoint runTx {C V A} (tx : V → C → Tx A) (assign : V → C → txn → V) (tries : list (attempt C)) (v : V)
    (w : world) : option (outcome A * V * world) :=
  match tries with
  | [] => None
  | y :: tries =>
      let w := a_others y w in
      let v' := assign v (a_clock y) (MkTxn (w_db w) [] (w_fresh w)) in
      match DoTx (a_commit y) (tx v (a_clock y)) w with
      | (Err e, w') => if is_deadlock e then runTx tx assign tries v' w' else Some (Err e, v', w')
      | (res, w') => Some (res, v', w')
      end
  end.

(** What the [select] chose; the timeout is followed by a transaction. *)
Inductive select_event :=
  | FindTimeout (tries : list (attempt time)) | NextAttemptDue | Published | ContextDone (cause : error).

(** A round of [ExecuteClient]: the attempts at its transaction, and how the wait ends. *)
Record round := MkRound { r_tries : list (attempt clock); r_select : select_event }.

Definition with_reg (r : registry) (w : world) : world := MkWorld (w_db w) r (w_fresh w).

(** [CancelPublishAwaiter(id, old); PublishAwaiter(id)] *)
Definition renew_awaiter (id : uuid) (old : option chan) (w : world) : outcome (chan * world) :=
  match (CancelPublishAwaiter id old ≫= λ _, PublishAwaiter id) (w_reg w) with
  | Ok (c, r) => Ok (c, with_reg r w)
  | Err e => Err e
  | Panic s => Panic s
  end.
Definition cancel_awaiter (id : uuid) (old : option chan) (w : world) : world :=
  match CancelPublishAwaiter id old (w_reg w) with Ok (_, r) => with_reg r w | _ => w end.

Definition with_id (id : uuid) (p : GetSubscriptionMessagesParams) : GetSubscriptionMessagesParams :=
  MkGet (g_Name p) (Some id) (g_MaxMessages p) (g_MaxBytes p) (g_MaxBytesStrict p) (g_MaxWait p).

(** The assignments of the closures: [verifySub] binds the id, [applyResults] the results.  Those
    of a round that is tried again are looked at when the next attempt finds nothing. *)
Definition bind_id (p : GetSubscriptionMessagesParams) (_ : time) (t : txn) : GetSubscriptionMessagesParams :=
  match verifySub p t with Ok (sub, _) => with_id (s_id sub) p | _ => p end.
Definition keep_results (p : GetSubscriptionMessagesParams) (r : option getSubscriptionMessagesResults) (c : clock)
    (t : txn) : option getSubscriptionMessagesResults :=
  match get_round false p c t with Ok ((_, Some r, _), _) => Some r | _ => r end.

(** One round of the [RETRY] loop: [inl] returns, [inr] goes round again with the new awaiter;
    [None]: the attempts at a transaction are used up. *)
Definition execute_round (p : GetSubscriptionMessagesParams) (id : uuid) (old : option chan)
    (rd : round) (w : world) : option ((outcome getSubscriptionMessagesResults + chan) * world) :=
  match renew_awaiter id old w with
  | Ok (c, w) =>
      match runTx (λ _, get_round false p) (keep_results p) (r_tries rd) None w with
      | None => None
      | Some (Ok _, Some r, w) => Some (inl (Ok r), cancel_awaiter id (Some c) w)
      | Some (Ok (sub, _, _), None, w) =>
          match r_select rd with
          | FindTimeout tries =>
              (λ '(res, _, w), (inl res, cancel_awaiter id (Some c) w)) <$>
                runTx (λ _ now, applyResults p sub now []) (λ u _ _, u) tries () w
          | ContextDone cause => Some (inl (Err cause), cancel_awaiter id (Some c) w)
          | NextAttemptDue | Published => Some (inr c, w)
          end
      | Some (Err e, _, w) => Some (inl (Err e), cancel_awaiter id (Some c) w)
      | Some (Panic s, _, w) => Some (inl (Panic s), cancel_awaiter id (Some c) w)
      end
  | Err e => Some (inl (Err e), w)
  | Panic s => Some (inl (Panic s), w)
  end.

(** The [RETRY] loop; [None]: still waiting when the given rounds (or attempts) are over. *)
Fixpoint execute_loop (p : GetSubscriptionMessagesParams) (id : uuid) (old : option chan)
    (rounds : list round) (w : world) : option (outcome getSubscriptionMessagesResults * world) :=
  match rounds with
  | [] => None
  | rd :: rounds =>
      match execute_round p id old rd w with
      | Some (inl res, w) => Some (res, w)
      | Some (inr c, w) => execute_loop p id (Some c) rounds w
      | None => None
      end
  end.

Definition ExecuteClient (p : GetSubscriptionMessagesParams) (first : list (attempt time))
    (rounds : list round) (w : world) : option (outcome getSubscriptionMessagesResults * world) :=
  match runTx first_tx bind_id first p w with
  | Some (Ok id, _, w) => execute_loop (with_id id p) id None rounds w
  | Some (Err e, _, w) => Some (Err e, w)
  | Some (Panic s, _, w) => Some (Panic s, w)
  | None => None
  end.
End Receive.

(** ** What a round does *)

Section Receive_run.
Context {E : Engine} {FP : FilterParser} {F : Float64}.
Implicit Types (p : GetSubscriptionMessagesParams) (sub : subscription).

Definition em_id (em : delivery * message) : uuid := d_id em.1.
Definition over_budget p (i bytes : Z) (m : message) : bool :=
  (g_MaxBytesStrict p || (0 <? i)) && (g_MaxBytes p <? bytes + payload_len m).

(** The deliveries the loop hands out, and those it dead-letters. *)
Fixpoint sort_out p sub (i bytes : Z) (ds : list (delivery * message))
  : list (delivery * message) * list (delivery * message) :=
  match ds with
  | [] => ([], [])
  | em :: ds =>
      if over_budget p i bytes em.2 then sort_out p sub (i + 1) bytes ds
      else if attempts_used_up sub em.1 then
        let ab := sort_out p sub (i + 1) bytes ds in (ab.1, em :: ab.2)
      else
        let ab := if g_MaxMessages p <=? i + 1 then ([], [])
                  else sort_out p sub (i + 1) (bytes + payload_len em.2) ds in
        (em :: ab.1, ab.2)
  end.

Lemma sort_out_perm p sub i bytes ds :
  ∃ rest, ds ≡ₚ (sort_out p sub i bytes ds).1 ++ (sort_out p sub i bytes ds).2 ++ rest.
Proof.
  revert i bytes. induction ds as [|em ds IH]; intros i bytes; simpl; [by exists []|].
  destruct (over_budget _ _ _ _).
  { destruct (IH (i + 1) bytes) as [rest Hp]. exists (em :: rest). rewrite Hp at 1.
    rewrite !app_assoc. apply Permutation_cons_app. done. }
  destruct (attempts_used_up _ _); simpl.
  { destruct (IH (i + 1) bytes) as [rest Hp]. exists rest. rewrite Hp at 1.
    apply Permutation_cons_app. done. }
  destruct (_ <=? _); simpl; [by exists ds|].
  destruct (IH (i + 1) (bytes + payload_len em.2)) as [rest Hp]. exists rest. by rewrite Hp at 1.
Qed.

(** The payloads handed out stay within the budget, but for a first one that is too big. *)
Lemma payload_nonneg m : 0 ≤ payload_len m.
Proof. unfold payload_len. lia. Qed.

Lemma sort_out_bytes p sub i bytes ds :
  0 < i ∨ g_MaxBytesStrict p = true → 0 ≤ bytes →
  let total := list_sum ((λ em, payload_len em.2) <$> (sort_out p sub i bytes ds).1) in
  total = 0 ∨ bytes + total ≤ g_MaxBytes p.
Proof.
  revert i bytes. induction ds as [|em ds IH]; intros i bytes Hi Hb; [by left|].
  assert (Hi' : 0 < i + 1 ∨ g_MaxBytesStrict p = true) by (destruct Hi; [left; lia|by right]).
  simpl. unfold over_budget.
  assert (Hstrict : g_MaxBytesStrict p || (0 <? i) = true).
  { apply orb_true_iff. rewrite Z.ltb_lt. tauto. }
  rewrite Hstrict. simpl. pose proof (payload_nonneg em.2).
  destruct (Z.ltb_spec (g_MaxBytes p) (bytes + payload_len em.2)); [by apply IH|].
  destruct (attempts_used_up _ _); [by apply IH|].
  destruct (_ <=? _); simpl; [right; unfold list_sum; simpl; lia|].
  pose proof (IH (i + 1) (bytes + payload_len em.2) Hi' ltac:(lia)) as IH'. cbv zeta in IH'.
  right. unfold list_sum, fmap in *. simpl in *. destruct IH' as [Hz|Hz]; lia.
Qed.

(** Once over budget, nothing more is handed out. *)
Lemma sort_out_full p sub i bytes ds :
  0 < i → g_MaxBytes p < bytes → (sort_out p sub i bytes ds).1 = [].
Proof.
  revert i. induction ds as [|em ds IH]; intros i Hi Hb; [done|]. simpl. unfold over_budget.
  pose proof (payload_nonneg em.2).
  rewrite (proj2 (Z.ltb_lt 0 i)), orb_true_r by done.
  rewrite (proj2 (Z.ltb_lt _ (bytes + _))) by lia. simpl. apply IH; lia.
Qed.

Lemma sort_out_length p sub i bytes ds :
  Z.of_nat (length (sort_out p sub i bytes ds).1) ≤ Z.max 1 (g_MaxMessages p - i).
Proof.
  revert i bytes. induction ds as [|em ds IH]; intros i bytes; simpl; [lia|].
  destruct (over_budget _ _ _ _); [specialize (IH (i + 1) bytes); lia|].
  destruct (attempts_used_up _ _); simpl; [specialize (IH (i + 1) bytes); lia|].
  destruct (Z.leb_spec (g_MaxMessages p) (i + 1)); simpl; [lia|].
  specialize (IH (i + 1) (bytes + payload_len em.2)). lia.
Qed.

(** What a list of results may hold. *)
Definition results_bytes (l : list SubscriptionMessageDelivery) : Z :=
  list_sum ((λ x, Z.of_nat (String.length (smd_Payload x))) <$> l).
Definition fits p (l : list SubscriptionMessageDelivery) : Prop :=
  Z.of_nat (length l) ≤ g_MaxMessages p ∧
  (results_bytes l ≤ g_MaxBytes p ∨ g_MaxBytesStrict p = false ∧ length l = 1%nat).

Lemma to_result_bytes sub now l :
  results_bytes (to_result sub now <$> l) = list_sum ((λ em, payload_len em.2) <$> l).
Proof.
  unfold results_bytes. f_equal. rewrite <- list_fmap_compose. apply list_fmap_ext. intros i [e m] _.
  unfold to_result. simpl. by destruct (NextDelayFor sub (d_attempts e + 1)).
Qed.

Lemma New_limits p p' : NewGetSubscriptionMessages p = Ok p' →
  p' = p ∧ 1 ≤ g_MaxMessages p ∧ 1 ≤ g_MaxBytes p.
Proof.
  unfold NewGetSubscriptionMessages. destruct (Z.ltb_spec (g_MaxMessages p) 1); [done|].
  destruct (Z.ltb_spec (g_MaxBytes p) 1); [done|]. destruct (g_MaxWait p <? 0); [done|].
  case_match; [done|]. naive_solver lia.
Qed.

Lemma sort_out_fits p sub now ds :
  1 ≤ g_MaxMessages p → 1 ≤ g_MaxBytes p → fits p (to_result sub now <$> (sort_out p sub 0 0 ds).1).
Proof.
  intros HM HB. split; rewrite length_fmap.
  { pose proof (sort_out_length p sub 0 0 ds). lia. }
  rewrite to_result_bytes. destruct (g_MaxBytesStrict p) eqn:Hstrict.
  { left. destruct (sort_out_bytes p sub 0 0 ds) as [H0|H0]; [by right|done|..]; rewrite ?H0; lia. }
  destruct ds as [|em ds']; [left; unfold list_sum; simpl; lia|]. simpl.
  unfold over_budget. rewrite Hstrict. simpl. change (0 + 1) with 1. rewrite ?Z.add_0_l.
  pose proof (payload_nonneg em.2) as Hpos.
  destruct (attempts_used_up sub em.1); simpl.
  { left. destruct (sort_out_bytes p sub 1 0 ds') as [H0|H0]; [by left|done|..];
      simpl in H0; unfold list_sum, fmap in *; lia. }
  destruct (g_MaxMessages p <=? 1); simpl; [by right|].
  destruct (sort_out_bytes p sub 1 (payload_len em.2) ds') as [H0|H0]; [by left|done|..].
  - destruct (Z.le_gt_cases (payload_len em.2) (g_MaxBytes p)).
    { left. simpl in H0. unfold list_sum, fmap in *. simpl. lia. }
    right. split; [done|]. by rewrite sort_out_full by lia.
  - left. simpl in H0. unfold list_sum, fmap in *. simpl. lia.
Qed.

(** Whatever the state, the loop hands out what [sort_out] says, if it succeeds. *)
Lemma apply_loop_results p sub now i bytes ds t r t' :
  apply_loop p sub now i bytes ds t = Ok (r, t') →
  Deliveries r = to_result sub now <$> (sort_out p sub i bytes ds).1.
Proof.
  revert i bytes t r t'. induction ds as [|[e m] ds IH]; intros i bytes t r t'; simpl; intros H.
  { by inv_monad. }
  unfold over_budget. destruct (_ && _); [by eapply IH|].
  destruct (attempts_used_up sub e); simpl.
  { inv_monad. by eapply IH. }
  destruct (_ <=? _); inv_monad; [done|]. by erewrite IH.
Qed.

Lemma applyResults_fits p sub now ds t r t' :
  1 ≤ g_MaxMessages p → 1 ≤ g_MaxBytes p → applyResults p sub now ds t = Ok (r, t') →
  fits p (Deliveries r).
Proof.
  intros HM HB H. unfold applyResults in H. inv_monad.
  match goal with H : apply_loop _ _ _ _ _ _ _ = _ |- _ => rewrite (apply_loop_results _ _ _ _ _ _ _ _ _ H) end.
  by apply sort_out_fits.
Qed.

Lemma get_round_fits sq p c t sub r next t' :
  1 ≤ g_MaxMessages p → 1 ≤ g_MaxBytes p → get_round sq p c t = Ok ((sub, Some r, next), t') →
  fits p (Deliveries r).
Proof.
  intros HM HB H. unfold get_round in H. inv_monad. destruct (_ || _); inv_monad.
  by eapply applyResults_fits.
Qed.

(** What a run of the attempts returns, and what it assigns, are one attempt's. *)
Lemma runTx_inv {C V A} (tx : V → C → Tx A) assign (I : V → Prop) tries v w res v' w' :
  (∀ v c t, I v → I (assign v c t)) → I v → runTx tx assign tries v w = Some (res, v', w') →
  I v' ∧ ∃ v0 y w0, I v0 ∧ DoTx (a_commit y) (tx v0 (a_clock y)) w0 = (res, w').
Proof.
  intros Ha. revert v w. induction tries as [|y tries IH]; intros v w Hv; simpl; [done|].
  destruct (DoTx _ _ _) as [[a|e|s] w1] eqn:Hd; [intros [= <- <- <-]; split; [by apply Ha|by eexists v, y, _]| |
    intros [= <- <- <-]; split; [by apply Ha|by eexists v, y, _]].
  destruct (is_deadlock e); [apply IH; by apply Ha|intros [= <- <- <-]]. split; [by apply Ha|by eexists v, y, _].
Qed.

(** Whatever others do meanwhile, a call that returns results keeps to the limits. *)
Lemma execute_round_fits p id old rd w r w' :
  1 ≤ g_MaxMessages p → 1 ≤ g_MaxBytes p → execute_round p id old rd w = Some (inl (Ok r), w') →
  fits p (Deliveries r).
Proof.
  intros HM HB. unfold execute_round. destruct (renew_awaiter _ _ _) as [[c w1]|e|s]; [|done..].
  destruct (runTx _ (keep_results p) _ _ _) as [[[res v] w2]|] eqn:Hr; [|done].
  apply (runTx_inv _ _ (λ v, ∀ r, v = Some r → fits p (Deliveries r))) in Hr as [Hv _]; [| |done].
  2: { clear Hr v; intros v c' t Hv r'. unfold keep_results.
    destruct (get_round false p c' t) as [[[[sub [r1|]] next] t1]|?|?] eqn:Hg; [|by apply Hv..].
    intros [= ->]. by eapply get_round_fits. }
  destruct res as [[[sub o] next]|e|s]; [|done..]. destruct v as [r'|]; [intros [= -> _]; by apply Hv|].
  destruct (r_select rd) as [tries| | |]; [|done..].
  intros ([[res []] w3] & Hr & [= <- _])%fmap_Some.
  apply (runTx_inv _ _ (λ _, True)) in Hr as [_ (_ & y & w0 & _ & Hd)]; [|done..].
  destruct (DoTx_Ok_inv _ _ _ _ _ Hd) as (t & Ht). by eapply applyResults_fits.
Qed.

Lemma sort_out_in p sub i bytes ds em :
  (em ∈ (sort_out p sub i bytes ds).1 → em ∈ ds ∧ attempts_used_up sub em.1 = false) ∧
  (em ∈ (sort_out p sub i bytes ds).2 → em ∈ ds ∧ attempts_used_up sub em.1 = true).
Proof.
  revert i bytes. induction ds as [|em' ds IH]; intros i bytes; simpl.
  { by split; intros ?%elem_of_nil. }
  destruct (over_budget _ _ _ _); [destruct (IH (i + 1) bytes); split; rewrite elem_of_cons; naive_solver|].
  destruct (attempts_used_up sub em'.1) eqn:Hu; simpl.
  { destruct (IH (i + 1) bytes). split; rewrite !elem_of_cons; naive_solver. }
  destruct (_ <=? _); simpl.
  { split; rewrite ?elem_of_cons, ?elem_of_nil; naive_solver. }
  destruct (IH (i + 1) (bytes + payload_len em'.2)). split; rewrite !elem_of_cons; naive_solver.
Qed.

(** The loop of [applyResults] computes [sort_out] and dead-letters its second half. *)
Lemma apply_loop_run p sub now i bytes ds t :
  good t → NoDup (em_id <$> ds) →
  (∀ em, em ∈ ds → deliveries (tx_db t) !! em_id em = Some em.1) →
  let ab := sort_out p sub i bytes ds in
  ∃ t', apply_loop p sub now i bytes ds t
      = Ok (MkGot (to_result sub now <$> ab.1) (length ab.2), t') ∧
    only_deliveries (em_id <$> ab.2) t t' ∧
    (∀ em, em ∈ ab.2 → deliveries (tx_db t') !! em_id em = Some (del_set_completedAt (Some now) em.1)).
Proof.
  revert i bytes t. induction ds as [|[e m] ds IH]; intros i bytes t Hg Hnd Hst ab.
  { exists t. split_and!; [done|by apply only_deliveries_refl|by intros ? ?%elem_of_nil]. }
  rewrite fmap_cons, NoDup_cons in Hnd. destruct Hnd as [Hni Hnd].
  assert (Hst' : ∀ em, em ∈ ds → deliveries (tx_db t) !! em_id em = Some em.1)
    by (intros; apply Hst; by right).
  pose proof (Hst (e, m) ltac:(by left)) as He. unfold em_id in He. simpl in He.
  unfold ab. simpl. unfold over_budget. simpl.
  destruct ((g_MaxBytesStrict p || (0 <? i)) && (g_MaxBytes p <? bytes + payload_len m));
    [by apply IH|].
  destruct (attempts_used_up sub e) eqn:Hu; simpl.
  - unfold attempts_used_up, HasFullDeadLetterConfig in Hu.
    destruct (s_maxDeliveryAttempts sub); [|done].
    destruct (s_deadLetterTopicID sub) as [dl|] eqn:Hdl; [|done].
    set (data := MkDeadLetterData (d_id e) (d_subscriptionID e) (d_messageID e) dl).
    destruct (deadLetter_settles data now e t Hg He eq_refl eq_refl) as (u & t1 & H1 & _ & Ho & Hd).
    destruct u.
    assert (Hlift : lift (deadLetterDataFromEntities e sub) t = Ok (data, t)).
    { unfold lift, deadLetterDataFromEntities. by rewrite Hdl. }
    rewrite (bind_step _ _ _ _ _ Hlift), (bind_step _ _ _ _ _ H1).
    assert (Hkept : ∀ em, em ∈ ds → em_id em ∉ [d_id e]).
    { intros em Hem Heq%list_elem_of_singleton. apply Hni. change (em_id (e, m)) with (d_id e).
      rewrite <- Heq. by apply list_elem_of_fmap_2. }
    destruct (IH (i + 1) bytes t1) as (t2 & H2 & Ho2 & Hd2); [apply Ho|done|..].
    { intros em Hem. apply (od_kept _ _ _ Ho); auto. }
    exists t2. rewrite (bind_step _ _ _ _ _ H2). split_and!; [done|..].
    + exact (only_deliveries_trans _ _ _ _ _ Ho Ho2).
    + intros em [->|Hem]%elem_of_cons; [|by apply Hd2]. simpl.
      apply (od_kept _ _ _ Ho2); [|done].
      intros (em' & Heq & Hem')%list_elem_of_fmap. apply (Hkept em').
      * by apply (sort_out_in p sub (i + 1) bytes ds em').
      * rewrite <- Heq. by left.
  - destruct (_ <=? _); simpl.
    + exists t. split_and!; [done|by apply only_deliveries_refl|by intros ? ?%elem_of_nil].
    + destruct (IH (i + 1) (bytes + payload_len m) t) as (t2 & H2 & Ho2 & Hd2); [done..|].
      exists t2. rewrite (bind_step _ _ _ _ _ H2). done.
Qed.

Lemma attempted_harmless P now at_ : harmless P (del_attempted now at_).
Proof. by apply delivery_harmless. Qed.

Lemma to_result_next sub now em :
  smd_ID (to_result sub now em) = em_id em ∧
  smd_NextAttemptAt (to_result sub now em) + smd_fuzzDelay (to_result sub now em)
    = now + (NextDelayFor sub (d_attempts em.1 + 1)).2.
Proof.
  destruct em as [e m]. unfold to_result. simpl.
  destruct (NextDelayFor sub (d_attempts e + 1)) as [nom fuz]. simpl. split; [done|lia].
Qed.

(** The updates at the end of [applyResults], in whatever order they are made. *)
Lemma book_attempts_run sub now l t :
  good t → NoDup (em_id <$> l) →
  (∀ em, em ∈ l → deliveries (tx_db t) !! em_id em = Some em.1) →
  ∃ t', forM (sortedDeliveries (to_result sub now <$> l)) (λ r,
      UpdateOneID (smd_ID r) (del_attempted now (smd_NextAttemptAt r + smd_fuzzDelay r))) t
      = Ok ((), t') ∧ only_deliveries (em_id <$> l) t t' ∧
    (∀ em, em ∈ l → deliveries (tx_db t') !! em_id em
      = Some (del_attempted now (now + (NextDelayFor sub (d_attempts em.1 + 1)).2) em.1)).
Proof.
  intros Hg Hnd Hst. unfold sortedDeliveries.
  destruct (Permutation_fmap_inv (to_result sub now) l _ (plan_perm _)) as (l' & -> & Hperm).
  rewrite forM_fmap.
  destruct (settle_items fst
    (λ em : delivery * message, UpdateOneID (smd_ID (to_result sub now em)) (del_attempted now
      (smd_NextAttemptAt (to_result sub now em) + smd_fuzzDelay (to_result sub now em))))
    (λ _ _, True)
    (λ em, del_attempted now (now + (NextDelayFor sub (d_attempts em.1 + 1)).2)) l' t)
    as (us & t' & Hrun & _ & Ho & Hd).
  - done.
  - change (NoDup (em_id <$> l')). by rewrite Hperm.
  - intros em Hem. apply Hst. by rewrite <- Hperm.
  - intros em t1 Hem Hg1 _ _ _ Hst1. destruct (to_result_next sub now em) as [-> ->].
    apply update_settles; [done|done|apply attempted_harmless].
  - exists t'. split_and!.
    + eapply forM_traverseM, Hrun. by intros em s [] s1.
    + eapply only_deliveries_weaken, Ho. intros i. change ((λ x : delivery * message, d_id x.1) <$> l')
        with (em_id <$> l'). by rewrite Hperm.
    + intros em Hem. apply Hd. by rewrite Hperm.
Qed.

Lemma applyResults_run p sub now ds t :
  good t → subscriptions (tx_db t) !! s_id sub = Some sub → NoDup (em_id <$> ds) →
  (∀ em, em ∈ ds → deliveries (tx_db t) !! em_id em = Some em.1) →
  let ab := sort_out p sub 0 0 ds in
  ∃ t', applyResults p sub now ds t
      = Ok (MkGot (to_result sub now <$> ab.1) (length ab.2), t') ∧ good t' ∧
    subscriptions (tx_db t') = <[s_id sub := sub_set_expiresAt (now + s_ttl sub) sub]>
      (subscriptions (tx_db t)) ∧
    topics (tx_db t') = topics (tx_db t) ∧ messages (tx_db t') = messages (tx_db t) ∧
    snapshots (tx_db t') = snapshots (tx_db t) ∧
    (∀ em, em ∈ ab.1 → deliveries (tx_db t') !! em_id em
      = Some (del_attempted now (now + (NextDelayFor sub (d_attempts em.1 + 1)).2) em.1)) ∧
    (∀ em, em ∈ ab.2 → deliveries (tx_db t') !! em_id em
      = Some (del_set_completedAt (Some now) em.1)) ∧
    (∀ k e, k ∉ em_id <$> (ab.1 ++ ab.2) → deliveries (tx_db t) !! k = Some e →
      deliveries (tx_db t') !! k = Some e).
Proof.
  intros [W Fr] Hsub Hnd Hst ab.
  destruct (UpdateOneID_run (λ _, True) (sub_set_expiresAt (now + s_ttl sub)) (s_id sub) sub t)
    as [H1 W1]; [apply sub_harmless; intros s; [done|by left]|done|done|done|].
  set (t1 := with_db _ t) in H1.
  assert (Hg1 : good t1).
  { split; [done|]. destruct Fr as [Hi ? Hs ???]. split; try done. simpl. intros i Hin.
    rewrite lookup_insert_ne; [by apply Hs|]. intros Heq. specialize (Hs i Hin).
    rewrite <- Heq in Hs. congruence. }
  destruct (apply_loop_run p sub now 0 0 ds t1) as (t2 & H2 & Ho2 & Hd2); [done..|].
  fold ab in H2, Ho2, Hd2.
  destruct (sort_out_perm p sub 0 0 ds) as [rest Hp]. fold ab in Hp.
  rewrite Hp, !fmap_app in Hnd. apply NoDup_app in Hnd as (Hnd1 & Hdisj & Hnd2).
  assert (Hdisj' : ∀ em em', em ∈ ab.1 → em' ∈ ab.2 → em_id em ≠ em_id em').
  { intros em em' Ha Hb Heq. apply (Hdisj (em_id em)); [by apply list_elem_of_fmap_2|].
    rewrite Heq, elem_of_app. left. by apply list_elem_of_fmap_2. }
  destruct (book_attempts_run sub now ab.1 t2) as (t3 & H3 & Ho3 & Hd3); [apply Ho2|done|..].
  { intros em Hem. apply (od_kept _ _ _ Ho2).
    - intros (em' & Heq & Hem')%list_elem_of_fmap. by apply (Hdisj' em em').
    - apply Hst. by destruct (proj1 (sort_out_in p sub 0 0 ds em) Hem). }
  exists t3. split_and!.
  - unfold applyResults. rewrite (bind_step _ _ _ _ _ H1), (bind_step _ _ _ _ _ H2).
    simpl. by rewrite (bind_step _ _ _ _ _ H3).
  - apply Ho3.
  - by rewrite (od_subscriptions _ _ _ Ho3), (od_subscriptions _ _ _ Ho2).
  - by rewrite (od_topics _ _ _ Ho3), (od_topics _ _ _ Ho2).
  - by rewrite (od_messages _ _ _ Ho3), (od_messages _ _ _ Ho2).
  - by rewrite (od_snapshots _ _ _ Ho3), (od_snapshots _ _ _ Ho2).
  - done.
  - intros em Hem. apply (od_kept _ _ _ Ho3); [|by apply Hd2].
    intros (em' & Heq & Hem')%list_elem_of_fmap. by apply (Hdisj' em' em).
  - intros k e. rewrite fmap_app, not_elem_of_app. intros [Ha Hb] He.
    apply (od_kept _ _ _ Ho3); [done|]. by apply (od_kept _ _ _ Ho2).
Qed.

(** ** The query *)

Definition queried p sub (c : clock) (d : db) : list (delivery * message) :=
  omap (with_message d) (take (Z.to_nat (g_MaxMessages p))
    (sort_by d_attemptAt (rows_where (due d sub (c_query c) (c_build c) (c_locked c)) d))).

Lemma queried_fst p sub c d :
  db_wf d → (queried p sub c d).*1 = take (Z.to_nat (g_MaxMessages p))
    (sort_by d_attemptAt (rows_where (due d sub (c_query c) (c_build c) (c_locked c)) d)).
Proof.
  intros W. unfold queried.
  assert (Hst : ∀ e, e ∈ take (Z.to_nat (g_MaxMessages p)) (sort_by d_attemptAt
    (rows_where (due d sub (c_query c) (c_build c) (c_locked c)) d)) →
    is_Some (messages d !! d_messageID e)).
  { intros e He%elem_of_take_incl. apply elem_of_sort_by, elem_of_rows_wf in He as [_ He]; [|done].
    by destruct (tw_fk _ (wf_deliveries _ W) _ _ He). }
  induction (take _ _) as [|e l IH]; [done|]. simpl.
  destruct (Hst e ltac:(by left)) as [m Hm]. unfold with_message. rewrite Hm. simpl.
  f_equal. apply IH. intros e' He'. apply Hst. by right.
Qed.

Lemma queried_in p sub c d em :
  db_wf d → em ∈ queried p sub c d →
  due d sub (c_query c) (c_build c) (c_locked c) em.1 ∧ deliveries d !! em_id em = Some em.1 ∧
  messages d !! d_messageID em.1 = Some em.2.
Proof.
  intros W Hem. assert (H1 : em.1 ∈ (queried p sub c d).*1) by by apply list_elem_of_fmap_2.
  rewrite queried_fst in H1 by done. apply elem_of_take_incl, elem_of_sort_by, elem_of_rows_wf in H1
    as [? ?]; [|done]. split_and!; [done|done|].
  unfold queried in Hem. apply list_elem_of_omap in Hem as (e & _ & He).
  unfold with_message in He. destruct (messages d !! d_messageID e) eqn:Hm; [|done].
  simpl in He. by simplify_eq.
Qed.

Lemma queried_NoDup p sub c d : db_wf d → NoDup (em_id <$> queried p sub c d).
Proof.
  intros W. change (NoDup ((d_id ∘ fst) <$> queried p sub c d)).
  rewrite list_fmap_compose, queried_fst by done. rewrite fmap_take.
  eapply sublist_NoDup, sublist_take. rewrite sort_by_perm.
  exact (rows_where_NoDup (due d sub (c_query c) (c_build c) (c_locked c)) d W).
Qed.

Lemma queried_length p sub c d :
  db_wf d → (length (queried p sub c d) ≤ Z.to_nat (g_MaxMessages p))%nat.
Proof.
  intros W. rewrite <- (length_fmap fst), queried_fst by done. rewrite length_take. lia.
Qed.

Lemma verifySub_run p t sub :
  rows_where (subMatch (g_Name p) (g_ID p)) (tx_db t) = [sub] → verifySub p t = Ok (sub, t).
Proof.
  intros Hs. unfold verifySub. rewrite (bind_step _ _ t [sub] t); [done|].
  unfold All, gets. by rewrite Hs.
Qed.

(** A round that finds something. *)
Lemma get_round_found p c t sub :
  good t → rows_where (subMatch (g_Name p) (g_ID p)) (tx_db t) = [sub] →
  let ds := queried p sub c (tx_db t) in ds ≠ [] →
  let ab := sort_out p sub 0 0 ds in
  ∃ t', get_round false p c t
      = Ok ((sub, Some (MkGot (to_result sub (c_apply c) <$> ab.1) (length ab.2)), None), t') ∧
    good t' ∧
    subscriptions (tx_db t') = <[s_id sub := sub_set_expiresAt (c_apply c + s_ttl sub) sub]>
      (subscriptions (tx_db t)) ∧
    topics (tx_db t') = topics (tx_db t) ∧ messages (tx_db t') = messages (tx_db t) ∧
    snapshots (tx_db t') = snapshots (tx_db t) ∧
    (∀ em, em ∈ ab.1 → deliveries (tx_db t') !! em_id em
      = Some (del_attempted (c_apply c)
          (c_apply c + (NextDelayFor sub (d_attempts em.1 + 1)).2) em.1)) ∧
    (∀ em, em ∈ ab.2 → deliveries (tx_db t') !! em_id em
      = Some (del_set_completedAt (Some (c_apply c)) em.1)) ∧
    (∀ k e, k ∉ em_id <$> (ab.1 ++ ab.2) → deliveries (tx_db t) !! k = Some e →
      deliveries (tx_db t') !! k = Some e).
Proof.
  intros Hg Hsub ds Hne ab. pose proof (proj1 Hg) as W.
  assert (Hst : sub ∈ rows_where (subMatch (g_Name p) (g_ID p)) (tx_db t)) by (rewrite Hsub; left).
  apply elem_of_rows_wf in Hst as [_ Hst]; [|done].
  destruct (applyResults_run p sub (c_apply c) ds t) as (t' & Hrun & Hrest);
    [done|done|by apply queried_NoDup| |].
  { intros em Hem. by apply (queried_in p sub c (tx_db t) em). }
  exists t'. split; [|exact Hrest].
  unfold get_round. rewrite (bind_step _ _ _ _ _ (verifySub_run p t sub Hsub)).
  rewrite (bind_step _ _ t ds t) by done. rewrite bool_decide_false by done.
  simpl. by rewrite (bind_step _ _ _ _ _ Hrun).
Qed.

(** ** Properties *)

(** What a round hands out. *)
Lemma handed_out p c t sub :
  good t → rows_where (subMatch (g_Name p) (g_ID p)) (tx_db t) = [sub] →
  queried p sub c (tx_db t) ≠ [] →
  ∃ r t', get_round false p c t = Ok ((sub, Some r, None), t') ∧ db_wf (tx_db t') ∧
    NoDup (smd_ID <$> Deliveries r) ∧
    ∀ x, x ∈ Deliveries r → ∃ e m,
      deliveries (tx_db t) !! smd_ID x = Some e ∧ messages (tx_db t) !! smd_MessageID x = Some m ∧
      d_messageID e = m_id m ∧ smd_Payload x = m_payload m ∧ smd_Attributes x = m_attributes m ∧
      d_subscriptionID e = s_id sub ∧ d_completedAt e = None ∧ c_build c < d_expiresAt e ∧
      d_attemptAt e ≤ c_query c ∧ smd_ID x ∉ c_locked c ∧ attempts_used_up sub e = false ∧
      (s_orderedDelivery sub = true → predecessor_settled (tx_db t) (c_build c) e) ∧
      smd_NumAttempts x = d_attempts e + 1 ∧
      deliveries (tx_db t') !! smd_ID x = Some (del_attempted (c_apply c)
        (c_apply c + (NextDelayFor sub (d_attempts e + 1)).2) e).
Proof.
  intros Hg Hsub Hne. pose proof (proj1 Hg) as W.
  destruct (get_round_found p c t sub Hg Hsub Hne) as (t' & Hrun & Hg' & _ & _ & _ & _ & Hd & _ & _).
  set (ds := queried p sub c (tx_db t)) in *. set (ab := sort_out p sub 0 0 ds) in *.
  exists (MkGot (to_result sub (c_apply c) <$> ab.1) (length ab.2)), t'.
  assert (Hids : ∀ l : list (delivery * message), smd_ID <$> (to_result sub (c_apply c) <$> l) = em_id <$> l).
  { intros l. rewrite <- list_fmap_compose. apply list_fmap_ext. intros i em _.
    exact (proj1 (to_result_next sub (c_apply c) em)). }
  split_and!; [done|apply Hg'|..].
  - simpl. rewrite Hids. destruct (sort_out_perm p sub 0 0 ds) as [rest Hp]. fold ab in Hp.
    pose proof (queried_NoDup p sub c (tx_db t) W) as Hnd. fold ds in Hnd.
    rewrite Hp, fmap_app in Hnd. by apply NoDup_app in Hnd as [? _].
  - intros x (em & -> & Hem)%list_elem_of_fmap.
    destruct (proj1 (sort_out_in p sub 0 0 ds em) Hem) as [Hin Hused].
    destruct (queried_in p sub c (tx_db t) em W Hin) as (((Ho & Hc & Hx & Hs) & Ha & Hl) & Hst & Hm).
    pose proof (tw_key _ (wf_messages _ W) _ _ Hm) as Hmid. simpl in Hmid.
    pose proof (Hd em Hem) as Hbooked.
    clear Hrun Hids. destruct em as [e m]. unfold em_id in *. simpl in *.
    destruct (NextDelayFor sub (d_attempts e + 1)) as [nom fuz]. simpl in *.
    exists e, m. split_and!; try done. by rewrite Hmid.
Qed.

(** C10 A round that finds due deliveries always succeeds, and hands out only what may be
    handed out: each result is a distinct stored delivery of this subscription that is
    pending, unexpired, due, not locked by another transaction, has attempts left and, on an
    ordered subscription, whose predecessor is completed or expired; it carries its
    message; and its row is booked for the next attempt after the retry delay, with one more
    attempt counted, so it is not due again before that.  The subscription's own expiry is
    pushed back by its time to live.  Of the other deliveries stored before, only pending ones
    of this subscription whose attempts are used up may change: they are completed (and
    forwarded to the dead-letter topic, which adds deliveries there).  Topics, messages,
    snapshots and other subscriptions are as they were. *)
Theorem get_round_delivers p c t sub :
  good t → rows_where (subMatch (g_Name p) (g_ID p)) (tx_db t) = [sub] →
  queried p sub c (tx_db t) ≠ [] →
  ∃ r t', get_round false p c t = Ok ((sub, Some r, None), t') ∧ db_wf (tx_db t') ∧
    NoDup (smd_ID <$> Deliveries r) ∧
    (∀ x, x ∈ Deliveries r → ∃ e m,
      deliveries (tx_db t) !! smd_ID x = Some e ∧ messages (tx_db t) !! smd_MessageID x = Some m ∧
      d_messageID e = m_id m ∧ smd_Payload x = m_payload m ∧ smd_Attributes x = m_attributes m ∧
      d_subscriptionID e = s_id sub ∧ d_completedAt e = None ∧ c_build c < d_expiresAt e ∧
      d_attemptAt e ≤ c_query c ∧ smd_ID x ∉ c_locked c ∧ attempts_used_up sub e = false ∧
      (s_orderedDelivery sub = true → predecessor_settled (tx_db t) (c_build c) e) ∧
      smd_NumAttempts x = d_attempts e + 1 ∧
      deliveries (tx_db t') !! smd_ID x = Some (del_attempted (c_apply c)
        (c_apply c + (NextDelayFor sub (d_attempts e + 1)).2) e)) ∧
    subscriptions (tx_db t') = <[s_id sub := sub_set_expiresAt (c_apply c + s_ttl sub) sub]> (subscriptions (tx_db t)) ∧
    topics (tx_db t') = topics (tx_db t) ∧ messages (tx_db t') = messages (tx_db t) ∧
    snapshots (tx_db t') = snapshots (tx_db t) ∧
    ∀ k e, deliveries (tx_db t) !! k = Some e → k ∉ smd_ID <$> Deliveries r →
      deliveries (tx_db t') !! k = Some e ∨
      d_subscriptionID e = s_id sub ∧ d_completedAt e = None ∧ attempts_used_up sub e = true ∧
      deliveries (tx_db t') !! k = Some (del_set_completedAt (Some (c_apply c)) e).
Proof.
  intros Hg Hsub Hne. pose proof (proj1 Hg) as W.
  destruct (handed_out p c t sub Hg Hsub Hne) as (r & t1 & Hrun1 & W1 & Hnd & Hx).
  destruct (get_round_found p c t sub Hg Hsub Hne) as (t' & Hrun & _ & Hs & Ht & Hm & Hsn & _ & Hdead & Hrest).
  set (ds := queried p sub c (tx_db t)) in *. set (ab := sort_out p sub 0 0 ds) in *.
  rewrite Hrun in Hrun1. injection Hrun1 as <- <-.
  eexists _, t'. split; [exact Hrun|]. split_and!; [done..|]. cbn [Deliveries]. intros k e He Hk.
  assert (Hids : smd_ID <$> (to_result sub (c_apply c) <$> ab.1) = em_id <$> ab.1).
  { rewrite <- list_fmap_compose. apply list_fmap_ext. intros i em _. exact (proj1 (to_result_next sub (c_apply c) em)). }
  rewrite Hids in Hk. destruct (decide (k ∈ em_id <$> ab.2)) as [Hin|Hout].
  - right. apply list_elem_of_fmap in Hin as (em & -> & Hem).
    destruct (proj2 (sort_out_in p sub 0 0 ds em) Hem) as [Hin Hused].
    destruct (queried_in p sub c (tx_db t) em W Hin) as (((_ & Hc & _ & Hsid) & _) & Hst & _).
    rewrite He in Hst. injection Hst as ->.
    split_and!; try done. by apply Hdead.
  - left. apply Hrest; [|done]. by rewrite fmap_app, elem_of_app; intros [?|?].
Qed.

(** The same for the transaction of a round. *)
Lemma get_round_limits sq p c t sub r next t' :
  NewGetSubscriptionMessages p = Ok p →
  get_round sq p c t = Ok ((sub, Some r, next), t') →
  Z.of_nat (length (Deliveries r)) ≤ g_MaxMessages p ∧
  (results_bytes (Deliveries r) ≤ g_MaxBytes p ∨
   g_MaxBytesStrict p = false ∧ length (Deliveries r) = 1%nat).
Proof. intros (_ & HM & HB)%New_limits H. by eapply get_round_fits. Qed.

Lemma fits_with_id p id l : fits (with_id id p) l ↔ fits p l.
Proof. done. Qed.

Lemma execute_loop_fits p id old rounds w r w' :
  1 ≤ g_MaxMessages p → 1 ≤ g_MaxBytes p → execute_loop p id old rounds w = Some (Ok r, w') →
  fits p (Deliveries r).
Proof.
  intros HM HB. revert old w. induction rounds as [|rd rounds IH]; intros old w; simpl; [done|].
  destruct (execute_round p id old rd w) as [[[res|c] w1]|] eqn:Hr; [|apply IH|done].
  intros [= -> ->]. by eapply execute_round_fits.
Qed.

(** Whatever others do to the database meanwhile, a call of [ExecuteClient] that returns
    results hands out at most [MaxMessages] deliveries, and payloads of at most [MaxBytes] in
    total; the only exception, and only outside strict mode, is a single delivery that is too
    big on its own. *)
Theorem ExecuteClient_limits p first rounds w r w' :
  NewGetSubscriptionMessages p = Ok p →
  ExecuteClient p first rounds w = Some (Ok r, w') →
  Z.of_nat (length (Deliveries r)) ≤ g_MaxMessages p ∧
  (list_sum ((λ x, Z.of_nat (String.length (smd_Payload x))) <$> Deliveries r) ≤ g_MaxBytes p ∨
   g_MaxBytesStrict p = false ∧ length (Deliveries r) = 1%nat).
Proof.
  intros (_ & HM & HB)%New_limits. unfold ExecuteClient.
  destruct (runTx _ _ _ _ _) as [[[[id|e|s] p'] w1]|]; [|done..].
  apply (execute_loop_fits (with_id id p)); done.
Qed.

Lemma sort_out_all p sub i bytes ds :
  bytes + list_sum ((λ em, payload_len em.2) <$> ds) ≤ g_MaxBytes p →
  i + Z.of_nat (length ds) ≤ g_MaxMessages p →
  ∀ em, em ∈ ds → if attempts_used_up sub em.1 then em ∈ (sort_out p sub i bytes ds).2
                  else em ∈ (sort_out p sub i bytes ds).1.
Proof.
  revert i bytes. induction ds as [|em ds IH]; intros i bytes Hb Hl em' Hem'.
  { by apply elem_of_nil in Hem'. }
  rewrite fmap_cons, list_sum_cons in Hb. cbv beta in Hb. simpl length in Hl.
  assert (Hsum : ∀ l : list (delivery * message), 0 ≤ list_sum ((λ em, payload_len em.2) <$> l)).
  { intros l. induction l as [|x l IHl]; [done|]. rewrite fmap_cons, list_sum_cons. cbv beta.
    pose proof (payload_nonneg x.2). lia. }
  pose proof (Hsum ds) as Hs. pose proof (payload_nonneg em.2) as Hp. simpl.
  assert (Hov : over_budget p i bytes em.2 = false).
  { unfold over_budget. rewrite (proj2 (Z.ltb_ge (g_MaxBytes p) (bytes + payload_len em.2))) by lia.
    apply andb_false_r. }
  rewrite Hov. destruct (attempts_used_up sub em.1) eqn:Hu; simpl.
  - apply elem_of_cons in Hem' as [->|Hem']; [rewrite Hu; by left|].
    specialize (IH (i + 1) bytes ltac:(lia) ltac:(lia) em' Hem').
    destruct (attempts_used_up sub em'.1); [by right|done].
  - apply elem_of_cons in Hem' as [->|Hem']; [rewrite Hu; by left|].
    destruct (Z.leb_spec (g_MaxMessages p) (i + 1)) as [Hle|Hlt].
    { exfalso. destruct ds; [by apply elem_of_nil in Hem'|simpl in Hl; lia]. }
    specialize (IH (i + 1) (bytes + payload_len em.2) ltac:(lia) ltac:(lia) em' Hem').
    destruct (attempts_used_up sub em'.1); [done|by right].
Qed.

(** Nothing that is due is passed over when it fits: if the due deliveries number at
    most [MaxMessages] and their payloads total at most [MaxBytes], one round hands out every
    one of them that has attempts left and completes (dead-letters) every other. *)
Theorem get_round_complete p c t sub :
  good t → rows_where (subMatch (g_Name p) (g_ID p)) (tx_db t) = [sub] →
  queried p sub c (tx_db t) ≠ [] →
  Z.of_nat (length (rows_where (due (tx_db t) sub (c_query c) (c_build c) (c_locked c)) (tx_db t)))
    ≤ g_MaxMessages p →
  list_sum ((λ em, payload_len em.2) <$> queried p sub c (tx_db t)) ≤ g_MaxBytes p →
  ∃ r t', get_round false p c t = Ok ((sub, Some r, None), t') ∧
    ∀ k e, deliveries (tx_db t) !! k = Some e →
      due (tx_db t) sub (c_query c) (c_build c) (c_locked c) e →
      if attempts_used_up sub e
      then deliveries (tx_db t') !! k = Some (del_set_completedAt (Some (c_apply c)) e)
      else k ∈ smd_ID <$> Deliveries r.
Proof.
  intros Hg Hsub Hne Hlen Hbytes. pose proof (proj1 Hg) as W.
  destruct (get_round_found p c t sub Hg Hsub Hne) as (t' & Hrun & _ & _ & _ & _ & _ & _ & Hdead & _).
  set (ds := queried p sub c (tx_db t)) in *. set (ab := sort_out p sub 0 0 ds) in *.
  eexists _, t'. split; [exact Hrun|]. intros k e He Hdue.
  pose proof (tw_key _ (wf_deliveries _ W) _ _ He) as Hk. simpl in Hk.
  set (rows := rows_where (due (tx_db t) sub (c_query c) (c_build c) (c_locked c)) (tx_db t)) in *.
  assert (Hfst : ds.*1 = sort_by d_attemptAt rows).
  { unfold ds. rewrite queried_fst by done. apply take_ge. rewrite sort_by_perm. fold rows. lia. }
  assert (Hin : e ∈ ds.*1).
  { rewrite Hfst. apply elem_of_sort_by, elem_of_rows_wf; [done|]. split; [done|]. simpl. by rewrite Hk. }
  apply list_elem_of_fmap in Hin as (em & -> & Hem).
  assert (Hall := sort_out_all p sub 0 0 ds ltac:(lia)). fold ab in Hall.
  specialize (Hall ltac:(rewrite <- (length_fmap fst), Hfst, sort_by_perm; lia) em Hem).
  destruct (attempts_used_up sub em.1).
  - rewrite <- Hk. by apply Hdead.
  - simpl. rewrite <- Hk. apply list_elem_of_fmap. exists (to_result sub (c_apply c) em).
    split; [symmetry; exact (proj1 (to_result_next sub (c_apply c) em))|].
    by apply list_elem_of_fmap_2.
Qed.

(** The time a fruitless round waits for is never later than the next attempt of any
    outstanding eligible delivery, and there is none to wait for exactly when there is no
    such delivery. (Here both queries read the same clock.) *)
Theorem nextAttempt_spec sub now t :
  db_wf (tx_db t) →
  ∃ next, nextAttempt sub now now t = Ok (next, t) ∧
    (next = None ↔ ∀ k e, deliveries (tx_db t) !! k = Some e → ¬ deliverable (tx_db t) sub now e) ∧
    (∀ n, next = Some n → ∀ k e, deliveries (tx_db t) !! k = Some e →
       deliverable (tx_db t) sub now e → n ≤ d_attemptAt e) ∧
    (∀ n, next = Some n → ∃ k e, deliveries (tx_db t) !! k = Some e ∧
       deliverable (tx_db t) sub now e ∧ (n = d_attemptAt e ∨ n = d_expiresAt e)).
Proof.
  intros W. unfold nextAttempt, gets. set (rows := rows_where (deliverable (tx_db t) sub now) (tx_db t)).
  assert (Hin : ∀ e, e ∈ rows ↔ deliverable (tx_db t) sub now e ∧ ∃ k, deliveries (tx_db t) !! k = Some e).
  { intros e. exact (elem_of_rows_where (deliverable (tx_db t) sub now) (tx_db t) e). }
  eexists. split; [reflexivity|]. fold rows.
  destruct (sort_by d_attemptAt rows) as [|e0 l] eqn:Hs.
  - assert (Hrows : ∀ e, e ∉ rows).
    { intros e He. apply (elem_of_sort_by d_attemptAt) in He. rewrite Hs in He.
      by apply elem_of_nil in He. }
    split_and!; [|done..]. split; [|done]. intros _ k e He Hd. apply (Hrows e), Hin. eauto.
  - assert (He0 : e0 ∈ rows) by (apply (elem_of_sort_by d_attemptAt); rewrite Hs; left).
    apply Hin in He0 as [Hd0 [k0 Hk0]].
    assert (Hmin : ∀ k e, deliveries (tx_db t) !! k = Some e → deliverable (tx_db t) sub now e →
      d_attemptAt e0 ≤ d_attemptAt e).
    { intros k e He Hd. apply (sort_by_head d_attemptAt rows e0 l e Hs), Hin. eauto. }
    destruct (Z.ltb_spec (d_expiresAt e0) (d_attemptAt e0)); split_and!.
    all: try (split; [done|intros Hno; by destruct (Hno _ _ Hk0)]).
    all: intros n [= <-]; try (intros k e He Hd; specialize (Hmin _ _ He Hd); lia).
    all: exists k0, e0; tauto.
Qed.

(** A subscription that is deleted, or was never there, is reported: its receivers get
    "not found", at once or when they next look, and nothing changes. *)
Theorem get_round_gone p c t :
  rows_where (subMatch (g_Name p) (g_ID p)) (tx_db t) = [] →
  get_round false p c t = Err ErrNotFound ∧
  ∀ y first rounds w, w_db (a_others y w) = tx_db t →
    ∃ w', ExecuteClient p (y :: first) rounds w = Some (Err ErrNotFound, w') ∧
      w_db w' = w_db (a_others y w) ∧ w_reg w' = w_reg (a_others y w).
Proof.
  intros Hn.
  assert (Hv : ∀ t, rows_where (subMatch (g_Name p) (g_ID p)) (tx_db t) = [] →
    verifySub p t = Err ErrNotFound).
  { intros t0 H0. unfold verifySub. rewrite (bind_step _ _ t0 [] t0); [done|].
    unfold All, gets. by rewrite H0. }
  split; [unfold get_round; by rewrite (bind_err _ _ _ _ (Hv t Hn))|].
  intros y first rounds w Hw. unfold ExecuteClient. simpl. unfold DoTx, first_tx.
  rewrite (bind_err _ _ (MkTxn (w_db (a_others y w)) [] (w_fresh (a_others y w))) ErrNotFound); [by eexists|].
  apply Hv. simpl. by rewrite Hw.
Qed.
End Receive_run.

(** ** Witnesses *)

Definition get_plain : GetSubscriptionMessagesParams := MkGet "plain" None 10 100 false 0.
Definition clock_at (now : time) : clock := MkClock now now now now now ∅.

Lemma get_round_delivers_witness :
  ∃ r t', get_round (E := id_engine) false get_plain (clock_at 400) example_txn
    = Ok ((sub_plain, Some r, None), t') ∧ NoDup (smd_ID <$> Deliveries r).
Proof.
  destruct (get_round_delivers (E := id_engine) get_plain (clock_at 400) example_txn sub_plain
    example_good eq_refl) as (r & t' & H & _ & Hnd & _); [vm_compute; discriminate|].
  exists r, t'. split; [exact H|exact Hnd].
Defined.

Definition attempt_at {C} (now : C) : attempt C := MkAttempt id now (Ok ()).
Definition round_at (now : time) : round := MkRound [attempt_at (clock_at now)] (ContextDone ContextCanceled).

Lemma ExecuteClient_limits_witness :
  ∃ r w', ExecuteClient (E := id_engine) get_plain [attempt_at 400] [round_at 400]
    (MkWorld example_db empty_registry 0) = Some (Ok r, w') ∧ Z.of_nat (length (Deliveries r)) ≤ 10.
Proof.
  destruct (ExecuteClient (E := id_engine) get_plain [attempt_at 400] [round_at 400]
    (MkWorld example_db empty_registry 0)) as [[[r|e|m] w']|] eqn:H; try (vm_compute in H; discriminate).
  exists r, w'. split; [reflexivity|].
  apply (ExecuteClient_limits (E := id_engine) get_plain [attempt_at 400] [round_at 400] _ r w' eq_refl H).
Defined.

Lemma get_round_complete_witness :
  ∃ r t', get_round (E := id_engine) false get_plain (clock_at 400) example_txn
    = Ok ((sub_plain, Some r, None), t') ∧ 31%N ∈ smd_ID <$> Deliveries r.
Proof.
  destruct (get_round_complete (E := id_engine) get_plain (clock_at 400) example_txn sub_plain
    example_good eq_refl) as (r & t' & H & Hd);
    [vm_compute; discriminate | vm_compute; discriminate | vm_compute; discriminate |].
  exists r, t'. split; [exact H|]. apply (Hd 31%N del_1 eq_refl).
  apply (bool_decide_unpack _). vm_compute. reflexivity.
Defined.

Lemma nextAttempt_spec_witness :
  ∃ next, nextAttempt (E := id_engine) sub_plain 50 50 example_txn = Ok (next, example_txn) ∧
    ∀ n, next = Some n → n ≤ 100.
Proof.
  destruct (nextAttempt_spec (E := id_engine) sub_plain 50 example_txn example_db_wf)
    as (next & H & _ & Hn & _).
  exists next. split; [exact H|]. intros n Hs. apply (Hn n Hs 31%N del_1 eq_refl).
  apply (bool_decide_unpack _). vm_compute. reflexivity.
Defined.

Lemma get_round_gone_witness :
  get_round (E := id_engine) false (MkGet "nobody" None 10 100 false 0) (clock_at 400) example_txn
    = Err ErrNotFound.
Proof. apply (get_round_gone (E := id_engine) (MkGet "nobody" None 10 100 false 0)). reflexivity. Defined.

(** ** The results of an attempt that was rolled back

    The closure of a round assigns [a.results] before the commit, and nothing resets it when
    the transaction is tried again. *)

(** An attempt whose commit ends in a deadlock, and one that finds the deliveries locked. *)
Definition deadlocked_round : round := MkRound
  [MkAttempt id (clock_at 400) (Err (PgError DeadlockDetected));
   MkAttempt id (MkClock 400 400 400 400 400 {[31%N; 32%N; 33%N; 34%N]}) (Ok ())] Published.

(** The round hands out what the attempt that was rolled back had found, and the database does
    not know of it: the deliveries are as they were, with no attempt counted. *)
Theorem deadlocked_results_handed_out :
  ∃ r w', execute_round (E := id_engine) get_plain 11 None deadlocked_round (MkWorld example_db empty_registry 0)
    = Some (inl (Ok r), w') ∧ Deliveries r ≠ [] ∧ w_db w' = example_db.
Proof. eexists _, _. split; [vm_compute; reflexivity|]. split; [discriminate|reflexivity]. Qed.

(** ** The expiry of outstanding deliveries is not looked for

    The comment on [nextAttempt] promises the time of the next attempt or of the next
    expiry, whichever is first; but the second query orders by [attempt_at] too.  Here the
    delivery to be attempted first expires last. *)

Definition early_expiry_db : db := with_deliveries
  {[31%N := MkDelivery 31 21 11 100 500 None 0 None 5100 None;
    32%N := MkDelivery 32 22 11 200 900 None 0 None 450 None]} example_db.

(** [nextAttempt] can return a time after an outstanding delivery has expired. *)
Theorem nextAttempt_misses_expiry :
  db_wf early_expiry_db ∧
  nextAttempt (E := id_engine) sub_plain 400 400 (MkTxn early_expiry_db [] 0)
    = Ok (Some 500, MkTxn early_expiry_db [] 0) ∧
  ∃ e, deliveries early_expiry_db !! 32%N = Some e ∧
    deliverable early_expiry_db sub_plain 400 e ∧ d_expiresAt e = 450.
Proof.
  split; [apply db_wf_b_sound; vm_compute; reflexivity|]. split; [vm_compute; reflexivity|].
  eexists. split; [reflexivity|]. split; [|reflexivity].
  apply (bool_decide_unpack _). vm_compute. reflexivity.
Qed.
