(* ===== verification/EndToEnd.v ===== *)
(** * From the publisher to the subscriber

    The actions together: a message that was published reaches a subscriber and, once acknowledged,
    is done with; each action in its transaction, one after the other. *)

From S2P Require Import Prelude Uuid Filter FilterParse Schema Backoff Notify Store Example Deliver.
From S2P Require Import Lifecycle Ack Receive.

Section EndToEnd.
Context {E : Engine} {FP : FilterParser} {F : Float64}.

(** What the parameters [p] allow is room for all that is due for [sub]. *)
Definition room_for_all (p : GetSubscriptionMessagesParams) (sub : subscription) (c : clock) (d : db) : Prop :=
  Z.of_nat (length (rows_where (due d sub (c_query c) (c_build c) (c_locked c)) d)) ≤ g_MaxMessages p ∧
  list_sum ((λ em, payload_len em.2) <$> queried p sub c d) ≤ g_MaxBytes p.

Lemma due_queried p sub c d k e :
  db_wf d → deliveries d !! k = Some e → due d sub (c_query c) (c_build c) (c_locked c) e →
  Z.of_nat (length (rows_where (due d sub (c_query c) (c_build c) (c_locked c)) d)) ≤ g_MaxMessages p →
  queried p sub c d ≠ [].
Proof.
  intros W He Hdue Hlen Hq. pose proof (tw_key _ (wf_deliveries _ W) _ _ He) as Hk. simpl in Hk.
  assert (Hin : e ∈ (queried p sub c d).*1).
  { rewrite queried_fst by done. rewrite take_ge by (rewrite sort_by_perm; lia).
    apply elem_of_sort_by, elem_of_rows_wf; [done|]. split; [done|]. simpl. by rewrite Hk. }
  rewrite Hq in Hin. by apply elem_of_nil in Hin.
Qed.

(** What a round hands out of the delivery [e]. *)
Lemma get_round_hands_out p c t sub k e :
  good t → rows_where (subMatch (g_Name p) (g_ID p)) (tx_db t) = [sub] → room_for_all p sub c (tx_db t) →
  deliveries (tx_db t) !! k = Some e → due (tx_db t) sub (c_query c) (c_build c) (c_locked c) e →
  attempts_used_up sub e = false →
  ∃ r t' x m, get_round false p c t = Ok ((sub, Some r, None), t') ∧ db_wf (tx_db t') ∧
    x ∈ Deliveries r ∧ smd_ID x = k ∧ messages (tx_db t) !! d_messageID e = Some m ∧
    smd_MessageID x = d_messageID e ∧ smd_Payload x = m_payload m ∧ smd_Attributes x = m_attributes m ∧
    smd_NumAttempts x = d_attempts e + 1 ∧
    deliveries (tx_db t') !! k = Some (del_attempted (c_apply c) (c_apply c + (NextDelayFor sub (d_attempts e + 1)).2) e) ∧
    NoDup (smd_ID <$> Deliveries r) ∧
    ∀ x', x' ∈ Deliveries r → ∃ e', deliveries (tx_db t) !! smd_ID x' = Some e' ∧ d_subscriptionID e' = s_id sub ∧
      d_messageID e' = smd_MessageID x'.
Proof.
  intros Hg Hsub [Hlen Hbytes] He Hdue Hu. pose proof (proj1 Hg) as W.
  assert (Hne : queried p sub c (tx_db t) ≠ []) by by eapply due_queried.
  destruct (get_round_complete p c t sub Hg Hsub Hne Hlen Hbytes) as (r & t' & Hrun & Hall).
  destruct (handed_out p c t sub Hg Hsub Hne) as (r' & t1 & Hrun' & W' & Hnd & Hx).
  rewrite Hrun in Hrun'. injection Hrun' as <- <-. specialize (Hall k e He Hdue). rewrite Hu in Hall.
  assert (Hkey : ∀ x, x ∈ Deliveries r → ∃ e m, deliveries (tx_db t) !! smd_ID x = Some e ∧
    messages (tx_db t) !! smd_MessageID x = Some m ∧ d_messageID e = smd_MessageID x ∧ d_subscriptionID e = s_id sub ∧
    smd_Payload x = m_payload m ∧ smd_Attributes x = m_attributes m ∧ smd_NumAttempts x = d_attempts e + 1 ∧
    deliveries (tx_db t') !! smd_ID x = Some (del_attempted (c_apply c) (c_apply c + (NextDelayFor sub (d_attempts e + 1)).2) e)).
  { intros x Hin. destruct (Hx x Hin) as (e1 & m1 & He1 & Hm1 & Hid & Hp & Ha & Hs & _ & _ & _ & _ & _ & _ & Hn & Hd).
    exists e1, m1. pose proof (tw_key _ (wf_messages _ W) _ _ Hm1) as Hk. simpl in Hk. split_and!; try done. congruence. }
  apply list_elem_of_fmap in Hall as (x & -> & Hin).
  destruct (Hkey x Hin) as (e1 & m1 & He1 & Hm1 & Hid & Hs & Hp & Ha & Hn & Hd). rewrite He in He1. injection He1 as <-.
  exists r, t', x, m1. split_and!; try done; [by rewrite Hid|].
  intros x' Hin'. destruct (Hkey x' Hin') as (e2 & m2 & ? & _ & ? & ? & _). eauto.
Qed.

(** C9 A message published to a topic reaches each of its unordered subscriptions whose filter
    lets it through: if the next transaction is a receiver's of that subscription, run once the
    delivery delay is over and before the message expires, with room for all that is due and no
    row locked by another transaction, it is handed the message, with its payload and attributes,
    in exactly one delivery and as the first attempt; and if the next transaction after that
    acknowledges the delivery, it is completed.  (What other transactions may do in between is
    the subject of [acknowledged_never_redelivered] and [ordered_delivery_waits].) *)
Theorem published_message_arrives pp now w tp text :
  world_wf w → fresh_uuids (w_db w) (w_fresh w) →
  rows_where (topicMatch pp) (w_db w) = [tp] → stored_json (pm_Payload pp) = Some text →
  ∃ m n w1, DoTx (Ok ()) (PublishMessage_Execute pp now) w = (Ok (MkPublished (m_id m) n), w1) ∧
    m_payload m = text ∧ m_attributes m = pm_Attributes pp ∧
    ∀ s p c, subscriptions (w_db w) !! s_id s = Some s → s_topicID s = t_id tp → s_deletedAt s = None →
      passes s m = true → s_orderedDelivery s = false →
      rows_where (subMatch (g_Name p) (g_ID p)) (w_db w1) = [s] → room_for_all p s c (w_db w1) → c_locked c = ∅ →
      now + s_deliveryDelay s ≤ c_query c → c_build c < now + s_messageTTL s →
      ∃ r x w2, DoTx (Ok ()) (get_round false p c) w1 = (Ok (s, Some r, None), w2) ∧ x ∈ Deliveries r ∧
        smd_MessageID x = m_id m ∧ smd_Payload x = text ∧ smd_Attributes x = pm_Attributes pp ∧ smd_NumAttempts x = 1 ∧
        (∀ x', x' ∈ Deliveries r → smd_MessageID x' = m_id m → smd_ID x' = smd_ID x) ∧
        ∀ now3, ∃ w3 e, DoTx (Ok ()) (AckDeliveries_Execute [smd_ID x] now3) w2 = (Ok 1%nat, w3) ∧
          deliveries (w_db w3) !! smd_ID x = Some e ∧ d_messageID e = m_id m ∧ d_completedAt e = Some now3.
Proof.
  intros [W Wr] Fr Htp Hj.
  destruct (PublishMessage_run pp now (txn_of w) tp text W Fr Htp Hj) as (t1 & subs & Hrun & Hpub & W1 & Fr1 & Hh).
  set (m := new_message _ _ _ _ _) in *.
  destruct (DoTx_run _ w _ _ Wr Hrun) as (r1 & Hd1 & Wr1 & _).
  exists m, (length subs), (MkWorld (tx_db t1) r1 (tx_fresh t1)). split; [exact Hd1|]. split; [done|]. split; [done|].
  intros s p c Hs Hst Hsd Hpass Hord Hsub Hroom Hlock Hq Hb. simpl in *.
  assert (Hin : s ∈ subs) by (apply (pu_subs _ _ _ _ _ Hpub); auto).
  destruct (pu_delivered _ _ _ _ _ Hpub s Hin) as (e & He & _ & Hes & Hem & Hec & Hea & _ & Hat & Hex).
  set (w1 := MkWorld (tx_db t1) r1 (tx_fresh t1)) in *.
  destruct (get_round_hands_out p c (txn_of w1) s (d_id e) e) as
    (r & t2 & x & m' & Hrun2 & W2 & Hxin & Hxid & Hm' & Hxm & Hxp & Hxa & Hxn & Hd2 & _ & Hothers); try done.
  { unfold due, deliverable. rewrite Hlock, Hes, Hec, Hat, Hex, Hord. split_and!; done || set_solver. }
  { unfold attempts_used_up, HasFullDeadLetterConfig. rewrite Hea. repeat case_match; try done. simpl. lia. }
  simpl in *. rewrite Hem in Hm', Hxm. rewrite (pu_messages _ _ _ _ _ Hpub), lookup_insert_eq in Hm'. injection Hm' as <-.
  destruct (DoTx_run _ w1 _ _ Wr1 Hrun2) as (r2 & Hdo2 & Wr2 & _). set (w2 := MkWorld (tx_db t2) r2 (tx_fresh t2)) in *.
  exists r, x, w2. split; [exact Hdo2|]. split; [done|]. split; [done|]. split; [done|]. split; [done|].
  split; [by rewrite Hxn, Hea|]. split.
  { intros x' Hx' Hmx. destruct (Hothers x' Hx') as (e' & He' & Hs' & Hm'').
    rewrite Hxid. eapply (pu_once _ _ _ _ _ Hpub _ _ e' e); [done|done|by etrans|done|by rewrite Hes]. }
  intros now3. destruct (AckDeliveries_exact [smd_ID x] now3 (txn_of w2) W2) as
    (n & subIDs & t3 & Hrun3 & _ & Hn & Hds & _).
  destruct (DoTx_run _ w2 _ _ Wr2 Hrun3) as (r3 & Hdo3 & _).
  set (e2 := del_attempted _ _ e) in *.
  assert (Hpend : d_id e2 ∈ [smd_ID x] ∧ d_completedAt e2 = None) by (split; [rewrite Hxid; left|done]).
  exists (MkWorld (tx_db t3) r3 (tx_fresh t3)), (del_set_completedAt (Some now3) e2). split_and!; try done.
  - rewrite Hdo3. f_equal. f_equal. rewrite Hn. clear -Hd2 W2 Hpend Hxid.
    rewrite (rows_where_key _ _ (d_id e2)) by (done || intros e' [He' _]; apply elem_of_sort_uuids in He'; rewrite Hxid in He'; by apply list_elem_of_singleton in He').
    simpl. rewrite Hd2, decide_True; [done|]. destruct Hpend. split; [by apply elem_of_sort_uuids|done].
  - rewrite Hxid in Hds, Hpend |- *. cbn [w_db]. rewrite Hds. cbn [txn_of tx_db w_db w2]. rewrite Hd2. simpl fmap.
    by rewrite decide_True.
Qed.
End EndToEnd.

(** ** Witness *)

Definition arrives_world : world := MkWorld example_db empty_registry 0.
Definition after_publish : world := (DoTx (Ok ()) (PublishMessage_Execute (E := id_engine) publish_one 400) arrives_world).2.

Lemma arrives_room : room_for_all (E := id_engine) get_plain sub_plain (clock_at 500) (w_db after_publish).
Proof. split; vm_compute; discriminate. Qed.

Lemma published_message_arrives_witness :
  ∃ m r x w2, DoTx (Ok ()) (get_round (E := id_engine) false get_plain (clock_at 500)) after_publish = (Ok (sub_plain, Some r, None), w2) ∧
    x ∈ Deliveries r ∧ smd_MessageID x = m_id m ∧ smd_Payload x = "hello".
Proof.
  destruct (published_message_arrives (E := id_engine) publish_one 400 arrives_world topic_t "hello")
    as (m & n & w1 & Hd & _ & Ha & H).
  - split; [exact example_db_wf|exact empty_registry_wf].
  - exact example_fresh.
  - reflexivity.
  - reflexivity.
  - assert (Hw : w1 = after_publish) by (unfold after_publish; rewrite Hd; reflexivity). subst w1.
    destruct (H sub_plain get_plain (clock_at 500)) as (r & x & w2 & Hr & Hx & Hm & Hp & _);
      [reflexivity|reflexivity|reflexivity|reflexivity|reflexivity|vm_compute; reflexivity|exact arrives_room|reflexivity| | |].
    + vm_compute. discriminate.
    + vm_compute. reflexivity.
    + exists m, r, x, w2. split; [exact Hr|]. split; [exact Hx|]. split; [exact Hm|exact Hp].
Defined.
