(* ===== verification/Seek.v ===== *)
(** * Snapshots and seeking

    [src/actions/create-snapshot.go], [seek-subscription-to-time.go],
    [seek-subscription-to-snapshot.go].  A snapshot records which messages of a subscription
    are acknowledged: everything published before a threshold, and a list of later ones.
    Seeking rewrites the completion of a subscription's deliveries to match. *)

From S2P Require Import Prelude Uuid Filter FilterParse Schema Backoff Notify Store Example Deliver.
From S2P Require Import Lifecycle Ack Receive.

Record CreateSnapshotParams := MkCreateSnap {
  sn_SubscriptionName : string; sn_Name : string; sn_Labels : option labels }.
Record createSnapshotResults := MkSnapResults {
  sr_TopicID : uuid; sr_TopicName : string; sr_SubscriptionID : uuid; sr_Snapshot : snapshot }.

Definition NewCreateSnapshot (p : CreateSnapshotParams) : outcome CreateSnapshotParams :=
  if is_empty (sn_SubscriptionName p) then Panic "missing subscription name"
  else if is_empty (sn_Name p) then Panic "missing snapshot name" else Ok p.

Definition defaultSnapshotTTL : duration := 7 * 24 * Hour.

Record seekSubscriptionResults := MkSeekResults { NumAcked : nat; NumDeAcked : nat }.

(** The zero [time.Time] is year 1; times are counted from 1970. *)
Definition zero_time : time := - 62135596800 * Second.

Record SeekSubscriptionToTimeParams := MkSeekTime {
  st_Name : string; st_ID : option uuid; st_Time : time }.
Definition NewSeekSubscriptionToTime (p : SeekSubscriptionToTimeParams)
  : outcome SeekSubscriptionToTimeParams :=
  if is_empty (st_Name p) && bool_decide (st_ID p = None) then Panic "must provide Name or ID"
  else if st_Time p =? zero_time then Panic "target time must be specified as a non-zero value"
  else Ok p.

Record SeekSubscriptionToSnapshotParams := MkSeekSnap {
  ss_SubscriptionName : string; ss_SubscriptionID : option uuid;
  ss_SnapshotName : string; ss_SnapshotID : option uuid }.
Definition NewSeekSubscriptionToSnapshot (p : SeekSubscriptionToSnapshotParams)
  : outcome SeekSubscriptionToSnapshotParams :=
  if is_empty (ss_SubscriptionName p) && bool_decide (ss_SubscriptionID p = None)
  then Panic "must provide subscription name or id"
  else if is_empty (ss_SnapshotName p) && bool_decide (ss_SnapshotID p = None)
  then Panic "must provide snapshot name or id" else Ok p.

(** [ClearCompletedAt().SetExpiresAt(x).SetAttemptAt(now)] *)
Definition del_deacked (expires now : time) (e : delivery) : delivery :=
  del_set_attemptAt now (del_set_expiresAt expires (del_set_completedAt None e)).

Section Seek.
Context {E : Engine}.

(** ** Creating a snapshot *)

Definition unacked (subID : uuid) (now : time) (e : delivery) : Prop :=
  d_subscriptionID e = subID ∧ d_completedAt e = None ∧ now < d_expiresAt e.
#[export] Instance unacked_dec subID now e : Decision (unacked subID now e).
Proof. unfold unacked. apply _. Defined.

(** [messages LEFT JOIN deliveries AS d ON message.id = d.message_id] *)
Definition left_join (ms : list message) (es : list delivery) : list (message * option delivery) :=
  ms ≫= λ m,
    match filter (λ e, d_messageID e = m_id m) es with
    | [] => [(m, None)]
    | es => (λ e, (m, Some e)) <$> es
    end.

(** The [WHERE] on the joined row; a comparison with [NULL] is not true. *)
Definition acked_row (subID : uuid) (r : message * option delivery) : Prop :=
  joined (λ e, d_subscriptionID e = subID) r.2 ∧
  (r.2 = None ∨ joined (λ e, is_Some (d_completedAt e)) r.2).
#[export] Instance acked_row_dec subID r : Decision (acked_row subID r).
Proof. unfold acked_row. apply _. Defined.

Definition since (topicID : uuid) (from : time) (m : message) : Prop :=
  m_topicID m = topicID ∧ from ≤ m_publishedAt m.
#[export] Instance since_dec topicID from m : Decision (since topicID from m).
Proof. unfold since. apply _. Defined.

Definition acked_ids (d : db) (sub : subscription) (from : time) : list uuid :=
  (λ r, m_id r.1) <$> filter (acked_row (s_id sub))
    (left_join (rows_where (since (s_topicID sub) from) d) (rows_where (λ _, True) d)).

(** The threshold and the list. *)
Definition snapshot_acks (d : db) (sub : subscription) (now : time) : time * list uuid :=
  match sort_by d_publishedAt (rows_where (unacked (s_id sub) now) d) with
  | [] => (now, [])
  | oldestUnAcked :: _ =>
      (d_publishedAt oldestUnAcked, acked_ids d sub (d_publishedAt oldestUnAcked))
  end.

Definition CreateSnapshot_Execute (p : CreateSnapshotParams) (now : time) : Tx createSnapshotResults :=
  Exist (λ n, n_name n = sn_Name p) ≫= λ exists_,
  if (exists_ : bool) then fail ErrExists
  else
    All (live_sub_named (sn_SubscriptionName p)) ≫= λ ss,
    lift (not_found (only ss)) ≫= λ sub,
    Get (A := topic) (s_topicID sub) ≫= λ tp,
    uuid_New ≫= λ id,
    gets (λ t, snapshot_acks (tx_db t) sub now) ≫= λ acks,
    let snap := MkSnapshot id (s_topicID sub) (sn_Name p) now (now + defaultSnapshotTTL)
      (default ∅ (sn_Labels p)) acks.1 acks.2 in
    Create snap ≫= λ _,
    mret (MkSnapResults (s_topicID sub) (t_name tp) (s_id sub) snap).

(** ** Seeking *)

Definition find_sub (name : string) (id : option uuid) : Tx subscription :=
  All (subMatch name id) ≫= λ ss, lift (not_found (only ss)).

Definition notify_if_changed (sub : subscription) (numAcked numDeAcked : nat) : Tx () :=
  if bool_decide (numAcked ≠ 0%nat ∨ numDeAcked ≠ 0%nat) then notifyPublish [s_id sub] else mret ().

Definition time_acks (sub : subscription) (now target : time) (e : delivery) : Prop :=
  d_subscriptionID e = s_id sub ∧ now ≤ d_expiresAt e ∧ d_publishedAt e ≤ target ∧
  d_completedAt e = None.
Definition time_deacks (sub : subscription) (now target : time) (e : delivery) : Prop :=
  d_subscriptionID e = s_id sub ∧ now ≤ d_expiresAt e ∧ target < d_publishedAt e ∧
  is_Some (d_completedAt e).
#[export] Instance time_acks_dec sub now target e : Decision (time_acks sub now target e).
Proof. unfold time_acks. apply _. Defined.
#[export] Instance time_deacks_dec sub now target e : Decision (time_deacks sub now target e).
Proof. unfold time_deacks. apply _. Defined.

Definition SeekSubscriptionToTime_Execute (p : SeekSubscriptionToTimeParams) (now : time)
  : Tx seekSubscriptionResults :=
  find_sub (st_Name p) (st_ID p) ≫= λ sub,
  Update (time_acks sub now (st_Time p)) (del_set_completedAt (Some now)) ≫= λ numAcked,
  Update (time_deacks sub now (st_Time p)) (del_deacked (now + s_messageTTL sub) now) ≫= λ numDeAcked,
  notify_if_changed sub numAcked numDeAcked ≫= λ _,
  mret (MkSeekResults numAcked numDeAcked).

Definition snap_acks_before (sub : subscription) (snap : snapshot) (now : time) (e : delivery) : Prop :=
  d_subscriptionID e = s_id sub ∧ now ≤ d_expiresAt e ∧
  d_publishedAt e < n_ackedMessagesBefore snap ∧ d_completedAt e = None.
Definition snap_acks_listed (sub : subscription) (snap : snapshot) (now : time) (e : delivery) : Prop :=
  d_subscriptionID e = s_id sub ∧ now ≤ d_expiresAt e ∧
  d_messageID e ∈ n_ackedMessageIDs snap ∧ d_completedAt e = None.
Definition snap_deacks (sub : subscription) (snap : snapshot) (e : delivery) : Prop :=
  d_subscriptionID e = s_id sub ∧ n_ackedMessagesBefore snap ≤ d_publishedAt e ∧
  d_messageID e ∉ n_ackedMessageIDs snap ∧ is_Some (d_completedAt e).
#[export] Instance snap_acks_before_dec sub snap now e : Decision (snap_acks_before sub snap now e).
Proof. unfold snap_acks_before. apply _. Defined.
#[export] Instance snap_acks_listed_dec sub snap now e : Decision (snap_acks_listed sub snap now e).
Proof. unfold snap_acks_listed. apply _. Defined.
#[export] Instance snap_deacks_dec sub snap e : Decision (snap_deacks sub snap e).
Proof. unfold snap_deacks. apply _. Defined.

Definition snapMatch (p : SeekSubscriptionToSnapshotParams) (n : snapshot) : Prop :=
  option_ok (λ i, n_id n = i) (ss_SnapshotID p) ∧
  (ss_SnapshotName p = EmptyString ∨ n_name n = ss_SnapshotName p).
#[export] Instance snapMatch_dec p n : Decision (snapMatch p n).
Proof. unfold snapMatch. apply _. Defined.

(** The three updates; an empty list skips the second. *)
Definition seek_to_snapshot (sub : subscription) (snap : snapshot) (now : time)
  : Tx seekSubscriptionResults :=
  Update (snap_acks_before sub snap now) (del_set_completedAt (Some now)) ≫= λ numAcked1,
  (match n_ackedMessageIDs snap with
   | [] => mret 0%nat
   | _ => Update (snap_acks_listed sub snap now) (del_set_completedAt (Some now))
   end) ≫= λ numAcked2,
  Update (snap_deacks sub snap) (del_deacked (now + s_messageTTL sub) now) ≫= λ numDeAcked,
  notify_if_changed sub (numAcked1 + numAcked2) numDeAcked ≫= λ _,
  mret (MkSeekResults (numAcked1 + numAcked2) numDeAcked).

Definition SeekSubscriptionToSnapshot_Execute (p : SeekSubscriptionToSnapshotParams) (now : time)
  : Tx seekSubscriptionResults :=
  find_sub (ss_SubscriptionName p) (ss_SubscriptionID p) ≫= λ sub,
  All (snapMatch p) ≫= λ ns,
  lift (not_found (only ns)) ≫= λ snap,
  seek_to_snapshot sub snap now.
End Seek.

Section Seek_run.
Context {E : Engine}.

Definition upd (P : delivery → Prop) `{∀ e, Decision (P e)} (f : delivery → delivery) (e : delivery)
  : delivery := if decide (P e) then f e else e.

(** What seeking makes of a delivery. *)
Definition seek_time_row (sub : subscription) (now target : time) (e : delivery) : delivery :=
  upd (time_deacks sub now target) (del_deacked (now + s_messageTTL sub) now)
    (upd (time_acks sub now target) (del_set_completedAt (Some now)) e).
Definition seek_snapshot_row (sub : subscription) (snap : snapshot) (now : time) (e : delivery) : delivery :=
  upd (snap_deacks sub snap) (del_deacked (now + s_messageTTL sub) now)
    (upd (snap_acks_listed sub snap now) (del_set_completedAt (Some now))
      (upd (snap_acks_before sub snap now) (del_set_completedAt (Some now)) e)).

Lemma upd_true P `{∀ e, Decision (P e)} f e : P e → upd P f e = f e.
Proof. intros. unfold upd. by rewrite decide_True. Qed.
Lemma upd_false P `{∀ e, Decision (P e)} f e : ¬ P e → upd P f e = e.
Proof. intros. unfold upd. by rewrite decide_False. Qed.

Lemma seek_time_row_mine sub now target e :
  d_subscriptionID e = s_id sub → now ≤ d_expiresAt e →
  let e' := seek_time_row sub now target e in
  (d_publishedAt e ≤ target → is_Some (d_completedAt e')) ∧
  (target < d_publishedAt e → d_completedAt e' = None ∧
     (is_Some (d_completedAt e) → d_attemptAt e' = now ∧ d_expiresAt e' = now + s_messageTTL sub)).
Proof.
  intros Hs Hx. unfold seek_time_row. split; intros Hp.
  - rewrite (upd_false (time_deacks _ _ _)).
    + unfold upd. case_decide as Ha; [by eexists|]. destruct (d_completedAt e) eqn:Hc; [done|].
      by destruct Ha.
    + unfold upd. intros (_ & _ & Hl & _). revert Hl. case_decide; simpl; lia.
  - rewrite (upd_false (time_acks _ _ _)) by (intros (_ & _ & ? & _); lia).
    unfold upd. case_decide as Hd; [done|]. destruct (d_completedAt e) eqn:Hc.
    + destruct Hd. split_and!; [done..|]. by rewrite Hc.
    + split; [done|]. by intros [].
Qed.
Lemma seek_time_row_other sub now target e :
  d_subscriptionID e ≠ s_id sub ∨ d_expiresAt e < now → seek_time_row sub now target e = e.
Proof.
  intros Hor. unfold seek_time_row.
  rewrite (upd_false (time_acks _ _ _)) by (intros (? & ? & _); destruct Hor; [done|lia]).
  apply upd_false. intros (? & ? & _); destruct Hor; [done|lia].
Qed.

Lemma deacked_harmless P expires now : harmless P (del_deacked expires now).
Proof. by apply delivery_harmless. Qed.

Lemma update_map_upd (P : delivery → Prop) `{∀ e, Decision (P e)} f (m : gmap uuid delivery) :
  update_map P f m = upd P f <$> m.
Proof. done. Qed.

Lemma find_sub_run name id t sub :
  rows_where (subMatch name id) (tx_db t) = [sub] → find_sub name id t = Ok (sub, t).
Proof.
  intros Hs. unfold find_sub. rewrite (bind_step _ _ t [sub] t); [done|].
  unfold All, gets. by rewrite Hs.
Qed.

Lemma find_sub_none name id t :
  rows_where (subMatch name id) (tx_db t) = [] → find_sub name id t = Err ErrNotFound.
Proof.
  intros Hs. unfold find_sub. rewrite (bind_step _ _ t [] t); [done|].
  unfold All, gets. by rewrite Hs.
Qed.

Definition changed_hooks (sub : subscription) (r : seekSubscriptionResults) : list hook :=
  if bool_decide (NumAcked r ≠ 0%nat ∨ NumDeAcked r ≠ 0%nat) then [NotifyPublish [s_id sub]] else [].

Lemma notify_if_changed_run sub a b t :
  notify_if_changed sub a b t = Ok ((), add_hooks (changed_hooks sub (MkSeekResults a b)) t).
Proof.
  unfold notify_if_changed, changed_hooks. simpl. case_bool_decide; [done|].
  by rewrite add_hooks_nil.
Qed.

(** Seeking to a time always succeeds on a live subscription: of its unexpired deliveries,
    those published up to the target are acknowledged afterwards and those published later are
    not, are due at once and expire a full message TTL later; expired ones, other
    subscriptions' and all other tables are unchanged; and the subscription is woken exactly
    when something changed. *)
Theorem SeekSubscriptionToTime_spec p now t sub :
  db_wf (tx_db t) → rows_where (subMatch (st_Name p) (st_ID p)) (tx_db t) = [sub] →
  ∃ r t', SeekSubscriptionToTime_Execute p now t = Ok (r, t') ∧ db_wf (tx_db t') ∧
    tx_db t' = with_deliveries (seek_time_row sub now (st_Time p) <$> deliveries (tx_db t)) (tx_db t) ∧
    tx_hooks t' = tx_hooks t ++ changed_hooks sub r ∧
    (∀ k e, deliveries (tx_db t) !! k = Some e → d_subscriptionID e = s_id sub →
       now ≤ d_expiresAt e → ∃ e', deliveries (tx_db t') !! k = Some e' ∧
         (d_publishedAt e ≤ st_Time p → is_Some (d_completedAt e')) ∧
         (st_Time p < d_publishedAt e → d_completedAt e' = None ∧
            (is_Some (d_completedAt e) → d_attemptAt e' = now ∧
               d_expiresAt e' = now + s_messageTTL sub))) ∧
    (∀ k e, deliveries (tx_db t) !! k = Some e →
       d_subscriptionID e ≠ s_id sub ∨ d_expiresAt e < now →
       deliveries (tx_db t') !! k = Some e).
Proof.
  intros W Hsub.
  destruct (Update_run (time_acks sub now (st_Time p)) (del_set_completedAt (Some now)) t) as [H1 W1];
    [apply completed_harmless|done|]. set (t1 := with_db _ t) in H1.
  destruct (Update_run (time_deacks sub now (st_Time p)) (del_deacked (now + s_messageTTL sub) now) t1)
    as [H2 W2]; [apply deacked_harmless|done|]. set (t2 := with_db _ t1) in H2.
  set (n1 := length (rows_where (time_acks sub now (st_Time p)) (tx_db t))) in H1.
  set (n2 := length (rows_where (time_deacks sub now (st_Time p)) (tx_db t1))) in H2.
  set (r := MkSeekResults n1 n2).
  exists r, (add_hooks (changed_hooks sub r) t2). split; [|split; [exact W2|]].
  { unfold SeekSubscriptionToTime_Execute. rewrite (bind_step _ _ _ _ _ (find_sub_run _ _ _ _ Hsub)).
    rewrite (bind_step _ _ _ _ _ H1), (bind_step _ _ _ _ _ H2).
    by rewrite (bind_step _ _ _ _ _ (notify_if_changed_run _ _ _ _)). }
  assert (Hdb : tx_db t2 = with_deliveries
    (seek_time_row sub now (st_Time p) <$> deliveries (tx_db t)) (tx_db t)).
  { simpl. unfold with_deliveries. simpl. f_equal. rewrite !update_map_upd.
    by rewrite <- map_fmap_compose. }
  change (tx_db (add_hooks ?h t2)) with (tx_db t2). rewrite Hdb. split_and!; [done|done|..].
  - intros k e He Hs Hx. exists (seek_time_row sub now (st_Time p) e).
    split; [simpl; by rewrite lookup_fmap, He|by apply seek_time_row_mine].
  - intros k e He Hor. simpl. rewrite lookup_fmap, He. simpl. by rewrite seek_time_row_other.
Qed.

Lemma seek_to_snapshot_run sub snap now t :
  db_wf (tx_db t) →
  ∃ r, seek_to_snapshot sub snap now t = Ok (r, add_hooks (changed_hooks sub r)
    (with_db (with_deliveries (seek_snapshot_row sub snap now <$> deliveries (tx_db t)) (tx_db t)) t)) ∧
    db_wf (with_deliveries (seek_snapshot_row sub snap now <$> deliveries (tx_db t)) (tx_db t)).
Proof.
  intros W.
  destruct (Update_run (snap_acks_before sub snap now) (del_set_completedAt (Some now)) t) as [H1 W1];
    [apply completed_harmless|done|]. set (t1 := with_db _ t) in H1.
  assert (H2 : ∃ n2, (match n_ackedMessageIDs snap with
     | [] => mret 0%nat
     | _ => Update (snap_acks_listed sub snap now) (del_set_completedAt (Some now))
     end) t1 = Ok (n2, with_db (with_deliveries (update_map (snap_acks_listed sub snap now)
       (del_set_completedAt (Some now)) (deliveries (tx_db t1))) (tx_db t1)) t1) ∧
     db_wf (with_deliveries (update_map (snap_acks_listed sub snap now)
       (del_set_completedAt (Some now)) (deliveries (tx_db t1))) (tx_db t1))).
  { destruct (Update_run (snap_acks_listed sub snap now) (del_set_completedAt (Some now)) t1) as [H2 W2];
      [apply completed_harmless|done|].
    destruct (n_ackedMessageIDs snap) as [|i l] eqn:Hids; [|by eexists].
    exists 0%nat. split; [|exact W2].
    assert (Hid : update_map (snap_acks_listed sub snap now) (del_set_completedAt (Some now))
      (deliveries (tx_db t1)) = deliveries (tx_db t1)).
    { apply map_eq. intros k. rewrite lookup_update_map. destruct (deliveries (tx_db t1) !! k); [|done].
      simpl. f_equal. apply decide_False. unfold snap_acks_listed. rewrite Hids.
      intros (_ & _ & Hn & _). by apply elem_of_nil in Hn. }
    rewrite Hid. reflexivity. }
  destruct H2 as (n2 & H2 & W2). set (t2 := with_db _ t1) in H2.
  destruct (Update_run (snap_deacks sub snap) (del_deacked (now + s_messageTTL sub) now) t2) as [H3 W3];
    [apply deacked_harmless|done|]. set (t3 := with_db _ t2) in H3.
  assert (Hdb : tx_db t3 = with_deliveries
    (seek_snapshot_row sub snap now <$> deliveries (tx_db t)) (tx_db t)).
  { simpl. unfold with_deliveries. simpl. f_equal. rewrite !update_map_upd.
    by rewrite <- !map_fmap_compose. }
  eexists (MkSeekResults _ _). rewrite <- Hdb. split; [|exact W3].
  unfold seek_to_snapshot. rewrite (bind_step _ _ _ _ _ H1), (bind_step _ _ _ _ _ H2),
    (bind_step _ _ _ _ _ H3), (bind_step _ _ _ _ _ (notify_if_changed_run _ _ _ _)). done.
Qed.
End Seek_run.

Section Snapshot_run.
Context {E : Engine}.

Lemma rows_where_head {A} `{TableLaws A} (P : A → Prop) `{∀ x, Decision (P x)} d x l :
  db_wf d → rows_where P d = x :: l → P x ∧ table d !! pk x = Some x.
Proof. intros W Hx. rewrite <- elem_of_rows_wf, Hx by done. left. Qed.

Definition the_snapshot (p : CreateSnapshotParams) (now : time) (t : txn) (sub : subscription) : snapshot :=
  let acks := snapshot_acks (tx_db t) sub now in
  MkSnapshot (new_uuid (tx_fresh t)) (s_topicID sub) (sn_Name p) now (now + defaultSnapshotTTL)
    (default ∅ (sn_Labels p)) acks.1 acks.2.

Lemma CreateSnapshot_run p now t sub :
  db_wf (tx_db t) → fresh_uuids (tx_db t) (tx_fresh t) →
  rows_where (λ n, n_name n = sn_Name p) (tx_db t) = [] →
  rows_where (live_sub_named (sn_SubscriptionName p)) (tx_db t) = [sub] →
  let snap := the_snapshot p now t sub in
  let d' := with_snapshots (<[n_id snap := snap]> (snapshots (tx_db t))) (tx_db t) in
  ∃ tp, topics (tx_db t) !! s_topicID sub = Some tp ∧
    CreateSnapshot_Execute p now t =
      Ok (MkSnapResults (s_topicID sub) (t_name tp) (s_id sub) snap,
        MkTxn d' (tx_hooks t) (S (tx_fresh t))) ∧ db_wf d'.
Proof.
  intros W Fr Hn Hs snap d'.
  assert (Hsub : subscriptions (tx_db t) !! s_id sub = Some sub).
  { by destruct (rows_where_head _ _ _ _ W Hs). }
  destruct (tw_fk _ (wf_subscriptions _ W) _ _ Hsub) as [[tp Htp] _].
  set (t0 := MkTxn (tx_db t) (tx_hooks t) (S (tx_fresh t))).
  destruct (Create_run snap t0) as [Hc Wc]; [by apply (fu_snapshots _ _ Fr)| |done|].
  { apply row_error_None. split_and!; [done| |by exists tp].
    intros k n Hk. right. intros Heq. eapply (rows_named_none (A := snapshot)); [exact Hn| |by symmetry].
    rewrite (tw_key _ (wf_snapshots _ W) _ _ Hk). exact Hk. }
  exists tp. split; [done|]. split; [|exact Wc]. unfold CreateSnapshot_Execute.
  rewrite (bind_step _ _ t false t) by (unfold Exist, gets; by rewrite Hn).
  rewrite (bind_step _ _ t [sub] t) by (unfold All, gets; by rewrite Hs).
  rewrite (bind_step _ _ t sub t) by done.
  assert (Hget : Get (A := topic) (s_topicID sub) t = Ok (tp, t)) by (by apply Get_run).
  rewrite (bind_step _ _ _ _ _ Hget).
  rewrite (bind_step _ _ t (new_uuid (tx_fresh t)) t0) by done.
  rewrite (bind_step _ _ t0 (snapshot_acks (tx_db t) sub now) t0) by done. cbv zeta.
  change (MkSnapshot _ _ _ _ _ _ _ _) with snap. by rewrite (bind_step _ _ _ _ _ Hc).
Qed.

Lemma elem_of_left_join ms es (m : message) (e : delivery) :
  (m, Some e) ∈ left_join ms es ↔ m ∈ ms ∧ e ∈ es ∧ d_messageID e = m_id m.
Proof.
  unfold left_join. rewrite list_elem_of_bind. split.
  - intros (m' & Hin & Hm'). destruct (filter _ es) as [|e0 l] eqn:Hl.
    + by apply list_elem_of_singleton in Hin.
    + rewrite <- Hl in Hin. apply list_elem_of_fmap in Hin as (e' & [= -> ->] & He').
      apply list_elem_of_filter in He'. naive_solver.
  - intros (Hm & He & Hid). exists m. split; [|done].
    assert (Hf : e ∈ filter (λ e, d_messageID e = m_id m) es) by by apply list_elem_of_filter.
    destruct (filter _ es) as [|e0 l] eqn:Hl; [by apply elem_of_nil in Hf|].
    rewrite <- Hl in *. by apply (list_elem_of_fmap_2 (λ e, (m, Some e))).
Qed.

(** The acknowledged messages are those of the topic since [from] that have a completed
    delivery of the subscription. *)
Lemma elem_of_acked_ids d sub from i :
  i ∈ acked_ids d sub from ↔ ∃ m e k k', m_id m = i ∧ messages d !! k = Some m ∧
    deliveries d !! k' = Some e ∧ since (s_topicID sub) from m ∧ d_messageID e = i ∧
    d_subscriptionID e = s_id sub ∧ is_Some (d_completedAt e).
Proof.
  unfold acked_ids. rewrite list_elem_of_fmap. split.
  - intros ([m oe] & -> & [[Hs Hc] Hin]%list_elem_of_filter). simpl in *.
    destruct oe as [e|]; [|done]. destruct Hc as [?|Hc]; [done|].
    apply elem_of_left_join in Hin as ((? & k & ?)%elem_of_rows_where & (_ & k' & ?)%elem_of_rows_where & ?).
    by exists m, e, k, k'.
  - intros (m & e & k & k' & <- & Hm & He & Hf & Hid & Hs & Hc).
    exists (m, Some e). split; [done|]. apply list_elem_of_filter. split.
    + split; [done|by right].
    + apply elem_of_left_join. split_and!; [| |done]; apply elem_of_rows_where; naive_solver.
Qed.

(** What publishing establishes of a subscription's deliveries, none of which has expired. *)
Record settled (d : db) (sub : subscription) (now : time) : Prop := {
  se_live : ∀ k e, deliveries d !! k = Some e → d_subscriptionID e = s_id sub →
    d_publishedAt e < now ∧ now < d_expiresAt e;
  se_msg : ∀ k e, deliveries d !! k = Some e → d_subscriptionID e = s_id sub →
    ∃ m, messages d !! d_messageID e = Some m ∧ m_topicID m = s_topicID sub ∧
      m_publishedAt m = d_publishedAt e;
  se_once : ∀ k k' e e', deliveries d !! k = Some e → deliveries d !! k' = Some e' →
    d_subscriptionID e = s_id sub → d_subscriptionID e' = s_id sub →
    d_messageID e = d_messageID e' → e = e' }.

(** The same delivery, its completion and attempts aside. *)
Definition same_delivery (e e' : delivery) : Prop :=
  d_subscriptionID e' = d_subscriptionID e ∧ d_messageID e' = d_messageID e ∧
  d_publishedAt e' = d_publishedAt e.
#[export] Instance same_delivery_dec e e' : Decision (same_delivery e e').
Proof. unfold same_delivery. apply _. Defined.

(** A delivery of a later database: one there was at [now], or of a message published since. *)
Definition kept_or_new (d : db) (now : time) (k : uuid) (e' : delivery) : Prop :=
  match deliveries d !! k with
  | Some e => same_delivery e e'
  | None => now ≤ d_publishedAt e' ∧ messages d !! d_messageID e' = None
  end.
#[export] Instance kept_or_new_dec d now k e' : Decision (kept_or_new d now k e').
Proof. unfold kept_or_new. destruct (deliveries d !! k); apply _. Defined.

Lemma seek_snapshot_row_acked sub snap now e :
  d_subscriptionID e = s_id sub → now ≤ d_expiresAt e →
  d_publishedAt e < n_ackedMessagesBefore snap ∨ d_messageID e ∈ n_ackedMessageIDs snap →
  is_Some (d_completedAt (seek_snapshot_row sub snap now e)).
Proof.
  intros Hs Hx Hor. unfold seek_snapshot_row.
  assert (Hf : ∀ P `{∀ e, Decision (P e)} e0, is_Some (d_completedAt e0) →
    is_Some (d_completedAt (upd P (del_set_completedAt (Some now)) e0))).
  { intros P ? e0 ?. unfold upd. case_decide; [by eexists|done]. }
  assert (Hk : ∀ P `{∀ e, Decision (P e)} e0,
    let e' := upd P (del_set_completedAt (Some now)) e0 in
    d_publishedAt e' = d_publishedAt e0 ∧ d_messageID e' = d_messageID e0).
  { intros P ? e0. unfold upd. by case_decide. }
  set (e1 := upd (snap_acks_before _ _ _) _ e). set (e2 := upd (snap_acks_listed _ _ _) _ e1).
  assert (Hp : d_publishedAt e2 = d_publishedAt e) by (etrans; apply Hk).
  assert (Hm : d_messageID e2 = d_messageID e) by (etrans; apply Hk).
  rewrite upd_false.
  - unfold e2, e1. destruct (d_completedAt e) eqn:Hc; [by apply Hf, Hf; rewrite Hc; eexists|].
    destruct Hor as [Hl|Hi]; [apply Hf; rewrite upd_true; [by eexists|done]|].
    destruct (decide (snap_acks_before sub snap now e)) as [?|Hn].
    + apply Hf. rewrite upd_true by done. by eexists.
    + rewrite (upd_false (snap_acks_before _ _ _)) by done. rewrite upd_true; [by eexists|done].
  - intros (_ & Hb & Hni & _). rewrite Hp in Hb. rewrite Hm in Hni.
    destruct Hor; [lia|done].
Qed.

Lemma seek_snapshot_row_pending sub snap now e :
  d_subscriptionID e = s_id sub →
  n_ackedMessagesBefore snap ≤ d_publishedAt e → d_messageID e ∉ n_ackedMessageIDs snap →
  d_completedAt (seek_snapshot_row sub snap now e) = None.
Proof.
  intros Hs Hb Hni. unfold seek_snapshot_row.
  rewrite (upd_false (snap_acks_before _ _ _)) by (intros (_ & _ & ? & _); lia).
  rewrite (upd_false (snap_acks_listed _ _ _)) by (by intros (_ & _ & ? & _)).
  unfold upd. case_decide as Hd; [done|]. destruct (d_completedAt e) eqn:Hc; [|done].
  destruct Hd. split_and!; [done..|]. rewrite Hc. by eexists.
Qed.

(** Against the threshold and the list, a delivery is acknowledged exactly if it was. *)
Lemma snapshot_acks_exact d sub now k e :
  db_wf d → settled d sub now → deliveries d !! k = Some e → d_subscriptionID e = s_id sub →
  is_Some (d_completedAt e) ↔
    d_publishedAt e < (snapshot_acks d sub now).1 ∨ d_messageID e ∈ (snapshot_acks d sub now).2.
Proof.
  intros W S He Hs. destruct (se_live _ _ _ S _ _ He Hs) as [Hp Hx].
  destruct (se_msg _ _ _ S _ _ He Hs) as (m & Hm & Ht & Hpm).
  assert (Hpend : d_completedAt e = None →
    e ∈ sort_by d_publishedAt (rows_where (unacked (s_id sub) now) d)).
  { intros Hc. rewrite elem_of_sort_by, elem_of_rows_where. split; [done|by exists k]. }
  unfold snapshot_acks. destruct (sort_by _ _) as [|o l] eqn:Ho; simpl.
  - split; [by left|intros _]. destruct (d_completedAt e); [done|].
    by destruct (elem_of_nil e) as [[] _]; apply Hpend.
  - rewrite elem_of_acked_ids. split.
    + intros Hc. destruct (decide (d_publishedAt e < d_publishedAt o)) as [?|Hge]; [by left|right].
      exists m, e, (d_messageID e), k. split_and!; try done; [|split; [done|lia]].
      by apply (tw_key _ (wf_messages _ W)).
    + intros [Hl|(m' & e' & k1 & k2 & _ & _ & He' & _ & Hid & Hs' & Hc)].
      * destruct (d_completedAt e); [done|]. rewrite <- Ho, elem_of_sort_by in Hpend.
        pose proof (sort_by_head _ _ _ _ _ Ho (Hpend eq_refl)). lia.
      * by rewrite (se_once _ _ _ S _ _ _ _ He He' Hs Hs') by done.
Qed.

Lemma snapshot_acks_threshold d sub now :
  settled d sub now → (snapshot_acks d sub now).1 ≤ now.
Proof.
  intros S. unfold snapshot_acks. destruct (sort_by _ _) as [|o l] eqn:Ho; simpl; [done|].
  assert (o ∈ rows_where (unacked (s_id sub) now) d) as [(Hs & _) [k Hk]]%elem_of_rows_where.
  { rewrite <- (elem_of_sort_by d_publishedAt), Ho. left. }
  destruct (se_live _ _ _ S _ _ Hk Hs). lia.
Qed.

Lemma snapshot_acks_known d sub now i :
  db_wf d → i ∈ (snapshot_acks d sub now).2 → is_Some (messages d !! i).
Proof.
  intros W. unfold snapshot_acks. destruct (sort_by _ _) as [|o l]; simpl; [by intros ?%elem_of_nil|].
  intros (m & e & k & k' & <- & Hm & _)%elem_of_acked_ids.
  pose proof (tw_key _ (wf_messages _ W) _ _ Hm) as <-. by eexists.
Qed.

(** Creating a snapshot fails with "already exists" when a snapshot has
    the name and with "not found" when no live subscription has the given name; otherwise it
    stores one new snapshot of the subscription's topic that expires after the default TTL,
    touches nothing else and wakes nobody.  Of a subscription whose deliveries have not
    expired, a delivery is acknowledged exactly if it was published before the snapshot's
    threshold or its message is listed. *)
Theorem CreateSnapshot_spec p now t :
  db_wf (tx_db t) → fresh_uuids (tx_db t) (tx_fresh t) →
  (rows_where (λ n, n_name n = sn_Name p) (tx_db t) ≠ [] ∧
     CreateSnapshot_Execute p now t = Err ErrExists) ∨
  (rows_where (λ n, n_name n = sn_Name p) (tx_db t) = [] ∧
     rows_where (live_sub_named (sn_SubscriptionName p)) (tx_db t) = [] ∧
     CreateSnapshot_Execute p now t = Err ErrNotFound) ∨
  ∃ sub r t', live_sub_named (sn_SubscriptionName p) sub ∧
    subscriptions (tx_db t) !! s_id sub = Some sub ∧
    CreateSnapshot_Execute p now t = Ok (r, t') ∧ db_wf (tx_db t') ∧
    let snap := sr_Snapshot r in
    n_topicID snap = s_topicID sub ∧ n_name snap = sn_Name p ∧
    n_expiresAt snap = now + defaultSnapshotTTL ∧ snapshots (tx_db t) !! n_id snap = None ∧
    tx_db t' = with_snapshots (<[n_id snap := snap]> (snapshots (tx_db t))) (tx_db t) ∧
    tx_hooks t' = tx_hooks t ∧
    (settled (tx_db t) sub now → ∀ k e, deliveries (tx_db t) !! k = Some e →
       d_subscriptionID e = s_id sub →
       is_Some (d_completedAt e) ↔ d_publishedAt e < n_ackedMessagesBefore snap ∨
         d_messageID e ∈ n_ackedMessageIDs snap).
Proof.
  intros W Fr. destruct (rows_where (λ n, n_name n = sn_Name p) (tx_db t)) as [|n l] eqn:Hn; [right|left].
  - destruct (live_subs_named (sn_SubscriptionName p) _ W) as [Hs|(sub & Hs & Hsub & Hl)]; [left|right].
    + split_and!; [done..|]. unfold CreateSnapshot_Execute.
      rewrite (bind_step _ _ t false t) by (unfold Exist, gets; by rewrite Hn).
      by rewrite (bind_step _ _ t [] t) by (unfold All, gets; by rewrite Hs).
    + destruct (CreateSnapshot_run p now t sub W Fr Hn Hs) as (tp & Htp & Hrun & W').
      eexists sub, _, _. split; [done|]. split; [done|]. split; [exact Hrun|]. split; [exact W'|].
      simpl. split_and!; try done; [by apply (fu_snapshots _ _ Fr)|].
      intros S k e He Hes. by eapply snapshot_acks_exact.
  - split; [done|]. unfold CreateSnapshot_Execute.
    by rewrite (bind_step _ _ t true t) by (unfold Exist, gets; by rewrite Hn).
Qed.

(** A snapshot lists only messages that have a completed delivery of the
    subscription: the left join's rows without a delivery never pass its filter, so a
    message the subscription was never sent is not listed. *)
Theorem snapshot_lists_only_delivered d sub now i :
  i ∈ (snapshot_acks d sub now).2 →
  ∃ k e, deliveries d !! k = Some e ∧ d_messageID e = i ∧ d_subscriptionID e = s_id sub ∧
    is_Some (d_completedAt e).
Proof.
  unfold snapshot_acks. destruct (sort_by _ _); simpl; [by intros ?%elem_of_nil|].
  rewrite elem_of_acked_ids. naive_solver.
Qed.

(** C14 Seeking back to a snapshot restores it, if the subscription is [settled] when the snapshot
    is taken: none of its deliveries has expired, it has one delivery per message, and all are of
    messages of its own topic (so not of a dead-letter subscription; see
    [dead_letter_acks_lost]).  Take a snapshot of such a
    subscription, let anything happen to the completions and attempts of its deliveries and
    let later messages be delivered to it, then seek to the snapshot while the deliveries
    are unexpired: the seek succeeds, and then a delivery of the subscription is
    acknowledged exactly if it existed and was acknowledged when the snapshot was taken. *)
Theorem seek_restores_snapshot p q now now2 t t' t2 r sub sub2 :
  db_wf (tx_db t) → fresh_uuids (tx_db t) (tx_fresh t) → settled (tx_db t) sub now →
  rows_where (live_sub_named (sn_SubscriptionName p)) (tx_db t) = [sub] →
  CreateSnapshot_Execute p now t = Ok (r, t') →
  db_wf (tx_db t2) → s_id sub2 = s_id sub →
  rows_where (subMatch (ss_SubscriptionName q) (ss_SubscriptionID q)) (tx_db t2) = [sub2] →
  rows_where (snapMatch q) (tx_db t2) = [sr_Snapshot r] →
  (∀ k e', deliveries (tx_db t2) !! k = Some e' → d_subscriptionID e' = s_id sub →
     now2 ≤ d_expiresAt e' ∧ kept_or_new (tx_db t) now k e') →
  ∃ r2 t3, SeekSubscriptionToSnapshot_Execute q now2 t2 = Ok (r2, t3) ∧ db_wf (tx_db t3) ∧
    dom (deliveries (tx_db t3)) = dom (deliveries (tx_db t2)) ∧
    ∀ k e3, deliveries (tx_db t3) !! k = Some e3 → d_subscriptionID e3 = s_id sub →
      is_Some (d_completedAt e3) ↔
      ∃ e, deliveries (tx_db t) !! k = Some e ∧ is_Some (d_completedAt e).
Proof.
  intros W Fr S Hs Hrun W2 Hid Hs2 Hn2 Hlater.
  assert (Hsnap : sr_Snapshot r = the_snapshot p now t sub).
  { destruct (rows_where (λ n, n_name n = sn_Name p) (tx_db t)) as [|n l] eqn:Hn.
    - destruct (CreateSnapshot_run p now t sub W Fr Hn Hs) as (tp & _ & Hrun' & _).
      rewrite Hrun in Hrun'. by injection Hrun' as -> _.
    - unfold CreateSnapshot_Execute in Hrun.
      by rewrite (bind_step _ _ t true t) in Hrun by (unfold Exist, gets; by rewrite Hn). }
  destruct (seek_to_snapshot_run sub2 (sr_Snapshot r) now2 t2 W2) as (r2 & Hseek & W3).
  set (t3 := add_hooks (changed_hooks sub2 r2) _) in Hseek.
  exists r2, t3. split; [|split; [exact W3|]].
  { unfold SeekSubscriptionToSnapshot_Execute. rewrite (bind_step _ _ _ _ _ (find_sub_run _ _ _ _ Hs2)).
    rewrite (bind_step _ _ t2 [sr_Snapshot r] t2) by (unfold All, gets; by rewrite Hn2).
    by rewrite (bind_step _ _ t2 (sr_Snapshot r) t2). }
  split; [simpl; by rewrite dom_fmap_L|].
  simpl. intros k e3. rewrite lookup_fmap, fmap_Some. intros (e' & He' & ->) Hes3.
  assert (Hes : d_subscriptionID e' = s_id sub).
  { rewrite <- Hes3. unfold seek_snapshot_row, upd. by repeat case_decide. }
  destruct (Hlater _ _ He' Hes) as [Hx Hor]. rewrite Hsnap. unfold kept_or_new in Hor.
  destruct (deliveries (tx_db t) !! k) as [e|] eqn:He.
  - destruct Hor as (Hse & Hme & Hpe).
    pose proof (snapshot_acks_exact _ _ _ _ _ W S He (eq_trans (eq_sym Hse) Hes)) as Hex.
    rewrite <- Hpe, <- Hme in Hex. split.
    + intros Hc. exists e. split; [done|]. apply Hex. apply dec_stable. intros Hno.
      rewrite seek_snapshot_row_pending in Hc; [by destruct Hc|by rewrite Hid|..];
        simpl; [apply Z.nlt_ge|]; naive_solver.
    + intros (e0 & [= <-] & Hc). apply seek_snapshot_row_acked; [by rewrite Hid|done|].
      by apply Hex.
  - destruct Hor as [Hnew Hmsg]. rewrite seek_snapshot_row_pending; [split; [by intros []|naive_solver]|by rewrite Hid|..];
      simpl.
    + etrans; [by apply snapshot_acks_threshold|done].
    + intros [m Hm]%snapshot_acks_known; [congruence|done].
Qed.
End Snapshot_run.

(** ** Witnesses *)

Lemma SeekSubscriptionToTime_spec_witness :
  ∃ r t', SeekSubscriptionToTime_Execute (E := id_engine) (MkSeekTime "plain" None 150) 400 example_txn
    = Ok (r, t') ∧ is_Some ((deliveries (tx_db t') !! 31%N) ≫= d_completedAt).
Proof.
  destruct (SeekSubscriptionToTime_spec (E := id_engine) (MkSeekTime "plain" None 150) 400 example_txn
    sub_plain example_db_wf) as (r & t' & H & _ & _ & _ & Hm & _); [reflexivity|].
  exists r, t'. split; [exact H|].
  destruct (Hm 31%N del_1) as (e' & He' & Ha & _); [reflexivity|reflexivity|vm_compute; discriminate|].
  assert (Hd : deliveries (tx_db t') !! 31%N = Some e') by exact He'. setoid_rewrite Hd. apply Ha. vm_compute. discriminate.
Defined.

Lemma CreateSnapshot_spec_witness :
  CreateSnapshot_Execute (E := id_engine) (MkCreateSnap "plain" "snap" None) 400 example_txn = Err ErrExists.
Proof.
  destruct (CreateSnapshot_spec (E := id_engine) (MkCreateSnap "plain" "snap" None) 400 example_txn
    example_db_wf example_fresh) as [[_ H]|[(Hn & _)|(sub & r & t' & _ & _ & H & _)]];
    [exact H|vm_compute in Hn; discriminate|vm_compute in H; discriminate].
Defined.

Lemma snapshot_lists_only_delivered_witness :
  ∃ k e, deliveries example_db !! k = Some e ∧ d_messageID e = 22%N ∧ d_subscriptionID e = s_id sub_plain ∧
    is_Some (d_completedAt e).
Proof.
  apply (snapshot_lists_only_delivered (E := id_engine) example_db sub_plain 400 22%N).
  vm_compute. left.
Defined.

Lemma map_Forall_by {A} (P : uuid → A → Prop) `{∀ k a, Decision (P k a)} (m : gmap uuid A) :
  bool_decide (map_Forall P m) = true → ∀ k a, m !! k = Some a → P k a.
Proof. by intros Hb%bool_decide_eq_true k a Ha; apply Hb. Qed.

Lemma example_settled : settled example_db sub_plain 400.
Proof.
  split.
  - refine (map_Forall_by (λ _ e, d_subscriptionID e = 11%N → d_publishedAt e < 400 ∧ 400 < d_expiresAt e)
      _ _). vm_compute. reflexivity.
  - intros k e He Hs.
    assert (Hj : joined (λ m, m_topicID m = 1%N ∧ m_publishedAt m = d_publishedAt e)
      (messages example_db !! d_messageID e)).
    { revert k e He Hs. refine (map_Forall_by (λ _ e, d_subscriptionID e = 11%N →
        joined (λ m, m_topicID m = 1%N ∧ m_publishedAt m = d_publishedAt e)
          (messages example_db !! d_messageID e)) _ _). vm_compute. reflexivity. }
    destruct (messages example_db !! _) as [m|]; [|done]. by exists m.
  - intros k k' e e' He He' Hs Hs' Hid.
    assert (Hb : bool_decide (map_Forall (λ _ e, map_Forall (λ _ e', d_subscriptionID e = 11%N →
      d_subscriptionID e' = 11%N → d_messageID e = d_messageID e' → d_id e = d_id e')
      (deliveries example_db)) (deliveries example_db)) = true) by (vm_compute; reflexivity).
    apply bool_decide_eq_true in Hb. pose proof (Hb k e He k' e' He' Hs Hs' Hid) as Hk.
    assert (H1 : d_id e = k) by (by apply (tw_key _ (wf_deliveries _ example_db_wf))).
    assert (H2 : d_id e' = k') by (by apply (tw_key _ (wf_deliveries _ example_db_wf))).
    congruence.
Qed.

(** The completions of the two deliveries of ["plain"] are swapped after the snapshot. *)
Definition swapped_txn : txn :=
  match CreateSnapshot_Execute (E := id_engine) (MkCreateSnap "plain" "new" None) 400 example_txn with
  | Ok (_, t) => with_db (with_deliveries (<[31%N := del_set_completedAt (Some 500) del_1]>
      (<[32%N := del_set_completedAt None del_2]> (deliveries (tx_db t)))) (tx_db t)) t
  | _ => example_txn
  end.

Lemma seek_restores_snapshot_witness :
  ∃ r2 t3, SeekSubscriptionToSnapshot_Execute (E := id_engine) (MkSeekSnap "plain" None "new" None) 600
    swapped_txn = Ok (r2, t3) ∧
    (is_Some ((deliveries (tx_db t3) !! 32%N) ≫= d_completedAt)).
Proof.
  destruct (CreateSnapshot_Execute (E := id_engine) (MkCreateSnap "plain" "new" None) 400 example_txn)
    as [[r t']|e|p] eqn:Hc; [|vm_compute in Hc; discriminate..].
  destruct (seek_restores_snapshot (E := id_engine) (MkCreateSnap "plain" "new" None)
    (MkSeekSnap "plain" None "new" None) 400 600 example_txn t' swapped_txn r sub_plain sub_plain
    example_db_wf example_fresh example_settled) as (r2 & t3 & H & _ & _ & Hk).
  - reflexivity.
  - exact Hc.
  - apply db_wf_b_sound. vm_compute. reflexivity.
  - reflexivity.
  - reflexivity.
  - vm_compute in Hc. injection Hc as <- _. reflexivity.
  - apply (map_Forall_by (λ k e', d_subscriptionID e' = 11%N → 600 ≤ d_expiresAt e' ∧
      kept_or_new example_db 400 k e')). vm_compute. reflexivity.
  - exists r2, t3. split; [exact H|]. vm_compute in H. injection H as _ <-. by eexists.
Defined.

(** ** Snapshots of a dead-letter subscription

    The acknowledged messages are looked for among those of the subscription's own topic, which
    the messages that were forwarded to it as dead letters are not. *)

Definition dead_letters_txn : txn := with_db (with_deliveries
  {[35%N := MkDelivery 35 21 14 100 100 None 0 None 5100 None;
    36%N := MkDelivery 36 22 14 200 200 (Some 300) 1 (Some 310) 5200 None]} example_db) example_txn.

(** Here seeking to a snapshot at once makes an acknowledged dead letter pending again. *)
Theorem dead_letter_acks_lost :
  ∃ r t r2 t2, CreateSnapshot_Execute (E := id_engine) (MkCreateSnap "dead" "new" None) 400 dead_letters_txn = Ok (r, t) ∧
    SeekSubscriptionToSnapshot_Execute (E := id_engine) (MkSeekSnap "dead" None "new" None) 401 t = Ok (r2, t2) ∧
    (deliveries (tx_db t) !! 36%N) ≫= d_completedAt = Some 310 ∧
    (d_completedAt <$> deliveries (tx_db t2) !! 36%N) = Some None.
Proof.
  eexists _, _, _, _. split; [vm_compute; reflexivity|]. split; [vm_compute; reflexivity|].
  split; vm_compute; reflexivity.
Qed.
