(* ===== verification/Prune.v ===== *)
(** * The cleanup jobs

    [src/actions/prune-*.go].  Each job picks at most [MaxDelete] rows that have served their
    time and deletes them by id: completed or expired deliveries and those of deleted
    subscriptions, messages and deleted subscriptions without deliveries, deleted topics
    without subscriptions. *)

From S2P Require Import Prelude Uuid Filter FilterParse Schema Notify Store Example Deliver.
From S2P Require Import Lifecycle.

Section Prune.
Context {E : Engine}.

(** [Query().Where(P).Limit(n).IDs(ctx)] *)
Definition query_ids {A} `{Table A} (P : A → Prop) `{∀ x, Decision (P x)} (n : nat) : Tx (list uuid) :=
  All P ≫= λ rs, mret (pk <$> take n rs).

Definition before (cutoff : time) (at_ : option time) : Prop := joined (λ c, c ≤ cutoff) at_.
#[export] Instance before_dec c o : Decision (before c o).
Proof. unfold before. apply _. Defined.

(** The edges the jobs look along. *)
Definition HasDeliveries_message (d : db) (i : uuid) : Prop :=
  ¬ map_Forall (λ _ e, d_messageID e ≠ i) (deliveries d).
Definition HasDeliveries_subscription (d : db) (i : uuid) : Prop :=
  ¬ map_Forall (λ _ e, d_subscriptionID e ≠ i) (deliveries d).
Definition HasSubscriptions (d : db) (i : uuid) : Prop :=
  ¬ map_Forall (λ _ s, s_topicID s ≠ i) (subscriptions d).

(** ** Deliveries *)

Definition PruneCompletedDeliveries_where (p : PruneCommonParams) (now : time) (d : db)
  (e : delivery) : Prop := before (now - MinAge p) (d_completedAt e).
#[export] Instance completed_where_dec p now d e : Decision (PruneCompletedDeliveries_where p now d e).
Proof. unfold PruneCompletedDeliveries_where. apply _. Defined.

Definition PruneCompletedDeliveries_Execute (p : PruneCommonParams) (now : time) : Tx nat :=
  gets tx_db ≫= λ d,
  query_ids (PruneCompletedDeliveries_where p now d) (MaxDelete p) ≫= λ ids,
  Delete (A := delivery) (λ e, d_id e ∈ ids).

Definition PruneDeletedSubscriptionDeliveries_where (p : PruneCommonParams) (now : time) (d : db)
  (e : delivery) : Prop :=
  joined (λ s, before (now - MinAge p) (s_deletedAt s)) (subscriptions d !! d_subscriptionID e).
#[export] Instance deleted_sub_where_dec p now d e :
  Decision (PruneDeletedSubscriptionDeliveries_where p now d e).
Proof. unfold PruneDeletedSubscriptionDeliveries_where. apply _. Defined.

Definition PruneDeletedSubscriptionDeliveries_Execute (p : PruneCommonParams) (now : time) : Tx nat :=
  gets tx_db ≫= λ d,
  query_ids (PruneDeletedSubscriptionDeliveries_where p now d) (MaxDelete p) ≫= λ ids,
  Delete (A := delivery) (λ e, d_id e ∈ ids).

Definition PruneExpiredDeliveries_where (p : PruneCommonParams) (now : time) (d : db)
  (e : delivery) : Prop := d_expiresAt e < now.
#[export] Instance expired_where_dec p now d e : Decision (PruneExpiredDeliveries_where p now d e).
Proof. unfold PruneExpiredDeliveries_where. apply _. Defined.

(** The ordered subscriptions the deleted deliveries belong to. *)
Definition ordered_owner (d : db) (ids : list uuid) (s : subscription) : Prop :=
  s_orderedDelivery s = true ∧
  ¬ map_Forall (λ _ e, ¬ (d_subscriptionID e = s_id s ∧ d_id e ∈ ids)) (deliveries d).
#[export] Instance ordered_owner_dec d ids s : Decision (ordered_owner d ids s).
Proof. unfold ordered_owner. apply _. Defined.

Definition PruneExpiredDeliveries_Execute (p : PruneCommonParams) (now : time) : Tx nat :=
  gets tx_db ≫= λ d,
  query_ids (PruneExpiredDeliveries_where p now d) (MaxDelete p) ≫= λ ids,
  All (ordered_owner d ids) ≫= λ orderedSubs,
  Delete (A := delivery) (λ e, d_id e ∈ ids) ≫= λ numDeleted,
  (match orderedSubs with
   | [] => mret ()
   | _ => OnCommit (NotifyEach (s_id <$> orderedSubs))
   end) ≫= λ _,
  mret numDeleted.

(** ** Messages, subscriptions, topics *)

Definition PruneCompletedMessages_where (p : PruneCommonParams) (now : time) (d : db)
  (m : message) : Prop := m_publishedAt m ≤ now - MinAge p ∧ ¬ HasDeliveries_message d (m_id m).
#[export] Instance completed_messages_where_dec p now d m :
  Decision (PruneCompletedMessages_where p now d m).
Proof. unfold PruneCompletedMessages_where, HasDeliveries_message. apply _. Defined.

Definition PruneCompletedMessages_Execute (p : PruneCommonParams) (now : time) : Tx nat :=
  gets tx_db ≫= λ d,
  query_ids (PruneCompletedMessages_where p now d) (MaxDelete p) ≫= λ ids,
  Delete (A := message) (λ m, m_id m ∈ ids).

Definition PruneDeletedSubscriptions_where (p : PruneCommonParams) (now : time) (d : db)
  (s : subscription) : Prop :=
  before (now - MinAge p) (s_deletedAt s) ∧ ¬ HasDeliveries_subscription d (s_id s).
#[export] Instance deleted_subs_where_dec p now d s :
  Decision (PruneDeletedSubscriptions_where p now d s).
Proof. unfold PruneDeletedSubscriptions_where, HasDeliveries_subscription. apply _. Defined.

Definition PruneDeletedSubscriptions_Execute (p : PruneCommonParams) (now : time) : Tx nat :=
  gets tx_db ≫= λ d,
  All (PruneDeletedSubscriptions_where p now d) ≫= λ subs,
  let ids := s_id <$> take (MaxDelete p) subs in
  Delete (A := subscription) (λ s, s_id s ∈ ids).

Definition PruneDeletedTopics_where (p : PruneCommonParams) (now : time) (d : db)
  (t : topic) : Prop :=
  before (now - MinAge p) (t_deletedAt t) ∧ ¬ HasSubscriptions d (t_id t).
#[export] Instance deleted_topics_where_dec p now d t : Decision (PruneDeletedTopics_where p now d t).
Proof. unfold PruneDeletedTopics_where, HasSubscriptions. apply _. Defined.

Definition PruneDeletedTopics_Execute (p : PruneCommonParams) (now : time) : Tx nat :=
  gets tx_db ≫= λ d,
  All (PruneDeletedTopics_where p now d) ≫= λ topics,
  let ids := t_id <$> take (MaxDelete p) topics in
  Delete (A := topic) (λ t, t_id t ∈ ids).
End Prune.

(** ** What the jobs do *)

Section Prune_run.
Context {E : Engine}.

(** The ids a job picked: at most [n], all of them if there are no more, each satisfying [P]. *)
Record picked {A} `{Table A} (P : A → Prop) `{∀ x, Decision (P x)} (n : nat) (d : db)
  (ids : list uuid) : Prop := {
  pi_NoDup : NoDup ids;
  pi_length : length ids = (n `min` length (rows_where P d))%nat;
  pi_in : ∀ i, i ∈ ids → ∃ r, table d !! i = Some r ∧ P r;
  pi_all : (length (rows_where P d) ≤ n)%nat → ∀ i r, table d !! i = Some r → P r → i ∈ ids }.

Section Generic.
Context {A : Type} `{TableLaws A} (P : A → Prop) `{∀ x, Decision (P x)}.

Lemma picked_ids n d : db_wf d → picked P n d (pk <$> take n (rows_where P d)).
Proof.
  intros W. split.
  - rewrite fmap_take. eapply sublist_NoDup, sublist_take. by apply rows_where_NoDup.
  - by rewrite length_fmap, length_take.
  - intros i (r & -> & Hr%elem_of_take_incl)%list_elem_of_fmap.
    apply elem_of_rows_wf in Hr; naive_solver.
  - intros Hn i r Hr HP. rewrite take_ge by done.
    pose proof (tw_key _ (wf_table _ W) _ _ Hr) as <-. apply list_elem_of_fmap_2.
    by apply elem_of_rows_wf.
Qed.

Lemma doomed_ids (Q : A → Prop) `{∀ x, Decision (Q x)} n d ids :
  db_wf d → picked P n d ids → (∀ r, Q r ↔ pk r ∈ ids) → doomed Q d = list_to_set ids.
Proof.
  intros W Hp HQ. apply set_eq. intros k. rewrite elem_of_doomed, elem_of_list_to_set by done.
  split.
  - intros (r & Hr & Hk%HQ). by rewrite (tw_key _ (wf_table _ W) _ _ Hr) in Hk.
  - intros Hk. destruct (pi_in _ _ _ _ Hp _ Hk) as (r & Hr & _). exists r. split; [done|].
    apply HQ. by rewrite (tw_key _ (wf_table _ W) _ _ Hr).
Qed.

Lemma length_ids (Q : A → Prop) `{∀ x, Decision (Q x)} n d ids :
  db_wf d → picked P n d ids → (∀ r, Q r ↔ pk r ∈ ids) → length (rows_where Q d) = length ids.
Proof.
  intros W Hp HQ. rewrite <- (length_fmap pk (rows_where Q d)). apply Permutation_length.
  apply NoDup_Permutation; [by apply rows_where_NoDup|exact (pi_NoDup _ _ _ _ Hp)|].
  intros k. rewrite <- (elem_of_list_to_set (C := gset uuid) k ids), <- (doomed_ids Q n d ids) by done.
  unfold doomed. by rewrite elem_of_list_to_set.
Qed.

(** Deleting the picked rows. *)
Lemma Delete_picked (Q : A → Prop) `{∀ x, Decision (Q x)} n t ids :
  db_wf (tx_db t) → picked P n (tx_db t) ids → (∀ r, Q r ↔ pk r ∈ ids) →
  restrict (tx_db t) (list_to_set ids) →
  Delete Q t = Ok (length ids, with_db (delete_ids (list_to_set ids) (tx_db t)) t) ∧
  db_wf (delete_ids (list_to_set ids) (tx_db t)).
Proof.
  intros W Hp HQ Hr. rewrite <- (length_ids Q n (tx_db t) ids), <- (doomed_ids Q n _ ids) in * by done.
  by apply Delete_run.
Qed.
Lemma Delete_picked_restricted (Q : A → Prop) `{∀ x, Decision (Q x)} n t ids :
  db_wf (tx_db t) → picked P n (tx_db t) ids → (∀ r, Q r ↔ pk r ∈ ids) →
  ¬ restrict (tx_db t) (list_to_set ids) → Delete Q t = Err SqlForeignKey.
Proof.
  intros W Hp HQ Hr. apply Delete_restricted. by rewrite (doomed_ids Q n (tx_db t) ids).
Qed.

Lemma query_ids_run n t :
  query_ids P n t = Ok (pk <$> take n (rows_where P (tx_db t)), t).
Proof. done. Qed.
End Generic.

(** ** Deliveries *)

Inductive delivery_job := CompletedDeliveries | DeletedSubscriptionDeliveries | ExpiredDeliveries.
Definition job_where (j : delivery_job) (p : PruneCommonParams) (now : time) (d : db) (e : delivery) : Prop :=
  match j with
  | CompletedDeliveries => PruneCompletedDeliveries_where p now d e
  | DeletedSubscriptionDeliveries => PruneDeletedSubscriptionDeliveries_where p now d e
  | ExpiredDeliveries => PruneExpiredDeliveries_where p now d e
  end.
#[export] Instance job_where_dec j p now d e : Decision (job_where j p now d e).
Proof. destruct j; simpl; apply _. Defined.
Definition job_Execute (j : delivery_job) (p : PruneCommonParams) (now : time) : Tx nat :=
  match j with
  | CompletedDeliveries => PruneCompletedDeliveries_Execute p now
  | DeletedSubscriptionDeliveries => PruneDeletedSubscriptionDeliveries_Execute p now
  | ExpiredDeliveries => PruneExpiredDeliveries_Execute p now
  end.

(** The wakes of a job that deleted [ids]. *)
Definition job_hooks (j : delivery_job) (d : db) (ids : list uuid) : list hook :=
  match j, rows_where (ordered_owner d ids) d with
  | ExpiredDeliveries, (_ :: _) as subs => [NotifyEach (s_id <$> subs)]
  | _, _ => []
  end.

Lemma job_run j p now t :
  db_wf (tx_db t) → let d := tx_db t in
  ∃ ids, picked (job_where j p now d) (MaxDelete p) d ids ∧
    job_Execute j p now t = Ok (length ids, add_hooks (job_hooks j d ids)
      (with_db (delete_ids (A := delivery) (list_to_set ids) d) t)) ∧
    db_wf (delete_ids (A := delivery) (list_to_set ids) d).
Proof.
  intros W d. set (ids := pk <$> take (MaxDelete p) (rows_where (job_where j p now d) d)).
  pose proof (picked_ids (job_where j p now d) (MaxDelete p) d W) as Hp. fold ids in Hp.
  destruct (Delete_picked _ (λ e, d_id e ∈ ids) _ t ids W Hp) as [Hd Wd]; [done|done|].
  exists ids. split; [done|]. split; [|done].
  destruct j; simpl; [rewrite add_hooks_nil; exact Hd..|].
  unfold PruneExpiredDeliveries_Execute.
  rewrite (bind_step _ _ t d t) by done. rewrite (bind_step _ _ t ids t) by done.
  rewrite (bind_step _ _ t (rows_where (ordered_owner d ids) d) t) by done.
  rewrite (bind_step _ _ _ _ _ Hd). unfold job_hooks.
  destruct (rows_where (ordered_owner d ids) d); [by rewrite add_hooks_nil|done].
Qed.

(** C27 The three jobs that delete deliveries always succeed.  They delete at
    most [MaxDelete] deliveries (all candidates when there are no more), each completed
    long enough ago, of a subscription deleted long enough ago, or expired, as the job
    says; the other deliveries only lose a [NotBefore] link to a deleted one, no other
    table changes.  The expiry job wakes exactly the ordered subscriptions it deleted a
    delivery of; the others wake nobody. *)
Theorem PruneDeliveries_spec j p now t :
  db_wf (tx_db t) →
  ∃ ids t', job_Execute j p now t = Ok (length ids, t') ∧ db_wf (tx_db t') ∧
    picked (job_where j p now (tx_db t)) (MaxDelete p) (tx_db t) ids ∧
    (∀ k, deliveries (tx_db t') !! k = if decide (k ∈ ids) then None else
       (λ e, del_set_notBeforeID (null_if (list_to_set ids : gset uuid) (d_notBeforeID e)) e)
         <$> deliveries (tx_db t) !! k) ∧
    tx_db t' = with_deliveries (deliveries (tx_db t')) (tx_db t) ∧
    ∃ woken, tx_hooks t' = tx_hooks t ++ (if decide (woken = []) then [] else [NotifyEach woken]) ∧
      ∀ i, i ∈ woken ↔ j = ExpiredDeliveries ∧ ∃ s k e, subscriptions (tx_db t) !! i = Some s ∧
        s_orderedDelivery s = true ∧ deliveries (tx_db t) !! k = Some e ∧
        d_subscriptionID e = i ∧ k ∈ ids.
Proof.
  intros W. destruct (job_run j p now t W) as (ids & Hp & Hrun & W').
  set (t' := add_hooks _ _) in Hrun. exists ids, t'. split_and!; try done.
  - intros k. simpl. rewrite lookup_fmap. case_decide as Hk.
    + rewrite map_lookup_filter_None_2; [done|]. right. intros e _ Hn. apply Hn.
      by rewrite elem_of_list_to_set.
    + destruct (deliveries (tx_db t) !! k) as [e|] eqn:He.
      * rewrite (map_lookup_filter_Some_2 _ _ _ e); [done|done|]. by rewrite elem_of_list_to_set.
      * rewrite map_lookup_filter_None_2; [done|]. by left.
  - exists (match j with ExpiredDeliveries => s_id <$> rows_where (ordered_owner (tx_db t) ids) (tx_db t)
                       | _ => [] end).
    split; [unfold t', job_hooks; destruct j; [done..|]; simpl; by destruct (rows_where _ _)|].
    intros i. split.
    + destruct j; [by intros ?%elem_of_nil..|].
      intros (s & -> & Hs)%list_elem_of_fmap. split; [done|].
      apply elem_of_rows_wf in Hs as [[Ho Hd] Hs]; [|done]. simpl in Hs.
      apply map_not_Forall in Hd as (k & e & He & [Hes Hi]%dec_stable); [|apply _].
      exists s, k, e. by rewrite (tw_key _ (wf_deliveries _ W) _ _ He : d_id e = k) in Hi.
    + intros (-> & s & k & e & Hs & Ho & He & Hi & Hk).
      pose proof (tw_key _ (wf_subscriptions _ W) _ _ Hs : s_id s = i) as <-.
      apply list_elem_of_fmap_2, elem_of_rows_wf; [done|]. split; [|done]. split; [done|].
      intros Hall. apply (Hall k e He). split; [done|].
      by rewrite (tw_key _ (wf_deliveries _ W) _ _ He : d_id e = k).
Qed.

(** ** Messages, subscriptions, topics *)

(** The message job always succeeds: no foreign key stops it.  It deletes
    at most [MaxDelete] messages, each old enough and without a delivery, and nothing else
    changes. *)
Theorem PruneCompletedMessages_spec p now t :
  db_wf (tx_db t) →
  ∃ ids t', PruneCompletedMessages_Execute p now t = Ok (length ids, t') ∧ db_wf (tx_db t') ∧
    picked (PruneCompletedMessages_where p now (tx_db t)) (MaxDelete p) (tx_db t) ids ∧
    (∀ k e, deliveries (tx_db t) !! k = Some e → d_messageID e ∉ ids) ∧
    tx_db t' = with_messages (filter (λ kr, kr.1 ∉ (list_to_set ids : gset uuid)) (messages (tx_db t)))
      (tx_db t) ∧ tx_hooks t' = tx_hooks t.
Proof.
  intros W. set (P := PruneCompletedMessages_where p now (tx_db t)).
  pose proof (picked_ids P (MaxDelete p) (tx_db t) W) as Hp. set (ids := pk <$> _) in Hp.
  assert (Hno : ∀ k e, deliveries (tx_db t) !! k = Some e → d_messageID e ∉ ids).
  { intros k e He (m & Hm & HP)%(pi_in _ _ _ _ Hp). destruct HP as [_ HP]. apply HP.
    intros Hall. apply (Hall k e He). by rewrite (tw_key _ (wf_messages _ W) _ _ Hm : m_id m = _). }
  destruct (Delete_picked P (λ m, m_id m ∈ ids) _ t ids W Hp) as [Hd Wd]; [done| |].
  { intros k e He. rewrite elem_of_list_to_set. by eapply Hno. }
  eexists ids, _. split; [exact Hd|]. split_and!; done.
Qed.

(** The job for deleted subscriptions always succeeds.  It deletes at most
    [MaxDelete] subscriptions, each deleted long enough ago and without a delivery, and
    nothing else changes. *)
Theorem PruneDeletedSubscriptions_spec p now t :
  db_wf (tx_db t) →
  ∃ ids t', PruneDeletedSubscriptions_Execute p now t = Ok (length ids, t') ∧ db_wf (tx_db t') ∧
    picked (PruneDeletedSubscriptions_where p now (tx_db t)) (MaxDelete p) (tx_db t) ids ∧
    (∀ k e, deliveries (tx_db t) !! k = Some e → d_subscriptionID e ∉ ids) ∧
    tx_db t' = with_subscriptions
      (filter (λ kr, kr.1 ∉ (list_to_set ids : gset uuid)) (subscriptions (tx_db t))) (tx_db t) ∧
    tx_hooks t' = tx_hooks t.
Proof.
  intros W. set (P := PruneDeletedSubscriptions_where p now (tx_db t)).
  pose proof (picked_ids P (MaxDelete p) (tx_db t) W) as Hp. set (ids := pk <$> _) in Hp.
  assert (Hno : ∀ k e, deliveries (tx_db t) !! k = Some e → d_subscriptionID e ∉ ids).
  { intros k e He (m & Hm & HP)%(pi_in _ _ _ _ Hp). destruct HP as [_ HP]. apply HP.
    intros Hall. apply (Hall k e He). by rewrite (tw_key _ (wf_subscriptions _ W) _ _ Hm : s_id m = _). }
  destruct (Delete_picked P (λ s, s_id s ∈ ids) _ t ids W Hp) as [Hd Wd]; [done| |].
  { intros k e He. rewrite elem_of_list_to_set. by eapply Hno. }
  eexists ids, _. split; [exact Hd|]. split_and!; done.
Qed.

(** A message or a snapshot of the topic. *)
Definition held (d : db) (i : uuid) : Prop :=
  (∃ k m, messages d !! k = Some m ∧ m_topicID m = i) ∨
  (∃ k n, snapshots d !! k = Some n ∧ n_topicID n = i).

(** The job for deleted topics looks for subscriptions only.  When none
    of the topics it picked has a message or a snapshot left, it deletes them and nulls the
    dead-letter links to them; when one of them has, the whole job fails with the database's
    foreign-key error, so one such topic keeps all the candidates that fit in the limit. *)
Theorem PruneDeletedTopics_spec p now t :
  db_wf (tx_db t) →
  ∃ ids, picked (PruneDeletedTopics_where p now (tx_db t)) (MaxDelete p) (tx_db t) ids ∧
    ((∀ i, i ∈ ids → ¬ held (tx_db t) i) →
       ∃ t', PruneDeletedTopics_Execute p now t = Ok (length ids, t') ∧ db_wf (tx_db t') ∧
         topics (tx_db t') = filter (λ kr, kr.1 ∉ (list_to_set ids : gset uuid)) (topics (tx_db t)) ∧
         subscriptions (tx_db t') = (λ s, sub_set_deadLetterTopicID
           (null_if (list_to_set ids : gset uuid) (s_deadLetterTopicID s)) s) <$> subscriptions (tx_db t) ∧
         messages (tx_db t') = messages (tx_db t) ∧ deliveries (tx_db t') = deliveries (tx_db t) ∧
         snapshots (tx_db t') = snapshots (tx_db t) ∧ tx_hooks t' = tx_hooks t) ∧
    (∀ i, i ∈ ids → held (tx_db t) i → PruneDeletedTopics_Execute p now t = Err SqlForeignKey).
Proof.
  intros W. set (P := PruneDeletedTopics_where p now (tx_db t)).
  pose proof (picked_ids P (MaxDelete p) (tx_db t) W) as Hp. set (ids := pk <$> _) in Hp.
  exists ids. split; [done|].
  assert (Hiff : restrict (A := topic) (tx_db t) (list_to_set ids) ↔ ∀ i, i ∈ ids → ¬ held (tx_db t) i).
  { simpl. unfold map_Forall. setoid_rewrite elem_of_list_to_set. split.
    - intros (_ & Hm & Hn) i Hi [(k & m & Hk & <-)|(k & n & Hk & <-)]; [by eapply Hm|by eapply Hn].
    - intros Hh. split_and!; [|intros k r Hk Hi; apply (Hh _ Hi); unfold held; naive_solver..].
      intros k s Hs (tp & Htp & [_ HP])%(pi_in _ _ _ _ Hp). apply HP. intros Hall.
      apply (Hall k s Hs). by rewrite (tw_key _ (wf_topics _ W) _ _ Htp : t_id tp = _). }
  split.
  - intros Hr%Hiff.
    destruct (Delete_picked P (λ x, t_id x ∈ ids) _ t ids W Hp) as [Hd Wd]; [done|done|].
    eexists. split; [exact Hd|]. split_and!; done.
  - intros i Hi Hh.
    refine (Delete_picked_restricted P (λ x, t_id x ∈ ids) _ t ids W Hp _ _); [done|].
    rewrite Hiff. intros Hno. by apply (Hno i).
Qed.
End Prune_run.

(** ** Witnesses *)

(** The expiry job at a time when every delivery has expired: two are deleted, and the ordered
    subscription is woken. *)
Lemma PruneDeliveries_spec_witness :
  ∃ (ids : list uuid) t', job_Execute (E := id_engine) ExpiredDeliveries (MkPrune 0 4) 9000 example_txn
    = Ok (length ids, t') ∧ length ids = 4%nat ∧ deliveries (tx_db t') !! 31%N = None.
Proof.
  destruct (PruneDeliveries_spec (E := id_engine) ExpiredDeliveries (MkPrune 0 4) 9000 example_txn
    example_db_wf) as (ids & t' & H & _ & Hp & Hk & _).
  exists ids, t'. split; [exact H|]. split; [rewrite (pi_length _ _ _ _ Hp); vm_compute; reflexivity|].
  setoid_rewrite (Hk 31%N). rewrite decide_True; [reflexivity|].
  apply (pi_all _ _ _ _ Hp) with del_1; vm_compute; [lia|reflexivity|reflexivity].
Defined.

(** Message 22 once its two deliveries are gone. *)
Definition undelivered_db : db := with_deliveries {[31%N := del_1]} example_db.
Definition undelivered_txn : txn := MkTxn undelivered_db [] 0.
Lemma undelivered_wf : db_wf undelivered_db.
Proof. apply db_wf_b_sound. vm_compute. reflexivity. Qed.

Lemma PruneCompletedMessages_spec_witness :
  ∃ (ids : list uuid) t', PruneCompletedMessages_Execute (E := id_engine) (MkPrune 0 4) 9000 undelivered_txn
    = Ok (length ids, t') ∧ length ids = 1%nat.
Proof.
  destruct (PruneCompletedMessages_spec (E := id_engine) (MkPrune 0 4) 9000 undelivered_txn
    undelivered_wf) as (ids & t' & H & _ & Hp & _).
  exists ids, t'. split; [exact H|]. rewrite (pi_length _ _ _ _ Hp). vm_compute. reflexivity.
Defined.

Definition deleted_sub_db : db := MkDb {[1%N := topic_t]} {[11%N := sub_deleted 5 sub_plain]} ∅ ∅ ∅.
Lemma deleted_sub_wf : db_wf deleted_sub_db.
Proof. apply db_wf_b_sound. vm_compute. reflexivity. Qed.

Lemma PruneDeletedSubscriptions_spec_witness :
  ∃ (ids : list uuid) t', PruneDeletedSubscriptions_Execute (E := id_engine) (MkPrune 10 4) 9000
    (MkTxn deleted_sub_db [] 0) = Ok (length ids, t') ∧ length ids = 1%nat.
Proof.
  destruct (PruneDeletedSubscriptions_spec (E := id_engine) (MkPrune 10 4) 9000
    (MkTxn deleted_sub_db [] 0) deleted_sub_wf) as (ids & t' & H & _ & Hp & _).
  exists ids, t'. split; [exact H|]. rewrite (pi_length _ _ _ _ Hp). vm_compute. reflexivity.
Defined.

(** Two deleted topics, one of which still has a snapshot: the job fails. *)
Definition deleted_topics_db : db := MkDb {[1%N := topic_deleted 5 topic_t; 3%N := topic_old]} ∅ ∅ ∅
  {[41%N := snap_1]}.
Lemma deleted_topics_wf : db_wf deleted_topics_db.
Proof. apply db_wf_b_sound. vm_compute. reflexivity. Qed.

Lemma PruneDeletedTopics_spec_witness :
  PruneDeletedTopics_Execute (E := id_engine) (MkPrune 10 4) 9000 (MkTxn deleted_topics_db [] 0)
    = Err SqlForeignKey.
Proof.
  destruct (PruneDeletedTopics_spec (E := id_engine) (MkPrune 10 4) 9000 (MkTxn deleted_topics_db [] 0)
    deleted_topics_wf) as (ids & Hp & _ & Hh).
  apply (Hh 1%N).
  - apply (pi_all _ _ _ _ Hp) with (topic_deleted 5 topic_t); [vm_compute; lia|reflexivity|].
    split; [vm_compute; discriminate|]. vm_compute. intros Hn. apply Hn. intros k s Hs. discriminate.
  - right. exists 41%N, snap_1. split; reflexivity.
Defined.
