(* ===== verification/Rpc.v ===== *)
(** * What the gRPC services share

    [src/services/grpc.go]: the shapes of resource names, [isNotFound];
    [src/grpc/errors.go]: the status an error becomes; [src/db/postgres/error-codes.go]: the
    SQLSTATEs that are told apart; and the part that the four [List] methods have in common:
    the page size, the page token, the query for one page.

    A handler takes the world and the database's answer to [COMMIT], and returns the response
    or the error with the world it leaves.  An error that is a status is [StatusError]. *)

From S2P Require Import Prelude Uuid Filter Schema Notify Store Example Deliver Lifecycle.

(** ** Names *)

(** [strings.Split(s, "/")] *)
Fixpoint split_slash (s : string) : list string :=
  match s with
  | EmptyString => [EmptyString]
  | String c s =>
      if decide (c = "/"%char) then EmptyString :: split_slash s
      else match split_slash s with
           | seg :: segs => String c seg :: segs
           | [] => [String c EmptyString]
           end
  end.

(** The body the three functions [isValid...Name] share, up to the word in the middle. *)
Definition has_shape (kind name : string) : bool :=
  match split_slash name with
  | [s0; s1; s2; s3] =>
      bool_decide (s0 = "projects") && negb (is_empty s1) && bool_decide (s2 = kind) && negb (is_empty s3)
  | _ => false
  end.
Definition isValidTopicName (name : string) : bool := has_shape "topics" name.
Definition isValidSubscriptionName (name : string) : bool := has_shape "subscriptions" name.
Definition isValidSnapshotName (name : string) : bool := has_shape "snapshots" name.

Definition projectTopicPrefix (project : string) : string := project +:+ "/topics/".
Definition projectSubscriptionPrefix (project : string) : string := project +:+ "/subscriptions/".

(** ** Errors *)

Definition isNotFound (e : error) : bool := bool_decide (e = EntNotFound ∨ e = ErrNotFound).

Definition status_code (e : error) : code :=
  match e with
  | StatusError c => c
  | ContextCanceled => Canceled
  | ContextDeadlineExceeded => DeadlineExceeded
  | _ => Unknown
  end.
Definition AsStatusError (e : error) : error := StatusError (status_code e).

Definition SerializationFailure : string := "40001".
Definition IsPostgreSQLErrorCode (e : error) (sqlstate : string) : bool := bool_decide (e = PgError sqlstate).

(** [if err != nil { return f(err) }] after a transaction. *)
Definition map_error {A} (f : error → error) (o : outcome A) : outcome A :=
  match o with Err e => Err (f e) | o => o end.
Definition map_ok {A B} (f : A → B) (o : outcome A) : outcome B :=
  match o with Ok a => Ok (f a) | Err e => Err e | Panic s => Panic s end.
Definition invalid {A} : outcome A := Err (StatusError InvalidArgument).
(** How the handlers that look up one row by its name report that there is none. *)
Definition not_found_status (e : error) : error :=
  if isNotFound e then StatusError NotFound else AsStatusError e.

(** ** Pages *)

(** [uuid.Parse] and [UUID.String] of [github.com/google/uuid]. *)
Class UuidText := {
  uuid_Parse : string → option uuid;
  uuid_String : uuid → string;
  uuid_Parse_String : ∀ u, uuid_Parse (uuid_String u) = Some u;
  uuid_String_nonempty : ∀ u, uuid_String u ≠ EmptyString }.

(** A concrete pair that meets the laws: the bits, last first, behind a letter. *)
Fixpoint bits_print (p : positive) : string :=
  match p with
  | xH => EmptyString
  | xO p => String "0" (bits_print p)
  | xI p => String "1" (bits_print p)
  end.
Fixpoint bits_parse (s : string) : option positive :=
  match s with
  | EmptyString => Some xH
  | String c s =>
      if decide (c = "0"%char) then xO <$> bits_parse s
      else if decide (c = "1"%char) then xI <$> bits_parse s else None
  end.
Lemma bits_parse_print p : bits_parse (bits_print p) = Some p.
Proof. induction p; simpl; by rewrite ?IHp. Qed.
Definition bits_uuid (s : string) : option uuid :=
  match s with
  | String "z" EmptyString => Some 0%N
  | String "p" s => Npos <$> bits_parse s
  | _ => None
  end.
Definition bits_string (u : uuid) : string :=
  match u with N0 => "z" | Npos p => String "p" (bits_print p) end.
Lemma bits_uuid_string u : bits_uuid (bits_string u) = Some u.
Proof. destruct u as [|p]; simpl; [done|]. by rewrite bits_parse_print. Qed.
Lemma bits_string_nonempty u : bits_string u ≠ EmptyString.
Proof. by destruct u. Qed.
Definition bits_text : UuidText := {|
  uuid_Parse := bits_uuid; uuid_String := bits_string;
  uuid_Parse_String := bits_uuid_string; uuid_String_nonempty := bits_string_nonempty |}.

Definition effectivePageSize (PageSize : Z) : nat :=
  Z.to_nat (if (0 <? PageSize) && (PageSize <? 100) then PageSize else 100).

Section Page.
Context {E : Engine} {U : UuidText} {A : Type} {T : Table A}.

(** [IDGT(pageID)], if there is a token. *)
Definition past (pageID : option uuid) (r : A) : Prop := option_ok (λ i, (i < pk r)%N) pageID.
#[export] Instance past_dec pageID r : Decision (past pageID r).
Proof. unfold past. apply _. Defined.

(** [Where(P, IDGT(pageID)).Order(Asc(FieldID)).Limit(pageSize)] *)
Definition page_rows (P : A → Prop) `{∀ x, Decision (P x)} (pageID : option uuid) (pageSize : nat) (d : db)
  : list A :=
  take pageSize (sort_by (λ r, Z.of_N (pk r)) (rows_where (λ r, P r ∧ past pageID r) d)).

Definition parse_token (PageToken : string) : Tx (option uuid) :=
  if is_empty PageToken then mret None
  else match uuid_Parse PageToken with
       | Some i => mret (Some i)
       | None => fail (StatusError InvalidArgument)
       end.

Definition nextPageToken (pageSize : nat) (rows : list A) : string :=
  if (pageSize <=? length rows)%nat then
    match last rows with Some r => uuid_String (pk r) | None => EmptyString end
  else EmptyString.

Definition list_tx (P : A → Prop) `{∀ x, Decision (P x)} (PageSize : Z) (PageToken : string)
  : Tx (list A * string) :=
  parse_token PageToken ≫= λ pageID,
  gets (λ t, page_rows P pageID (effectivePageSize PageSize) (tx_db t)) ≫= λ rows,
  mret (rows, nextPageToken (effectivePageSize PageSize) rows).
End Page.

(** A client that asks for page after page; [call k] is its [k]-th request. *)
Fixpoint list_all {B} (call : nat → string → option (list B * string)) (fuel k : nat) (token : string)
  : option (list (list B)) :=
  match fuel with
  | O => None
  | S fuel =>
      match call k token with
      | None => None
      | Some (rows, next) =>
          if is_empty next then Some [rows] else cons rows <$> list_all call fuel (S k) next
      end
  end.

(** ** One page *)

Section Page_facts.
Context {E : Engine} {U : UuidText} {A : Type} `{TableLaws A}.
Context (P : A → Prop) `{∀ x, Decision (P x)}.

Lemma effectivePageSize_bounds n : (1 ≤ effectivePageSize n ≤ 100)%nat.
Proof. unfold effectivePageSize. destruct ((0 <? n) && (n <? 100)) eqn:Hn; bool_props; lia. Qed.

Definition id_lt (x y : A) : Prop := (pk x < pk y)%N.
Definition matching (pageID : option uuid) (d : db) (r : A) : Prop :=
  table d !! pk r = Some r ∧ P r ∧ past pageID r.

Lemma page_rows_in pageID n d r : db_wf d → r ∈ page_rows P pageID n d → matching pageID d r.
Proof.
  intros W Hr%elem_of_take_incl. rewrite elem_of_sort_by in Hr.
  apply elem_of_rows_wf in Hr as [[? ?] ?]; [by split_and!|done].
Qed.

Lemma sorted_ids d (Q : A → Prop) `{∀ x, Decision (Q x)} :
  db_wf d → StronglySorted id_lt (sort_by (λ r, Z.of_N (pk r)) (rows_where Q d)).
Proof.
  intros W. set (l := sort_by _ _).
  assert (Hnd : NoDup (pk <$> l)).
  { unfold l. rewrite sort_by_perm. by apply rows_where_NoDup. }
  pose proof (sort_by_sorted (λ r, Z.of_N (pk r)) (rows_where Q d)) as Hs. fold l in Hs.
  induction Hs as [|x l' Hs IH Hx]; [constructor|].
  rewrite fmap_cons, NoDup_cons in Hnd. destruct Hnd as [Hn Hnd]. constructor; [by apply IH|].
  rewrite Forall_forall in *. intros y Hy. specialize (Hx y Hy). unfold key_le, id_lt in *.
  assert (pk x ≠ pk y) by (intros Heq; apply Hn; rewrite Heq; by apply list_elem_of_fmap_2). lia.
Qed.

Lemma sorted_take {B} (R : B → B → Prop) n l : StronglySorted R l → StronglySorted R (take n l).
Proof.
  intros Hs. revert n. induction Hs as [|x l Hs IH Hx]; intros [|n]; simpl; try constructor; [apply IH|].
  rewrite Forall_forall in *. intros y Hy%elem_of_take_incl. by apply Hx.
Qed.

Lemma page_rows_sorted pageID n d : db_wf d → StronglySorted id_lt (page_rows P pageID n d).
Proof. intros. by apply sorted_take, sorted_ids. Qed.

(** A row that matches is on the page, or behind a full page. *)
Lemma page_rows_complete pageID n d r :
  db_wf d → matching pageID d r →
  r ∈ page_rows P pageID n d ∨
  length (page_rows P pageID n d) = n ∧ ∀ x, x ∈ page_rows P pageID n d → id_lt x r.
Proof.
  intros W (Hr & HP & Hp). unfold page_rows. set (l := sort_by _ _).
  assert (Hin : r ∈ l) by (apply elem_of_sort_by, elem_of_rows_wf; done).
  pose proof (sorted_ids d (λ r, P r ∧ past pageID r) W) as Hs. fold l in Hs.
  rewrite <- (take_drop n l) in Hin. apply elem_of_app in Hin as [Hin|Hin]; [by left|right].
  split.
  - rewrite length_take. destruct (decide (n ≤ length l)%nat); [lia|].
    rewrite drop_ge in Hin by lia. by apply elem_of_nil in Hin.
  - intros x Hx. rewrite <- (take_drop n l) in Hs. clear -Hs Hx Hin.
    induction (take n l) as [|y k IH]; [by apply elem_of_nil in Hx|]. simpl in Hs.
    apply StronglySorted_inv in Hs as [Hs Hy]. apply elem_of_cons in Hx as [->|Hx]; [|by apply IH].
    rewrite Forall_forall in Hy. apply Hy, elem_of_app. by right.
Qed.
End Page_facts.

(** ** All pages *)

Section Pages.
Context {E : Engine} {U : UuidText} {A : Type} `{TableLaws A}.
Context (P : A → Prop) `{∀ x, Decision (P x)} (PageSize : Z).

Definition token_of (pageID : option uuid) : string := default EmptyString (uuid_String <$> pageID).
Lemma parse_token_of pageID t : parse_token (token_of pageID) t = Ok (pageID, t).
Proof.
  unfold parse_token, token_of, is_empty. destruct pageID as [i|]; simpl.
  - rewrite bool_decide_false by apply uuid_String_nonempty. by rewrite uuid_Parse_String.
  - done.
Qed.

Local Notation n := (effectivePageSize PageSize).
Definition page (d : db) (token : string) : option (list A * string) :=
  match list_tx P PageSize token (MkTxn d [] 0) with Ok (x, _) => Some x | _ => None end.

Lemma page_of pageID d :
  page d (token_of pageID) = Some (page_rows P pageID n d, nextPageToken n (page_rows P pageID n d)).
Proof. unfold page, list_tx. by rewrite (bind_step _ _ _ _ _ (parse_token_of _ _)). Qed.

(** A page that is not the last is full, and the token is its last id. *)
Lemma next_token_spec rows :
  (length rows ≤ n)%nat →
  is_empty (nextPageToken n rows) = true ∧ (length rows < n)%nat ∨
  ∃ r, last rows = Some r ∧ nextPageToken n rows = token_of (Some (pk r)) ∧
    is_empty (nextPageToken n rows) = false ∧ length rows = n.
Proof.
  intros Hle. unfold nextPageToken. pose proof (effectivePageSize_bounds PageSize).
  destruct (Nat.leb_spec n (length rows)) as [Hge|Hlt]; [right|by left].
  destruct (last rows) as [r|] eqn:Hl.
  - exists r. split_and!; [done|done| |lia]. unfold is_empty.
    apply bool_decide_eq_false, uuid_String_nonempty.
  - apply last_None in Hl as ->. simpl in Hge. lia.
Qed.

Lemma last_max (l : list A) r x : StronglySorted id_lt l → last l = Some r → x ∈ l → x = r ∨ id_lt x r.
Proof.
  intros Hs. induction Hs as [|y l Hs IH Hy]; [done|]. rewrite last_cons.
  destruct (last l) as [z|] eqn:Hz; intros [= <-] [->|Hx]%elem_of_cons; auto.
  - right. rewrite Forall_forall in Hy. apply Hy. apply last_Some in Hz as [l' ->].
    apply elem_of_app. right. by left.
  - apply last_None in Hz as ->. by apply elem_of_nil in Hx.
Qed.

Lemma sorted_app (l k : list A) :
  StronglySorted id_lt l → StronglySorted id_lt k → (∀ x y, x ∈ l → y ∈ k → id_lt x y) →
  StronglySorted id_lt (l ++ k).
Proof.
  intros Hl Hk Hlk. induction Hl as [|x l Hl IH Hx]; [done|]. simpl. constructor.
  - apply IH. intros a b Ha. apply Hlk. by right.
  - apply Forall_app. split; [done|]. apply Forall_forall. intros y Hy. apply Hlk; [left|done].
Qed.

(** What a client that asks for every page has seen, whatever others did in between. *)
Record listed (dbs : nat → db) (k : nat) (pageID : option uuid) (pages : list (list A)) : Prop := {
  ls_sorted : StronglySorted id_lt (concat pages);
  ls_past : ∀ r, r ∈ concat pages → past pageID r;
  ls_sound : ∀ j rows r, pages !! j = Some rows → r ∈ rows → table (dbs (k + j)%nat) !! pk r = Some r ∧ P r;
  ls_full : ∀ j rows, pages !! j = Some rows →
    (length rows ≤ n)%nat ∧ ((S j < length pages)%nat → length rows = n);
  ls_complete : ∀ i, option_ok (λ i0, (i0 < i)%N) pageID →
    (∀ j, (j < length pages)%nat → ∃ r, table (dbs (k + j)%nat) !! i = Some r ∧ P r) →
    i ∈ pk <$> concat pages }.

Lemma list_all_listed dbs fuel k pageID pages :
  (∀ j, db_wf (dbs j)) →
  list_all (λ j, page (dbs j)) fuel k (token_of pageID) = Some pages → listed dbs k pageID pages.
Proof.
  intros W. revert k pageID pages. induction fuel as [|fuel IH]; intros k pageID pages; simpl; [done|].
  rewrite page_of. set (rows := page_rows P pageID n (dbs k)).
  assert (Hin : ∀ r, r ∈ rows → matching P pageID (dbs k) r) by (intros r; by apply page_rows_in).
  pose proof (page_rows_sorted P pageID n (dbs k) (W k)) as Hs. fold rows in Hs.
  assert (Hlen : (length rows ≤ n)%nat) by (unfold rows, page_rows; rewrite length_take; lia).
  assert (Hcomp : ∀ i r, table (dbs k) !! i = Some r → P r → option_ok (λ i0, (i0 < i)%N) pageID →
    i ∈ pk <$> rows ∨ length rows = n ∧ ∀ x, x ∈ rows → (pk x < i)%N).
  { intros i r Hr HP Hp. pose proof (tw_key _ (wf_table _ (W k)) _ _ Hr). subst i.
    destruct (page_rows_complete P pageID n (dbs k) r (W k)) as [Hi|[Hi Hx]]; [done| |by right].
    left. by apply list_elem_of_fmap_2. }
  destruct (next_token_spec rows Hlen) as [[-> Hlt]|(r & Hlast & -> & He & Hfull)].
  - intros [= <-]. split; simpl; rewrite ?app_nil_r; try done.
    + intros r Hr. by apply Hin.
    + intros [|j] rows' r; [|done]. intros [= <-] Hr. rewrite Nat.add_0_r.
      destruct (Hin r Hr) as (? & ? & ?). done.
    + intros [|j] rows'; [|done]. intros [= <-]. split; [done|lia].
    + intros i Hp Hi. destruct (Hi 0%nat) as (r & Hr & HP); [lia|]. rewrite Nat.add_0_r in Hr.
      destruct (Hcomp i r Hr HP Hp) as [?|[? _]]; [done|lia].
  - rewrite He. destruct (list_all _ fuel (S k) _) as [ps|] eqn:Hrest; [|done].
    intros [= <-]. apply IH in Hrest as [Hs' Hp' Hsound' Hfull' Hcomp'].
    assert (Hr : r ∈ rows) by (apply last_Some in Hlast as [l' ->]; apply elem_of_app; right; by left).
    split; simpl.
    + apply sorted_app; [done|done|]. intros x y Hx Hy. apply Hp' in Hy. simpl in Hy.
      unfold id_lt. destruct (last_max rows r x Hs Hlast Hx) as [->|Hlt]; [done|]. unfold id_lt in Hlt. lia.
    + intros x [Hx|Hx]%elem_of_app; [by apply Hin|]. apply Hp' in Hx. unfold past in *.
      destruct pageID as [i|]; simpl in *; [|done]. destruct (Hin r Hr) as (_ & _ & Hi). simpl in Hi. lia.
    + intros [|j] rows' x; simpl; intros Hj Hx; simplify_eq.
      * rewrite Nat.add_0_r. destruct (Hin x Hx) as (? & ? & ?). done.
      * rewrite <- Nat.add_succ_comm. by eapply Hsound'.
    + intros [|j] rows'; simpl; intros Hj; simplify_eq; [done|].
      destruct (Hfull' j rows' Hj) as [? Hf]. split; [done|]. intros. apply Hf. lia.
    + intros i Hp Hi. rewrite fmap_app. apply elem_of_app.
      destruct (Hi 0%nat) as (r0 & Hr0 & HP); [lia|]. rewrite Nat.add_0_r in Hr0.
      destruct (Hcomp i r0 Hr0 HP Hp) as [?|[_ Hall]]; [by left|right].
      apply Hcomp'; [simpl; by apply Hall|]. intros j Hj. rewrite Nat.add_succ_comm. apply Hi. lia.
Qed.

Lemma filter_length_lt {B} (Q Q' : B → Prop) `{∀ x, Decision (Q x)} `{∀ x, Decision (Q' x)} l x :
  (∀ y, Q' y → Q y) → x ∈ l → Q x → ¬ Q' x → (length (filter Q' l) < length (filter Q l))%nat.
Proof.
  intros Himp Hx HQ HQ'.
  assert (Hle : ∀ k, (length (filter Q' k) ≤ length (filter Q k))%nat).
  { induction k as [|y k IH]; [done|]. rewrite !filter_cons.
    repeat case_decide; simpl; try lia. exfalso. auto. }
  induction l as [|y l IH]; [by apply elem_of_nil in Hx|]. rewrite !filter_cons.
  apply elem_of_cons in Hx as [->|Hx].
  - specialize (Hle l). repeat case_decide; simpl; try lia; exfalso; auto.
  - specialize (IH Hx). repeat case_decide; simpl; try lia. exfalso. auto.
Qed.

(** When nobody interferes the listing ends. *)
Lemma list_all_ends d fuel k pageID :
  db_wf d → (length (rows_where (λ r : A, P r ∧ past pageID r) d) < fuel)%nat →
  is_Some (list_all (λ _, page d) fuel k (token_of pageID)).
Proof.
  intros W. revert k pageID. induction fuel as [|fuel IH]; intros k pageID Hf; [lia|]. simpl.
  rewrite page_of. set (rows := page_rows P pageID n d).
  assert (Hlen : (length rows ≤ n)%nat) by (unfold rows, page_rows; rewrite length_take; lia).
  destruct (next_token_spec rows Hlen) as [[-> Hlt]|(r & Hlast & -> & He & Hfull)]; [by eexists|].
  rewrite He. assert (Hr : r ∈ rows) by (apply last_Some in Hlast as [l' ->]; apply elem_of_app; right; by left).
  assert (Hm : matching P pageID d r) by by apply (page_rows_in P pageID n).
  destruct Hm as (Hr1 & HP & Hp).
  destruct (IH (S k) (Some (pk r))) as [ps ->]; [|by eexists].
  eapply Nat.lt_le_trans; [|apply Nat.lt_succ_r, Hf].
  apply (filter_length_lt (λ r, P r ∧ past pageID r) (λ x, P x ∧ past (Some (pk r)) x) _ r).
  - intros y [? Hy]. split; [done|]. unfold past in *. destruct pageID; simpl in *; [|done]. lia.
  - rewrite plan_perm, list_elem_of_fmap. exists (pk r, r). split; [done|]. by apply elem_of_map_to_list.
  - done.
  - intros [_ Hy]. simpl in Hy. lia.
Qed.

Lemma sorted_NoDup (l : list A) : StronglySorted id_lt l → NoDup (pk <$> l).
Proof.
  induction 1 as [|x l Hs IH Hx]; [constructor|]. rewrite fmap_cons. constructor; [|done].
  rewrite Forall_forall in Hx. intros (y & Heq & Hy)%list_elem_of_fmap. specialize (Hx y Hy).
  unfold id_lt in Hx. lia.
Qed.

Lemma in_concat_lookup {B} (x : B) ls : x ∈ concat ls → ∃ j l, ls !! j = Some l ∧ x ∈ l.
Proof.
  induction ls as [|l ls IH]; simpl; [by intros ?%elem_of_nil|].
  intros [Hx|(j & l' & ? & ?)%IH]%elem_of_app; [by exists 0%nat, l|by exists (S j), l'].
Qed.

(** The number of requests. *)
Lemma listed_requests d pages :
  listed (λ _, d) 0 None pages → pages ≠ [] →
  (length pages ≤ size (table d) / n + 1)%nat.
Proof.
  intros [Hs _ Hsound Hfull _] Hne. pose proof (effectivePageSize_bounds PageSize).
  assert (Hcount : (length (concat pages) ≤ size (table d))%nat).
  { rewrite <- (length_fmap pk), <- (size_list_to_set (C := gset uuid)), <- (size_dom (D := gset uuid)).
    - apply subseteq_size. intros i (r & -> & Hr)%elem_of_list_to_set%list_elem_of_fmap.
      apply in_concat_lookup in Hr as (j & rows & Hj & Hr).
      apply elem_of_dom. exists r. by eapply Hsound.
    - by apply sorted_NoDup. }
  assert (Hlen : ((length pages - 1) * n ≤ length (concat pages))%nat).
  { clear -Hfull. induction pages as [|rows pages IH]; [simpl; lia|].
    simpl. rewrite length_app. destruct pages as [|rows' pages]; [simpl; lia|].
    assert (length rows = n) by (apply (Hfull 0%nat); [done|simpl; lia]).
    assert (Hrest : ((length (rows' :: pages) - 1) * n ≤ length (concat (rows' :: pages)))%nat).
    { apply IH. intros j r Hj. destruct (Hfull (S j) r Hj) as [? Hf]. split; [done|].
      intros. apply Hf. simpl in *. lia. }
    simpl in *. lia. }
  assert (length pages - 1 ≤ size (table d) / n)%nat by (apply Nat.div_le_lower_bound; lia).
  destruct pages; [done|simpl in *; lia].
Qed.

(** ** The handlers

    Each [List] method returns one page, with its rows converted by some [f]. *)
Lemma list_tx_page token t :
  list_tx P PageSize token t =
    match page (tx_db t) token with Some x => Ok (x, t) | None => Err (StatusError InvalidArgument) end.
Proof.
  unfold page, list_tx, parse_token, mbind, M_bind. destruct (is_empty token); [done|].
  by destruct (uuid_Parse token).
Qed.

Definition convert {B} (f : A → B) (x : list A * string) : list B * string := (f <$> x.1, x.2).
Lemma list_all_convert {B} (f : A → B) call dbs fuel k token :
  (∀ j token, call j token = fmap (M := option) (convert f) (page (dbs j) token)) →
  list_all call fuel k token =
    fmap (M := option) (fmap (M := list) (fmap (M := list) f)) (list_all (λ j, page (dbs j)) fuel k token).
Proof.
  intros Hcall. revert k token. induction fuel as [|fuel IH]; intros k token; simpl; [done|].
  rewrite Hcall. destruct (page (dbs k) token) as [[rows next]|]; simpl; [|done].
  destruct (is_empty next); simpl; [done|]. rewrite IH. by destruct (list_all _ fuel (S k) next).
Qed.

(** What the client of a [List] method gets to see of the rows [P] selects, when the database
    is [dbs j] at its [j]-th request. *)
Definition lists {B} (f : A → B) (dbs : nat → db) (pages : list (list B)) : Prop :=
  ∃ rows : list (list A), pages = fmap (M := list) (fmap (M := list) f) rows ∧
    NoDup (pk <$> concat rows) ∧
    (∀ j l r, rows !! j = Some l → r ∈ l → table (dbs j) !! pk r = Some r ∧ P r) ∧
    (∀ j l, rows !! j = Some l → (length l ≤ n)%nat) ∧
    (∀ i, (∀ j, (j < length rows)%nat → ∃ r, table (dbs j) !! i = Some r ∧ P r) →
      i ∈ pk <$> concat rows).

Lemma list_method_lists {B} (f : A → B) call dbs fuel pages :
  (∀ j token, call j token = fmap (M := option) (convert f) (page (dbs j) token)) → (∀ j, db_wf (dbs j)) →
  list_all call fuel 0 EmptyString = Some pages → lists f dbs pages.
Proof.
  intros Hcall W. rewrite (list_all_convert f call dbs) by done.
  intros (rows & Hrows & ->)%fmap_Some.
  apply (list_all_listed dbs fuel 0 None) in Hrows as [Hs _ Hsound Hfull Hcomp]; [|done].
  exists rows. split_and!; [done|by apply sorted_NoDup|by apply Hsound|by intros j l []%Hfull|].
  intros i Hi. by apply Hcomp.
Qed.
Lemma list_method_ends {B} (f : A → B) call d :
  (∀ j token, call j token = fmap (M := option) (convert f) (page d token)) → db_wf d →
  ∃ pages, list_all call (S (size (table d))) 0 EmptyString = Some pages ∧
    (length pages ≤ size (table d) / n + 1)%nat.
Proof.
  intros Hcall W. rewrite (list_all_convert f call (λ _, d)) by done.
  destruct (list_all_ends d (S (size (table d))) 0 None W) as [rows Hrows].
  { apply Nat.lt_succ_r. unfold rows_where. etrans; [apply length_filter|].
    by rewrite plan_perm, length_fmap, length_map_to_list. }
  change (token_of None) with EmptyString in Hrows. rewrite Hrows. eexists. split; [reflexivity|].
  rewrite length_fmap. apply listed_requests; [by eapply (list_all_listed (λ _, d))|].
  intros ->. revert Hrows. simpl. destruct (is_empty _); [done|].
  by destruct (list_all _ _ _ _).
Qed.
End Pages.

(** ** Segments of names *)

Lemma split_slash_nonempty s : ∃ seg segs, split_slash s = seg :: segs.
Proof.
  induction s as [|c s (seg & segs & IH)]; simpl; [eauto|]. case_decide; [eauto|]. rewrite IH. eauto.
Qed.
Lemma split_slash_app a b : split_slash (a +:+ String "/" b) = split_slash a ++ split_slash b.
Proof.
  induction a as [|c a IH]; simpl; [done|]. rewrite IH. case_decide; [done|].
  by destruct (split_slash_nonempty a) as (seg & segs & ->).
Qed.
Lemma prefix_app p s : String.prefix p s = true → ∃ r, s = p +:+ r.
Proof.
  revert s. induction p as [|c p IH]; intros s; simpl; [by eauto|].
  destruct s as [|c' s]; [done|]. simpl. destruct (ascii_dec c c') as [->|]; [|done].
  intros (r & ->)%IH. by exists r.
Qed.
Lemma has_shape_segments kind name :
  has_shape kind name = true ↔
  ∃ p r, split_slash name = ["projects"; p; kind; r] ∧ p ≠ EmptyString ∧ r ≠ EmptyString.
Proof.
  unfold has_shape. split.
  - destruct (split_slash name) as [|s0 [|s1 [|s2 [|s3 [|]]]]]; try done. unfold is_empty.
    intros. bool_props. subst. eauto.
  - intros (p & r & -> & Hp & Hr). unfold is_empty.
    rewrite (bool_decide_false (p = _)), (bool_decide_false (r = _)) by done.
    by rewrite !bool_decide_true.
Qed.
Lemma has_shape_nonempty kind name : has_shape kind name = true → name ≠ EmptyString.
Proof. by intros H ->. Qed.
