(* ===== verification/Publisher.v ===== *)
(** * The publisher service

    [src/services/grpc-publisher.go]: one definition per method, from the request to the
    response and the world it leaves.  The transaction a method runs itself is its
    [..._tx]; the others run an action of [Lifecycle].  Requests hold the fields that are used:
    of the fields of a topic that are refused, whether they are set. *)

From S2P Require Import Prelude Uuid Filter FilterParse Schema Notify Store Example Deliver.
From S2P Require Import Lifecycle Rpc.

Record PbTopic := MkPbTopic {
  pt_Name : string; pt_Labels : labels;
  pt_MessageStoragePolicy : bool; pt_KmsKeyName : string; pt_SchemaSettings : bool }.
Definition entTopicToGrpc (t : topic) : PbTopic := MkPbTopic (t_name t) (t_labels t) false EmptyString false.

Record ListTopicsRequest := MkListTopics { lt_Project : string; lt_PageSize : Z; lt_PageToken : string }.
Record UpdateTopicRequest := MkUpdateTopic { ut_Topic : option PbTopic; ut_Paths : list string }.
Record ListTopicSubscriptionsRequest := MkListTopicSubs {
  lts_Topic : string; lts_PageSize : Z; lts_PageToken : string }.
Record PubsubMessage := MkPubsubMessage { Data : string; pm_Attrs : Attributes; OrderingKey : string }.
Record PublishRequest := MkPublishRequest { pr_Topic : string; pr_Messages : list PubsubMessage }.

Definition topic_in_project (project : string) (t : topic) : Prop :=
  String.prefix (projectTopicPrefix project) (t_name t) = true ∧ t_deletedAt t = None.
#[export] Instance topic_in_project_dec project t : Decision (topic_in_project project t).
Proof. unfold topic_in_project. apply _. Defined.

Section Publisher.
Context {E : Engine} {FP : FilterParser} {U : UuidText}.

Definition ListTopics_tx (req : ListTopicsRequest) : Tx (list PbTopic * string) :=
  list_tx (topic_in_project (lt_Project req)) (lt_PageSize req) (lt_PageToken req) ≫= λ '(topics, next),
  mret (entTopicToGrpc <$> topics, next).
Definition ListTopics (req : ListTopicsRequest) (committed : outcome ()) (w : world)
  : outcome (list PbTopic * string) * world :=
  if negb (String.prefix "projects/" (lt_Project req)) then (invalid, w)
  else DoTx committed (ListTopics_tx req) w.

Definition create_status (e : error) : error :=
  if bool_decide (e = ErrExists) then StatusError AlreadyExists
  else if IsPostgreSQLErrorCode e SerializationFailure then StatusError Aborted
  else AsStatusError e.

Definition CreateTopic (req : PbTopic) (committed : outcome ()) (now : time) (w : world)
  : outcome PbTopic * world :=
  if negb (isValidTopicName (pt_Name req)) then (invalid, w)
  else if pt_MessageStoragePolicy req || negb (is_empty (pt_KmsKeyName req)) || pt_SchemaSettings req then
    (Err (StatusError Unimplemented), w)
  else
    match NewCreateTopic (MkCreateTopic (pt_Name req) (pt_Labels req)) with
    | Ok p =>
        let '(res, w) := DoTx committed (CreateTopic_Execute p now) w in
        (map_error create_status res ≫= λ _, Ok req, w)
    | Err e => (Err e, w)
    | Panic s => (Panic s, w)
    end.

(** The query for the one live topic of a name. *)
Definition topic_by_name (name : string) : Tx topic := Only (live_topic_named name).

Definition GetTopic_tx (name : string) : Tx PbTopic := topic_by_name name ≫= λ t, mret (entTopicToGrpc t).
Definition GetTopic (name : string) (committed : outcome ()) (w : world) : outcome PbTopic * world :=
  if negb (isValidTopicName name) then (invalid, w)
  else
    let '(res, w) := DoTx committed (GetTopic_tx name) w in
    (map_error not_found_status res, w).

(** The loop over the field mask: the labels to set, if any. *)
Fixpoint topic_update (t : PbTopic) (paths : list string) (set : option labels) : outcome (option labels) :=
  match paths with
  | [] => Ok set
  | p :: paths =>
      if bool_decide (p = "name") then Err (StatusError InvalidArgument)
      else if bool_decide (p = "labels") then topic_update t paths (Some (pt_Labels t))
      else if bool_decide (p ∈ ["message_storage_policy"; "kms_key_name"; "schema_settings"; "satisfies_pzs"])
      then Err (StatusError Unimplemented)
      else Err (StatusError InvalidArgument)
  end.

(** [None]: nothing was to be changed, and the response is nil. *)
Definition UpdateTopic_tx (req : PbTopic) (paths : list string) : Tx (option PbTopic) :=
  on_error (topic_by_name (pt_Name req)) not_found_status ≫= λ t,
  lift (topic_update req paths None) ≫= λ set,
  match set with
  | None => mret None
  | Some l =>
      on_error (hooked other_mutation (UpdateOneID (t_id t) (topic_set_labels l)))
        (λ _, StatusError Unknown) ≫= λ _,
      NotifyModifyTopic (t_id t) (t_name t) ≫= λ _,
      mret (Some (entTopicToGrpc (topic_set_labels l t)))
  end.
Definition UpdateTopic (req : UpdateTopicRequest) (committed : outcome ()) (w : world)
  : outcome (option PbTopic) * world :=
  match ut_Topic req with
  | None => (Panic "nil pointer dereference", w)
  | Some t =>
      if negb (isValidTopicName (pt_Name t)) then (invalid, w)
      else DoTx committed (UpdateTopic_tx t (ut_Paths req)) w
  end.

Definition DeleteTopic (name : string) (committed : outcome ()) (now : time) (w : world)
  : outcome () * world :=
  if negb (isValidTopicName name) then (invalid, w)
  else
    let '(res, w) := DoTx committed (DeleteTopic_Execute name now) w in
    (map_error not_found_status res ≫= λ _, Ok (), w).

Definition ListTopicSubscriptions_tx (req : ListTopicSubscriptionsRequest) : Tx (list string * string) :=
  on_error (topic_by_name (lts_Topic req)) not_found_status ≫= λ t,
  list_tx (live_sub_of (t_id t)) (lts_PageSize req) (lts_PageToken req) ≫= λ '(subs, next),
  mret (s_name <$> subs, next).
Definition ListTopicSubscriptions (req : ListTopicSubscriptionsRequest) (committed : outcome ()) (w : world)
  : outcome (list string * string) * world :=
  if negb (isValidTopicName (lts_Topic req)) then (invalid, w)
  else DoTx committed (ListTopicSubscriptions_tx req) w.

(** The [i]-th message is published at [now i]. *)
Definition publish_params (t : topic) (m : PubsubMessage) : PublishMessageParams :=
  MkPublish (t_name t) (Some (t_id t)) (Data m) (pm_Attrs m) (OrderingKey m).
Definition publish_nth (t : topic) (now : nat → time) (im : nat * PubsubMessage) : Tx uuid :=
  lift (NewPublishMessage (publish_params t im.2)) ≫= λ p,
  on_error (PublishMessage_Execute p (now im.1)) AsStatusError ≫= λ results,
  mret (pr_ID results).
Definition Publish_tx (req : PublishRequest) (now : nat → time) : Tx (list uuid) :=
  on_error (topic_by_name (pr_Topic req)) not_found_status ≫= λ t,
  traverseM (imap pair (pr_Messages req)) (publish_nth t now).
Definition Publish (req : PublishRequest) (committed : outcome ()) (now : nat → time) (w : world)
  : outcome (list string) * world :=
  if negb (isValidTopicName (pr_Topic req)) then (invalid, w)
  else
    let '(ids, w) := DoTx committed (Publish_tx req now) w in
    (map_ok (fmap uuid_String) ids, w).
End Publisher.

(** ** Publishing *)

Section Publish_run.
Context {E : Engine} {FP : FilterParser} {U : UuidText}.

Lemma topic_by_name_run name t :
  db_wf (tx_db t) →
  (∀ tp, topics (tx_db t) !! t_id tp = Some tp → ¬ live_topic_named name tp) ∧
    topic_by_name name t = Err EntNotFound ∨
  ∃ tp, topics (tx_db t) !! t_id tp = Some tp ∧ live_topic_named name tp ∧ topic_by_name name t = Ok (tp, t).
Proof.
  intros W. unfold topic_by_name, Only, All, mbind, M_bind, gets.
  destruct (live_topics_named name _ W) as [Hn|(tp & Hn & Htp & Hl)]; rewrite Hn; simpl; [left|right].
  - split; [|done]. intros tp Htp. by eapply rows_named_none.
  - by exists tp.
Qed.

(** The message a request's message becomes. *)
Definition made_from (tp : topic) (m : PubsubMessage) (m' : message) : Prop :=
  m_topicID m' = t_id tp ∧ stored_json (Data m) = Some (m_payload m') ∧ m_attributes m' = pm_Attrs m ∧
  m_orderKey m' = (if bool_decide (OrderingKey m = EmptyString) then None else Some (OrderingKey m)).

(** The database after the messages [ms] were published to [tp]. *)
Record published_all (d d' : db) (tp : topic) (ms : list message) : Prop := {
  pa_nodup : NoDup (m_id <$> ms);
  pa_messages : ∀ k m, messages d' !! k = Some m ↔ messages d !! k = Some m ∨ m ∈ ms ∧ m_id m = k;
  pa_new : ∀ m, m ∈ ms → messages d !! m_id m = None;
  pa_delivered : ∀ m s, m ∈ ms → subscriptions d !! s_id s = Some s → s_topicID s = t_id tp →
    s_deletedAt s = None → passes s m = true →
    ∃ e, deliveries d' !! d_id e = Some e ∧ d_messageID e = m_id m ∧ d_subscriptionID e = s_id s ∧
      d_completedAt e = None ∧ d_attempts e = 0 ∧
      ∀ k e', deliveries d' !! k = Some e' → d_messageID e' = m_id m → d_subscriptionID e' = s_id s →
        k = d_id e;
  pa_only : ∀ k e, deliveries d' !! k = Some e → deliveries d !! k = Some e ∨
    ∃ m s, m ∈ ms ∧ d_messageID e = m_id m ∧ subscriptions d !! s_id s = Some s ∧
      d_subscriptionID e = s_id s ∧ s_topicID s = t_id tp ∧ s_deletedAt s = None ∧ passes s m = true;
  pa_kept : ∀ k e, deliveries d !! k = Some e → deliveries d' !! k = Some e;
  pa_others : topics d' = topics d ∧ subscriptions d' = subscriptions d ∧ snapshots d' = snapshots d }.

Lemma published_all_nil d tp : published_all d d tp [].
Proof.
  split; try done; try (by intros ? ?%elem_of_nil); try (by intros ? ? ?%elem_of_nil).
  - constructor.
  - intros k m. rewrite elem_of_nil. naive_solver.
  - naive_solver.
Qed.

Lemma published_all_cons d d1 d' tp now m subs ms :
  db_wf d → m_topicID m = t_id tp → published d d1 now m subs → published_all d1 d' tp ms →
  published_all d d' tp (m :: ms).
Proof.
  intros W Hm [Hnew Hmsgs Hnd Hsubs Hdel Honly Honce Hkept (Ht & Hs & Hn)]
    [And Amsgs Anew Adel Aonly Akept (At & As & An)].
  assert (Hfresh : ∀ m', m' ∈ ms → messages d1 !! m_id m' = None) by done.
  assert (Hne : m_id m ∉ m_id <$> ms).
  { intros (m' & Heq & Hm')%list_elem_of_fmap. specialize (Hfresh m' Hm').
    rewrite <- Heq, Hmsgs, lookup_insert_eq in Hfresh. done. }
  rewrite Hs in Adel, Aonly.
  assert (Hold : ∀ k e, deliveries d !! k = Some e → is_Some (messages d !! d_messageID e)).
  { intros k e He. by destruct (tw_fk _ (wf_deliveries _ W) _ _ He). }
  split; try by split_and!; congruence.
  - rewrite fmap_cons. by constructor.
  - intros k m'. rewrite Amsgs, Hmsgs, lookup_insert_Some, elem_of_cons. split; [|intros [?|[[->|?] ?]]].
    + naive_solver.
    + left. right. split; [intros <-; congruence|done].
    + left. by left.
    + by right.
  - intros m' [->|Hm']%elem_of_cons; [done|]. apply Hfresh in Hm'. rewrite Hmsgs in Hm'.
    by apply lookup_insert_None in Hm' as [? _].
  - intros m' s [->|Hm']%elem_of_cons Hst Hsm Hsd Hp; [|by eapply Adel].
    destruct (Hdel s) as (e & He & _ & Hes & Hem & Hec & Hea & _); [apply Hsubs; by rewrite Hm|].
    exists e. split_and!; [by apply Akept|done..|].
    intros k e' [He'|(m' & s' & Hm' & Hmm & _)]%Aonly Hme Hse.
    + eapply Honce; [exact He'|exact He|done|done|congruence].
    + exfalso. apply Hne. rewrite <- Hme, Hmm. by apply list_elem_of_fmap_2.
  - intros k e [He|(m' & s & Hm' & ?)]%Aonly.
    + apply Honly in He as [?|(Hem & s & [Hst (? & ? & ?)]%Hsubs & Hes)]; [by left|right].
      exists m, s. split_and!; [by left|done..|congruence|done|done].
    + right. exists m', s. split; [by right|done].
  - intros k e He. by apply Akept, Hkept.
Qed.

Lemma publish_loop tp now l t :
  db_wf (tx_db t) → fresh_uuids (tx_db t) (tx_fresh t) →
  topics (tx_db t) !! t_id tp = Some tp → t_deletedAt tp = None →
  Forall (λ im : nat * PubsubMessage, is_Some (stored_json (Data im.2))) l →
  ∃ ms t', traverseM l (publish_nth tp now) t = Ok (m_id <$> ms, t') ∧
    Forall2 (made_from tp) (snd <$> l) ms ∧ published_all (tx_db t) (tx_db t') tp ms ∧
    db_wf (tx_db t') ∧ fresh_uuids (tx_db t') (tx_fresh t').
Proof.
  revert t. induction l as [|[i m] l IH]; intros t W Fr Htp Hlive Hj.
  { exists [], t. split_and!; [done|constructor|apply published_all_nil|done|done]. }
  apply Forall_cons in Hj as [[text Htext] Hj]. simpl in Htext.
  destruct (PublishMessage_run (publish_params tp m) (now i) t tp text W Fr) as
    (t1 & subs & Hrun & Hpub & W1 & Fr1 & _); [|done|].
  { rewrite (rows_where_key _ _ (t_id tp)); [|done|by intros r (_ & <- & _)].
    simpl. rewrite Htp, decide_True; [done|]. split_and!; [done|done|by right]. }
  set (m' := new_message _ _ _ _ _) in *.
  destruct (IH t1 W1 Fr1) as (ms & t' & Hrun' & Hms & Hall & W' & Fr'); [|done|done|].
  { by rewrite (proj1 (pu_others _ _ _ _ _ Hpub)). }
  exists (m' :: ms), t'. split_and!; [|constructor; [done|exact Hms]| |done|done].
  - simpl. rewrite (bind_step _ _ t (m_id m') t1).
    + by rewrite (bind_step _ _ _ _ _ Hrun').
    + unfold publish_nth. rewrite (bind_step _ _ t (publish_params tp m) t).
      * rewrite (bind_step _ _ t (MkPublished (m_id m') (length subs)) t1); [done|].
        unfold on_error. simpl. by rewrite Hrun.
      * unfold lift, NewPublishMessage. simpl. by rewrite andb_false_r.
  - by eapply published_all_cons.
Qed.

(** The loop stops at the first message that is not JSON. *)
Lemma publish_loop_fails tp now l t :
  db_wf (tx_db t) → fresh_uuids (tx_db t) (tx_fresh t) →
  topics (tx_db t) !! t_id tp = Some tp → t_deletedAt tp = None →
  ¬ Forall (λ im : nat * PubsubMessage, is_Some (stored_json (Data im.2))) l →
  traverseM l (publish_nth tp now) t = Err (StatusError Unknown).
Proof.
  intros W Fr Htp Hlive Hj.
  assert (Hsplit : ∃ l1 im l2, l = l1 ++ im :: l2 ∧ stored_json (Data im.2) = None ∧
    Forall (λ im : nat * PubsubMessage, is_Some (stored_json (Data im.2))) l1).
  { clear -Hj. induction l as [|im l IH]; [exfalso; apply Hj; constructor|].
    destruct (stored_json (Data im.2)) eqn:Hs; [|by exists [], im, l].
    destruct IH as (l1 & im' & l2 & -> & ? & ?); [|exists (im :: l1), im', l2; split_and!; [done|done|constructor; eauto]].
    intros Hl. apply Hj. constructor; eauto. }
  destruct Hsplit as (l1 & [i m] & l2 & -> & Hnone & Hl1).
  destruct (publish_loop tp now l1 t W Fr Htp Hlive Hl1) as (ms & t1 & Hrun & _ & Hall & W1 & Fr1).
  assert (Hlast : publish_nth tp now (i, m) t1 = Err (StatusError Unknown)).
  { unfold publish_nth. rewrite (bind_step _ _ t1 (publish_params tp m) t1).
    - apply bind_err. unfold on_error. simpl.
      erewrite (PublishMessage_not_json _ _ _ tp); [done| |done].
      rewrite (rows_where_key _ _ (t_id tp)); [|done|by intros r (_ & <- & _)].
      simpl. destruct (pa_others _ _ _ _ Hall) as [-> _]. rewrite Htp, decide_True; [done|].
      split_and!; [done|done|by right].
    - unfold lift, NewPublishMessage. simpl. by rewrite andb_false_r. }
  by eapply traverseM_fails.
Qed.
End Publish_run.

(** ** Theorems *)

Section Publisher_spec.
Context {E : Engine} {FP : FilterParser} {U : UuidText}.

Definition unchanged (w w' : world) : Prop := w_db w' = w_db w ∧ w_reg w' = w_reg w.

(** C5 [Publish] is all or nothing.  Without a live topic of the name it answers
    NOT_FOUND; if any payload is not JSON it answers UNKNOWN, and in both cases no row and no
    waiter changes, also for the messages before the bad one.  Otherwise there is one message
    per message of the request, in order, whose ids the response lists; every live subscription
    of the topic whose filter lets a message through gets exactly one delivery of it and there
    are no other new deliveries. *)
Theorem Publish_all_or_nothing req now w :
  world_wf w → fresh_uuids (w_db w) (w_fresh w) → isValidTopicName (pr_Topic req) = true →
  let '(res, w') := Publish req (Ok ()) now w in
  ((∀ tp, topics (w_db w) !! t_id tp = Some tp → ¬ live_topic_named (pr_Topic req) tp) ∧
     res = Err (StatusError NotFound) ∧ unchanged w w') ∨
  ∃ tp, topics (w_db w) !! t_id tp = Some tp ∧ live_topic_named (pr_Topic req) tp ∧
    ((∃ m, m ∈ pr_Messages req ∧ stored_json (Data m) = None) ∧
       res = Err (StatusError Unknown) ∧ unchanged w w' ∨
     ∃ ms, res = Ok (uuid_String <$> (m_id <$> ms)) ∧ Forall2 (made_from tp) (pr_Messages req) ms ∧
       published_all (w_db w) (w_db w') tp ms ∧ world_wf w').
Proof.
  intros [W Wr] Fr Hname. unfold Publish. rewrite Hname. simpl negb. cbv iota.
  destruct (DoTx (Ok ()) (Publish_tx req now) w) as [ids w'] eqn:Hd.
  set (t := txn_of w).
  assert (Hsnd : snd <$> imap pair (pr_Messages req) = pr_Messages req).
  { rewrite fmap_imap. simpl. apply list_eq. intros i. rewrite list_lookup_imap.
    by destruct (pr_Messages req !! i). }
  destruct (topic_by_name_run (pr_Topic req) t W) as [[Hno Hrun]|(tp & Htp & Hl & Hrun)]; [left|right].
  - rewrite (DoTx_fail _ _ _ (StatusError NotFound)) in Hd; [by simplify_eq|].
    unfold Publish_tx. apply bind_err. unfold on_error. fold t. by rewrite Hrun.
  - exists tp. split; [done|]. split; [done|]. destruct Hl as [Hn Hdel].
    assert (Hstart : Publish_tx req now t = traverseM (imap pair (pr_Messages req)) (publish_nth tp now) t).
    { unfold Publish_tx. rewrite (bind_step _ _ t tp t); [done|]. unfold on_error. by rewrite Hrun. }
    destruct (decide (Forall (λ im : nat * PubsubMessage, is_Some (stored_json (Data im.2)))
      (imap pair (pr_Messages req)))) as [Hj|Hj]; [right|left].
    + destruct (publish_loop tp now _ t W Fr Htp Hdel Hj) as (ms & t' & Hloop & Hms & Hall & W' & _).
      rewrite <- Hstart in Hloop. destruct (DoTx_run _ w _ _ Wr Hloop) as (r & Hd' & Wr' & _).
      rewrite Hd' in Hd. simplify_eq. exists ms. rewrite Hsnd in Hms. by split_and!.
    + split_and!; [|rewrite (DoTx_fail _ _ _ (StatusError Unknown)) in Hd;
        [by simplify_eq|fold t; rewrite Hstart; by apply publish_loop_fails]..].
      apply not_Forall_Exists, Exists_exists in Hj as ([i m] & Hin & Hm); [|intros ?; apply _].
      exists m. split; [rewrite <- Hsnd; by apply (list_elem_of_fmap_2 snd _ _ Hin)|].
      by apply eq_None_not_Some.
Qed.

Lemma ListTopics_page req w :
  registry_wf (w_reg w) → String.prefix "projects/" (lt_Project req) = true →
  match (ListTopics req (Ok ()) w).1 with Ok x => Some x | _ => None end =
    fmap (M := option) (convert entTopicToGrpc)
      (page (topic_in_project (lt_Project req)) (lt_PageSize req) (w_db w) (lt_PageToken req)).
Proof.
  intros Wr Hp. unfold ListTopics. rewrite Hp. simpl negb. cbv iota.
  pose proof (list_tx_page (topic_in_project (lt_Project req)) (lt_PageSize req) (lt_PageToken req)
    (txn_of w)) as Hl. simpl tx_db in Hl. destruct (page _ _ _ _) as [[topics next]|].
  - assert (Hrun : ListTopics_tx req (txn_of w) = Ok ((entTopicToGrpc <$> topics, next), txn_of w)).
    { unfold ListTopics_tx. by rewrite (bind_step _ _ _ _ _ Hl). }
    by destruct (DoTx_run _ w _ _ Wr Hrun) as (r & -> & _).
  - rewrite (DoTx_fail _ _ _ (StatusError InvalidArgument)); [done|]. unfold ListTopics_tx.
    by rewrite (bind_err _ _ _ _ Hl).
Qed.

Definition list_topics_call (project : string) (PageSize : Z) (ws : nat → world) (j : nat) (token : string)
  : option (list PbTopic * string) :=
  match (ListTopics (MkListTopics project PageSize token) (Ok ()) (ws j)).1 with
  | Ok x => Some x
  | _ => None
  end.

(** C34 If the database does not change, a client that follows the page tokens of [ListTopics]
    comes to an end, after at most one request per full page and one more.  If a client comes to
    an end, whatever happened to the database between its requests, it has got pages of at most
    [PageSize] (and 100) topics, never the same topic twice, each one live and in the project at
    that moment, and every topic that was live in the project all the time. *)
Theorem ListTopics_pages project PageSize ws :
  String.prefix "projects/" project = true → (∀ j, world_wf (ws j)) →
  let call := list_topics_call project PageSize ws in
  (∀ fuel pages, list_all call fuel 0 EmptyString = Some pages →
     lists (topic_in_project project) PageSize entTopicToGrpc (λ j, w_db (ws j)) pages) ∧
  (∀ d, (∀ j, w_db (ws j) = d) →
     ∃ pages, list_all call (S (size (topics d))) 0 EmptyString = Some pages ∧
       (length pages ≤ size (topics d) / effectivePageSize PageSize + 1)%nat).
Proof.
  intros Hp W call.
  assert (Hcall : ∀ j token, call j token = fmap (M := option) (convert entTopicToGrpc)
    (page (topic_in_project project) PageSize (w_db (ws j)) token)).
  { intros j token. by apply (ListTopics_page (MkListTopics project PageSize token)), Hp; destruct (W j). }
  split.
  - intros fuel pages. apply (list_method_lists (topic_in_project project) PageSize entTopicToGrpc call); [done|]. intros j. by destruct (W j).
  - intros d Hd. assert (Wd : db_wf d) by (rewrite <- (Hd 0%nat); by destruct (W 0%nat)).
    refine (list_method_ends (topic_in_project project) PageSize entTopicToGrpc call d _ Wd).
    intros j token. by rewrite Hcall, Hd.
Qed.

Definition unsupported_paths : list string :=
  ["message_storage_policy"; "kms_key_name"; "schema_settings"; "satisfies_pzs"].

Lemma topic_update_labels t paths set :
  Forall (λ p, p = "labels") paths →
  topic_update t paths set = Ok (match paths with [] => set | _ => Some (pt_Labels t) end).
Proof.
  intros Hp. revert set. induction Hp as [|p paths -> Hp IH]; intros set; [done|].
  simpl. rewrite IH. by destruct paths.
Qed.
Lemma topic_update_other t l1 p l2 set :
  Forall (λ p, p = "labels") l1 → p ≠ "labels" →
  topic_update t (l1 ++ p :: l2) set =
    Err (StatusError (if decide (p ∈ unsupported_paths) then Unimplemented else InvalidArgument)).
Proof.
  intros Hl Hp. revert set. induction Hl as [|q l1 -> Hl IH]; intros set; simpl; [|apply IH].
  rewrite (bool_decide_false (p = "labels")) by done. unfold unsupported_paths.
  destruct (decide (p = "name")) as [->|Hn]; [done|]. rewrite (bool_decide_false (p = "name")) by done.
  case_bool_decide; [by rewrite decide_True|by rewrite decide_False].
Qed.

(** [UpdateTopic] changes the labels of the live topic of the name and nothing else, if the
    mask names only them; the first other path of the mask decides the error and nothing
    changes.  With an empty mask the response is nil although the topic exists. *)
Theorem UpdateTopic_spec req paths w :
  world_wf w → isValidTopicName (pt_Name req) = true →
  let '(res, w') := UpdateTopic (MkUpdateTopic (Some req) paths) (Ok ()) w in
  ((∀ tp, topics (w_db w) !! t_id tp = Some tp → ¬ live_topic_named (pt_Name req) tp) →
     res = Err (StatusError NotFound) ∧ unchanged w w') ∧
  ∀ tp, topics (w_db w) !! t_id tp = Some tp → live_topic_named (pt_Name req) tp →
    (paths = [] → res = Ok None ∧ unchanged w w') ∧
    (paths ≠ [] → Forall (λ p, p = "labels") paths →
       let tp' := topic_set_labels (pt_Labels req) tp in
       res = Ok (Some (entTopicToGrpc tp')) ∧
       w_db w' = with_topics (<[t_id tp := tp']> (topics (w_db w))) (w_db w) ∧ world_wf w') ∧
    (∀ l1 p l2, paths = l1 ++ p :: l2 → Forall (λ p, p = "labels") l1 → p ≠ "labels" →
       res = Err (StatusError (if decide (p ∈ unsupported_paths) then Unimplemented else InvalidArgument)) ∧
       unchanged w w').
Proof.
  intros [W Wr] Hname. unfold UpdateTopic. simpl ut_Topic. cbv iota beta. rewrite Hname. simpl negb. cbv iota.
  destruct (DoTx (Ok ()) (UpdateTopic_tx req (ut_Paths (MkUpdateTopic (Some req) paths))) w)
    as [res w'] eqn:Hd. simpl ut_Paths in Hd.
  destruct (topic_by_name_run (pt_Name req) (txn_of w) W) as [[Hno Hrun]|(tp0 & Htp & Hl & Hrun)].
  { rewrite (DoTx_fail _ _ _ (StatusError NotFound)) in Hd; [simplify_eq|].
    - split; [done|]. intros tp Htp Hl. by destruct (Hno tp).
    - unfold UpdateTopic_tx. apply bind_err. unfold on_error.
      by rewrite Hrun. }
  split; [intros Hno; by destruct (Hno tp0)|].
  assert (Hstart : ∀ o, topic_update req paths None = o →
    UpdateTopic_tx req paths (txn_of w) = (lift o ≫= λ set,
      match set with
      | None => mret None
      | Some l =>
          on_error (hooked other_mutation (UpdateOneID (t_id tp0) (topic_set_labels l)))
            (λ _, StatusError Unknown) ≫= λ _,
          NotifyModifyTopic (t_id tp0) (t_name tp0) ≫= λ _,
          mret (Some (entTopicToGrpc (topic_set_labels l tp0)))
      end) (txn_of w)).
  { intros o <-. unfold UpdateTopic_tx. rewrite (bind_step _ _ (txn_of w) tp0 (txn_of w)); [done|].
    unfold on_error. by rewrite Hrun. }
  intros tp Htp' Hl'. assert (tp = tp0) as ->.
  { unfold topic_by_name, Only, All, mbind, M_bind, gets in Hrun. simpl in Hrun.
    assert (Hin : tp ∈ rows_where (live_topic_named (pt_Name req)) (w_db w)) by by apply elem_of_rows_wf.
    destruct (rows_where _ _) as [|x [|]]; simpl in Hrun; simplify_eq. by apply list_elem_of_singleton in Hin. }
  split_and!.
  - intros ->. destruct (DoTx_run (UpdateTopic_tx req []) w None (txn_of w) Wr) as (r & Hd' & Wr' & Hh).
    { by rewrite (Hstart (Ok None)). }
    rewrite Hd' in Hd. simplify_eq. simpl in Hh. injection Hh as <-. done.
  - intros Hne Hall. set (tp' := topic_set_labels (pt_Labels req) tp0).
    destruct (UpdateOneID_run (λ _, True) (topic_set_labels (pt_Labels req))
      (t_id tp0) tp0 (txn_of w)) as [Hu Wu]; [|done|done|done|].
    { apply topic_harmless; intros x; [done|by left]. }
    destruct (DoTx_run (UpdateTopic_tx req paths) w (Some (entTopicToGrpc tp'))
      (add_hooks [NotifyTopic (t_id tp0) (t_name tp0)]
        (with_db (with_topics (<[t_id tp0 := tp']> (topics (w_db w))) (w_db w)) (txn_of w))) Wr)
      as (r & Hd' & Wr' & _).
    { rewrite (Hstart (Ok (Some (pt_Labels req)))) by (rewrite topic_update_labels by done; by destruct paths).
      rewrite (bind_step _ _ _ (Some (pt_Labels req)) (txn_of w)) by done.
      erewrite (bind_step _ _ (txn_of w)); [reflexivity|]. unfold on_error, hooked. simpl.
      by rewrite Hu. }
    rewrite Hd' in Hd. simplify_eq. done.
  - intros l1 p l2 -> Hl1 Hp.
    rewrite (DoTx_fail _ _ _ (StatusError (if decide (p ∈ unsupported_paths) then Unimplemented
      else InvalidArgument))) in Hd; [by simplify_eq|].
    by rewrite (Hstart _ (topic_update_other req l1 p l2 None Hl1 Hp)).
Qed.
End Publisher_spec.

(** ** Witnesses *)

Definition rpc_topic (id : uuid) (name : string) : topic :=
  MkTopic id ("projects/p/topics/" +:+ name) 0 (Some true) None ∅.
Definition rpc_sub : subscription :=
  MkSubscription 11 1 "projects/p/subscriptions/s" 0 1000000 (Some true) None 1000000 5000 false ∅
    None None None None None None 0.
Definition rpc_db : db := MkDb
  {[1%N := rpc_topic 1 "a"; 2%N := rpc_topic 2 "b"; 3%N := rpc_topic 3 "c"]} {[11%N := rpc_sub]} ∅ ∅ ∅.
Definition rpc_world : world := MkWorld rpc_db empty_registry 0.

Lemma rpc_world_wf : world_wf rpc_world.
Proof. split; [apply db_wf_b_sound; vm_compute; reflexivity|exact empty_registry_wf]. Qed.
Lemma rpc_fresh : fresh_uuids (H := id_engine) rpc_db 0.
Proof. apply small_keys_fresh. vm_compute. reflexivity. Qed.

Definition demo_publish : PublishRequest := MkPublishRequest "projects/p/topics/a"
  [MkPubsubMessage "1" ∅ EmptyString; MkPubsubMessage "2" ∅ "k"].

Lemma Publish_all_or_nothing_witness :
  ∃ ms w', Publish (E := id_engine) (U := bits_text) demo_publish (Ok ()) (λ _, 400) rpc_world
      = (Ok (bits_string <$> (m_id <$> ms)), w') ∧
    Forall2 (made_from (E := id_engine) (rpc_topic 1 "a")) (pr_Messages demo_publish) ms.
Proof.
  pose proof (Publish_all_or_nothing (E := id_engine) (U := bits_text) demo_publish (λ _, 400) rpc_world
    rpc_world_wf rpc_fresh eq_refl) as H.
  destruct (Publish (E := id_engine) (U := bits_text) demo_publish (Ok ()) (λ _, 400) rpc_world) as [res w'].
  destruct H as [(Hno & _)|(tp & Htp & [Hn _] & [((m & Hm & Hj) & _)|(ms & -> & Hms & _)])].
  - exfalso. apply (Hno (rpc_topic 1 "a")); [reflexivity|split; reflexivity].
  - exfalso. simpl in Hm. apply elem_of_cons in Hm as [->|Hm]; [discriminate Hj|].
    apply list_elem_of_singleton in Hm as ->. discriminate Hj.
  - assert (tp = rpc_topic 1 "a") as ->.
    { clear Hms. simpl in Htp. unfold rpc_db in Htp. simpl in Htp.
      apply lookup_insert_Some in Htp as [[_ <-]|[_ Htp]]; [reflexivity|].
      apply lookup_insert_Some in Htp as [[_ <-]|[_ Htp]]; [discriminate Hn|].
      apply lookup_singleton_Some in Htp as [_ <-]. discriminate Hn. }
    exists ms, w'. split; [reflexivity|exact Hms].
Defined.

Lemma ListTopics_pages_witness :
  ∃ pages, list_all (list_topics_call (E := id_engine) (U := bits_text) "projects/p" 2 (λ _, rpc_world)) 4 0
      EmptyString = Some pages ∧
    (length pages ≤ 2)%nat.
Proof.
  destruct (ListTopics_pages (E := id_engine) (U := bits_text) "projects/p" 2 (λ _, rpc_world) eq_refl
    (λ _, rpc_world_wf)) as [_ H]. destruct (H rpc_db (λ _, eq_refl)) as (pages & H1 & H2).
  exists pages. split; [exact H1|exact H2].
Defined.

Lemma UpdateTopic_spec_witness :
  ∃ w', UpdateTopic (E := id_engine) (MkUpdateTopic (Some (MkPbTopic "projects/p/topics/a" ∅ false EmptyString false)) [])
    (Ok ()) rpc_world = (Ok None, w') ∧ w_db w' = rpc_db.
Proof.
  pose proof (UpdateTopic_spec (E := id_engine) (MkPbTopic "projects/p/topics/a" ∅ false EmptyString false) []
    rpc_world rpc_world_wf eq_refl) as H.
  destruct (UpdateTopic (E := id_engine) _ _ _) as [res w'].
  destruct (proj2 H (rpc_topic 1 "a") eq_refl (conj eq_refl eq_refl)) as [H1 _].
  destruct (H1 eq_refl) as [-> [Hw _]]. exists w'. split; [reflexivity|exact Hw].
Defined.
