(* ===== verification/Subscriber.v ===== *)
(** * The subscriber service

    [src/services/grpc-subscriber.go] and [grpc-snapshots.go]: one definition per unary method
    ([StreamingPull] is in [StreamConn]), from the request to the response and the world it
    leaves.  Durations and times of a request are what [AsDuration] and [AsTime] make of them;
    of the parts that are refused, a request holds whether they are set.  A method that retries
    on deadlocks takes the database's answers in order; [None] is that they ran out. *)

From S2P Require Import Prelude Uuid Filter FilterParse Schema Backoff Notify Store Example Deliver.
From S2P Require Import Lifecycle Ack Receive Seek Rpc Publisher.

Inductive push_wrapper := PubsubWrapper | NoWrapper.
Record PushConfig := MkPushConfig {
  pc_PushEndpoint : string; pc_Attributes : gmap string string; pc_AuthenticationMethod : bool;
  pc_Wrapper : option push_wrapper }.
Record DeadLetterPolicy := MkDeadLetterPolicy { dlp_DeadLetterTopic : string; dlp_MaxDeliveryAttempts : Z }.
Record RetryPolicy := MkRetryPolicy {
  rp_MinimumBackoff : option duration; rp_MaximumBackoff : option duration }.
(** [ps_Ttl]: that of the expiration policy, if there is one. *)
Record PbSubscription := MkPbSub {
  ps_Name : string; ps_Topic : string; ps_PushConfig : option PushConfig; ps_AckDeadlineSeconds : Z;
  ps_MessageRetentionDuration : option duration; ps_Labels : labels; ps_EnableMessageOrdering : bool;
  ps_Ttl : option duration; ps_Filter : string; ps_DeadLetterPolicy : option DeadLetterPolicy;
  ps_RetryPolicy : option RetryPolicy; ps_Detached : bool }.

Definition defaultSubscriptionTTL : duration := 30 * 24 * Hour.
Definition defaultSubscriptionMessageTTL : duration := 7 * 24 * Hour.
Definition deletedTopicName : string := "_deleted-topic_".
Definition defaultDeadLetterMaxAttempts : Z := 5.

(** [if d == 0 { d = default }] *)
Definition or_default (dflt : Z) (d : Z) : Z := if d =? 0 then dflt else d.

(** ** Setters of a subscription *)

Definition sub_set_labels (l : labels) (s : subscription) : subscription :=
  MkSubscription (s_id s) (s_topicID s) (s_name s) (s_createdAt s) (s_expiresAt s) (s_live s)
    (s_deletedAt s) (s_ttl s) (s_messageTTL s) (s_orderedDelivery s) l (s_minBackoff s)
    (s_maxBackoff s) (s_pushEndpoint s) (s_messageFilter s) (s_maxDeliveryAttempts s)
    (s_deadLetterTopicID s) (s_deliveryDelay s).
Definition sub_set_ttl (d : duration) (s : subscription) : subscription :=
  MkSubscription (s_id s) (s_topicID s) (s_name s) (s_createdAt s) (s_expiresAt s) (s_live s)
    (s_deletedAt s) d (s_messageTTL s) (s_orderedDelivery s) (s_labels s) (s_minBackoff s)
    (s_maxBackoff s) (s_pushEndpoint s) (s_messageFilter s) (s_maxDeliveryAttempts s)
    (s_deadLetterTopicID s) (s_deliveryDelay s).
Definition sub_set_messageTTL (d : duration) (s : subscription) : subscription :=
  MkSubscription (s_id s) (s_topicID s) (s_name s) (s_createdAt s) (s_expiresAt s) (s_live s)
    (s_deletedAt s) (s_ttl s) d (s_orderedDelivery s) (s_labels s) (s_minBackoff s)
    (s_maxBackoff s) (s_pushEndpoint s) (s_messageFilter s) (s_maxDeliveryAttempts s)
    (s_deadLetterTopicID s) (s_deliveryDelay s).
Definition sub_set_orderedDelivery (b : bool) (s : subscription) : subscription :=
  MkSubscription (s_id s) (s_topicID s) (s_name s) (s_createdAt s) (s_expiresAt s) (s_live s)
    (s_deletedAt s) (s_ttl s) (s_messageTTL s) b (s_labels s) (s_minBackoff s)
    (s_maxBackoff s) (s_pushEndpoint s) (s_messageFilter s) (s_maxDeliveryAttempts s)
    (s_deadLetterTopicID s) (s_deliveryDelay s).
Definition sub_set_backoff (min max : option duration) (s : subscription) : subscription :=
  MkSubscription (s_id s) (s_topicID s) (s_name s) (s_createdAt s) (s_expiresAt s) (s_live s)
    (s_deletedAt s) (s_ttl s) (s_messageTTL s) (s_orderedDelivery s) (s_labels s) min
    max (s_pushEndpoint s) (s_messageFilter s) (s_maxDeliveryAttempts s)
    (s_deadLetterTopicID s) (s_deliveryDelay s).
Definition sub_set_pushEndpoint (ep : option string) (s : subscription) : subscription :=
  MkSubscription (s_id s) (s_topicID s) (s_name s) (s_createdAt s) (s_expiresAt s) (s_live s)
    (s_deletedAt s) (s_ttl s) (s_messageTTL s) (s_orderedDelivery s) (s_labels s) (s_minBackoff s)
    (s_maxBackoff s) ep (s_messageFilter s) (s_maxDeliveryAttempts s)
    (s_deadLetterTopicID s) (s_deliveryDelay s).
Definition sub_set_messageFilter (f : option string) (s : subscription) : subscription :=
  MkSubscription (s_id s) (s_topicID s) (s_name s) (s_createdAt s) (s_expiresAt s) (s_live s)
    (s_deletedAt s) (s_ttl s) (s_messageTTL s) (s_orderedDelivery s) (s_labels s) (s_minBackoff s)
    (s_maxBackoff s) (s_pushEndpoint s) f (s_maxDeliveryAttempts s)
    (s_deadLetterTopicID s) (s_deliveryDelay s).
Definition sub_set_deadLetter (i : option uuid) (n : option Z) (s : subscription) : subscription :=
  MkSubscription (s_id s) (s_topicID s) (s_name s) (s_createdAt s) (s_expiresAt s) (s_live s)
    (s_deletedAt s) (s_ttl s) (s_messageTTL s) (s_orderedDelivery s) (s_labels s) (s_minBackoff s)
    (s_maxBackoff s) (s_pushEndpoint s) (s_messageFilter s) n i (s_deliveryDelay s).

Section Subscriber.
Context {E : Engine} {FP : FilterParser} {F : Float64} {U : UuidText}.

(** ** Conversions *)

(** The name of a topic in a response; [edge] is the loaded edge. *)
Definition edge_name (edge : option topic) (name : string) : string :=
  match edge with
  | Some t => match t_deletedAt t with Some _ => deletedTopicName | None => t_name t end
  | None => name
  end.

Definition entSubscriptionToGrpc (s : subscription) (tp dl : option topic) (topicName deadLetterTopicName : string)
  : PbSubscription :=
  MkPbSub (s_name s) (edge_name tp topicName)
    ((λ ep, MkPushConfig ep ∅ false None) <$> s_pushEndpoint s)
    (int32_wrap (f_trunc (Seconds (NextDelayFor s 0).1)))
    (Some (s_messageTTL s)) (s_labels s) (s_orderedDelivery s) (Some (s_ttl s))
    (default EmptyString (s_messageFilter s))
    ((λ _, MkDeadLetterPolicy (edge_name dl deadLetterTopicName) (default 0 (s_maxDeliveryAttempts s)))
       <$> s_deadLetterTopicID s)
    (match s_minBackoff s, s_maxBackoff s with
     | None, None => None
     | min, max => Some (MkRetryPolicy min max)
     end) false.

(** The edges [WithTopic()] and [WithDeadLetterTopic()] load. *)
Definition loaded (d : db) (s : subscription) : PbSubscription :=
  entSubscriptionToGrpc s (topics d !! s_topicID s) (s_deadLetterTopicID s ≫= λ i, topics d !! i)
    EmptyString EmptyString.

Record PbReceivedMessage := MkPbReceived {
  pbr_AckId : string; pbr_MessageId : string; pbr_PublishTime : time; pbr_Data : string;
  pbr_Attributes : Attributes; pbr_OrderingKey : string; pbr_DeliveryAttempt : Z }.
Definition entDeliveryToGrpc (m : SubscriptionMessageDelivery) : PbReceivedMessage :=
  MkPbReceived (uuid_String (smd_ID m)) (uuid_String (smd_MessageID m)) (smd_PublishedAt m) (smd_Payload m)
    (smd_Attributes m) (default EmptyString (smd_OrderKey m)) (int32_wrap (smd_NumAttempts m)).

(** ** Creating *)

Definition create_sub_params (req : PbSubscription) : CreateSubscriptionParams :=
  MkCreateSub (ps_Topic req) (ps_Name req)
    (or_default defaultSubscriptionTTL (default 0 (ps_Ttl req)))
    (or_default defaultSubscriptionMessageTTL (default 0 (ps_MessageRetentionDuration req)))
    (ps_EnableMessageOrdering req) (ps_Labels req)
    (match ps_PushConfig req with Some cfg => pc_PushEndpoint cfg | None => EmptyString end)
    (match ps_RetryPolicy req with Some rp => default 0 (rp_MinimumBackoff rp) | None => 0 end)
    (match ps_RetryPolicy req with Some rp => default 0 (rp_MaximumBackoff rp) | None => 0 end)
    (ps_Filter req)
    (match ps_DeadLetterPolicy req with
     | Some dlp => or_default defaultDeadLetterMaxAttempts (dlp_MaxDeliveryAttempts dlp)
     | None => 0
     end)
    (match ps_DeadLetterPolicy req with Some dlp => dlp_DeadLetterTopic dlp | None => EmptyString end).

Definition push_config_supported (cfg : PushConfig) : bool :=
  bool_decide (pc_Attributes cfg = ∅) && negb (pc_AuthenticationMethod cfg) &&
  match pc_Wrapper cfg with Some NoWrapper => false | _ => true end.

Definition create_sub_status (e : error) : error :=
  if isNotFound e then StatusError NotFound else create_status e.

Definition CreateSubscription (req : PbSubscription) (committed : outcome ()) (now createdAt : time) (w : world)
  : outcome PbSubscription * world :=
  if negb (isValidSubscriptionName (ps_Name req)) then (invalid, w)
  else if ps_Detached req then (invalid, w)
  else if negb (match ps_PushConfig req with Some cfg => push_config_supported cfg | None => true end) then
    (Err (StatusError Unimplemented), w)
  else
    match NewCreateSubscription (create_sub_params req) with
    | Ok p =>
        let '(res, w) := DoTx committed (CreateSubscription_Execute p now createdAt) w in
        (map_error create_sub_status res ≫= λ sub,
           Ok (entSubscriptionToGrpc sub None None (cs_TopicName p) (cs_DeadLetterTopic p)), w)
    | Err e => (Err e, w)
    | Panic s => (Panic s, w)
    end.

(** ** Reading *)

Definition sub_by_name (name : string) : Tx subscription := Only (live_sub_named name).

Definition GetSubscription_tx (name : string) : Tx PbSubscription :=
  sub_by_name name ≫= λ s, gets (λ t, loaded (tx_db t) s).
Definition GetSubscription (name : string) (committed : outcome ()) (w : world)
  : outcome PbSubscription * world :=
  if negb (isValidSubscriptionName name) then (invalid, w)
  else
    let '(res, w) := DoTx committed (GetSubscription_tx name) w in
    (map_error not_found_status res, w).

Definition sub_in_project (project : string) (s : subscription) : Prop :=
  String.prefix (projectSubscriptionPrefix project) (s_name s) = true ∧ s_deletedAt s = None.
#[export] Instance sub_in_project_dec project s : Decision (sub_in_project project s).
Proof. unfold sub_in_project. apply _. Defined.

Definition ListSubscriptions_tx (req : ListTopicsRequest) : Tx (list PbSubscription * string) :=
  list_tx (sub_in_project (lt_Project req)) (lt_PageSize req) (lt_PageToken req) ≫= λ '(subs, next),
  gets (λ t, (loaded (tx_db t) <$> subs, next)).
Definition ListSubscriptions (req : ListTopicsRequest) (committed : outcome ()) (w : world)
  : outcome (list PbSubscription * string) * world :=
  if negb (String.prefix "projects/" (lt_Project req)) then (invalid, w)
  else DoTx committed (ListSubscriptions_tx req) w.

(** ** Changing *)

(** The loop over the attributes, in the order the runtime picks; every bad one gives the same
    code. *)
Definition validatePushConfig (cfg : option PushConfig) : outcome () :=
  let attrs := match cfg with Some cfg => pc_Attributes cfg | None => ∅ end in
  if bool_decide (map_Forall (λ k v, k = "x-goog-version" ∧ v = "v1") attrs) then
    match cfg with
    | None => Panic "nil pointer dereference"
    | Some cfg => if pc_AuthenticationMethod cfg then Err (StatusError Unimplemented) else Ok ()
    end
  else invalid.

Definition applyPushConfig (cfg : option PushConfig) : subscription → subscription :=
  sub_set_pushEndpoint (if_set (match cfg with Some cfg => pc_PushEndpoint cfg | None => EmptyString end)).

(** The pending update: whether anything is to be saved, the columns, and the name of the
    dead-letter topic for the response.  [Save] of an update reads the row back, so the response
    has the durations as their columns keep them. *)
Record sub_update := MkSubUpdate {
  su_touched : bool; su_columns : subscription → subscription; su_deadLetterTopic : string }.
Definition also (f : subscription → subscription) (u : sub_update) : sub_update :=
  MkSubUpdate true (λ s, f (su_columns u s)) (su_deadLetterTopic u).
Definition with_dlt (name : string) (u : sub_update) : sub_update :=
  MkSubUpdate (su_touched u) (su_columns u) name.

Definition update_path (req : PbSubscription) (now : time) (p : string) (u : sub_update) : Tx sub_update :=
  if bool_decide (p = "name") then fail (StatusError InvalidArgument)
  else if bool_decide (p = "topic") then fail (StatusError InvalidArgument)
  else if bool_decide (p = "labels") then mret (also (sub_set_labels (ps_Labels req)) u)
  else if bool_decide (p = "expiration_policy") then
    let ttl := or_default defaultSubscriptionTTL (default 0 (ps_Ttl req)) in
    mret (also (λ s, sub_set_expiresAt (now + ttl) (sub_set_ttl (stored_interval ttl) s)) u)
  else if bool_decide (p = "message_retention_duration") then
    mret (also (sub_set_messageTTL (stored_interval
      (or_default defaultSubscriptionMessageTTL (default 0 (ps_MessageRetentionDuration req))))) u)
  else if bool_decide (p = "enable_message_ordering") then
    mret (also (sub_set_orderedDelivery (ps_EnableMessageOrdering req)) u)
  else if bool_decide (p = "retry_policy") then
    mret (also (sub_set_backoff (stored_interval <$> (ps_RetryPolicy req ≫= rp_MinimumBackoff))
                  (stored_interval <$> (ps_RetryPolicy req ≫= rp_MaximumBackoff))) u)
  else if bool_decide (p = "push_config") then
    lift (validatePushConfig (ps_PushConfig req)) ≫= λ _, mret (also (applyPushConfig (ps_PushConfig req)) u)
  else if bool_decide (p = "filter") then
    if is_empty (ps_Filter req) then mret (also (sub_set_messageFilter None) u)
    else match ParseString (ps_Filter req) with
         | None => fail (StatusError InvalidArgument)
         | Some _ => mret (also (sub_set_messageFilter (Some (ps_Filter req))) u)
         end
  else if bool_decide (p = "dead_letter_policy") then
    match ps_DeadLetterPolicy req with
    | Some dlp =>
        if is_empty (dlp_DeadLetterTopic dlp) then
          mret (with_dlt EmptyString (also (sub_set_deadLetter None None) u))
        else
          on_error (topic_by_name (dlp_DeadLetterTopic dlp)) not_found_status ≫= λ dlt,
          mret (with_dlt (t_name dlt) (also (sub_set_deadLetter (Some (t_id dlt))
            (Some (or_default defaultDeadLetterMaxAttempts (dlp_MaxDeliveryAttempts dlp)))) u))
    | None => mret (with_dlt EmptyString (also (sub_set_deadLetter None None) u))
    end
  else fail (StatusError InvalidArgument).

Fixpoint update_paths (req : PbSubscription) (now : nat → time) (i : nat) (paths : list string) (u : sub_update)
  : Tx sub_update :=
  match paths with
  | [] => mret u
  | p :: paths => update_path req (now i) p u ≫= update_paths req now (S i) paths
  end.

(** The [i]-th path of the mask is looked at at [now i]. *)
Definition UpdateSubscription_tx (req : PbSubscription) (paths : list string) (now : nat → time)
  : Tx (option PbSubscription) :=
  on_error (sub_by_name (ps_Name req)) not_found_status ≫= λ sub,
  gets tx_db ≫= λ d,
  match topics d !! s_topicID sub with
  | None => panic "nil pointer dereference"
  | Some tp =>
      let dl := s_deadLetterTopicID sub ≫= λ i, topics d !! i in
      update_paths req now 0 paths
        (MkSubUpdate false id (match dl with Some t => t_name t | None => EmptyString end)) ≫= λ u,
      if negb (su_touched u) then mret None
      else
        on_error (hooked other_mutation (UpdateOneID (s_id sub) (su_columns u)))
          (λ _, StatusError Unknown) ≫= λ _,
        NotifyModifySubscription (s_id sub) (s_name sub) ≫= λ _,
        mret (Some (entSubscriptionToGrpc (su_columns u sub) None None (t_name tp) (su_deadLetterTopic u)))
  end.
Definition UpdateSubscription (req : option PbSubscription) (paths : list string) (committed : outcome ())
    (now : nat → time) (w : world) : outcome (option PbSubscription) * world :=
  match req with
  | None => (Panic "nil pointer dereference", w)
  | Some req =>
      if negb (isValidSubscriptionName (ps_Name req)) then (invalid, w)
      else DoTx committed (UpdateSubscription_tx req paths now) w
  end.

Definition ModifyPushConfig_tx (name : string) (cfg : option PushConfig) : Tx () :=
  on_error (sub_by_name name) not_found_status ≫= λ sub,
  NotifyModifySubscription (s_id sub) (s_name sub) ≫= λ _,
  hooked other_mutation (UpdateOneID (s_id sub) (applyPushConfig cfg)).
Definition ModifyPushConfig (name : string) (cfg : option PushConfig) (committed : outcome ()) (w : world)
  : outcome () * world :=
  if negb (isValidSubscriptionName name) then (invalid, w)
  else
    match validatePushConfig cfg with
    | Ok _ =>
        let '(res, w) := DoTx committed (ModifyPushConfig_tx name cfg) w in (map_error AsStatusError res, w)
    | Err e => (Err e, w)
    | Panic s => (Panic s, w)
    end.

Definition DeleteSubscription (name : string) (committed : outcome ()) (now : time) (w : world)
  : outcome () * world :=
  if negb (isValidSubscriptionName name) then (invalid, w)
  else
    let '(res, w) := DoTx committed (DeleteSubscription_Execute name now) w in
    (map_error not_found_status res ≫= λ _, Ok (), w).

(** ** Deliveries *)

(** [DoCtxTxRetry] with [RetryOnErrorCode(DeadlockDetected)], its error made a status by [f]. *)
Definition retried {A} (rounds : list (outcome ())) (tx : Tx A) (f : error → error) (w : world)
  : option (outcome () * world) :=
  (λ '(res, w), (map_error f res ≫= λ _, Ok (), w)) <$>
    DoCtxTxRetry rounds tx (RetryOnErrorCode DeadlockDetected []) w.

Definition ModifyAckDeadline (name : string) (AckIds : list string) (AckDeadlineSeconds : Z)
    (rounds : list (outcome ())) (now : time) (w : world) : option (outcome () * world) :=
  if negb (isValidSubscriptionName name) then Some (invalid, w)
  else
    match parse_all uuid_Parse AckIds with
    | Ok ids => retried rounds (DelayDeliveries_Execute ids (AckDeadlineSeconds * Second) now) AsStatusError w
    | Err e => Some (Err (AsStatusError e), w)
    | Panic s => Some (Panic s, w)
    end.

Definition Acknowledge (name : string) (AckIds : list string) (rounds : list (outcome ())) (now : time)
    (w : world) : option (outcome () * world) :=
  if negb (isValidSubscriptionName name) then Some (invalid, w)
  else
    match parse_all uuid_Parse AckIds with
    | Ok ids => retried rounds (AckDeliveries_Execute ids now) AsStatusError w
    | Err e => Some (invalid, w)
    | Panic s => Some (Panic s, w)
    end.

Record PullRequest := MkPull_ {
  pl_Subscription : string; pl_MaxMessages : Z; pl_ReturnImmediately : bool }.
Definition pull_params (req : PullRequest) : GetSubscriptionMessagesParams :=
  MkGet (pl_Subscription req) None (pl_MaxMessages req) (10 * 1024 * 1024) false
    (if pl_ReturnImmediately req then Nanosecond else 0).
Definition Pull (req : PullRequest) (first : list (attempt time)) (rounds : list round) (w : world)
  : option (outcome (list PbReceivedMessage) * world) :=
  if negb (isValidSubscriptionName (pl_Subscription req)) then Some (invalid, w)
  else
    match NewGetSubscriptionMessages (pull_params req) with
    | Ok p =>
        (λ '(res, w), (map_error not_found_status res ≫= λ r, Ok (entDeliveryToGrpc <$> Deliveries r), w))
          <$> ExecuteClient p first rounds w
    | Err e => Some (Err e, w)
    | Panic s => Some (Panic s, w)
    end.

Inductive seek_target := SeekTime (target : time) | SeekSnapshot (name : string).
Definition Seek (name : string) (target : option seek_target) (rounds : list (outcome ())) (now : time)
    (w : world) : option (outcome () * world) :=
  if negb (isValidSubscriptionName name) then Some (invalid, w)
  else
    match target with
    | Some (SeekTime target) =>
        match NewSeekSubscriptionToTime (MkSeekTime name None target) with
        | Ok p => retried rounds (SeekSubscriptionToTime_Execute p now) not_found_status w
        | Err e => Some (Err e, w)
        | Panic s => Some (Panic s, w)
        end
    | Some (SeekSnapshot snapshot) =>
        match NewSeekSubscriptionToSnapshot (MkSeekSnap name None snapshot None) with
        | Ok p => retried rounds (SeekSubscriptionToSnapshot_Execute p now) not_found_status w
        | Err e => Some (Err e, w)
        | Panic s => Some (Panic s, w)
        end
    | None => Some (invalid, w)
    end.

(** ** Snapshots *)

Record PbSnapshot := MkPbSnapshot {
  pn_Name : string; pn_Topic : string; pn_ExpireTime : time; pn_Labels : labels }.
Definition entSnapshotToGrpc (n : snapshot) (tp : option topic) (topicName : string) : PbSnapshot :=
  MkPbSnapshot (n_name n) (edge_name tp topicName) (n_expiresAt n) (n_labels n).
Definition loaded_snapshot (d : db) (n : snapshot) : PbSnapshot :=
  entSnapshotToGrpc n (topics d !! n_topicID n) EmptyString.

Definition GetSnapshot_tx (name : string) : Tx PbSnapshot :=
  Only (λ n, n_name n = name) ≫= λ n, gets (λ t, loaded_snapshot (tx_db t) n).
Definition GetSnapshot (name : string) (committed : outcome ()) (w : world) : outcome PbSnapshot * world :=
  if negb (isValidSnapshotName name) then (invalid, w)
  else
    let '(res, w) := DoTx committed (GetSnapshot_tx name) w in
    (map_error not_found_status res, w).

Definition snapshot_listed (project : string) (n : snapshot) : Prop :=
  String.prefix (projectSubscriptionPrefix project) (n_name n) = true.
#[export] Instance snapshot_listed_dec project n : Decision (snapshot_listed project n).
Proof. unfold snapshot_listed. apply _. Defined.

Definition ListSnapshots_tx (req : ListTopicsRequest) : Tx (list PbSnapshot * string) :=
  list_tx (snapshot_listed (lt_Project req)) (lt_PageSize req) (lt_PageToken req) ≫= λ '(snaps, next),
  gets (λ t, (loaded_snapshot (tx_db t) <$> snaps, next)).
Definition ListSnapshots (req : ListTopicsRequest) (committed : outcome ()) (w : world)
  : outcome (list PbSnapshot * string) * world :=
  DoTx committed (ListSnapshots_tx req) w.

Definition CreateSnapshot (name subscription : string) (l : option labels) (committed : outcome ())
    (now : time) (w : world) : outcome PbSnapshot * world :=
  if negb (isValidSnapshotName name) then (invalid, w)
  else if negb (isValidSubscriptionName subscription) then (invalid, w)
  else
    match NewCreateSnapshot (MkCreateSnap subscription name l) with
    | Ok p =>
        let '(res, w) := DoTx committed (CreateSnapshot_Execute p now) w in
        (map_error create_sub_status res ≫= λ r,
           Ok (entSnapshotToGrpc (sr_Snapshot r) None (sr_TopicName r)), w)
    | Err e => (Err e, w)
    | Panic s => (Panic s, w)
    end.

Definition UpdateSnapshot (w : world) : outcome PbSnapshot * world := (Err (StatusError Unimplemented), w).

(** One statement, without a transaction around it: a transaction of its own. *)
Definition DeleteSnapshot (name : string) (committed : outcome ()) (w : world) : outcome () * world :=
  if negb (isValidSnapshotName name) then (invalid, w)
  else
    let '(res, w) := DoTx committed (Delete (λ n : snapshot, n_name n = name)) w in
    (match res with
     | Ok O => Err (StatusError NotFound)
     | Ok _ => Ok ()
     | Err e => Err (AsStatusError e)
     | Panic s => Panic s
     end, w).
End Subscriber.

(** ** Snapshots are not listed *)

Section Subscriber_spec.
Context {E : Engine} {FP : FilterParser} {F : Float64} {U : UuidText}.

(** The names [ListSnapshots] looks for are not names of snapshots. *)
Lemma snapshot_name_not_listed project name :
  String.prefix "projects/" project = true → isValidSnapshotName name = true →
  String.prefix (projectSubscriptionPrefix project) name = false.
Proof.
  intros (rest & ->)%prefix_app (p & r & Hsplit & _)%has_shape_segments. apply not_true_iff_false.
  intros (y & ->)%prefix_app. revert Hsplit. unfold projectSubscriptionPrefix.
  change ("projects/" +:+ rest) with ("projects" +:+ String "/" rest).
  replace ((("projects" +:+ String "/" rest) +:+ "/subscriptions/") +:+ y)
    with ("projects" +:+ String "/" (rest +:+ String "/" ("subscriptions" +:+ String "/" y))).
  2: { by rewrite !string_app_assoc. }
  rewrite !split_slash_app. change (split_slash "projects") with ["projects"].
  change (split_slash "subscriptions") with ["subscriptions"].
  destruct (split_slash_nonempty rest) as (a & l & ->), (split_slash_nonempty y) as (b & k & ->).
  simpl. intros [= _ H]. destruct l as [|x [|x1 [|x2 l]]]; simplify_eq/=.
Qed.

Lemma snapshot_named n d :
  db_wf d → snapshots d !! n_id n = Some n → rows_where (λ n', n_name n' = n_name n) d = [n].
Proof.
  intros W Hn. rewrite (rows_where_ext _ (λ n', n_id n' = n_id n)).
  - rewrite (rows_where_key _ _ (n_id n)) by done. simpl. by rewrite Hn, decide_True.
  - done.
  - intros n' Hn'. simpl in Hn'. split; [|by intros Heq; rewrite Heq, Hn in Hn'; simplify_eq].
    intros Hname. destruct (tw_unique _ (wf_snapshots _ W) _ _ Hn _ _ Hn') as [?|?]; [done|congruence].
Qed.

(** [ListSnapshots] of a project never lists a snapshot: it looks for the names
    of subscriptions, and whatever [CreateSnapshot] was given is the name of a snapshot.  It
    answers with an empty page although [GetSnapshot] finds each of them. *)
Theorem ListSnapshots_misses project PageSize w n :
  world_wf w → (∀ k n, snapshots (w_db w) !! k = Some n → isValidSnapshotName (n_name n) = true) →
  String.prefix "projects/" project = true → snapshots (w_db w) !! n_id n = Some n →
  (ListSnapshots (MkListTopics project PageSize EmptyString) (Ok ()) w).1 = Ok ([], EmptyString) ∧
  (GetSnapshot (n_name n) (Ok ()) w).1 = Ok (loaded_snapshot (w_db w) n).
Proof.
  intros [W Wr] Hnames Hp Hn. split.
  - assert (Hrows : page_rows (snapshot_listed project) None (effectivePageSize PageSize) (w_db w) = []).
    { apply elem_of_nil_inv. intros n' Hn'. apply page_rows_in in Hn' as (Hst & Hl & _); [|done].
      unfold snapshot_listed in Hl. by rewrite snapshot_name_not_listed in Hl by eauto. }
    pose proof (page_of (snapshot_listed project) PageSize None (w_db w)) as Hpage.
    rewrite Hrows in Hpage.
    assert (Htok : nextPageToken (effectivePageSize PageSize) ([] : list snapshot) = EmptyString).
    { unfold nextPageToken. by destruct (_ <=? _)%nat. }
    rewrite Htok in Hpage. unfold ListSnapshots. set (req := MkListTopics project PageSize EmptyString).
    destruct (DoTx_run (ListSnapshots_tx req) w ([], EmptyString) (txn_of w) Wr) as (r & -> & _); [|done].
    unfold ListSnapshots_tx. rewrite (bind_step _ _ (txn_of w) ([], EmptyString) (txn_of w)); [done|].
    rewrite list_tx_page. change (token_of None) with EmptyString in Hpage.
    cbn [lt_Project lt_PageSize lt_PageToken req tx_db txn_of]. by rewrite Hpage.
  - unfold GetSnapshot. rewrite (Hnames _ _ Hn). simpl negb. cbv iota.
    destruct (DoTx_run (GetSnapshot_tx (n_name n)) w (loaded_snapshot (w_db w) n) (txn_of w) Wr)
      as (r & -> & _); [|done].
    unfold GetSnapshot_tx. rewrite (bind_step _ _ (txn_of w) n (txn_of w)); [done|].
    unfold Only, All, mbind, M_bind, gets. simpl. by rewrite (snapshot_named n _ W Hn).
Qed.

(** ** Creating and reading back *)

Lemma sub_by_name_run name t :
  db_wf (tx_db t) →
  (∀ s, subscriptions (tx_db t) !! s_id s = Some s → ¬ live_sub_named name s) ∧
    sub_by_name name t = Err EntNotFound ∨
  ∃ s, subscriptions (tx_db t) !! s_id s = Some s ∧ live_sub_named name s ∧
    (∀ s', subscriptions (tx_db t) !! s_id s' = Some s' → live_sub_named name s' → s' = s) ∧
    sub_by_name name t = Ok (s, t).
Proof.
  intros W. unfold sub_by_name, Only, All, mbind, M_bind, gets.
  destruct (live_subs_named name _ W) as [Hn|(s & Hn & Hs & Hl)]; rewrite Hn; simpl; [left|right].
  - split; [|done]. intros s Hs. by eapply (rows_named_none (A := subscription)).
  - exists s. split_and!; try done. intros s' Hs' Hl'.
    assert (Hin : s' ∈ rows_where (live_sub_named name) (tx_db t)) by by apply elem_of_rows_wf.
    rewrite Hn in Hin. by apply list_elem_of_singleton in Hin.
Qed.

Lemma default_if_set s : default EmptyString (if_set s) = s.
Proof. unfold if_set, is_empty. by case_bool_decide. Qed.

(** The dead-letter policy as it is stored. *)
Definition stored_policy (req : PbSubscription) : option DeadLetterPolicy :=
  (λ dlp, MkDeadLetterPolicy (dlp_DeadLetterTopic dlp)
    (or_default defaultDeadLetterMaxAttempts (dlp_MaxDeliveryAttempts dlp))) <$> ps_DeadLetterPolicy req.

Lemma NewCreateSubscription_Ok p p' :
  NewCreateSubscription p = Ok p' → p' = p ∧ 0 < cs_TTL p ∧ 0 < cs_MessageTTL p ∧
    0 ≤ cs_MaxDeliveryAttempts p ∧ (cs_MaxDeliveryAttempts p = 0 ↔ cs_DeadLetterTopic p = EmptyString).
Proof.
  unfold NewCreateSubscription, is_empty. repeat case_match; intros; simplify_eq. bool_props.
  split_and!; try done; try lia.
  destruct (Z.eqb_spec (cs_MaxDeliveryAttempts p') 0), (bool_decide (cs_DeadLetterTopic p' = EmptyString)) eqn:?;
    simplify_eq/=; bool_props; tauto.
Qed.

(** [ans] is the request with its durations passed through [r]: name, topic, labels, filter,
    ordering, push endpoint (if it is not empty), TTL, message retention and dead-letter policy
    with their defaults, and the backoffs that are positive. *)
Record echoes (r : duration → duration) (req ans : PbSubscription) : Prop := {
  ec_Name : ps_Name ans = ps_Name req;
  ec_Topic : ps_Topic ans = ps_Topic req;
  ec_Labels : ps_Labels ans = ps_Labels req;
  ec_Filter : ps_Filter ans = ps_Filter req;
  ec_Ordering : ps_EnableMessageOrdering ans = ps_EnableMessageOrdering req;
  ec_Ttl : ps_Ttl ans = Some (r (or_default defaultSubscriptionTTL (default 0 (ps_Ttl req))));
  ec_Retention : ps_MessageRetentionDuration ans =
    Some (r (or_default defaultSubscriptionMessageTTL (default 0 (ps_MessageRetentionDuration req))));
  ec_DeadLetter : ps_DeadLetterPolicy ans = stored_policy req;
  ec_Push : (pc_PushEndpoint <$> ps_PushConfig ans) = (pc_PushEndpoint <$> ps_PushConfig req) ≫= if_set;
  ec_Min : (ps_RetryPolicy ans ≫= rp_MinimumBackoff)
    = r <$> ((ps_RetryPolicy req ≫= rp_MinimumBackoff) ≫= if_positive);
  ec_Max : (ps_RetryPolicy ans ≫= rp_MaximumBackoff)
    = r <$> ((ps_RetryPolicy req ≫= rp_MaximumBackoff) ≫= if_positive) }.

(** The durations of a subscription, and that their columns keep them as they are. *)
Definition durations (s : PbSubscription) : list duration :=
  omap id [ps_Ttl s; ps_MessageRetentionDuration s; ps_RetryPolicy s ≫= rp_MinimumBackoff;
           ps_RetryPolicy s ≫= rp_MaximumBackoff].
Definition durations_kept (s : PbSubscription) : Prop := Forall (λ d, stored_interval d = d) (durations s).

(** A row whose durations have been passed through [r], and its answer. *)
Definition map_intervals (r : duration → duration) (s : subscription) : subscription :=
  sub_set_ttl (r (s_ttl s)) (sub_set_messageTTL (r (s_messageTTL s))
    (sub_set_backoff (r <$> s_minBackoff s) (r <$> s_maxBackoff s) s)).

Lemma new_subscription_echoes r req now createdAt tp dlID id :
  let p := create_sub_params req in
  (cs_MaxDeliveryAttempts p = 0 ↔ cs_DeadLetterTopic p = EmptyString) →
  (if is_empty (cs_DeadLetterTopic p) then dlID = None else is_Some dlID) →
  echoes r req (entSubscriptionToGrpc (map_intervals r (new_subscription p now createdAt tp dlID id)) None None
    (cs_TopicName p) (cs_DeadLetterTopic p)).
Proof.
  intros p Hboth Hdl. split; simpl; try done.
  - apply default_if_set.
  - unfold stored_policy. destruct (ps_DeadLetterPolicy req) as [dlp|] eqn:Hp; unfold p, create_sub_params in *; simpl in *;
      rewrite Hp in *; simpl in *; [|by rewrite Hdl].
    unfold is_empty in Hdl. case_bool_decide as He; [|destruct Hdl as [dl ->]]; simpl.
    + exfalso. apply Hboth in He. revert He. unfold or_default, defaultDeadLetterMaxAttempts. case_match; lia.
    + f_equal. f_equal. destruct (Z.eqb_spec (or_default defaultDeadLetterMaxAttempts (dlp_MaxDeliveryAttempts dlp)) 0)
        as [Hz|]; [|done]. by apply Hboth in Hz.
  - destruct (ps_PushConfig req) as [cfg|]; simpl; [|done]. by destruct (if_set _).
  - by destruct (ps_RetryPolicy req) as [[[min|] [max|]]|]; simpl; try destruct (if_positive min);
      try destruct (if_positive max).
  - by destruct (ps_RetryPolicy req) as [[[min|] [max|]]|]; simpl; try destruct (if_positive min);
      try destruct (if_positive max).
Qed.

(** The answer reads the backoffs, the TTLs and nothing else of what is rounded. *)
Lemma first_delay s s' :
  s_minBackoff s = s_minBackoff s' → s_maxBackoff s = s_maxBackoff s' →
  (NextDelayFor s 0).1 = (NextDelayFor s' 0).1.
Proof. unfold NextDelayFor, delay_seconds, min_delay, max_delay. simpl. by intros -> ->. Qed.

(** The answer for the stored row, and that for the entity; they agree when the columns keep its
    durations. *)
Lemma stored_answer s tn dn :
  let ans r := entSubscriptionToGrpc (map_intervals r s) None None tn dn in
  entSubscriptionToGrpc (store_intervals s) None None tn dn = ans stored_interval ∧
  entSubscriptionToGrpc s None None tn dn = ans (λ d, d) ∧
  (durations_kept (entSubscriptionToGrpc s None None tn dn) → ans stored_interval = ans (λ d, d)).
Proof.
  unfold entSubscriptionToGrpc. split_and!.
  - by rewrite (first_delay (store_intervals s) (map_intervals stored_interval s)).
  - rewrite (first_delay s (map_intervals (λ d, d) s)); simpl; by rewrite ?option_fmap_id.
  - unfold durations_kept, durations. cbn [ps_Ttl ps_MessageRetentionDuration ps_RetryPolicy].
    intros Hk. assert (map_intervals stored_interval s = map_intervals (λ d, d) s) as ->; [|done].
    clear tn dn. destruct s as [??????????? min max ?????]; cbn in Hk |- *. unfold map_intervals. cbn.
    destruct min, max; cbn in Hk |- *; rewrite ?Forall_cons in Hk; destruct_and!; congruence.
Qed.

(** C33 When [CreateSubscription] answers, [GetSubscription] finds the subscription.  Both answers are
    the request: its name, topic, labels, filter, ordering, push endpoint (if it is not empty), the
    TTL, the message retention and the dead-letter policy with their defaults for what was not
    given, and the backoffs that are positive.  The answer of [CreateSubscription] has the
    durations of the request, the one of [GetSubscription] has them as the interval columns keep
    them; the two are equal when the columns keep those durations as they are. *)
Theorem CreateSubscription_Get req now createdAt w resp w' :
  world_wf w → CreateSubscription req (Ok ()) now createdAt w = (Ok resp, w') →
  echoes (λ d, d) req resp ∧
  ∃ got, (GetSubscription (ps_Name req) (Ok ()) w').1 = Ok got ∧ echoes stored_interval req got ∧
    (durations_kept resp → got = resp).
Proof.
  intros [W Wr]. unfold CreateSubscription.
  destruct (isValidSubscriptionName (ps_Name req)) eqn:Hname; [|done]. simpl negb. cbv iota.
  destruct (ps_Detached req); [done|]. destruct (negb _); [done|].
  destruct (NewCreateSubscription (create_sub_params req)) as [p|e|m] eqn:Hnew; [|done..].
  apply NewCreateSubscription_Ok in Hnew as (-> & _ & _ & _ & Hboth).
  destruct (DoTx _ _ w) as [[s|e|m] w1] eqn:Hd; [|done..]. intros [= Hresp ->].
  destruct (DoTx_Ok_db _ _ _ _ _ Wr Hd) as (t & Hrun & Hdb & Wr').
  destruct (CreateSubscription_inv _ _ _ (txn_of w) _ _ W Hrun) as
    (tp & dlID & Htp & [Hn Hlive] & Hdl & Hs & Hno & Hdb' & W').
  rewrite <- Hdb in Hdb', W'. set (p := create_sub_params req) in *.
  change (entSubscriptionToGrpc s None None (cs_TopicName p) (cs_DeadLetterTopic p) = resp) in Hresp.
  destruct (stored_answer s (cs_TopicName p) (cs_DeadLetterTopic p)) as (Hstored & Hresp' & Hkept).
  rewrite <- Hresp', <- Hstored in Hkept. rewrite Hresp in Hresp', Hkept.
  assert (Hechoes : ∀ r, echoes r req (entSubscriptionToGrpc (map_intervals r s) None None (cs_TopicName p)
    (cs_DeadLetterTopic p))).
  { intros r. rewrite Hs. apply new_subscription_echoes; [done|]. fold p.
    destruct (is_empty _); [done|]. by destruct Hdl as (dl & -> & _). }
  split; [rewrite Hresp'; apply Hechoes|].
  exists (entSubscriptionToGrpc (store_intervals s) None None (cs_TopicName p) (cs_DeadLetterTopic p)).
  split; [|split; [by rewrite Hstored|exact Hkept]].
  assert (Hst : subscriptions (w_db w') !! s_id s = Some (store_intervals s)) by (rewrite Hdb'; apply lookup_insert_eq).
  assert (Hloaded : loaded (w_db w') (store_intervals s) =
    entSubscriptionToGrpc (store_intervals s) None None (cs_TopicName p) (cs_DeadLetterTopic p)).
  { unfold loaded, entSubscriptionToGrpc. rewrite Hdb'. simpl.
    assert (s_topicID s = t_id tp) as -> by by rewrite Hs. simpl in Htp. rewrite Htp. simpl.
    rewrite Hlive, Hn. f_equal. assert (s_deadLetterTopicID s = dlID) as -> by by rewrite Hs.
    destruct (is_empty (cs_DeadLetterTopic p)); [by rewrite Hdl|].
    destruct Hdl as (dl & -> & Hdst & [Hdn Hdlive]). simpl. simpl in Hdst. rewrite Hdst. simpl.
    by rewrite Hdlive, Hdn. }
  assert (Hlst : live_sub_named (ps_Name req) (store_intervals s)).
  { split; [change (s_name s = ps_Name req)|change (s_deletedAt s = None)]; rewrite Hs; reflexivity. }
  clear Hs Hresp' Hstored Hechoes.
  unfold GetSubscription. rewrite Hname. simpl negb. cbv iota.
  destruct (sub_by_name_run (ps_Name req) (txn_of w') W') as [[Hno' _]|(s' & Hs' & Hl' & Huniq & Hget)].
  { exfalso. by apply (Hno' (store_intervals s)). }
  assert (store_intervals s = s') as <- by by apply Huniq.
  destruct (DoTx_run (GetSubscription_tx (ps_Name req)) w' (loaded (w_db w') (store_intervals s)) (txn_of w') Wr')
    as (r & -> & _); [|by rewrite Hloaded].
  unfold GetSubscription_tx. by rewrite (bind_step _ _ _ _ _ Hget).
Qed.

(** ** Updating *)

(** [s'] is [s] with the columns of the mask set as the request has them, the durations as their
    columns keep them. *)
Record masked (req : PbSubscription) (now : nat → time) (d : db) (paths : list string) (s s' : subscription)
  : Prop := {
  mk_fixed : s_id s' = s_id s ∧ s_topicID s' = s_topicID s ∧ s_name s' = s_name s ∧
    s_createdAt s' = s_createdAt s ∧ s_live s' = s_live s ∧ s_deletedAt s' = s_deletedAt s ∧
    s_deliveryDelay s' = s_deliveryDelay s;
  mk_labels : s_labels s' = if decide ("labels" ∈ paths) then ps_Labels req else s_labels s;
  mk_ttl : let ttl := or_default defaultSubscriptionTTL (default 0 (ps_Ttl req)) in
    if decide ("expiration_policy" ∈ paths) then s_ttl s' = stored_interval ttl ∧ ∃ i, s_expiresAt s' = now i + ttl
    else s_ttl s' = s_ttl s ∧ s_expiresAt s' = s_expiresAt s;
  mk_messageTTL : s_messageTTL s' = if decide ("message_retention_duration" ∈ paths)
    then stored_interval (or_default defaultSubscriptionMessageTTL (default 0 (ps_MessageRetentionDuration req)))
    else s_messageTTL s;
  mk_ordered : s_orderedDelivery s' = if decide ("enable_message_ordering" ∈ paths)
    then ps_EnableMessageOrdering req else s_orderedDelivery s;
  mk_min : s_minBackoff s' = if decide ("retry_policy" ∈ paths)
    then stored_interval <$> (ps_RetryPolicy req ≫= rp_MinimumBackoff) else s_minBackoff s;
  mk_max : s_maxBackoff s' = if decide ("retry_policy" ∈ paths)
    then stored_interval <$> (ps_RetryPolicy req ≫= rp_MaximumBackoff) else s_maxBackoff s;
  mk_push : s_pushEndpoint s' = if decide ("push_config" ∈ paths)
    then (pc_PushEndpoint <$> ps_PushConfig req) ≫= if_set else s_pushEndpoint s;
  mk_filter : s_messageFilter s' = if decide ("filter" ∈ paths) then if_set (ps_Filter req) else s_messageFilter s;
  mk_parses : if decide ("filter" ∈ paths) then ps_Filter req = EmptyString ∨ is_Some (ParseString (ps_Filter req)) else True;
  mk_deadLetter : if decide ("dead_letter_policy" ∈ paths)
    then match ps_DeadLetterPolicy req ≫= λ dlp, if_set (dlp_DeadLetterTopic dlp) with
         | None => s_deadLetterTopicID s' = None ∧ s_maxDeliveryAttempts s' = None
         | Some name => ∃ dlt, topics d !! t_id dlt = Some dlt ∧ live_topic_named name dlt ∧
             s_deadLetterTopicID s' = Some (t_id dlt) ∧
             s_maxDeliveryAttempts s' = dlp_MaxDeliveryAttempts <$> stored_policy req
         end
    else s_deadLetterTopicID s' = s_deadLetterTopicID s ∧ s_maxDeliveryAttempts s' = s_maxDeliveryAttempts s }.

Lemma mask_other {A} (q p : string) paths (x y : A) :
  q ≠ p → (if decide (q ∈ paths ++ [p]) then x else y) = (if decide (q ∈ paths) then x else y).
Proof.
  intros Hne. destruct (decide (q ∈ paths)) as [Hq|Hq].
  - rewrite decide_True; [done|]. apply elem_of_app. by left.
  - rewrite decide_False; [done|]. by intros [?|?%list_elem_of_singleton]%elem_of_app.
Qed.
Lemma mask_same {A} (p : string) paths (x y : A) : (if decide (p ∈ paths ++ [p]) then x else y) = x.
Proof. rewrite decide_True; [done|]. apply elem_of_app. right. by left. Qed.

Lemma masked_nil req now d s : masked req now d [] s s.
Proof. by split. Qed.

(** What the pending update is, after the paths [done]. *)
Record collected (req : PbSubscription) (now : nat → time) (d : db) (sub : subscription) (done : list string)
    (u : sub_update) : Prop := {
  cl_touched : su_touched u = negb (bool_decide (done = []));
  cl_masked : masked req now d done sub (su_columns u sub);
  cl_name : su_deadLetterTopic u =
    default EmptyString (t_name <$> (s_deadLetterTopicID (su_columns u sub) ≫= λ i, topics d !! i)) }.

Ltac masked_step := split; simpl; rewrite ?mask_same, ?mask_other by done; try done; try assumption.

(** A path that sets columns by [f]. *)
Lemma collected_also req now d sub done u p f :
  collected req now d sub done u →
  (masked req now d done sub (su_columns u sub) →
     masked req now d (done ++ [p]) sub (f (su_columns u sub))) →
  (∀ s, s_deadLetterTopicID (f s) = s_deadLetterTopicID s) →
  collected req now d sub (done ++ [p]) (also f u).
Proof.
  intros [Ht Hm Hn] Hf Hdl. split; simpl.
  - symmetry. apply negb_true_iff, bool_decide_eq_false. by destruct done.
  - by apply Hf.
  - by rewrite Hdl.
Qed.
Lemma collected_dead_letter req now d sub done u p i n name :
  collected req now d sub done u → p = "dead_letter_policy" →
  match ps_DeadLetterPolicy req ≫= λ dlp, if_set (dlp_DeadLetterTopic dlp) with
  | None => i = None ∧ n = None
  | Some name => ∃ dlt, topics d !! t_id dlt = Some dlt ∧ live_topic_named name dlt ∧ i = Some (t_id dlt) ∧
      n = dlp_MaxDeliveryAttempts <$> stored_policy req
  end → name = default EmptyString (t_name <$> (i ≫= λ i, topics d !! i)) →
  collected req now d sub (done ++ [p]) (with_dlt name (also (sub_set_deadLetter i n) u)).
Proof.
  intros [Ht [] Hn] -> Hdl Hname. split; simpl.
  - symmetry. apply negb_true_iff, bool_decide_eq_false. by destruct done.
  - masked_step.
  - done.
Qed.

Lemma update_path_collected req now d sub done u p i t :
  db_wf (tx_db t) → tx_db t = d → collected req now d sub done u →
  match update_path req (now i) p u t with
  | Ok (u', t') => t' = t ∧ collected req now d sub (done ++ [p]) u'
  | Err e => ∃ c, e = StatusError c
  | Panic _ => p = "push_config" ∧ ps_PushConfig req = None
  end.
Proof.
  intros W <- Hc. unfold update_path.
  destruct (bool_decide (p = "name")) eqn:H1; [by eexists|].
  destruct (bool_decide (p = "topic")) eqn:H2; [by eexists|]. clear H1 H2.
  case_bool_decide as Hp; [subst p|clear Hp].
  { split; [done|]. apply collected_also; [done| |done]. intros []. masked_step. }
  case_bool_decide as Hp; [subst p|clear Hp].
  { split; [done|]. apply collected_also; [done| |done]. intros []. masked_step. eauto. }
  case_bool_decide as Hp; [subst p|clear Hp].
  { split; [done|]. apply collected_also; [done| |done]. intros []. masked_step. }
  case_bool_decide as Hp; [subst p|clear Hp].
  { split; [done|]. apply collected_also; [done| |done]. intros []. masked_step. }
  case_bool_decide as Hp; [subst p|clear Hp].
  { split; [done|]. apply collected_also; [done| |done]. intros []. masked_step. }
  case_bool_decide as Hp; [subst p|clear Hp].
  { assert (Hpush : collected req now (tx_db t) sub (done ++ ["push_config"])
      (also (applyPushConfig (ps_PushConfig req)) u)).
    { apply collected_also; [done| |done]. intros []. masked_step. by destruct (ps_PushConfig req). }
    unfold mbind, M_bind, mret, M_ret, lift, validatePushConfig, invalid. repeat case_match; simplify_eq; eauto. }
  case_bool_decide as Hp; [subst p|clear Hp].
  { destruct (is_empty (ps_Filter req)) eqn:He.
    - split; [done|]. apply collected_also; [done| |done]. intros []. masked_step; [unfold if_set; by rewrite He|].
      left. by apply bool_decide_eq_true in He.
    - destruct (ParseString _) eqn:Hparse; [|by eexists].
      split; [done|]. apply collected_also; [done| |done]. intros []. masked_step; [unfold if_set; by rewrite He|].
      right. rewrite Hparse. by eexists. }
  case_bool_decide as Hp; [subst p|by eexists].
  destruct (ps_DeadLetterPolicy req) as [dlp|] eqn:Hdlp.
  - destruct (is_empty (dlp_DeadLetterTopic dlp)) eqn:He.
    + split; [done|]. apply collected_dead_letter; [done|done| |done]. rewrite Hdlp. simpl. unfold if_set. by rewrite He.
    + destruct (topic_by_name_run (dlp_DeadLetterTopic dlp) t W) as [[_ Hrun]|(dlt & Hst & Hl & Hrun)].
      * unfold mbind, M_bind, on_error. rewrite Hrun. by eexists.
      * rewrite (bind_step _ _ t dlt t) by (unfold on_error; by rewrite Hrun).
        split; [done|]. apply collected_dead_letter; [done|done| |simpl; simpl in Hst; by rewrite Hst].
        rewrite Hdlp. simpl. unfold if_set. rewrite He. exists dlt. unfold stored_policy. by rewrite Hdlp.
  - split; [done|]. apply collected_dead_letter; [done|done| |done]. by rewrite Hdlp.
Qed.

Lemma update_paths_collected req now d sub i done paths u t :
  db_wf (tx_db t) → tx_db t = d → collected req now d sub done u →
  match update_paths req now i paths u t with
  | Ok (u', t') => t' = t ∧ collected req now d sub (done ++ paths) u'
  | Err e => ∃ c, e = StatusError c
  | Panic _ => "push_config" ∈ paths ∧ ps_PushConfig req = None
  end.
Proof.
  intros W Hd. revert i done u. induction paths as [|p paths IH]; intros i done u Hc; simpl.
  - by rewrite app_nil_r.
  - pose proof (update_path_collected req now d sub done u p i t W Hd Hc) as Hp.
    unfold mbind, M_bind. destruct (update_path req (now i) p u t) as [[u1 t1]|e|m]; [|done|].
    + destruct Hp as [-> Hc1]. specialize (IH (S i) _ _ Hc1). rewrite <- (assoc_L (++)) in IH. simpl in IH.
      destruct (update_paths req now (S i) paths u1 t) as [[u2 t2]|e|m]; [done|done|].
      destruct IH as [? ?]. split; [by right|done].
    + destruct Hp as [-> ?]. split; [by left|done].
Qed.

(** What the transaction of [UpdateSubscription] does. *)
Lemma UpdateSubscription_tx_run req paths now t :
  db_wf (tx_db t) →
  match UpdateSubscription_tx req paths now t with
  | Ok (resp, t') => ∃ sub tp, subscriptions (tx_db t) !! s_id sub = Some sub ∧ live_sub_named (ps_Name req) sub ∧
      topics (tx_db t) !! s_topicID sub = Some tp ∧
      (paths = [] ∧ resp = None ∧ t' = t ∨
       paths ≠ [] ∧ ∃ sub', masked req now (tx_db t) paths sub sub' ∧
         resp = Some (entSubscriptionToGrpc sub' None None (t_name tp)
           (default EmptyString (t_name <$> (s_deadLetterTopicID sub' ≫= λ i, topics (tx_db t) !! i)))) ∧
         tx_db t' = with_subscriptions (<[s_id sub := sub']> (subscriptions (tx_db t))) (tx_db t) ∧
         db_wf (tx_db t'))
  | Err e => ∃ c, e = StatusError c
  | Panic _ => "push_config" ∈ paths ∧ ps_PushConfig req = None
  end.
Proof.
  intros W. unfold UpdateSubscription_tx.
  destruct (sub_by_name_run (ps_Name req) t W) as [[_ Hrun]|(sub & Hsub & Hl & _ & Hrun)].
  { unfold mbind at 1, M_bind at 1, on_error at 1. rewrite Hrun. by eexists. }
  rewrite (bind_step _ _ t sub t) by (unfold on_error; by rewrite Hrun).
  rewrite (bind_step _ _ t (tx_db t) t) by done.
  destruct (tw_fk _ (wf_subscriptions _ W) _ _ Hsub) as [[tp Htp] _]. rewrite Htp.
  set (u0 := MkSubUpdate _ _ _).
  assert (Hc0 : collected req now (tx_db t) sub [] u0).
  { split; [done|apply masked_nil|]. simpl. by destruct (_ ≫= _). }
  pose proof (update_paths_collected req now (tx_db t) sub 0 [] paths u0 t W eq_refl Hc0) as Hu.
  simpl app in Hu. unfold mbind at 1, M_bind at 1.
  destruct (update_paths req now 0 paths u0 t) as [[u t1]|e|m]; [|done..].
  destruct Hu as [-> [Ht Hm Hn]]. rewrite Ht, negb_involutive.
  case_bool_decide as Hp; [by exists sub, tp; split_and!; auto|].
  change (hooked other_mutation (UpdateOneID (s_id sub) (su_columns u)))
    with (UpdateOneID (s_id sub) (su_columns u)).
  unfold mbind, M_bind, on_error. destruct (UpdateOneID _ _ t) as [[[] t2]|e|m] eqn:Hup; [|by eexists|].
  - destruct (UpdateOneID_inv _ _ _ _ _ Hup W) as (r & Hr & -> & W').
    simpl in Hr. simpl in Hsub. assert (r = sub) as -> by congruence.
    exists sub, tp. split_and!; [done..|]. right. split; [done|].
    exists (su_columns u sub). split_and!; try done.
    + do 2 f_equal. exact Hn.
    + simpl. by rewrite (proj1 (mk_fixed _ _ _ _ _ _ Hm)).
  - exfalso. revert Hup. unfold UpdateOneID, mbind, M_bind, gets, put.
    destruct (_ !! _); [destruct (row_error _ _)|]; done.
Qed.

(** C6 [UpdateSubscription] changes the live subscription of the name and no other row,
    and of it exactly the columns the mask names, to what the request has (with the defaults for
    a TTL that is zero or missing, the dead-letter topic resolved among the live topics, and the
    durations as the interval columns keep them); it answers with the new row.  With an empty mask
    it answers nil and nothing changes.  It fails with a status, or panics, and then nothing
    changes; it panics only for a mask with [push_config] and no push configuration. *)
Theorem UpdateSubscription_mask req paths now w :
  world_wf w → isValidSubscriptionName (ps_Name req) = true →
  let '(res, w') := UpdateSubscription (Some req) paths (Ok ()) now w in
  match res with
  | Ok resp => ∃ sub tp, subscriptions (w_db w) !! s_id sub = Some sub ∧ live_sub_named (ps_Name req) sub ∧
      topics (w_db w) !! s_topicID sub = Some tp ∧
      (paths = [] ∧ resp = None ∧ unchanged w w' ∨
       paths ≠ [] ∧ ∃ sub', masked req now (w_db w) paths sub sub' ∧
         resp = Some (entSubscriptionToGrpc sub' None None (t_name tp)
           (default EmptyString (t_name <$> (s_deadLetterTopicID sub' ≫= λ i, topics (w_db w) !! i)))) ∧
         w_db w' = with_subscriptions (<[s_id sub := sub']> (subscriptions (w_db w))) (w_db w) ∧ world_wf w')
  | Err e => (∃ c, e = StatusError c) ∧ unchanged w w'
  | Panic _ => ("push_config" ∈ paths ∧ ps_PushConfig req = None) ∧ unchanged w w'
  end.
Proof.
  intros [W Wr] Hname. unfold UpdateSubscription. rewrite Hname. simpl negb. cbv iota.
  pose proof (UpdateSubscription_tx_run req paths now (txn_of w) W) as Hrun.
  destruct (UpdateSubscription_tx req paths now (txn_of w)) as [[resp t]|e|m] eqn:Htx.
  - destruct (DoTx_run _ w _ _ Wr Htx) as (r & -> & Wr' & Hh).
    destruct Hrun as (sub & tp & Hsub & Hl & Htp & Hcase). exists sub, tp. split_and!; try done.
    destruct Hcase as [(Hp & Hresp & ->)|(Hp & sub' & Hm & Hresp & Hdb & W')]; [left|right].
    + simpl in Hh. injection Hh as <-. done.
    + split; [done|]. exists sub'. by split_and!.
  - by rewrite (DoTx_fail _ _ _ _ Htx).
  - unfold DoTx. fold (txn_of w). by rewrite Htx.
Qed.
End Subscriber_spec.

(** ** Witnesses *)

Definition rpc_snapshot : snapshot :=
  MkSnapshot 41 1 "projects/p/snapshots/n" 0 9000 ∅ 200 [].
Definition snapshot_world : world :=
  MkWorld (with_snapshots {[41%N := rpc_snapshot]} rpc_db) empty_registry 0.
Lemma snapshot_world_wf : world_wf snapshot_world.
Proof. split; [apply db_wf_b_sound; vm_compute; reflexivity|exact empty_registry_wf]. Qed.

Lemma ListSnapshots_misses_witness :
  (ListSnapshots (E := id_engine) (U := bits_text) (MkListTopics "projects/p" 10 EmptyString) (Ok ())
     snapshot_world).1 = Ok ([], EmptyString) ∧
  (GetSnapshot (E := id_engine) "projects/p/snapshots/n" (Ok ()) snapshot_world).1 =
    Ok (loaded_snapshot (w_db snapshot_world) rpc_snapshot).
Proof.
  apply (ListSnapshots_misses (E := id_engine) (U := bits_text) "projects/p" 10 snapshot_world rpc_snapshot
    snapshot_world_wf).
  - intros k n Hn. simpl in Hn. apply lookup_singleton_Some in Hn as [_ <-]. reflexivity.
  - reflexivity.
  - reflexivity.
Defined.

(** An engine that keeps the whole microseconds of an interval. *)
Definition micro_engine : Engine := {|
  plan A l := l; plan_perm A l := reflexivity l; new_uuid := new_uuid (Engine := id_engine);
  stored_json := stored_json (Engine := id_engine); stored_interval d := d / 1000 * 1000 |}.
Definition fine_sub (ttl : duration) : PbSubscription :=
  MkPbSub "projects/p/subscriptions/new" "projects/p/topics/a" None 0 None ∅ true (Some ttl) EmptyString
    (Some (MkDeadLetterPolicy "projects/p/topics/b" 0)) (Some (MkRetryPolicy (Some Second) (Some (-1)))) false.

(** A TTL of whole microseconds is read back as it was answered; one with single nanoseconds is
    answered with them and read back without. *)
Lemma CreateSubscription_Get_witness :
  (∃ resp w', CreateSubscription (E := micro_engine) (fine_sub 5000) (Ok ()) 500 500 rpc_world = (Ok resp, w') ∧
     (GetSubscription (E := micro_engine) "projects/p/subscriptions/new" (Ok ()) w').1 = Ok resp ∧
     ps_DeadLetterPolicy resp = Some (MkDeadLetterPolicy "projects/p/topics/b" 5) ∧
     ps_RetryPolicy resp = Some (MkRetryPolicy (Some Second) None)) ∧
  (∃ resp got w', CreateSubscription (E := micro_engine) (fine_sub 5001) (Ok ()) 500 500 rpc_world = (Ok resp, w') ∧
     (GetSubscription (E := micro_engine) "projects/p/subscriptions/new" (Ok ()) w').1 = Ok got ∧
     ps_Ttl resp = Some 5001 ∧ ps_Ttl got = Some 5000).
Proof.
  split.
  - destruct (CreateSubscription (E := micro_engine) (fine_sub 5000) (Ok ()) 500 500 rpc_world) as [[resp|e|m] w'] eqn:Hc;
      [|exfalso; vm_compute in Hc; discriminate Hc..].
    destruct (CreateSubscription_Get (E := micro_engine) (fine_sub 5000) 500 500 rpc_world resp w' rpc_world_wf Hc)
      as (H1 & got & Hgot & _ & Hkept).
    exists resp, w'. split; [reflexivity|]. split; [|split; [exact (ec_DeadLetter _ _ _ H1)|]].
    + rewrite <- Hkept; [exact Hgot|]. vm_compute in Hc. injection Hc as <- _.
      repeat (apply Forall_cons; split; [vm_compute; reflexivity|]). apply Forall_nil_2.
    + vm_compute in Hc. injection Hc as <- _. reflexivity.
  - destruct (CreateSubscription (E := micro_engine) (fine_sub 5001) (Ok ()) 500 500 rpc_world) as [[resp|e|m] w'] eqn:Hc;
      [|exfalso; vm_compute in Hc; discriminate Hc..].
    destruct (CreateSubscription_Get (E := micro_engine) (fine_sub 5001) 500 500 rpc_world resp w' rpc_world_wf Hc)
      as (H1 & got & Hgot & H2 & _).
    exists resp, got, w'. split; [reflexivity|]. split; [exact Hgot|].
    split; [exact (ec_Ttl _ _ _ H1)|exact (ec_Ttl _ _ _ H2)].
Defined.

Definition demo_update : PbSubscription :=
  MkPbSub "projects/p/subscriptions/s" EmptyString None 0 None ∅ false None "attributes:color" None None false.

Lemma UpdateSubscription_mask_witness :
  ∃ sub', s_messageFilter sub' = Some "attributes:color" ∧ s_ttl sub' = 1000000 ∧
    subscriptions (w_db (UpdateSubscription (E := id_engine) (Some demo_update) ["filter"] (Ok ()) (λ _, 600)
      rpc_world).2) = {[11%N := sub']}.
Proof.
  pose proof (UpdateSubscription_mask (E := id_engine) demo_update ["filter"] (λ _, 600) rpc_world rpc_world_wf
    eq_refl) as H.
  destruct (UpdateSubscription (E := id_engine) _ _ _ _ _) as [[resp|e|m] w'] eqn:Hc.
  - destruct H as (sub & tp & Hsub & _ & _ & [(Hp & _)|(_ & sub' & Hm & _ & Hdb & _)]); [discriminate Hp|].
    simpl in Hsub. apply lookup_singleton_Some in Hsub as [Hid <-].
    exists sub'. split; [exact (mk_filter _ _ _ _ _ _ Hm)|]. split; [exact (proj1 (mk_ttl _ _ _ _ _ _ Hm))|].
    simpl. rewrite Hdb. simpl. apply insert_singleton_eq.
  - exfalso. vm_compute in Hc. discriminate Hc.
  - exfalso. vm_compute in Hc. discriminate Hc.
Defined.
