(* ===== verification/System.v ===== *)
(** * The system: every action, interleaved

    The actions of [src/actions] as one step relation on the world (database, waiters, id
    generator): a step runs one action's transaction through [DoTx], whatever the database
    answers to the commit, or lets a listener come or go.  The invariants hold in every
    reachable world; the safety of acknowledgements is about every run without a seek. *)

From S2P Require Import Prelude Uuid Filter FilterParse Schema Backoff Notify Store Example Deliver.
From S2P Require Import Lifecycle Ack Receive Seek Prune Rpc Publisher Subscriber.

(** An action, or the transaction of a method of the services, with its parameters, and the
    clock where it is read more than once. *)
Inductive read_request :=
  | ReadTopic (name : string) | ReadTopics (req : ListTopicsRequest)
  | ReadTopicSubscriptions (req : ListTopicSubscriptionsRequest)
  | ReadSubscription (name : string) | ReadSubscriptions (req : ListTopicsRequest)
  | ReadSnapshot (name : string) | ReadSnapshots (req : ListTopicsRequest).
Inductive request :=
  | ReqCreateTopic (p : CreateTopicParams)
  | ReqDeleteTopic (name : string)
  | ReqCreateSubscription (p : CreateSubscriptionParams) (createdAt : time)
  | ReqDeleteSubscription (name : string)
  | ReqDeleteExpired (p : PruneCommonParams)
  | ReqPublish (p : PublishMessageParams)
  | ReqAck (ids : list uuid)
  | ReqNack (ids : list uuid)
  | ReqAckNack (ack nack : list uuid) (now2 : time)
  | ReqDelay (ids : list uuid) (delay : duration)
  | ReqDeadLetter (maxDeliveries : nat)
  | ReqGetFirst (p : GetSubscriptionMessagesParams)
  | ReqGetRound (p : GetSubscriptionMessagesParams) (single_sqlite_tx : bool) (c : clock)
  | ReqGetTimeout (p : GetSubscriptionMessagesParams) (sub : subscription)
  | ReqCreateSnapshot (p : CreateSnapshotParams)
  | ReqSeekTime (p : SeekSubscriptionToTimeParams)
  | ReqSeekSnapshot (p : SeekSubscriptionToSnapshotParams)
  | ReqPruneDeliveries (j : delivery_job) (p : PruneCommonParams)
  | ReqPruneMessages (p : PruneCommonParams)
  | ReqPruneSubscriptions (p : PruneCommonParams)
  | ReqPruneTopics (p : PruneCommonParams)
  | ReqUpdateTopic (req : PbTopic) (paths : list string)
  | ReqPublishAll (req : PublishRequest) (clock : nat → time)
  | ReqUpdateSubscription (req : PbSubscription) (paths : list string) (clock : nat → time)
  | ReqModifyPushConfig (name : string) (cfg : option PushConfig)
  | ReqDeleteSnapshot (name : string)
  | ReqRead (q : read_request).

Definition is_seek (rq : request) : Prop :=
  match rq with ReqSeekTime _ | ReqSeekSnapshot _ => True | _ => False end.
#[export] Instance is_seek_dec rq : Decision (is_seek rq).
Proof. destruct rq; simpl; apply _. Defined.

Section System.
Context {E : Engine} {FP : FilterParser} {F : Float64} {U : UuidText}.

Definition forget {A} (m : Tx A) : Tx () := m ≫= λ _, mret ().

Definition read_transaction (q : read_request) : Tx () :=
  match q with
  | ReadTopic name => forget (GetTopic_tx name)
  | ReadTopics req => forget (ListTopics_tx req)
  | ReadTopicSubscriptions req => forget (ListTopicSubscriptions_tx req)
  | ReadSubscription name => forget (GetSubscription_tx name)
  | ReadSubscriptions req => forget (ListSubscriptions_tx req)
  | ReadSnapshot name => forget (GetSnapshot_tx name)
  | ReadSnapshots req => forget (ListSnapshots_tx req)
  end.

Definition transaction (rq : request) (now : time) : Tx () :=
  match rq with
  | ReqCreateTopic p => forget (CreateTopic_Execute p now)
  | ReqDeleteTopic name => forget (DeleteTopic_Execute name now)
  | ReqCreateSubscription p createdAt => forget (CreateSubscription_Execute p now createdAt)
  | ReqDeleteSubscription name => forget (DeleteSubscription_Execute name now)
  | ReqDeleteExpired p => forget (DeleteExpiredSubscriptions_Execute p now)
  | ReqPublish p => forget (PublishMessage_Execute p now)
  | ReqAck ids => forget (AckDeliveries_Execute ids now)
  | ReqNack ids => forget (NackDeliveries_Execute ids now)
  | ReqAckNack ack nack now2 => AckNack ack nack now now2
  | ReqDelay ids delay => forget (DelayDeliveries_Execute ids delay now)
  | ReqDeadLetter n => forget (DeadLetterDeliveries_Execute n now)
  | ReqGetFirst p => forget (first_tx p now)
  | ReqGetRound p sq c => forget (get_round sq p c)
  | ReqGetTimeout p sub => forget (applyResults p sub now [])
  | ReqCreateSnapshot p => forget (CreateSnapshot_Execute p now)
  | ReqSeekTime p => forget (SeekSubscriptionToTime_Execute p now)
  | ReqSeekSnapshot p => forget (SeekSubscriptionToSnapshot_Execute p now)
  | ReqPruneDeliveries j p => forget (job_Execute j p now)
  | ReqPruneMessages p => forget (PruneCompletedMessages_Execute p now)
  | ReqPruneSubscriptions p => forget (PruneDeletedSubscriptions_Execute p now)
  | ReqPruneTopics p => forget (PruneDeletedTopics_Execute p now)
  | ReqUpdateTopic req paths => forget (UpdateTopic_tx req paths)
  | ReqPublishAll req clock => forget (Publish_tx req clock)
  | ReqUpdateSubscription req paths clock => forget (UpdateSubscription_tx req paths clock)
  | ReqModifyPushConfig name cfg => ModifyPushConfig_tx name cfg
  | ReqDeleteSnapshot name => forget (Delete (λ n : snapshot, n_name n = name))
  | ReqRead q => read_transaction q
  end.

(** One step; [allowed] says which actions may be taken. *)
Inductive step (allowed : request → Prop) : world → world → Prop :=
  | step_action rq now committed w :
      allowed rq → step allowed w (DoTx committed (transaction rq now) w).2
  | step_listener o w r :
      run_op o (w_reg w) = Ok ((), r) → step allowed w (with_reg r w).

Definition any_request (rq : request) : Prop := True.
Definition reachable (w : world) : Prop := rtc (step any_request) empty_world w.

(** ** Every action keeps the database well-formed *)

Lemma respects_forget {R A} `{!TxRel R} (m : Tx A) : respects R m → respects R (forget m).
Proof. intros. apply respects_bind; [done|intros; apply respects_ret]. Qed.
Lemma respects_on_error {R A} (m : Tx A) f : respects R m → respects R (on_error m f).
Proof. intros Hm t a t' H. unfold on_error in H. destruct (m t) as [[]|?|?] eqn:Ht; simplify_eq. by apply Hm in Ht. Qed.

Lemma DoTx_forget {A} committed (inner : Tx A) w :
  (DoTx committed (forget inner) w).2 = (DoTx committed inner w).2.
Proof.
  unfold DoTx, forget, mbind, M_bind. destruct (inner _) as [[a t]|e|q]; [|done..].
  unfold mret, M_ret. destruct committed; [|done..]. by destruct (run_hooks _ _) as [[? ?]|?|?].
Qed.

(** What a relation must tolerate for every action to respect it: the statements the
    actions are made of.  [keeps f]: the update function does not touch a delivery's keys. *)
Definition keeps (f : delivery → delivery) : Prop :=
  ∀ e, d_id (f e) = d_id e ∧ d_messageID (f e) = d_messageID e ∧
    d_subscriptionID (f e) = d_subscriptionID e ∧ d_notBeforeID (f e) = d_notBeforeID e.
Definition stays_done (f : delivery → delivery) : Prop :=
  ∀ e, is_Some (d_completedAt e) → is_Some (d_completedAt (f e)).

Class tolerates_table (R : txn → txn → Prop) (A : Type) `{Table A} := {
  to_Create : ∀ r : A, respects R (Create r);
  to_Update : ∀ (P : A → Prop) `{∀ x, Decision (P x)} f, respects R (Update P f);
  to_UpdateOneID : ∀ id (f : A → A), respects R (UpdateOneID id f);
  to_Delete : ∀ (P : A → Prop) `{∀ x, Decision (P x)}, respects R (Delete P) }.

(** The columns of a subscription that other code reads without looking again: the filter
    is a filter, and the push endpoint is not empty.  [sub_quiet f]: [f] keeps it so. *)
Definition sub_typed (s : subscription) : Prop :=
  (∀ src, s_messageFilter s = Some src → src ≠ EmptyString ∧ is_Some (ParseString src)) ∧
  s_pushEndpoint s ≠ Some EmptyString.
Definition sub_quiet (f : subscription → subscription) : Prop := ∀ s, sub_typed s → sub_typed (f s).

(** All statements but those on subscriptions *)
Class tolerates_rest (R : txn → txn → Prop) := {
  to_rel :: TxRel R;
  to_topic :: tolerates_table R topic;
  to_message :: tolerates_table R message;
  to_snapshot :: tolerates_table R snapshot;
  to_bulk : ∀ dc, (∀ c id, c ∈ dc → d_id (c id) = id) → respects R (CreateBulk dc);
  to_del_Update : ∀ (P : delivery → Prop) `{∀ x, Decision (P x)} f,
    keeps f → stays_done f → respects R (Update P f);
  to_del_UpdateOneID : ∀ id f, keeps f → stays_done f → respects R (UpdateOneID id f);
  to_del_Delete : ∀ (P : delivery → Prop) `{∀ x, Decision (P x)}, respects R (Delete P) }.

(** The statements on subscriptions, and whole the two transactions that write filters *)
Class tolerates_sub (R : txn → txn → Prop) := {
  to_sub_Update : ∀ (P : subscription → Prop) `{∀ x, Decision (P x)} f, sub_quiet f → respects R (Update P f);
  to_sub_UpdateOneID : ∀ id f, sub_quiet f → respects R (UpdateOneID id f);
  to_sub_Delete : ∀ (P : subscription → Prop) `{∀ x, Decision (P x)}, respects R (Delete P);
  to_CreateSubscription : ∀ p now createdAt, respects R (CreateSubscription_Execute p now createdAt);
  to_UpdateSubscription : ∀ req paths now, respects R (UpdateSubscription_tx req paths now) }.
Class tolerates (R : txn → txn → Prop) := { to_rest :: tolerates_rest R; to_sub :: tolerates_sub R }.
End System.

Lemma completes_ok now : keeps (del_set_completedAt (Some now)) ∧ stays_done (del_set_completedAt (Some now)).
Proof. split; [done|]. intros e _. by eexists. Qed.
Lemma attemptAt_ok now : keeps (del_set_attemptAt now) ∧ stays_done (del_set_attemptAt now).
Proof. by split; intros e. Qed.
Lemma attempted_ok now at_ : keeps (del_attempted now at_) ∧ stays_done (del_attempted now at_).
Proof. by split; intros e. Qed.

Ltac del_ok := first [apply completes_ok|apply attemptAt_ok|apply attempted_ok].
Lemma if_set_nonempty (x : string) : if_set x ≠ Some EmptyString.
Proof. unfold if_set, is_empty. case_bool_decide; [done|]. congruence. Qed.
Ltac quiet_ok := intros ? [? ?]; split; [done|first [done|apply if_set_nonempty]].
(** One statement of the goal's transaction. *)
Ltac resp_step := cbv beta zeta; lazymatch goal with
  | |- respects _ (_ ≫= _) => apply respects_bind; [|intros ?]
  | |- respects _ (mret _) => apply respects_ret
  | |- respects _ (gets _) => apply respects_gets
  | |- respects _ (fail _) => apply respects_fail
  | |- respects _ (panic _) => apply respects_panic
  | |- respects _ (lift _) => apply respects_lift
  | |- respects _ (OnCommit _) => apply respects_OnCommit
  | |- respects _ uuid_New => apply respects_uuid_New
  | |- respects _ (All _) => apply respects_All
  | |- respects _ (Only _) => apply respects_Only
  | |- respects _ (Exist _) => apply respects_Exist
  | |- respects _ (Create _) => apply to_Create
  | |- respects _ (Update _ _) => first [apply to_Update | apply to_del_Update; del_ok | apply to_sub_Update; quiet_ok]
  | |- respects _ (UpdateOneID _ _) => first [apply to_UpdateOneID | apply to_del_UpdateOneID; del_ok | apply to_sub_UpdateOneID; quiet_ok]
  | |- respects _ (Delete _) => first [apply to_Delete | apply to_del_Delete | apply to_sub_Delete]
  | |- respects _ (forM _ _) => apply respects_forM; intros ? ?
  | |- respects _ (traverseM _ _) => apply respects_traverseM; intros ? ?
  | |- respects _ (hooked _ _) => apply respects_hooked
  | |- respects _ (on_error _ _) => apply respects_on_error
  | |- respects _ (match ?x with _ => _ end) => destruct x
  | |- respects _ _ => solve [auto with respects]
  end.
Ltac resp := unfold findTopic, notifyPublish, NotifyModifyTopic, NotifyModifySubscription, Get in *;
  repeat resp_step.

Section Actions.
Context {E : Engine} {FP : FilterParser} {F : Float64} {U : UuidText}.
Context (R : txn → txn → Prop) `{!tolerates_rest R}.

Lemma deliver_all_respects subs m now : respects R (deliver_all subs m now).
Proof.
  intros t n t' H. unfold deliver_all in H.
  rewrite (bind_step _ _ _ _ _ (traverse_deliver_run subs m now t)) in H. cbv zeta in H.
  etrans; [apply tr_hook|]. eapply respects_bind; [apply to_bulk| |exact H].
  - intros c id. rewrite list_elem_of_omap. intros (o & Ho & Hoc). simpl in Hoc. subst o.
    apply list_elem_of_fmap in Ho as (s & Hs & _). by case_match; simplify_eq.
  - intros []. apply respects_ret.
Qed.
Lemma deadLetterDelivery_respects data now : respects R (deadLetterDelivery data now).
Proof.
  unfold deadLetterDelivery, deliverToDeadLetterTopic. resp; try apply deliver_all_respects.
Qed.
Hint Resolve deliver_all_respects deadLetterDelivery_respects : respects.

Lemma apply_loop_respects p sub now i bytes ds : respects R (apply_loop p sub now i bytes ds).
Proof.
  revert i bytes. induction ds as [|[e m] ds IH]; intros i bytes; simpl; resp; apply IH.
Qed.
Lemma update_paths_respects req now i paths u : respects R (update_paths req now i paths u).
Proof.
  revert i u. induction paths as [|p paths IH]; intros i u; simpl; [apply respects_ret|].
  apply respects_bind; [unfold update_path, topic_by_name; resp|intros; apply IH].
Qed.

(** A relation that tolerates whatever is written to subscriptions *)
Lemma tolerates_all : tolerates_table R subscription → tolerates R.
Proof.
  intros Hs. split; [done|]. split; intros; [apply to_Update|apply to_UpdateOneID|apply to_Delete|..].
  - unfold CreateSubscription_Execute, save_subscription, validate_name. resp.
  - unfold UpdateSubscription_tx, sub_by_name. resp. apply update_paths_respects.
Qed.

Context `{!tolerates_sub R}.

Lemma applyResults_respects p sub now ds : respects R (applyResults p sub now ds).
Proof. unfold applyResults. resp; apply apply_loop_respects. Qed.
Hint Resolve applyResults_respects : respects.

Lemma transaction_respects rq now :
  (is_seek rq → ∀ (P : delivery → Prop) `{∀ x, Decision (P x)} x y,
     respects R (Update P (del_deacked x y))) →
  respects R (transaction rq now).
Proof.
  intros Hseek. destruct rq; simpl; try apply respects_forget.
  - unfold CreateTopic_Execute, validate_name. resp.
  - unfold DeleteTopic_Execute. resp.
  - apply to_CreateSubscription.
  - unfold DeleteSubscription_Execute, delete_subs. resp.
  - unfold DeleteExpiredSubscriptions_Execute, delete_subs. resp.
  - unfold PublishMessage_Execute. resp.
  - unfold AckDeliveries_Execute. resp.
  - unfold NackDeliveries_Execute, nack_one. resp.
  - unfold AckNack, AckDeliveries_Execute, NackDeliveries_Execute, nack_one. resp.
  - unfold DelayDeliveries_Execute. resp.
  - unfold DeadLetterDeliveries_Execute. resp.
  - unfold first_tx, verifySub. resp.
  - unfold get_round, verifySub, queryAndLockDeliveriesOnce, nextAttempt. resp.
  - resp.
  - unfold CreateSnapshot_Execute. resp.
  - unfold SeekSubscriptionToTime_Execute, find_sub, notify_if_changed.
    resp; by apply Hseek.
  - unfold SeekSubscriptionToSnapshot_Execute, find_sub, seek_to_snapshot, notify_if_changed.
    resp; by apply Hseek.
  - destruct j; simpl; unfold PruneCompletedDeliveries_Execute,
      PruneDeletedSubscriptionDeliveries_Execute, PruneExpiredDeliveries_Execute, query_ids; resp.
  - unfold PruneCompletedMessages_Execute, query_ids. resp.
  - unfold PruneDeletedSubscriptions_Execute. resp.
  - unfold PruneDeletedTopics_Execute. resp.
  - unfold UpdateTopic_tx, topic_by_name. resp.
  - unfold Publish_tx, topic_by_name, publish_nth, PublishMessage_Execute. resp.
  - apply to_UpdateSubscription.
  - unfold ModifyPushConfig_tx, sub_by_name. resp.
  - resp.
  - unfold read_transaction, GetTopic_tx, ListTopics_tx, ListTopicSubscriptions_tx, GetSubscription_tx,
      ListSubscriptions_tx, GetSnapshot_tx, ListSnapshots_tx, list_tx, parse_token, topic_by_name, sub_by_name.
    destruct q; apply respects_forget; resp.
Qed.
End Actions.

(** ** Well-formedness *)

Section Wf.
Context {E : Engine} {FP : FilterParser} {F : Float64} {U : UuidText}.

Lemma tolerates_table_wf A `{TableLaws A} : tolerates_table keeps_wf A.
Proof. split; intros; [apply Create_wf|apply Update_wf|apply UpdateOneID_wf|apply Delete_wf]. Qed.
#[export] Instance tolerates_wf : tolerates keeps_wf.
Proof.
  apply tolerates_all; [|apply (tolerates_table_wf _)].
  split; [apply _|apply (tolerates_table_wf _)..|intros dc _|intros; apply Update_wf
    |intros; apply UpdateOneID_wf|intros; apply Delete_wf].
  unfold CreateBulk. apply respects_forM. intros c _. apply respects_bind; [apply respects_uuid_New|].
  intros id. apply Create_wf.
Qed.

Lemma transaction_wf rq now : respects keeps_wf (transaction rq now).
Proof. apply transaction_respects; [apply _..|]. intros _ P ? x y. apply Update_wf. Qed.

Lemma step_wf allowed w w' : step allowed w w' → world_wf w → world_wf w'.
Proof.
  intros [rq now committed v _|o v r Hr] W; [by apply DoTx_world_wf, W; apply transaction_wf|].
  split; [apply W|]. pose proof (run_op_effect o _ (ww_reg _ W)) as He. unfold wp in He.
  rewrite Hr in He. apply He.
Qed.

Lemma steps_wf allowed w w' : rtc (step allowed) w w' → world_wf w → world_wf w'.
Proof. induction 1 as [|w w1 w2 Hs _ IH]; [done|]. intros W. eauto using step_wf. Qed.

Lemma empty_world_wf : world_wf empty_world.
Proof. split; [apply empty_db_wf|apply empty_registry_wf]. Qed.
Lemma reachable_world_wf w : reachable w → world_wf w.
Proof. intros Hr. by eapply steps_wf, empty_world_wf. Qed.
End Wf.

(** ** What happens to a row of deliveries

    Two facts about deliveries are followed through every run: that a delivery is completed,
    and that one waits for another.  What both ask of the statements is the same. *)

(** [T d' e e']: what is kept of the row [e] when it is [e'] in the database [d']; [J d k1 k2]:
    what is known of the rows with these keys. *)
Class tracked (T : db → delivery → delivery → Prop) (J : db → uuid → uuid → Prop) : Prop := {
  tk_refl : ∀ d e, T d e e;
  tk_update : ∀ d f e, keeps f → stays_done f → T d e (f e);
  tk_null : ∀ d (ids : gset uuid) e, (∀ k, k ∈ ids → deliveries d !! k = None) →
    T d e (del_set_notBeforeID (null_if ids (d_notBeforeID e)) e);
  tk_from : ∀ d d' k1 k2, (∀ k e', deliveries d' !! k = Some e' →
      ∃ e, deliveries d !! k = Some e ∧ T d' e e') → J d k1 k2 → J d' k1 k2;
  tk_insert : ∀ d e k1 k2, d_id e ≠ k1 → d_id e ≠ k2 → J d k1 k2 →
    J (with_deliveries (<[d_id e := e]> (deliveries d)) d) k1 k2 }.

(** The ids in use were drawn from the generator. *)
Definition drawn `{Engine} (t : txn) : Prop :=
  ∀ k, is_Some (deliveries (tx_db t) !! k) → ∃ i, (i < tx_fresh t)%nat ∧ new_uuid i = k.

(** The tables whose statements do not write deliveries. *)
Definition spares (A : Type) `{Table A} : Prop :=
  (∀ d (m : gmap uuid A), deliveries (with_table m d) = deliveries d) ∧
  (∀ d ids, deliveries (set_null ids d) = deliveries d).

Definition world_txn (w : world) : txn := MkTxn (w_db w) [] (w_fresh w).

Section Track.
Context {E : Engine} {FP : FilterParser} {F : Float64} {U : UuidText}.
Context (new_uuid_inj : ∀ i j, new_uuid i = new_uuid j → i = j).
Context (T : db → delivery → delivery → Prop) (J : db → uuid → uuid → Prop) `{!tracked T J}.

Definition stays (t t' : txn) : Prop :=
  db_wf (tx_db t) → drawn t →
  db_wf (tx_db t') ∧ drawn t' ∧ (tx_fresh t ≤ tx_fresh t')%nat ∧
  ∀ i j, (i < tx_fresh t)%nat → (j < tx_fresh t)%nat →
    J (tx_db t) (new_uuid i) (new_uuid j) → J (tx_db t') (new_uuid i) (new_uuid j).

#[export] Instance stays_rel : TxRel stays.
Proof.
  split.
  - split; [by intros t W D|]. intros t1 t2 t3 H12 H23 W D.
    destruct (H12 W D) as (W2 & D2 & Hf & Hd). destruct (H23 W2 D2) as (W3 & D3 & Hf' & Hd').
    split_and!; [done|done|lia|]. intros i j Hi Hj HJ. apply Hd'; [lia..|]. by apply Hd.
  - by intros t h W D.
  - intros t W D. split_and!; [done| |simpl; lia|done].
    intros k Hk. destruct (D k Hk) as (i & ? & ?). exists i. simpl. split; [lia|done].
Qed.

(** A state with the same generator whose deliveries come from the old ones. *)
Lemma stays_from t t' :
  (db_wf (tx_db t) → db_wf (tx_db t')) →
  (db_wf (tx_db t) → tx_fresh t' = tx_fresh t ∧
    ∀ k e', deliveries (tx_db t') !! k = Some e' →
      ∃ e, deliveries (tx_db t) !! k = Some e ∧ T (tx_db t') e e') →
  stays t t'.
Proof.
  intros HW Hd W D. destruct (Hd W) as [Hf Hd']. split_and!; [auto|..|lia|].
  - intros k [e' He']. rewrite Hf. destruct (Hd' _ _ He') as (e & He & _). apply D. by exists e.
  - intros i j _ _. by apply tk_from.
Qed.
Lemma stays_same t t' :
  (db_wf (tx_db t) → db_wf (tx_db t')) → tx_fresh t' = tx_fresh t →
  deliveries (tx_db t') = deliveries (tx_db t) → stays t t'.
Proof.
  intros HW Hf Hd. apply stays_from; [done|]. intros _. split; [done|]. intros k e. rewrite Hd.
  intros He. exists e. split; [done|apply tk_refl].
Qed.

Lemma tolerates_table_stays A `{TableLaws A} : spares A → tolerates_table stays A.
Proof.
  intros [Hs Hn].
  assert (Hput : ∀ r : A, respects stays (put r)).
  { intros r t [] t' Ht. apply stays_same; [by eapply put_wf|..];
      apply put_run in Ht as [_ ->]; [done|apply Hs]. }
  split.
  - intros r. apply respects_bind; [apply respects_gets|]. intros []; [apply respects_fail|done].
  - intros P ? f. apply respects_bind; [apply respects_gets|]. intros rs.
    apply respects_bind; [by apply respects_forM|intros; apply respects_ret].
  - intros id f. apply respects_bind; [apply respects_gets|]. intros []; [done|apply respects_fail].
  - intros P ? t n t' Ht. pose proof (Delete_wf P _ _ _ Ht) as HW.
    unfold Delete, All in Ht. inv_monad. case_decide; inv_monad.
    apply stays_same; [done|done|]. simpl. unfold delete_ids. by rewrite Hn, Hs.
Qed.

Lemma CreateBulk_stays dc : (∀ c id, c ∈ dc → d_id (c id) = id) → respects stays (CreateBulk dc).
Proof.
  intros Hc. unfold CreateBulk. apply respects_forM. intros c Hin t [] t' Ht W D.
  pose proof (respects_bind (R := keeps_wf) uuid_New _ (respects_uuid_New)
    (λ id, Create_wf (c id)) _ _ _ Ht W) as W'.
  unfold mbind, M_bind, uuid_New in Ht. unfold Create in Ht. inv_monad.
  match goal with H : (match ?x with _ => _ end) _ = _ |- _ => destruct x; [done|] end.
  match goal with H : put _ _ = _ |- _ => apply put_run in H as [_ ->] end.
  specialize (Hc c (new_uuid (tx_fresh t)) Hin). set (e0 := c (new_uuid (tx_fresh t))) in *.
  split_and!; [done|..|simpl; lia|].
  - intros k [e He]. simpl in He. rewrite Hc in He.
    apply lookup_insert_Some in He as [[<- _]|[_ He]].
    + exists (tx_fresh t). simpl. split; [lia|done].
    + destruct (D k) as (i & ? & ?); [by exists e|]. exists i. simpl. split; [lia|done].
  - intros i j Hi Hj HJ. apply (tk_insert (tx_db t) e0); [..|exact HJ];
      rewrite Hc; intros Heq%new_uuid_inj; lia.
Qed.

Lemma del_Update_stays (P : delivery → Prop) `{∀ x, Decision (P x)} f :
  keeps f → (∀ d e, T d e (f e)) → respects stays (Update P f).
Proof.
  intros Hk Hd t n t' Ht. assert (Hh : harmless P f) by (by apply delivery_harmless).
  apply stays_from; [exact (Update_wf P f _ _ _ Ht)|]. intros W.
  destruct (Update_run P f t Hh W) as [Hr _]. rewrite Hr in Ht. simplify_eq.
  split; [done|]. intros k e'. simpl. unfold update_map.
  rewrite lookup_fmap, fmap_Some. intros (e & He & ->). exists e. split; [done|].
  case_decide; [apply Hd|apply tk_refl].
Qed.

Lemma del_UpdateOneID_stays id f :
  keeps f → (∀ d e, T d e (f e)) → respects stays (UpdateOneID id f).
Proof.
  intros Hk Hd t [] t' Ht. apply stays_from; [exact (UpdateOneID_wf id f _ _ _ Ht)|]. intros W.
  destruct (UpdateOneID_inv _ _ _ _ _ Ht W) as (e & He & -> & _). split; [done|].
  pose proof (tw_key _ (wf_deliveries _ W) _ _ He) as Hid. simpl in Hid.
  intros k e' Hk'. simpl in Hk'. rewrite (proj1 (Hk e)), Hid in Hk'.
  apply lookup_insert_Some in Hk' as [[<- <-]|[_ Hk']]; [exists e|exists e'];
    (split; [done|first [apply Hd|apply tk_refl]]).
Qed.

Lemma del_Delete_stays (P : delivery → Prop) `{∀ x, Decision (P x)} : respects stays (Delete P).
Proof.
  intros t n t' Ht. pose proof (Delete_wf P _ _ _ Ht) as HW.
  unfold Delete, All in Ht. inv_monad. try case_decide; inv_monad.
  apply stays_from; [done|]. intros W. split; [done|]. intros k e'. simpl.
  rewrite lookup_fmap, fmap_Some. intros (e & [He _]%map_lookup_filter_Some & ->). exists e.
  split; [done|]. apply tk_null. intros k1 Hk1. simpl. rewrite lookup_fmap.
  apply fmap_None, map_lookup_filter_None. right. intros e1 _ Hn. by apply Hn.
Qed.

#[export] Instance tolerates_stays : tolerates stays.
Proof.
  apply tolerates_all; [|apply (tolerates_table_stays _); split; intros; reflexivity].
  split; [apply _|apply (tolerates_table_stays _); split; intros; reflexivity..|exact CreateBulk_stays
    |intros; apply del_Update_stays; [done|intros; by apply tk_update]
    |intros; apply del_UpdateOneID_stays; [done|intros; by apply tk_update]|intros; apply del_Delete_stays].
Qed.

(** Seeks are excluded, or keep it too. *)
Definition seeks_tracked (allowed : request → Prop) : Prop :=
  ∀ rq, allowed rq → is_seek rq → ∀ d e x y, T d e (del_deacked x y e).

Lemma step_stays allowed w w' :
  seeks_tracked allowed → step allowed w w' → stays (world_txn w) (world_txn w').
Proof.
  intros Hall [rq now committed v Hrq|o v r Hr]; [|by apply stays_same].
  assert (Hrb : stays (world_txn v) (world_txn (MkWorld (w_db v) (w_reg v) (S (w_fresh v))))).
  { exact (tr_fresh (world_txn v)). }
  assert (Hok : ∀ u t g, transaction rq now (world_txn v) = Ok (u, t) →
    stays (world_txn v) (world_txn (MkWorld (tx_db t) g (tx_fresh t)))).
  { intros u t g Ht. apply (transaction_respects stays) in Ht; [by destruct t|].
    intros Hs P ? x y. apply del_Update_stays; [done|]. intros d e. by eapply Hall. }
  unfold DoTx. destruct (transaction rq now _) as [[u t]|e|q] eqn:Ht; [|done..].
  specialize (Hok u t). destruct committed; [|done..].
  destruct (run_hooks _ _) as [[? ?]|?|?]; simpl; by apply Hok.
Qed.

Lemma steps_stays allowed w w' :
  seeks_tracked allowed → rtc (step allowed) w w' → stays (world_txn w) (world_txn w').
Proof.
  intros Hall. induction 1 as [w|w w1 w2 Hs _ IH]; [reflexivity|]. etrans; [by eapply step_stays|done].
Qed.
End Track.

(** ** Acknowledged deliveries *)

(** The delivery is gone or completed. *)
Definition dead (d : db) (k : uuid) : Prop :=
  ∀ e, deliveries d !! k = Some e → is_Some (d_completedAt e).
Definition done_kept (_ : db) (e e' : delivery) : Prop := is_Some (d_completedAt e) → is_Some (d_completedAt e').
#[export] Instance dead_tracked : tracked done_kept (λ d k _, dead d k).
Proof.
  split; [by intros d e H|intros d f e _ Hf; exact (Hf e)|by intros d ids e _ H|..].
  - intros d d' k1 _ Hd Hdead e' He'. destruct (Hd _ _ He') as (e & He & Hc). by apply Hc, Hdead.
  - intros d e k1 _ Hne _ Hdead e' He'. simpl in He'. rewrite lookup_insert_ne in He' by done. by apply Hdead.
Qed.
(** That the ids are drawn needs nothing of the rows. *)
#[export] Instance nothing_tracked : tracked (λ _ _ _, True) (λ _ _ _, True).
Proof. by split. Qed.

Section Invariants.
Context {E : Engine} {FP : FilterParser} {F : Float64} {U : UuidText}.

Definition no_seek (rq : request) : Prop := ¬ is_seek rq.

Lemma reachable_drawn w :
  (∀ i j, new_uuid i = new_uuid j → i = j) → reachable w → drawn (world_txn w).
Proof.
  intros Hinj Hr.
  apply (steps_stays Hinj (λ _ _ _, True) (λ _ _ _, True) any_request empty_world w); [done|done|apply empty_db_wf|]. intros k [e He]. done.
Qed.

(** C2 In every world the service can reach, by any actions in any order with any
    commit failures and any coming and going of listeners, all constraints hold: the
    database is well-formed and no waiter registry is corrupt.  In particular at most one live
    topic and one live subscription has a given name, and every delivery refers to a stored
    message and a stored subscription. *)
Theorem reachable_invariant w :
  reachable w → world_wf w ∧
  (∀ t1 t2, topics (w_db w) !! t_id t1 = Some t1 → topics (w_db w) !! t_id t2 = Some t2 →
     t_name t1 = t_name t2 → t_deletedAt t1 = None → t_deletedAt t2 = None → t1 = t2) ∧
  (∀ s1 s2, subscriptions (w_db w) !! s_id s1 = Some s1 → subscriptions (w_db w) !! s_id s2 = Some s2 →
     s_name s1 = s_name s2 → s_deletedAt s1 = None → s_deletedAt s2 = None → s1 = s2) ∧
  (∀ k e, deliveries (w_db w) !! k = Some e →
     is_Some (messages (w_db w) !! d_messageID e) ∧
     is_Some (subscriptions (w_db w) !! d_subscriptionID e)).
Proof.
  intros Hr. pose proof (reachable_world_wf _ Hr) as W. pose proof (ww_db _ W) as Wd.
  split_and!; [done|..].
  - intros t1 t2 H1 H2 Hn L1 L2. destruct (live_topics_named (t_name t1) _ Wd) as [Hrows|(tp & Hrows & _)].
    + by destruct (rows_named_none (A := topic) _ _ _ Hrows H1).
    + assert (Hin : ∀ x, topics (w_db w) !! t_id x = Some x → live_topic_named (t_name t1) x → x = tp).
      { intros x Hx Hl. apply list_elem_of_singleton. rewrite <- Hrows. by apply elem_of_rows_wf. }
      rewrite (Hin t1), (Hin t2); done.
  - intros s1 s2 H1 H2 Hn L1 L2. destruct (live_subs_named (s_name s1) _ Wd) as [Hrows|(s & Hrows & _)].
    + by destruct (rows_named_none (A := subscription) _ _ _ Hrows H1).
    + assert (Hin : ∀ x, subscriptions (w_db w) !! s_id x = Some x → live_sub_named (s_name s1) x → x = s).
      { intros x Hx Hl. apply list_elem_of_singleton. rewrite <- Hrows. by apply elem_of_rows_wf. }
      rewrite (Hin s1), (Hin s2); done.
  - intros k e He. by destruct (tw_fk _ (wf_deliveries _ Wd) _ _ He) as (? & ? & _).
Qed.

(** A completed delivery stays completed, or goes, in every run without a seek. *)
Lemma completed_stays w w' k e :
  (∀ i j, new_uuid i = new_uuid j → i = j) → reachable w →
  deliveries (w_db w) !! k = Some e → is_Some (d_completedAt e) → rtc (step no_seek) w w' →
  ∀ e', deliveries (w_db w') !! k = Some e' → is_Some (d_completedAt e').
Proof.
  intros Hinj Hr He Hc Hsteps. pose proof (reachable_drawn w Hinj Hr) as D.
  destruct (steps_stays Hinj done_kept (λ d k _, dead d k) no_seek w w'
    (λ rq Hn Hs, False_ind _ (Hn Hs)) Hsteps (ww_db _ (reachable_world_wf _ Hr)) D) as (_ & _ & _ & Hdead).
  destruct (D k) as (i & Hi & <-); [by exists e|].
  apply (Hdead i i Hi Hi). intros e0 He0. simpl in He0. rewrite He in He0. by simplify_eq.
Qed.

(** C1 A delivery that is acknowledged (or otherwise completed) in a reachable world is
    never handed out again: after any further steps none of which is a seek, it is gone or
    still completed, and no query for due deliveries returns it.  Only the injectivity of
    the id generator is assumed. *)
Theorem acknowledged_never_redelivered w w' k e :
  (∀ i j, new_uuid i = new_uuid j → i = j) →
  reachable w →
  deliveries (w_db w) !! k = Some e → is_Some (d_completedAt e) →
  rtc (step no_seek) w w' →
  (∀ e', deliveries (w_db w') !! k = Some e' → is_Some (d_completedAt e')) ∧
  ∀ p sub now nowB locked hooks ds t,
    queryAndLockDeliveriesOnce p sub now nowB locked (MkTxn (w_db w') hooks (w_fresh w')) = Ok (ds, t) →
    k ∉ em_id <$> ds.
Proof.
  intros Hinj Hr He Hc Hsteps.
  assert (W' : db_wf (w_db w')) by (by eapply ww_db, steps_wf, reachable_world_wf, Hr).
  pose proof (completed_stays w w' k e Hinj Hr He Hc Hsteps) as Hd.
  split; [exact Hd|]. intros p sub now nowB locked hooks ds t Hq.
  unfold queryAndLockDeliveriesOnce in Hq. apply gets_Ok in Hq as [-> _].
  intros ([e' m] & Hk & Hin)%list_elem_of_fmap. apply list_elem_of_omap in Hin as (e0 & Hin & Hm).
  unfold with_message in Hm. apply fmap_Some in Hm as (m0 & _ & [= -> ->]).
  apply elem_of_take_incl in Hin. rewrite elem_of_sort_by in Hin.
  apply elem_of_rows_wf in Hin as [[(_ & Hnone & _) _] Hst]; [|exact W'].
  simpl in Hst. unfold em_id in Hk. simpl in Hk. rewrite <- Hk in Hst.
  destruct (Hd _ Hst) as [? ?]. congruence.
Qed.
End Invariants.

(** ** Witnesses *)

#[local] Existing Instance bits_text.

(** A topic, a subscription, one message, and its delivery acknowledged. *)
Definition demo_requests : list (request * time) := [
  (ReqCreateTopic (MkCreateTopic "t" ∅), 10);
  (ReqCreateSubscription (MkCreateSub "t" "s" Hour Minute false ∅ EmptyString 0 0 EmptyString 0 EmptyString) 20, 20);
  (ReqPublish (MkPublish "t" None "hello" ∅ EmptyString), 30);
  (ReqAck [1003%N], 40) ].
Definition demo_step (w : world) (rq : request * time) : world :=
  (DoTx (Ok ()) (transaction (E := id_engine) rq.1 rq.2) w).2.
Definition demo_world : world := foldl demo_step empty_world demo_requests.

Lemma demo_steps w l : rtc (step (E := id_engine) any_request) w (foldl demo_step w l).
Proof.
  revert w. induction l as [|[rq now] l IH]; intros w; simpl; [done|].
  eapply rtc_l, IH. by apply step_action.
Qed.
Lemma demo_reachable : reachable (E := id_engine) demo_world.
Proof. apply demo_steps. Qed.

Lemma reachable_invariant_witness : world_wf demo_world.
Proof. apply (reachable_invariant (E := id_engine) demo_world demo_reachable). Defined.

(** Nacking the acknowledged delivery does not bring it back. *)
Lemma acknowledged_never_redelivered_witness :
  ∃ e, deliveries (w_db demo_world) !! 1003%N = Some e ∧
    ∀ e', deliveries (w_db (demo_step demo_world (ReqNack [1003%N], 50))) !! 1003%N = Some e' →
      is_Some (d_completedAt e').
Proof.
  destruct (deliveries (w_db demo_world) !! 1003%N) as [e|] eqn:He; [|vm_compute in He; discriminate].
  exists e. split; [reflexivity|].
  apply (acknowledged_never_redelivered (E := id_engine) demo_world
    (demo_step demo_world (ReqNack [1003%N], 50)) 1003%N e).
  - intros i j Hij. simpl in Hij. lia.
  - apply demo_reachable.
  - exact He.
  - vm_compute in He. injection He as <-. eexists. reflexivity.
  - apply rtc_once. apply (step_action (E := id_engine) no_seek (ReqNack [1003%N]) 50 (Ok ())).
    intros H. exact H.
Defined.
