(* ===== verification/Ordering.v ===== *)
(** * Ordered subscriptions

    How [src/actions/delivery-utils.go] and [src/actions/get-subscription-messages.go] together
    keep an ordered subscription in order: a delivery of a message with an ordering key is
    linked when it is made to the newest unexpired delivery of the subscription for the same
    topic, and the link holds it back until that one is completed, expires or is pruned.  The
    section follows one link through every run of the system: no action, whether it retries,
    seeks, prunes or dead-letters, takes the link away while the delivery it points at is
    there.  The last example shows what the links do not give: a message without a key
    breaks the chain between two messages of the same key. *)

From S2P Require Import Prelude Uuid Filter FilterParse Schema Backoff Notify Store Example Deliver.
From S2P Require Import Lifecycle Ack Receive Seek Prune Rpc Publisher Subscriber System.

(** ** A link through a run *)

(** Delivery [k2] waits for [k1]: one of them is gone, or the link is there. *)
Definition waits_for (d : db) (k1 k2 : uuid) : Prop :=
  deliveries d !! k1 = None ∨ ∀ e, deliveries d !! k2 = Some e → d_notBeforeID e = Some k1.
(** Links are only lost with what they point at. *)
Definition link_kept (d' : db) (e e' : delivery) : Prop :=
  ∀ k1, d_notBeforeID e = Some k1 → is_Some (deliveries d' !! k1) → d_notBeforeID e' = Some k1.

#[export] Instance waits_tracked : tracked link_kept waits_for.
Proof.
  split.
  - by intros d e k1 H _.
  - intros d f e Hk _ k1 Hl _. by destruct (Hk e) as (_ & _ & _ & ->).
  - intros d ids e Hids k1 Hl Hk1. simpl. rewrite Hl. simpl. rewrite decide_False; [done|].
    intros Hin%Hids. rewrite Hin in Hk1. by destruct Hk1.
  - intros d d' k1 k2 Hd Hw. destruct (deliveries d' !! k1) as [e1'|] eqn:He1; [right|by left].
    intros e' He'. destruct (Hd _ _ He') as (e & He & Hlink). destruct (Hd _ _ He1) as (e1 & He1' & _).
    apply Hlink; [|by eexists]. destruct Hw as [Hw|Hw]; [congruence|by apply Hw].
  - intros d e k1 k2 H1 H2. unfold waits_for. simpl. by rewrite !lookup_insert_ne.
Qed.

Section Ordering.
Context {E : Engine} {FP : FilterParser} {F : Float64} {U : UuidText}.

Lemma waits_stays w w' k1 k2 :
  (∀ i j, new_uuid i = new_uuid j → i = j) → db_wf (w_db w) → drawn (world_txn w) →
  is_Some (deliveries (w_db w) !! k1) → is_Some (deliveries (w_db w) !! k2) →
  waits_for (w_db w) k1 k2 → rtc (step any_request) w w' → waits_for (w_db w') k1 k2.
Proof.
  intros Hinj W D H1 H2 Hw Hs.
  destruct (steps_stays Hinj link_kept waits_for any_request w w') as (_ & _ & _ & Hstay); [|done..|].
  { intros rq _ _ d e x y k Hl _. exact Hl. }
  destruct (D k1 H1) as (i & Hi & <-), (D k2 H2) as (j & Hj & <-). by apply (Hstay i j).
Qed.

(** What the query hands out does not wait. *)
Lemma query_waits p sub now nowB locked d hooks n ds t k1 k2 e1 :
  db_wf d → queryAndLockDeliveriesOnce p sub now nowB locked (MkTxn d hooks n) = Ok (ds, t) →
  s_orderedDelivery sub = true → waits_for d k1 k2 → deliveries d !! k1 = Some e1 →
  k2 ∈ em_id <$> ds → is_Some (d_completedAt e1) ∨ d_expiresAt e1 ≤ nowB.
Proof.
  intros W Hq Ho Hw He1. unfold queryAndLockDeliveriesOnce in Hq. apply gets_Ok in Hq as [-> _].
  intros ([e' m] & -> & Hin)%list_elem_of_fmap. apply list_elem_of_omap in Hin as (e0 & Hin & Hm).
  unfold with_message in Hm. apply fmap_Some in Hm as (m0 & _ & [= -> ->]).
  apply elem_of_take_incl in Hin. rewrite elem_of_sort_by in Hin.
  apply elem_of_rows_wf in Hin as [[(Hset & _) _] Hst]; [|done]. simpl in Hst.
  destruct Hw as [Hw|Hw]; [congruence|]. specialize (Hset Ho).
  unfold predecessor_settled in Hset. rewrite (Hw _ Hst) in Hset. simpl in Hset. by rewrite He1 in Hset.
Qed.

(** ** The link a publication makes *)

(** The deliveries a new delivery in subscription [s] may be linked to. *)
Definition outstanding (d : db) (s : subscription) (now : time) (e : delivery) : Prop :=
  deliveries d !! d_id e = Some e ∧ d_subscriptionID e = s_id s ∧ now < d_expiresAt e ∧
  ∃ m, messages d !! d_messageID e = Some m ∧ m_topicID m = s_topicID s.

(** The rows [CreateBulk] adds. *)
Lemma CreateBulk_adds dc t u t' :
  CreateBulk dc t = Ok (u, t') →
  deliveries (tx_db t) ⊆ deliveries (tx_db t') ∧
  ∀ k e, deliveries (tx_db t') !! k = Some e →
    deliveries (tx_db t) !! k = Some e ∨ ∃ c id, c ∈ dc ∧ e = c id.
Proof.
  unfold CreateBulk. revert t. induction dc as [|c dc IH]; intros t; simpl.
  { intros [= _ <-]. split; [done|by left]. }
  intros ([] & t1 & H1 & H2)%bind_Ok. destruct (IH _ H2) as [Hsub Hadd].
  apply bind_Ok in H1 as (id & t0 & [= <- <-] & H1). unfold Create in H1.
  apply bind_Ok in H1 as (old & t2 & [-> <-]%gets_Ok & H1).
  destruct (_ !! _) eqn:Hnone in H1; [by apply fail_Ok in H1|]. apply put_run in H1 as [_ ->].
  simpl in *. split; [etrans; [by apply insert_subseteq|exact Hsub]|].
  intros k e He. destruct (Hadd _ _ He) as [He'|(c' & id & ? & ->)].
  - apply lookup_insert_Some in He' as [[_ <-]|[_ He']]; [right|by left].
    eexists c, _. split; [by left|done].
  - right. exists c', id. split; [by right|done].
Qed.

Lemma deliver_all_adds subs m now t n t' :
  deliver_all subs m now t = Ok (n, t') →
  deliveries (tx_db t) ⊆ deliveries (tx_db t') ∧
  ∀ k e, deliveries (tx_db t') !! k = Some e → deliveries (tx_db t) !! k = Some e ∨
    ∃ s id, s ∈ subs ∧ e = new_delivery (tx_db t) s m now id.
Proof.
  unfold deliver_all. rewrite (bind_step _ _ _ _ _ (traverse_deliver_run subs m now t)). cbv zeta.
  rewrite omap_recipients. intros ([] & t1 & H & [= _ <-])%bind_Ok.
  destruct (CreateBulk_adds _ _ _ _ H) as [Hsub Hadd]. split; [done|]. intros k e He.
  destruct (Hadd _ _ He) as [?|(c & id & Hc & ->)]; [by left|right].
  apply list_elem_of_fmap in Hc as (s & -> & [_ Hs]%list_elem_of_filter). by exists s, id.
Qed.

(** The newest of the deliveries a link may point at, if there is one. *)
Definition newest (d : db) (s : subscription) (now : time) (o : option uuid) : Prop :=
  match o with
  | Some k1 => ∃ e1, d_id e1 = k1 ∧ outstanding d s now e1 ∧
      ∀ e, outstanding d s now e → d_publishedAt e ≤ d_publishedAt e1
  | None => ∀ e, ¬ outstanding d s now e
  end.

(** The message that is being published is in no delivery yet. *)
Lemma predecessor_with_message d s m now e :
  db_wf d → messages d !! m_id m = None → deliveries d !! d_id e = Some e → m_topicID m = s_topicID s →
  predecessor (with_messages (<[m_id m := m]> (messages d)) d) s m now e ↔ outstanding d s now e.
Proof.
  intros W Hnew He Ht. unfold predecessor, outstanding. simpl.
  destruct (tw_fk _ (wf_deliveries _ W) _ _ He) as ([m' Hm'] & _). simpl in Hm'.
  rewrite lookup_insert_ne by congruence. rewrite Hm'. simpl. rewrite Ht. naive_solver.
Qed.

Lemma new_delivery_link d s m now id :
  db_wf d → messages d !! m_id m = None → m_topicID m = s_topicID s →
  s_orderedDelivery s = true → has_order_key m = true →
  newest d s now (d_notBeforeID (new_delivery (with_messages (<[m_id m := m]> (messages d)) d) s m now id)).
Proof.
  intros W Hnew Ht Ho Hk. set (d1 := with_messages _ d).
  unfold new_delivery. simpl. rewrite Ho, Hk. simpl.
  assert (Hin : ∀ e, e ∈ rows_where (predecessor d1 s m now) d1 ↔ outstanding d s now e).
  { intros e. rewrite elem_of_rows_where. split.
    - intros [Hp [k He]]. simpl in He. pose proof (tw_key _ (wf_deliveries _ W) _ _ He) as Hkey. simpl in Hkey.
      rewrite <- Hkey in He.
      by apply (predecessor_with_message d s m now e).
    - intros Hout. pose proof (proj1 Hout) as He. split; [|by exists (d_id e)].
      by apply predecessor_with_message. }
  destruct (sort_by _ _) as [|e1 l] eqn:Hl; simpl.
  - intros e He. apply Hin in He. rewrite <- (elem_of_sort_by (λ e, - d_publishedAt e)), Hl in He.
    by apply elem_of_nil in He.
  - exists e1. split_and!; [done|apply Hin; rewrite <- (elem_of_sort_by (λ e, - d_publishedAt e)), Hl; left|].
    intros e He. apply Hin in He. pose proof (sort_by_head _ _ _ _ _ Hl He) as Hle. simpl in Hle. lia.
Qed.

Lemma Publish_links p now t r t' s k e2 :
  db_wf (tx_db t) → PublishMessage_Execute p now t = Ok (r, t') → pm_OrderKey p ≠ EmptyString →
  subscriptions (tx_db t) !! s_id s = Some s → s_orderedDelivery s = true →
  deliveries (tx_db t) !! k = None → deliveries (tx_db t') !! k = Some e2 → d_subscriptionID e2 = s_id s →
  newest (tx_db t) s now (d_notBeforeID e2) ∧ deliveries (tx_db t) ⊆ deliveries (tx_db t').
Proof.
  intros W H Hkey Hs Ho Hk He2 Hsub. unfold PublishMessage_Execute in H.
  apply bind_Ok in H as (ts & t0 & [-> <-]%gets_Ok & H).
  apply bind_Ok in H as (tp & t0 & [_ <-]%lift_Ok & H).
  apply bind_Ok in H as (subs & t0 & [-> <-]%gets_Ok & H).
  apply bind_Ok in H as (id & t0 & [= <- <-] & H). rewrite bool_decide_false in H by done.
  apply bind_Ok in H as (text & t1 & [_ <-]%lift_Ok & H).
  apply bind_Ok in H as ([] & t1 & Hc & H). apply bind_Ok in H as (n & t2 & H & [_ <-]%ret_Ok).
  set (m := MkMessage _ _ _ _ _ _) in *. unfold Create in Hc.
  apply bind_Ok in Hc as (old & t3 & [-> <-]%gets_Ok & Hc). simpl in Hc.
  destruct (messages (tx_db t) !! _) eqn:Hnew; [by apply fail_Ok in Hc|].
  apply put_run in Hc as [_ ->]. apply deliver_all_adds in H as [Hincl Hadd]. simpl in Hincl, Hadd.
  split; [|done]. destruct (Hadd _ _ He2) as [?|(s' & id & Hs' & ->)]; [congruence|].
  apply elem_of_rows_wf in Hs' as [[Htp _] Hs']; [|done]. simpl in Hsub, Hs'.
  assert (s' = s) as -> by congruence.
  apply (new_delivery_link (tx_db t) s m); try done.
  unfold has_order_key, m. cbn [m_orderKey]. by rewrite bool_decide_false.
Qed.

Lemma DoTx_written {A} committed (inner : Tx A) w :
  w_db (DoTx committed inner w).2 = w_db w ∨
  ∃ a t, inner (txn_of w) = Ok (a, t) ∧ w_db (DoTx committed inner w).2 = tx_db t.
Proof.
  unfold DoTx. fold (txn_of w). destruct (inner _) as [[a t]|e|q]; [|by left..].
  destruct committed; [|by left..]. destruct (run_hooks _ _) as [[? ?]|?|?]; right; by exists a, t.
Qed.

(** C4 On an ordered subscription a message with an ordering key waits for the one before it,
    whatever happens in between.  When the message is published, either nothing unexpired of
    its topic is outstanding in the subscription, or its delivery is tied to the newest such
    delivery; and from then on, after any actions of anybody in any order (retries, seeks, pruning,
    dead-lettering, failed commits), no query for due deliveries returns the new delivery
    while the older one is stored, not completed and not expired. *)
Theorem ordered_delivery_waits p now committed w w' s k e2 e0 :
  (∀ i j, new_uuid i = new_uuid j → i = j) → reachable w →
  let w1 := (DoTx committed (transaction (ReqPublish p) now) w).2 in
  pm_OrderKey p ≠ EmptyString →
  subscriptions (w_db w) !! s_id s = Some s → s_orderedDelivery s = true →
  outstanding (w_db w) s now e0 →
  deliveries (w_db w) !! k = None → deliveries (w_db w1) !! k = Some e2 → d_subscriptionID e2 = s_id s →
  rtc (step any_request) w1 w' →
  ∃ e1, outstanding (w_db w) s now e1 ∧
    (∀ e, outstanding (w_db w) s now e → d_publishedAt e ≤ d_publishedAt e1) ∧
    ∀ q sub now' nowB locked hooks ds t e1',
      queryAndLockDeliveriesOnce q sub now' nowB locked (MkTxn (w_db w') hooks (w_fresh w')) = Ok (ds, t) →
      s_orderedDelivery sub = true → k ∈ em_id <$> ds →
      deliveries (w_db w') !! d_id e1 = Some e1' →
      is_Some (d_completedAt e1') ∨ d_expiresAt e1' ≤ nowB.
Proof.
  intros Hinj Hr w1 Hkey Hs Ho Hout Hk He2 Hsub Hsteps.
  pose proof (ww_db _ (reachable_world_wf _ Hr)) as W.
  assert (Hs1 : step any_request w w1) by by apply step_action.
  assert (Hr1 : reachable w1) by (eapply rtc_r; [exact Hr|exact Hs1]).
  pose proof (ww_db _ (reachable_world_wf _ Hr1)) as W1.
  assert (Hpub : newest (w_db w) s now (d_notBeforeID e2) ∧ deliveries (w_db w) ⊆ deliveries (w_db w1)).
  { destruct (DoTx_written committed (transaction (ReqPublish p) now) w) as [Hd|([] & t & Hrun & Hd)].
    { fold w1 in Hd. rewrite Hd in He2. congruence. }
    fold w1 in Hd. rewrite Hd in *. simpl in Hrun. apply bind_Ok in Hrun as (r & t0 & Hrun & [_ <-]%ret_Ok).
    by apply (Publish_links p now (txn_of w) r t0 s k e2). }
  destruct Hpub as [Hnew Hincl]. destruct (d_notBeforeID e2) as [k1|] eqn:Hl; [|by destruct (Hnew e0)].
  destruct Hnew as (e1 & <- & Hout1 & Hmax). exists e1. split_and!; [done|done|].
  intros q sub now' nowB locked hooks ds t e1' Hq Hord Hin He1'.
  eapply query_waits; [|exact Hq|done| |exact He1'|exact Hin].
  - by eapply ww_db, steps_wf, reachable_world_wf, Hr1.
  - eapply waits_stays; [done|exact W1|by apply reachable_drawn| | | |done].
    + exists e1. eapply lookup_weaken; [apply Hout1|done].
    + by eexists.
    + right. intros e. rewrite He2. by intros [= <-].
Qed.
End Ordering.

#[local] Existing Instance bits_text.

(** ** Witness, and what the links do not give *)

(** A topic with an ordered subscription; each message takes two ids, its own and its delivery's. *)
Definition ordered_world : world := foldl demo_step empty_world [
  (ReqCreateTopic (MkCreateTopic "t" ∅), 10);
  (ReqCreateSubscription (MkCreateSub "t" "o" Hour Minute true ∅ EmptyString 0 0 EmptyString 0 EmptyString) 20, 20);
  (ReqPublish (MkPublish "t" None "one" ∅ "k"), 30) ].
Definition publish_keyed (payload key : string) (now : time) : request * time :=
  (ReqPublish (MkPublish "t" None payload ∅ key), now).
Definition ordered_round (now : time) : Tx _ :=
  get_round (E := id_engine) false (MkGet "o" None 10 1000 false 0) (MkClock now now now now now ∅).
(** The deliveries a round hands out. *)
Definition handed_out (w : world) (now : time) : list uuid :=
  match (DoTx (Ok ()) (ordered_round now) w).1 with
  | Ok (_, Some r, _) => smd_ID <$> Deliveries r
  | _ => []
  end.
Definition after_round (w : world) (now : time) : world := (DoTx (Ok ()) (ordered_round now) w).2.

Lemma round_step w now : step (E := id_engine) any_request w (after_round w now).
Proof.
  assert (Hs : step (E := id_engine) any_request w (DoTx (Ok ()) (forget (ordered_round now)) w).2).
  { exact (step_action (E := id_engine) any_request
      (ReqGetRound (MkGet "o" None 10 1000 false 0) false (MkClock now now now now now ∅)) now (Ok ()) w I). }
  by rewrite DoTx_forget in Hs.
Qed.
Lemma ordered_reachable : reachable (E := id_engine) ordered_world.
Proof. apply demo_steps. Qed.

(** The second message of a key is not handed out while the first is with its receiver, even when
    the first is due again. *)
Definition second_published : world := demo_step ordered_world (publish_keyed "two" "k" 40).
Definition sub_o : subscription :=
  MkSubscription 1001 1000 "o" 20 3600000000020 (Some true) None 3600000000000 60000000000 true ∅
    None None None None None None 0.
Definition due_later : outcome (list (delivery * message) * txn) :=
  queryAndLockDeliveriesOnce (E := id_engine) (MkGet "o" None 10 1000 false 0) sub_o (20 * Second) (20 * Second) ∅
    (txn_of (after_round second_published 60)).
Lemma ordered_delivery_waits_witness :
  match due_later with Ok (ds, _) => ds ≠ [] ∧ 1005%N ∉ em_id <$> ds | _ => False end.
Proof.
  destruct (subscriptions (w_db ordered_world) !! 1001%N) as [s|] eqn:Hs; [|vm_compute in Hs; discriminate].
  destruct (deliveries (w_db ordered_world) !! 1003%N) as [e0|] eqn:H0; [|vm_compute in H0; discriminate].
  destruct (deliveries (w_db second_published) !! 1005%N) as [e2|] eqn:H2; [|vm_compute in H2; discriminate].
  assert (Hone : deliveries (w_db ordered_world) = {[1003%N := e0]}).
  { vm_compute in H0. injection H0 as <-. vm_compute. reflexivity. }
  vm_compute in Hs, H0, H2. injection Hs as <-. injection H0 as <-. injection H2 as <-.
  destruct (ordered_delivery_waits (E := id_engine) (MkPublish "t" None "two" ∅ "k") 40 (Ok ()) ordered_world
    (after_round second_published 60) sub_o 1005%N
    (MkDelivery 1005 1004 1001 40 40 None 0 None 60000000040 (Some 1003%N))
    (MkDelivery 1003 1002 1001 30 30 None 0 None 60000000030 None)) as (e1 & Hout & _ & Hwait).
  - intros i j Hij. simpl in Hij. lia.
  - apply ordered_reachable.
  - discriminate.
  - vm_compute. reflexivity.
  - reflexivity.
  - split_and!; [vm_compute; reflexivity..|]. eexists. split; vm_compute; reflexivity.
  - vm_compute. reflexivity.
  - vm_compute. reflexivity.
  - reflexivity.
  - apply rtc_once, round_step.
  - destruct due_later as [[ds t]|e|x] eqn:Hq; [|vm_compute in Hq; discriminate..].
    split; [intros ->; vm_compute in Hq; discriminate|]. intros Hin. unfold due_later in Hq.
    destruct Hout as [He1 _]. rewrite Hone in He1. apply lookup_singleton_Some in He1 as [Hk _].
    set (e := MkDelivery 1003 1002 1001 30 11339291172 (Some 60) 1 None 60000000030 None).
    assert (He : deliveries (w_db (after_round second_published 60)) !! 1003%N = Some e) by (vm_compute; reflexivity).
    destruct (Hwait _ _ _ _ _ _ _ _ e Hq eq_refl Hin) as [[? [=]]|Hx]; [by rewrite <- Hk|].
    change (60000000030 ≤ 20000000000) in Hx. lia.
Defined.

(** Three messages, the second without a key: when only the second is acknowledged the third is
    handed out, although the first, which has the same key, is still with its receiver. *)
Definition three_published : world :=
  foldl demo_step ordered_world [publish_keyed "two" EmptyString 40; publish_keyed "three" "k" 50].
Definition second_acked : world := demo_step (after_round three_published 60) (ReqAck [1005%N], 70).
Example unkeyed_message_breaks_order :
  reachable (E := id_engine) second_acked ∧
  handed_out three_published 60 = [1003%N; 1005%N] ∧
  (d_completedAt <$> deliveries (w_db second_acked) !! 1003%N) = Some None ∧
  handed_out second_acked 80 = [1007%N].
Proof.
  split; [|vm_compute; split_and!; reflexivity].
  unfold reachable. etrans; [exact ordered_reachable|].
  etrans; [exact (demo_steps ordered_world
    [publish_keyed "two" EmptyString 40; publish_keyed "three" "k" 50])|].
  eapply rtc_l; [exact (round_step _ 60)|].
  exact (demo_steps (after_round three_published 60) [(ReqAck [1005%N], 70)]).
Qed.
