(* ===== verification/NoPanic.v ===== *)
(** * No transaction panics

    The Go code panics on a nil pointer, on an edge that was not loaded, on a violated
    precondition.  The transactions of all actions and of the services are shown not to reach
    such a place in a well-formed database, except in one case of [UpdateSubscription]. *)

From S2P Require Import Prelude Uuid Filter FilterParse Schema Backoff Notify Store Example Deliver.
From S2P Require Import Lifecycle Ack Receive Seek Prune Rpc Publisher Subscriber System.

(** [m] does not panic, from any state. *)
Definition calm {A} (m : Tx A) : Prop := ∀ t msg, m t ≠ Panic msg.
Definition no_panic {A} (o : outcome A) : Prop := ∀ msg, o ≠ Panic msg.

Create HintDb calm.

Section Calm.
Context {E : Engine}.

Lemma calm_bind {A B} (m : Tx A) (f : A → Tx B) : calm m → (∀ a, calm (f a)) → calm (m ≫= f).
Proof. intros Hm Hf t msg. unfold mbind, M_bind. destruct (m t) as [[a t']|e|s] eqn:Hmt; [apply Hf|done|]. by apply Hm in Hmt. Qed.
Lemma calm_ret {A} (a : A) : calm (mret a).
Proof. by intros t msg. Qed.
Lemma calm_gets {A} (f : txn → A) : calm (gets f).
Proof. by intros t msg. Qed.
Lemma calm_fail {A} e : calm (fail e : Tx A).
Proof. by intros t msg. Qed.
Lemma calm_lift {A} (o : outcome A) : no_panic o → calm (lift o).
Proof. intros Ho t msg. unfold lift. specialize (Ho msg). destruct o; congruence. Qed.
Lemma calm_modify (f : txn → txn) : calm (modify f).
Proof. by intros t msg. Qed.
Lemma calm_OnCommit h : calm (OnCommit h).
Proof. by intros t msg. Qed.
Lemma calm_uuid_New : calm uuid_New.
Proof. by intros t msg. Qed.
Lemma calm_forM {A} (l : list A) (f : A → Tx ()) : (∀ x, x ∈ l → calm (f x)) → calm (forM l f).
Proof.
  induction l as [|x l IH]; intros Hf; simpl; [apply calm_ret|].
  apply calm_bind; [apply Hf; left|]. intros _. apply IH. intros y Hy. apply Hf. by right.
Qed.
Lemma calm_traverseM {A B} (l : list A) (f : A → Tx B) : (∀ x, x ∈ l → calm (f x)) → calm (traverseM l f).
Proof.
  induction l as [|x l IH]; intros Hf; simpl; [apply calm_ret|].
  apply calm_bind; [apply Hf; left|]. intros y. apply calm_bind; [|intros ys; apply calm_ret].
  apply IH. intros z Hz. apply Hf. by right.
Qed.
Lemma calm_hooked {A} m (body : Tx A) : calm body → calm (hooked m body).
Proof. intros Hb. unfold hooked. destruct (checkLiveOrDeleted m); [apply calm_fail|done]. Qed.
Lemma calm_on_error {A} (m : Tx A) f : calm m → calm (on_error m f).
Proof. intros Hm t msg. unfold on_error. specialize (Hm t msg). destruct (m t); congruence. Qed.

Context {A : Type} {T : Table A}.
Lemma calm_All (P : A → Prop) `{∀ x, Decision (P x)} : calm (All P).
Proof. apply calm_gets. Qed.
Lemma calm_Exist (P : A → Prop) `{∀ x, Decision (P x)} : calm (Exist P).
Proof. apply calm_gets. Qed.
Lemma only_no_panic (l : list A) : no_panic (only l).
Proof. by destruct l as [|x [|]]. Qed.
Lemma not_found_no_panic (l : list A) : no_panic (not_found (only l)).
Proof. by destruct l as [|x [|]]. Qed.
Lemma calm_Only (P : A → Prop) `{∀ x, Decision (P x)} : calm (Only P).
Proof. apply calm_bind; [apply calm_All|]. intros l. apply calm_lift, only_no_panic. Qed.
Lemma calm_put (r : A) : calm (put r).
Proof. intros t msg. unfold put. by destruct (row_error _ _). Qed.
Lemma calm_Create (r : A) : calm (Create r).
Proof. apply calm_bind; [apply calm_gets|]. intros [|]; [apply calm_fail|apply calm_put]. Qed.
Lemma calm_Update (P : A → Prop) `{∀ x, Decision (P x)} f : calm (Update P f).
Proof.
  apply calm_bind; [apply calm_All|]. intros rs. apply calm_bind; [|intros; apply calm_ret].
  apply calm_forM. intros r _. apply calm_put.
Qed.
Lemma calm_UpdateOneID id (f : A → A) : calm (UpdateOneID id f).
Proof. apply calm_bind; [apply calm_gets|]. intros [|]; [apply calm_put|apply calm_fail]. Qed.
Lemma calm_Delete (P : A → Prop) `{∀ x, Decision (P x)} : calm (Delete P).
Proof.
  apply calm_bind; [apply calm_All|]. intros rs. apply calm_bind; [apply calm_gets|]. intros d.
  cbv zeta. destruct (decide _); [|apply calm_fail].
  apply calm_bind; [apply calm_modify|]. intros; apply calm_ret.
Qed.
End Calm.

#[export] Hint Resolve calm_ret calm_gets calm_fail calm_modify calm_OnCommit calm_uuid_New calm_All
  calm_Exist calm_Only calm_put calm_Create calm_Update calm_UpdateOneID calm_Delete only_no_panic
  not_found_no_panic : calm.

(** One statement of the goal's transaction. *)
Ltac calm_step := cbv beta zeta; lazymatch goal with
  | |- calm (_ ≫= _) => apply calm_bind; [|intros ?]
  | |- calm (lift _) => apply calm_lift
  | |- calm (forM _ _) => apply calm_forM; intros ? ?
  | |- calm (traverseM _ _) => apply calm_traverseM; intros ? ?
  | |- calm (hooked _ _) => apply calm_hooked
  | |- calm (on_error _ _) => apply calm_on_error
  | |- calm (match ?x with _ => _ end) => let H := fresh "Hcase" in destruct x eqn:H
  | |- calm (forget _) => unfold forget
  | |- calm (findTopic _) => unfold findTopic
  | |- calm (Get _) => unfold Get
  | |- _ => solve [auto with calm nocore]
  end.
Ltac calm := unfold notifyPublish, NotifyModifyTopic, NotifyModifySubscription in *; repeat calm_step.

Section Actions.
Context {E : Engine} {FP : FilterParser} {F : Float64} {U : UuidText}.

Lemma filtered_out_no_panic s m : no_panic (filtered_out s m).
Proof. intros msg. by rewrite filtered_out_passes. Qed.
Lemma payload_no_panic p : no_panic (payload_column p).
Proof. intros msg. unfold payload_column. by destruct (stored_json p). Qed.
Lemma used_up_no_panic e sub : attempts_used_up sub e = true → no_panic (deadLetterDataFromEntities e sub).
Proof.
  unfold attempts_used_up, HasFullDeadLetterConfig, deadLetterDataFromEntities, no_panic.
  by destruct (s_maxDeliveryAttempts sub), (s_deadLetterTopicID sub).
Qed.
Hint Resolve filtered_out_no_panic payload_no_panic used_up_no_panic : calm.

Lemma deliver_all_calm subs m now : calm (deliver_all subs m now).
Proof. unfold deliver_all, deliverToSubscription, CreateBulk. calm. Qed.
Hint Resolve deliver_all_calm : calm.
Lemma deadLetterDelivery_calm data now : calm (deadLetterDelivery data now).
Proof.
  unfold deadLetterDelivery, deliverToDeadLetterTopic. calm.
  by apply only_no_panic in Hcase.
Qed.
Hint Resolve deadLetterDelivery_calm : calm.

Lemma apply_loop_calm p sub now i bytes ds : calm (apply_loop p sub now i bytes ds).
Proof.
  revert i bytes. induction ds as [|[e m] ds IH]; intros i bytes; simpl; calm; apply IH.
Qed.
Hint Resolve apply_loop_calm : calm.
Lemma applyResults_calm p sub now ds : calm (applyResults p sub now ds).
Proof. unfold applyResults. calm. Qed.
Hint Resolve applyResults_calm : calm.
Lemma verifySub_calm p : calm (verifySub p).
Proof. unfold verifySub. calm. Qed.
Hint Resolve verifySub_calm : calm.
Lemma find_sub_calm name id : calm (find_sub name id).
Proof. unfold find_sub. calm. Qed.
Hint Resolve find_sub_calm : calm.
Lemma delete_subs_calm subs now : calm (delete_subs subs now).
Proof. unfold delete_subs. calm. Qed.
Hint Resolve delete_subs_calm : calm.

(** The subscriptions of the deliveries to refuse are found. *)
Lemma NackDeliveries_no_panic ids now t msg :
  db_wf (tx_db t) → NackDeliveries_Execute ids now t ≠ Panic msg.
Proof.
  intros W. unfold NackDeliveries_Execute.
  set (es := rows_where (nackable ids now) (tx_db t)).
  rewrite (bind_step _ _ t es t) by done. cbv zeta.
  set (es' := sort_by _ es). set (subs := rows_where (λ s, s_id s ∈ distinct_subs es') (tx_db t)).
  rewrite (bind_step _ _ t subs t) by done.
  lazymatch goal with |- ?m t ≠ _ => cut (calm m); [intros Hc; apply Hc|] end.
  apply calm_bind; [|intros; apply calm_ret]. apply calm_traverseM. intros e He. unfold nack_one.
  assert (Hsub : is_Some ((list_to_map ((λ s, (s_id s, s)) <$> subs) : gmap uuid subscription) !! d_subscriptionID e)).
  { assert (He' := He). unfold es' in He'. rewrite elem_of_sort_by in He'.
    apply elem_of_rows_wf in He' as [_ He']; [|done].
    destruct (tw_fk _ (wf_deliveries _ W) _ _ He') as (_ & [s Hs] & _).
    assert (Hkey : s_id s = d_subscriptionID e) by exact (tw_key _ (wf_subscriptions _ W) _ _ Hs).
    apply not_eq_None_Some. intros Hnone. apply not_elem_of_list_to_map in Hnone. apply Hnone.
    rewrite <- list_fmap_compose. apply list_elem_of_fmap. exists s. split; [done|].
    apply elem_of_rows_wf; [done|]. simpl. rewrite Hkey. split; [|done].
    unfold distinct_subs. apply elem_of_remove_dups. by apply list_elem_of_fmap_2. }
  destruct Hsub as [sub ->]. calm.
Qed.

Lemma publish_nth_calm tp clock im : calm (publish_nth tp clock im).
Proof.
  unfold publish_nth, PublishMessage_Execute. calm. intros msg. unfold NewPublishMessage. simpl.
  by rewrite andb_false_r.
Qed.
Lemma topic_update_no_panic t paths set : no_panic (topic_update t paths set).
Proof.
  revert set. induction paths as [|p paths IH]; intros set msg; simpl; [done|].
  repeat case_bool_decide; try done. apply IH.
Qed.
Hint Resolve publish_nth_calm topic_update_no_panic : calm.

Lemma list_tx_calm {A} `{Table A} (P : A → Prop) `{∀ x, Decision (P x)} size token :
  calm (list_tx P size token).
Proof. unfold list_tx, parse_token. calm. Qed.

(** The request that may panic. *)
Definition may_panic (rq : request) : Prop :=
  match rq with
  | ReqUpdateSubscription req paths _ => "push_config" ∈ paths ∧ ps_PushConfig req = None
  | _ => False
  end.

Lemma AckNack_no_panic ack nack now now2 t msg :
  db_wf (tx_db t) → AckNack ack nack now now2 t ≠ Panic msg.
Proof.
  intros W. unfold AckNack, mbind at 1, M_bind at 1.
  pose proof (transaction_wf (ReqAck ack) now t) as Hwf. simpl in Hwf. unfold forget, mbind, M_bind in Hwf.
  assert (Hack : calm (AckDeliveries_Execute ack now)) by (unfold AckDeliveries_Execute; calm).
  destruct (AckDeliveries_Execute ack now t) as [[n t1]|e|m] eqn:Ht; [|done|by apply Hack in Ht].
  specialize (Hwf () t1 eq_refl W). unfold mbind, M_bind.
  destruct (NackDeliveries_Execute nack now2 t1) as [[ns t2]|e|m] eqn:Ht1; [done|done|].
  by apply NackDeliveries_no_panic in Ht1.
Qed.

(** A transaction panics only in its function: the hooks that run after it do not. *)
Lemma DoTx_no_panic {A} committed (m : Tx A) w :
  registry_wf (w_reg w) → no_panic (m (txn_of w)) → no_panic committed → no_panic (DoTx committed m w).1.
Proof.
  intros Wr Hm Hc msg. unfold DoTx. fold (txn_of w).
  destruct (m (txn_of w)) as [[u t]|e|s] eqn:Ht; [|done|intros _; by apply (Hm s)].
  destruct committed as [|e|s]; [|done|intros _; by apply (Hc s)].
  pose proof (wp_run_hooks (tx_hooks t) _ Wr) as Hh. unfold wp in Hh.
  by destruct (run_hooks _ _) as [[[] r]|e|s].
Qed.

Lemma forget_Panic {A} (m : Tx A) t msg : forget m t = Panic msg → m t = Panic msg.
Proof. unfold forget, mbind, M_bind. destruct (m t) as [[]|e|s]; [done..|]. by intros [= ->]. Qed.

Lemma transaction_no_panic rq now t msg :
  db_wf (tx_db t) → transaction rq now t = Panic msg → may_panic rq.
Proof.
  intros W Hp.
  assert (Hcalm : calm (transaction rq now) → may_panic rq) by (intros Hm; by apply Hm in Hp).
  destruct rq; simpl in Hp, Hcalm |- *;
    lazymatch goal with
    | |- False => idtac
    | _ => clear Hcalm
    end.
  - apply Hcalm. unfold CreateTopic_Execute, validate_name. calm.
  - apply Hcalm. unfold DeleteTopic_Execute. calm.
  - apply Hcalm. unfold CreateSubscription_Execute, save_subscription, validate_name. calm.
  - apply Hcalm. unfold DeleteSubscription_Execute. calm.
  - apply Hcalm. unfold DeleteExpiredSubscriptions_Execute. calm.
  - apply Hcalm. unfold PublishMessage_Execute. calm.
  - apply Hcalm. unfold AckDeliveries_Execute. calm.
  - by apply forget_Panic, NackDeliveries_no_panic in Hp.
  - by apply AckNack_no_panic in Hp.
  - apply Hcalm. unfold DelayDeliveries_Execute. calm.
  - apply Hcalm. unfold DeadLetterDeliveries_Execute. calm.
  - apply Hcalm. unfold first_tx. calm.
  - apply Hcalm. unfold get_round, queryAndLockDeliveriesOnce, nextAttempt. calm.
  - apply Hcalm. calm.
  - apply Hcalm. unfold CreateSnapshot_Execute. calm.
  - apply Hcalm. unfold SeekSubscriptionToTime_Execute, notify_if_changed. calm.
  - apply Hcalm. unfold SeekSubscriptionToSnapshot_Execute, seek_to_snapshot, notify_if_changed. calm.
  - apply Hcalm. destruct j; simpl; unfold PruneCompletedDeliveries_Execute,
      PruneDeletedSubscriptionDeliveries_Execute, PruneExpiredDeliveries_Execute, query_ids; calm.
  - apply Hcalm. unfold PruneCompletedMessages_Execute, query_ids. calm.
  - apply Hcalm. unfold PruneDeletedSubscriptions_Execute. calm.
  - apply Hcalm. unfold PruneDeletedTopics_Execute. calm.
  - apply Hcalm. unfold UpdateTopic_tx, topic_by_name. calm.
  - apply Hcalm. unfold Publish_tx, topic_by_name. calm.
  - apply forget_Panic in Hp. pose proof (UpdateSubscription_tx_run req paths clock t W) as Hrun.
    by rewrite Hp in Hrun.
  - apply Hcalm. unfold ModifyPushConfig_tx, sub_by_name. calm.
  - apply Hcalm. calm.
  - apply Hcalm. unfold read_transaction, GetTopic_tx, ListTopics_tx, ListTopicSubscriptions_tx, GetSubscription_tx,
      ListSubscriptions_tx, GetSnapshot_tx, ListSnapshots_tx, topic_by_name, sub_by_name.
    destruct q; calm; apply list_tx_calm.
Qed.

(** C7 No action, and no transaction of a service (those that only read included),
    panics in a world that the system can reach, whatever its parameters and unless the driver
    itself does: every nil pointer, unloaded edge and missing map entry the code could run into is
    excluded by the constraints of the database or by its own guards.  The one exception, and the
    one hypothesis on the request, is [UpdateSubscription] with [push_config] in the mask and no
    push configuration in the request. *)
Theorem actions_never_panic rq now committed w :
  System.reachable w → ¬ may_panic rq → no_panic committed →
  no_panic (DoTx committed (transaction rq now) w).1.
Proof.
  intros Hw Hrq Hc. destruct (reachable_world_wf w Hw) as [W Wr].
  apply DoTx_no_panic; [done| |done]. intros msg Hp. by apply Hrq, (transaction_no_panic rq now (txn_of w) msg).
Qed.
End Actions.

#[local] Existing Instance bits_text.
Lemma actions_never_panic_witness :
  no_panic (DoTx (Ok ()) (transaction (E := id_engine) (ReqNack [1003%N]) 50) demo_world).1.
Proof.
  apply (actions_never_panic (E := id_engine) (ReqNack [1003%N]) 50 (Ok ()) demo_world demo_reachable).
  - intros H. exact H.
  - intros msg. discriminate.
Defined.
