(* ===== verification/Background.v ===== *)
(** * The background services

    [src/services/prune-common.go] and [deadletter.go]: the loop that runs a job at every tick of
    a timer and sets the timer anew; [http-push.go]: the set of pushers, brought in line with the
    push subscriptions; [notifier.go]: the queues of notifications for the other processes, the
    texts sent, and what is done when one arrives.

    How [Start] and [Cleanup] run them is [Services]. Logging and metrics are left out. *)

From S2P Require Import Prelude Uuid Filter FilterParse Schema Backoff Notify Store Example Deliver.
From S2P Require Import Lifecycle Ack Prune Rpc Subscriber.

(** ** Jobs on a timer *)

Record PruneCommonSettings := MkPruneSettings {
  pcs_MinAge : duration; pcs_MaxDelete : Z; pcs_Interval : duration; pcs_Fuzz : duration;
  pcs_Backoff : duration }.
Definition pcDefaults : PruneCommonSettings :=
  MkPruneSettings Hour 100 Minute (10 * Second) (100 * Millisecond).
Definition prune_ApplyDefaults (s : PruneCommonSettings) : PruneCommonSettings :=
  MkPruneSettings (or_default (pcs_MinAge pcDefaults) (pcs_MinAge s))
    (or_default (pcs_MaxDelete pcDefaults) (pcs_MaxDelete s))
    (or_default (pcs_Interval pcDefaults) (pcs_Interval s))
    (or_default (pcs_Fuzz pcDefaults) (pcs_Fuzz s))
    (or_default (pcs_Backoff pcDefaults) (pcs_Backoff s)).

Record DeadLetterSettings := MkDeadLetterSettings {
  dls_MaxDeliveries : Z; dls_Interval : duration; dls_Fuzz : duration; dls_Backoff : duration }.
Definition dlDefaults : DeadLetterSettings :=
  MkDeadLetterSettings 100 Minute (10 * Second) (100 * Millisecond).
Definition deadletter_ApplyDefaults (s : DeadLetterSettings) : DeadLetterSettings :=
  MkDeadLetterSettings (or_default (dls_MaxDeliveries dlDefaults) (dls_MaxDeliveries s))
    (or_default (dls_Interval dlDefaults) (dls_Interval s))
    (or_default (dls_Fuzz dlDefaults) (dls_Fuzz s))
    (or_default (dls_Backoff dlDefaults) (dls_Backoff s)).

(** [interval + rand.Int63n(fuzz)]; [draw] is what the generator returns. *)
Definition fuzzed (interval fuzz draw : duration) : outcome duration :=
  if fuzz <=? 0 then Panic "invalid argument to Int63n" else Ok (interval + draw).

(** The period of the ticker after a run that ended in [res]. *)
Definition next_period (interval fuzz backoff : duration) (limit : Z) (draw : duration) (res : outcome nat)
    (period : duration) : outcome duration :=
  match res with
  | Err _ => fuzzed interval fuzz draw
  | Ok n =>
      if Z.of_nat n <=? 0 then fuzzed interval fuzz draw
      else if limit <=? Z.of_nat n then Ok backoff else Ok period
  | Panic s => Panic s
  end.

Section Jobs.
Context {E : Engine} {FP : FilterParser} {F : Float64}.

(** The jobs of [init], with the constructor each service is given. *)
Definition pruneServices : list (string * (PruneCommonParams → time → Tx nat)) := [
  ("prune-completed-deliveries", PruneCompletedDeliveries_Execute);
  ("prune-expired-deliveries", PruneExpiredDeliveries_Execute);
  ("prune-completed-messages", PruneCompletedMessages_Execute);
  ("prune-deleted-subscription-deliveries", PruneDeletedSubscriptionDeliveries_Execute);
  ("prune-deleted-subscriptions", PruneDeletedSubscriptions_Execute);
  ("prune-deleted-topics", PruneDeletedTopics_Execute);
  ("delete-expired-subscriptions", DeleteExpiredSubscriptions_Execute)].

(** [BeginTx], the action, [Commit] or [Rollback]. *)
Definition runOnce (begun committed : outcome ()) (job : Tx nat) (w : world) : outcome nat * world :=
  match begun with
  | Ok _ => DoTx committed job w
  | Err e => (Err e, w)
  | Panic s => (Panic s, w)
  end.

(** What the environment contributes to one tick. *)
Record tick_env := MkTick { te_begun : outcome (); te_committed : outcome (); te_now : time; te_draw : duration }.

(** [Initialize]: the settings with their defaults, and the parameters of the action it builds. *)
Definition prune_Initialize (s : PruneCommonSettings) : outcome (PruneCommonSettings * PruneCommonParams) :=
  let s := prune_ApplyDefaults s in
  (λ p, (s, p)) <$> newPruneAction (pcs_MinAge s) (pcs_MaxDelete s).

(** One [case <-ticker.C]: the new period and the world. *)
Definition prune_tick (s : PruneCommonSettings) (execute : time → Tx nat) (te : tick_env)
    (st : duration * world) : outcome duration * world :=
  let '(period, w) := st in
  let '(res, w) := runOnce (te_begun te) (te_committed te) (execute (te_now te)) w in
  (next_period (pcs_Interval s) (pcs_Fuzz s) (pcs_Backoff s) (pcs_MaxDelete s) (te_draw te) res period, w).

Definition deadletter_tick (s : DeadLetterSettings) (te : tick_env) (st : duration * world)
  : outcome duration * world :=
  let '(period, w) := st in
  match NewDeadLetterDeliveries (dls_MaxDeliveries s) with
  | Ok maxDeliveries =>
      let '(res, w) := runOnce (te_begun te) (te_committed te)
        (DeadLetterDeliveries_Execute maxDeliveries (te_now te)) w in
      (next_period (dls_Interval s) (dls_Fuzz s) (dls_Backoff s) (dls_MaxDeliveries s) (te_draw te) res period, w)
  | Err e => (Err e, w)
  | Panic m => (Panic m, w)
  end.

(** A service alone: tick after tick, from [time.NewTicker(Backoff)]. *)
Fixpoint ticks (tick : tick_env → duration * world → outcome duration * world) (tes : list tick_env)
    (st : duration * world) : outcome duration * world :=
  match tes with
  | [] => (Ok st.1, st.2)
  | te :: tes =>
      match tick te st with
      | (Ok period, w) => ticks tick tes (period, w)
      | r => r
      end
  end.
End Jobs.

(** ** The cleanup catches up *)

Section Catch_up.
Context {E : Engine} {FP : FilterParser} {F : Float64}.

Lemma size_delete_picked d (ids : list uuid) :
  NoDup ids → (∀ i, i ∈ ids → is_Some (deliveries d !! i)) →
  (size (deliveries (delete_ids (A := delivery) (list_to_set ids) d)) + length ids = size (deliveries d))%nat.
Proof.
  intros Hnd Hin. simpl. rewrite map_size_fmap.
  set (m := deliveries d). set (P := λ kr : uuid * delivery, kr.1 ∉ (list_to_set ids : gset uuid)).
  rewrite <- (map_filter_union_complement P m) at 2.
  rewrite map_size_disj_union by apply map_disjoint_filter_complement. f_equal.
  rewrite <- (size_dom (D := gset uuid)).
  replace (dom (filter (λ x, ¬ P x) m)) with (list_to_set ids : gset uuid).
  { symmetry. by apply size_list_to_set. }
  symmetry. apply set_eq. intros i. rewrite elem_of_dom. unfold is_Some. setoid_rewrite map_lookup_filter_Some.
  unfold P. simpl. split.
  - intros (e & _ & Hi). by apply dec_stable in Hi.
  - intros Hi. assert (Hi' := Hi). apply elem_of_list_to_set in Hi' as [e He]%Hin. exists e.
    split; [done|]. by intros ?.
Qed.

Lemma job_where_same j p now d d' x e :
  subscriptions d' = subscriptions d → job_where j p now d' (del_set_notBeforeID x e) → job_where j p now d e.
Proof.
  intros Hs. destruct j; simpl; try done. unfold PruneDeletedSubscriptionDeliveries_where. by rewrite Hs.
Qed.

(** Nothing goes wrong with the database. *)
Definition clean (te : tick_env) : Prop := te_begun te = Ok () ∧ te_committed te = Ok ().

(** One tick of a job that deletes deliveries. *)
Lemma prune_tick_run s p j te period w :
  clean te → world_wf w → 0 < pcs_Fuzz s →
  ∃ ids w', picked (job_where j p (te_now te) (w_db w)) (MaxDelete p) (w_db w) ids ∧ world_wf w' ∧
    w_db w' = delete_ids (A := delivery) (list_to_set ids) (w_db w) ∧
    prune_tick s (job_Execute j p) te (period, w) =
      (Ok (if Z.of_nat (length ids) <=? 0 then pcs_Interval s + te_draw te
           else if pcs_MaxDelete s <=? Z.of_nat (length ids) then pcs_Backoff s else period), w').
Proof.
  intros [Hb Hc] [W Wr] Hf. destruct (job_run j p (te_now te) (txn_of w) W) as (ids & Hp & Hrun & W').
  destruct (DoTx_run _ w _ _ Wr Hrun) as (r & Hd & Wr' & _).
  exists ids, (MkWorld (delete_ids (A := delivery) (list_to_set ids) (w_db w)) r (w_fresh w)).
  split; [exact Hp|]. split_and!; [split; [exact W'|exact Wr']|done|].
  unfold prune_tick, runOnce. rewrite Hb, Hc, Hd. unfold next_period, fuzzed.
  rewrite (proj2 (Z.leb_gt (pcs_Fuzz s) 0)) by lia. by repeat case_match.
Qed.

(** C18 A cleanup service that is left alone catches up: from the first tick on it
    deletes as many deliveries as it may at each tick, with only [Backoff] in between, and after
    at most as many such ticks as the number of deliveries allows comes one after which there is
    no delivery left that was to be deleted at that time. *)
Theorem cleanup_catches_up s0 s p j tes w :
  prune_Initialize s0 = Ok (s, p) → 0 < pcs_Fuzz s → world_wf w → Forall clean tes →
  (size (deliveries (w_db w)) < length tes * MaxDelete p)%nat →
  ∃ k te, tes !! k = Some te ∧ (k * MaxDelete p ≤ size (deliveries (w_db w)))%nat ∧
    (∀ i, (i ≤ k)%nat → (ticks (prune_tick s (job_Execute j p)) (take i tes) (pcs_Backoff s, w)).1 = Ok (pcs_Backoff s)) ∧
    ∃ period w', ticks (prune_tick s (job_Execute j p)) (take (S k) tes) (pcs_Backoff s, w) = (Ok period, w') ∧
      world_wf w' ∧ ∀ i e, deliveries (w_db w') !! i = Some e → ¬ job_where j p (te_now te) (w_db w') e.
Proof.
  intros Hinit Hf. assert (Hmax : (0 < MaxDelete p)%nat ∧ Z.of_nat (MaxDelete p) = pcs_MaxDelete s).
  { unfold prune_Initialize, fmap, outcome_fmap, newPruneAction in Hinit. repeat case_match; simplify_eq/=.
    bool_props. lia. }
  clear Hinit. destruct Hmax as [Hmax Hms]. revert w.
  induction tes as [|te tes IH]; intros w W Hclean Hlen; [simpl in Hlen; lia|].
  apply Forall_cons in Hclean as [Hte Htes].
  destruct (prune_tick_run s p j te (pcs_Backoff s) w Hte W Hf) as (ids & w' & Hp & W' & Hdb & Htick).
  assert (Hsize := size_delete_picked (w_db w) ids (pi_NoDup _ _ _ _ Hp)
    (λ i Hi, ltac:(destruct (pi_in _ _ _ _ Hp i Hi) as (r & Hr & _); by exists r))).
  rewrite <- Hdb in Hsize. pose proof (pi_length _ _ _ _ Hp) as Hl.
  destruct (decide (length ids < MaxDelete p)%nat) as [Hlt|Hge].
  - exists 0%nat, te. split_and!; [done|lia|by intros i ->%Nat.le_0_r|].
    eexists _, w'. simpl take. cbn [ticks]. rewrite take_0, Htick. split; [done|]. split; [done|].
    intros i e He Hj. rewrite Hdb in He, Hj. simpl in He. apply lookup_fmap_Some in He as (e0 & <- & [He0 Hi]%map_lookup_filter_Some).
    apply Hi, elem_of_list_to_set, (pi_all _ _ _ _ Hp) with e0; [lia|done|].
    by eapply job_where_same, Hj.
  - assert (Hperiod : prune_tick s (job_Execute j p) te (pcs_Backoff s, w) = (Ok (pcs_Backoff s), w')).
    { rewrite Htick. rewrite (proj2 (Z.leb_gt _ _)), (proj2 (Z.leb_le _ _)) by lia. done. }
    destruct (IH w' W' Htes) as (k & te' & Hk & Hle & Hmid & period & w2 & Hrun & Hend); [simpl in Hlen; lia|].
    exists (S k), te'. split_and!; [done|simpl; lia| |].
    + intros [|i] Hi; [done|]. simpl take. cbn [ticks]. rewrite Hperiod. apply Hmid. lia.
    + exists period, w2. split; [|done]. change (take (S (S k)) (te :: tes)) with (te :: take (S k) tes).
      cbn [ticks]. by rewrite Hperiod.
Qed.

(** A run that fails leaves the rows alone, and the next one comes after the long interval. *)
Lemma failed_tick s execute te period w e w' :
  registry_wf (w_reg w) → 0 < pcs_Fuzz s →
  runOnce (te_begun te) (te_committed te) (execute (te_now te)) w = (Err e, w') →
  prune_tick s execute te (period, w) = (Ok (pcs_Interval s + te_draw te), w') ∧
  w_db w' = w_db w ∧ w_reg w' = w_reg w.
Proof.
  intros Wr Hf Hrun. unfold prune_tick. rewrite Hrun. unfold next_period, fuzzed.
  rewrite (proj2 (Z.leb_gt _ _)) by lia. split; [done|]. unfold runOnce in Hrun.
  destruct (te_begun te); simplify_eq; [by apply DoTx_err in Hrun|done].
Qed.
End Catch_up.

(** ** The pushers of the push subscriptions *)

(** [monitoredPusher]; [pu_done]: its context is done, because it ended or was cancelled. *)
Record pusher := MkPusher { pu_name : string; pu_id : uuid; pu_endpoint : string; pu_done : bool }.
Notation pushers := (gmap uuid pusher).

(** [DeletedAtIsNil(), PushEndpointNotNil(), PushEndpointNEQ("")] *)
Definition push_sub (s : subscription) : Prop :=
  s_deletedAt s = None ∧ is_Some (s_pushEndpoint s) ∧ s_pushEndpoint s ≠ Some EmptyString.
#[export] Instance push_sub_dec s : Decision (push_sub s).
Proof. unfold push_sub. apply _. Defined.

(** [monitorPusher(ctx, NewHttpPusher(sub.Name, sub.ID, *sub.PushEndpoint, ...))] *)
Definition start_pusher (s : subscription) : pusher :=
  MkPusher (s_name s) (s_id s) (default EmptyString (s_pushEndpoint s)) false.
Definition cancel_pusher (p : pusher) : pusher := MkPusher (pu_name p) (pu_id p) (pu_endpoint p) true.

Definition harvest (ps : pushers) : pushers := filter (λ kp, pu_done kp.2 = false) ps.
Definition start_missing (subs : list subscription) (ps : pushers) : pushers :=
  foldl (λ ps s, match ps !! s_id s with Some _ => ps | None => <[s_id s := start_pusher s]> ps end) ps subs.
Definition cancel_others (curSet : gset uuid) (ps : pushers) : pushers :=
  map_imap (λ id p, Some (if decide (id ∈ curSet) then p else cancel_pusher p)) ps.

Section Pushers.
Context {E : Engine}.

(** The transaction's function has started pushers when the commit fails. *)
Definition startPushersOnce (ctx_done : bool) (begun committed : outcome ()) (w : world) (ps : pushers)
  : outcome () * world * pushers :=
  if ctx_done then (Ok (), w, ps)
  else
    let ps := harvest ps in
    match begun with
    | Ok _ =>
        let '(res, w') := DoTx committed (All push_sub) w in
        match res with
        | Ok pushSubs =>
            (Ok (), w', cancel_others (list_to_set (s_id <$> pushSubs)) (start_missing pushSubs ps))
        | Err e => (Err e, w', start_missing (rows_where push_sub (w_db w)) ps)
        | Panic m => (Panic m, w', start_missing (rows_where push_sub (w_db w)) ps)
        end
    | Err e => (Err e, w, ps)
    | Panic m => (Panic m, w, ps)
    end.

(** The pusher runs: it pushes what its subscription receives to its endpoint. *)
Definition running (ps : pushers) (id : uuid) (p : pusher) : Prop := ps !! id = Some p ∧ pu_done p = false.

Lemma start_missing_lookup subs ps id p :
  NoDup (s_id <$> subs) →
  start_missing subs ps !! id = Some p ↔
    ps !! id = Some p ∨ ps !! id = None ∧ ∃ s, s ∈ subs ∧ s_id s = id ∧ p = start_pusher s.
Proof.
  revert ps. induction subs as [|s subs IH]; intros ps Hnd; simpl.
  { split; [by left|]. intros [?|(_ & s & Hs & _)]; [done|by apply elem_of_nil in Hs]. }
  apply NoDup_cons in Hnd as [Hs Hnd]. rewrite IH by done. clear IH.
  assert (Hnot : ∀ s', s' ∈ subs → s_id s' ≠ s_id s).
  { intros s' Hs' Heq. apply Hs. rewrite <- Heq. by apply list_elem_of_fmap_2. }
  setoid_rewrite elem_of_cons. destruct (ps !! s_id s) as [p0|] eqn:Hp.
  - split; [naive_solver|]. intros [?|(Hn & s' & [->|Hs'] & <- & ->)]; [by left|congruence|].
    right. eauto.
  - destruct (decide (id = s_id s)) as [->|Hne].
    + rewrite lookup_insert_eq, Hp. split; [naive_solver|].
      intros [?|(_ & s' & [->|Hs'] & Heq & ->)]; [done|by left|by apply Hnot in Hs'].
    + rewrite lookup_insert_ne by done. naive_solver.
Qed.

Lemma harvest_lookup ps id p : harvest ps !! id = Some p ↔ running ps id p.
Proof. unfold harvest, running. by rewrite map_lookup_filter_Some. Qed.

(** C19 After a round that succeeded there is exactly one running pusher for each
    live subscription with a push endpoint and for no other; those that ran before go on as they
    are, the missing are started with what their subscription has now.  In particular a pusher
    keeps the endpoint it was started with, also when the subscription has been given another. *)
Theorem pushers_follow_subscriptions committed w ps w' ps' :
  world_wf w → startPushersOnce false (Ok ()) committed w ps = (Ok (), w', ps') →
  w_db w' = w_db w ∧
  (∀ id, (∃ p, running ps' id p) ↔ ∃ s, subscriptions (w_db w) !! id = Some s ∧ push_sub s) ∧
  (∀ id p, running ps' id p → running ps id p ∨
     (∀ p0, ¬ running ps id p0) ∧ ∃ s, subscriptions (w_db w) !! id = Some s ∧ p = start_pusher s) ∧
  (∀ id p s, running ps id p → subscriptions (w_db w) !! id = Some s → push_sub s → running ps' id p).
Proof.
  intros [W Wr]. unfold startPushersOnce. cbv zeta.
  assert (Hrun : All push_sub (txn_of w) = Ok (rows_where push_sub (w_db w), txn_of w)) by done.
  assert (Hsubs : ∀ s, s ∈ rows_where push_sub (w_db w) ↔ subscriptions (w_db w) !! s_id s = Some s ∧ push_sub s).
  { intros s. rewrite elem_of_rows_wf by done. simpl. tauto. }
  destruct (DoTx committed (All push_sub) w) as [res w1] eqn:Hd. destruct res as [subs|e|m]; [|done..].
  destruct (DoTx_Ok_db _ _ _ _ _ Wr Hd) as (t & Ht & Hdb & _). rewrite Hrun in Ht. injection Ht as Hsub <-.
  intros [= <- <-]. split; [exact Hdb|]. subst subs. set (subs := rows_where push_sub (w_db w)) in *.
  assert (Hnd : NoDup (s_id <$> subs)) by exact (rows_where_NoDup (A := subscription) push_sub (w_db w) W).
  set (ps1 := start_missing subs (harvest ps)).
  assert (Hps' : ∀ id p, running (cancel_others (list_to_set (s_id <$> subs)) ps1) id p ↔
    ps1 !! id = Some p ∧ pu_done p = false ∧ id ∈ s_id <$> subs).
  { intros id p. unfold running, cancel_others. rewrite map_lookup_imap, bind_Some. split.
    - intros [(p0 & Hp0 & [= <-]) Hdone]. case_decide as Hin; [|done].
      apply elem_of_list_to_set in Hin. done.
    - intros (Hp & Hdone & Hin). split; [|done]. exists p. split; [done|].
      rewrite decide_True; [done|]. by apply elem_of_list_to_set. }
  assert (Hid : ∀ id, id ∈ s_id <$> subs ↔ ∃ s, subscriptions (w_db w) !! id = Some s ∧ push_sub s).
  { intros id. rewrite list_elem_of_fmap. setoid_rewrite Hsubs. split; [naive_solver|].
    intros (s & Hs & Hp). pose proof (tw_key _ (wf_subscriptions _ W) _ _ Hs : s_id s = id) as <-. eauto. }
  setoid_rewrite Hps'. unfold ps1. setoid_rewrite start_missing_lookup; [|done..].
  setoid_rewrite harvest_lookup. split_and!.
  - intros id. rewrite <- Hid. split; [naive_solver|]. intros Hin.
    destruct (harvest ps !! id) as [p|] eqn:Hp.
    + apply harvest_lookup in Hp as [Hp Hdone]. exists p. split_and!; [left|..]; done.
    + pose proof Hin as (s & -> & Hs)%list_elem_of_fmap. exists (start_pusher s).
      split_and!; [right; eauto|done|done].
  - intros id p ([Hr|(Hn & s & Hs & <- & ->)] & _ & _); [by left|right]. split.
    + intros p0 Hr%harvest_lookup. congruence.
    + exists s. split; [by apply Hsubs|done].
  - intros id p s Hr Hs Hp. split_and!; [by left|apply Hr|apply Hid; eauto].
Qed.
End Pushers.

(** ** Notifications between processes *)

Definition subPublishedChannelName : string := "mmmbbb_published_to_sub".
Definition topicModifiedChannelName : string := "mmmbbb_modified_topic".
Definition subModifiedChannelName : string := "mmmbbb_modified_sub".

Record notification := MkNotification { nt_channel : string; nt_payload : string }.

(** What precedes the first space and what follows it. *)
Fixpoint split_space (s : string) : option (string * string) :=
  match s with
  | EmptyString => None
  | String c s =>
      if decide (c = " "%char) then Some (EmptyString, s)
      else (λ '(l, r), (String c l, r)) <$> split_space s
  end.

Definition bufferSize : nat := 100.

(** What is waiting to be sent: [pn], [tn] and [sn]. *)
Record outbox := MkOutbox { pn : gset uuid; tn : gset (uuid * string); sn : gset (uuid * string) }.
Definition empty_outbox : outbox := MkOutbox ∅ ∅ ∅.

(** What the hooks put into the three channels. *)
Inductive queued := QPublish (subID : uuid) | QTopic (id : uuid) (name : string) | QSub (id : uuid) (name : string).

Section Notifier.
Context {U : UuidText}.

Definition parseUUIDName (s : string) : outcome (uuid * string) :=
  match split_space s with
  | None => Err (ErrOther "no space found")
  | Some (u, name) =>
      match uuid_Parse u with
      | Some id => Ok (id, name)
      | None => Err (ErrOther "invalid UUID")
      end
  end.

(** What [runOnce] does with a notification that arrived: the wakes, each on a goroutine of its
    own; a text it cannot read is logged and dropped. *)
Definition on_notification (n : notification) : list nop :=
  if bool_decide (nt_channel n = subPublishedChannelName) then
    match uuid_Parse (nt_payload n) with
    | Some subID => [OpWakePublish true [subID]]
    | None => []
    end
  else if bool_decide (nt_channel n = topicModifiedChannelName) then
    match parseUUIDName (nt_payload n) with
    | Ok (id, name) => [OpWakeModify TopicSide true id name]
    | _ => []
    end
  else if bool_decide (nt_channel n = subModifiedChannelName) then
    match parseUUIDName (nt_payload n) with
    | Ok (id, name) => [OpWakeModify SubSide true id name; OpWakePublish true [id]]
    | _ => []
    end
  else [].

Definition enqueue (q : queued) (o : outbox) : outbox :=
  match q with
  | QPublish subID => MkOutbox ({[subID]} ∪ pn o) (tn o) (sn o)
  | QTopic id name => MkOutbox (pn o) ({[(id, name)]} ∪ tn o) (sn o)
  | QSub id name => MkOutbox (pn o) (tn o) ({[(id, name)]} ∪ sn o)
  end.

(** The set that [q] went into is full: the draining stops. *)
Definition full (q : queued) (o : outbox) : bool :=
  (bufferSize <=? match q with QPublish _ => size (pn o) | QTopic _ _ => size (tn o) | QSub _ _ => size (sn o) end)%nat.

(** The channels' contents as they are taken, in the order the [select] picks: as much as is
    buffered up to the cap.  The result is what is left in the channels. *)
Fixpoint drain (qs : list queued) (o : outbox) : outbox * list queued :=
  match qs with
  | [] => (o, [])
  | q :: qs => let o := enqueue q o in if full q o then (o, qs) else drain qs o
  end.

Definition message_of (q : queued) : notification :=
  match q with
  | QPublish subID => MkNotification subPublishedChannelName (uuid_String subID)
  | QTopic id name => MkNotification topicModifiedChannelName (uuid_String id +:+ String " " name)
  | QSub id name => MkNotification subModifiedChannelName (uuid_String id +:+ String " " name)
  end.

(** What is sent, in the order the loops pick; [conn]: a connection could be had, and which
    statements succeed.  Of the three sets only [pn] is emptied. *)
Definition to_send (o : outbox) : list notification :=
  message_of <$> (QPublish <$> elements (pn o)) ++ ((λ '(id, name), QTopic id name) <$> elements (tn o)) ++
    ((λ '(id, name), QSub id name) <$> elements (sn o)).
Definition process (conn : option (notification → bool)) (o : outbox) : outbox * list notification :=
  match conn with
  | None => (o, [])
  | Some sent => (MkOutbox ∅ (tn o) (sn o), filter (λ n, sent n = true) (to_send o))
  end.

(** A round of the queue processor: the first entry is waited for, then the channels are drained. *)
Definition queue_round (first : queued) (buffered : list queued) (conn : option (notification → bool)) (o : outbox)
  : outbox * list queued * list notification :=
  let '(o, rest) := drain buffered (enqueue first o) in
  let '(o, sent) := process conn o in (o, rest, sent).

(** Round after round, all statements succeeding. *)
Fixpoint queue_rounds (rounds : list (queued * list queued)) (o : outbox) : outbox * list (list notification) :=
  match rounds with
  | [] => (o, [])
  | (first, buffered) :: rounds =>
      let '(o, _, sent) := queue_round first buffered (Some (λ _, true)) o in
      let '(o, all) := queue_rounds rounds o in (o, sent :: all)
  end.
End Notifier.

Section Notifier_facts.
Context {U : UuidText}.
(** The text of an id is hexadecimal digits and hyphens. *)
Hypothesis uuid_String_no_space : ∀ u, split_space (uuid_String u) = None.

Lemma split_space_app l r : split_space l = None → split_space (l +:+ String " " r) = Some (l, r).
Proof.
  induction l as [|c l IH]; intros Hl; [done|]. simpl in Hl. case_decide as Hc; [done|].
  change (String c l +:+ String " " r) with (String c (l +:+ String " " r)). simpl.
  rewrite decide_False by done. destruct (split_space l); [done|]. by rewrite IH.
Qed.

(** The wakes another process owes to what was queued. *)
Definition wakes_of (q : queued) : list nop :=
  match q with
  | QPublish subID => [OpWakePublish true [subID]]
  | QTopic id name => [OpWakeModify TopicSide true id name]
  | QSub id name => [OpWakeModify SubSide true id name; OpWakePublish true [id]]
  end.

(** What is sent to the other processes is understood there: the text of a
    notification, whatever the name in it contains, is taken apart into the id and the name it was
    made of, and the wakes it causes are those of the subscription or topic it is about. *)
Theorem notification_roundtrip q : on_notification (message_of q) = wakes_of q.
Proof.
  assert (Hparse : ∀ id name, parseUUIDName (uuid_String id +:+ String " " name) = Ok (id, name)).
  { intros id name. unfold parseUUIDName. by rewrite split_space_app, uuid_Parse_String. }
  destruct q as [subID|id name|id name]; unfold on_notification; cbn [message_of nt_channel nt_payload];
    repeat (rewrite bool_decide_true by done || rewrite bool_decide_false by done);
    rewrite ?uuid_Parse_String, ?Hparse; done.
Qed.

End Notifier_facts.

Section Outbox.
Context {U : UuidText}.

Definition holds (o : outbox) (q : queued) : Prop :=
  match q with QPublish subID => subID ∈ pn o | QTopic id name => (id, name) ∈ tn o | QSub id name => (id, name) ∈ sn o end.

Lemma holds_enqueue q q' o : holds (enqueue q o) q' ↔ holds o q' ∨ q' = q.
Proof. destruct q, q'; simpl; try set_solver; naive_solver. Qed.

Lemma holds_sent q o : holds o q ↔ message_of q ∈ to_send o ∧ holds o q.
Proof.
  split; [|tauto]. intros Hq. split; [|done]. unfold to_send. rewrite list_elem_of_fmap. exists q.
  split; [done|]. rewrite !elem_of_app, !list_elem_of_fmap. destruct q as [i|i name|i name]; simpl in Hq.
  - left. exists i. split; [done|]. by apply elem_of_elements.
  - right. left. exists (i, name). split; [done|]. by apply elem_of_elements.
  - right. right. exists (i, name). split; [done|]. by apply elem_of_elements.
Qed.

Lemma drain_holds qs o o' rest q :
  drain qs o = (o', rest) → (∃ taken, qs = taken ++ rest ∧ (holds o' q ↔ holds o q ∨ q ∈ taken)).
Proof.
  revert o. induction qs as [|q0 qs IH]; intros o; simpl.
  - intros [= <- <-]. exists []. split; [done|]. rewrite elem_of_nil. tauto.
  - destruct (full q0 _).
    + intros [= <- <-]. exists [q0]. split; [done|]. rewrite holds_enqueue, list_elem_of_singleton. tauto.
    + intros (taken & -> & Ht)%IH. exists (q0 :: taken). split; [done|].
      rewrite Ht, holds_enqueue, elem_of_cons. tauto.
Qed.

(** Modifications are not forgotten: those of a topic or a subscription stay in the outbox. *)
Definition is_modify (q : queued) : Prop := match q with QPublish _ => False | _ => True end.

Lemma queue_round_sends first buffered o o' rest sent :
  queue_round first buffered (Some (λ _, true)) o = (o', rest, sent) →
  ∃ taken, buffered = taken ++ rest ∧
    (∀ q, holds o q ∨ q = first ∨ q ∈ taken → message_of q ∈ sent) ∧
    (∀ q, is_modify q → holds o q ∨ q = first ∨ q ∈ taken → holds o' q).
Proof.
  unfold queue_round. destruct (drain buffered (enqueue first o)) as [o1 rest1] eqn:Hd. simpl.
  intros [= <- <- <-]. destruct (drain_holds _ _ _ _ first Hd) as (taken & Ht & _).
  exists taken. split; [done|].
  assert (Hall : ∀ q, holds o q ∨ q = first ∨ q ∈ taken → holds o1 q).
  { intros q Hq. destruct (drain_holds _ _ _ _ q Hd) as (taken' & Ht' & Hh). rewrite Ht in Ht'.
    apply app_inv_tail in Ht' as <-. apply Hh. rewrite holds_enqueue. tauto. }
  split.
  - intros q Hq%Hall%holds_sent. apply list_elem_of_filter. split; [done|]. apply Hq.
  - intros q Hm Hq%Hall. by destruct q.
Qed.

Lemma queue_rounds_keep rounds o o' all q :
  queue_rounds rounds o = (o', all) → is_modify q → holds o q →
  Forall (λ sent, message_of q ∈ sent) all ∧ holds o' q.
Proof.
  revert o o' all. induction rounds as [|[first buffered] rounds IH]; intros o o' all; simpl.
  - intros [= <- <-] _ Hq. split; [constructor|done].
  - destruct (queue_round first buffered _ o) as [[o1 rest] sent] eqn:Hr.
    destruct (queue_rounds rounds o1) as [o2 all'] eqn:Hrs. intros [= <- <-] Hm Hq.
    destruct (queue_round_sends _ _ _ _ _ _ Hr) as (taken & _ & Hs & Hh).
    destruct (IH _ _ _ Hrs Hm) as [? ?]; [by apply Hh; auto|]. split; [constructor; auto|done].
Qed.

(** Everything that is taken from the channels is sent in the same round.  But
    only the publishes are forgotten then: a modification of a topic or of a subscription is sent
    again in every later round, for as long as the process lives. *)
Theorem modifications_are_resent rounds o o' all q :
  queue_rounds rounds o = (o', all) →
  (∀ i first buffered, rounds !! i = Some (first, buffered) → ∃ sent, all !! i = Some sent ∧ message_of first ∈ sent) ∧
  (is_modify q → holds o q → Forall (λ sent, message_of q ∈ sent) all ∧ holds o' q) ∧
  ∀ i j first buffered sent, rounds !! i = Some (first, buffered) → is_modify first → (i ≤ j)%nat →
    all !! j = Some sent → message_of first ∈ sent.
Proof.
  intros Hrun. split; [|split; [by eapply queue_rounds_keep|]].
  - revert o o' all Hrun. induction rounds as [|[first buffered] rounds IH]; intros o o' all; simpl; [done|].
    destruct (queue_round first buffered _ o) as [[o1 rest] sent] eqn:Hr.
    destruct (queue_rounds rounds o1) as [o2 all'] eqn:Hrs. intros [= <- <-] [|i] f b Hi; simpl in Hi.
    + simplify_eq. exists sent. split; [done|].
      destruct (queue_round_sends _ _ _ _ _ _ Hr) as (taken & _ & Hs & _). auto.
    + simpl. exact (IH _ _ _ Hrs i f b Hi).
  - revert o o' all Hrun. induction rounds as [|[first buffered] rounds IH]; intros o o' all; simpl; [done|].
    destruct (queue_round first buffered _ o) as [[o1 rest] sent] eqn:Hr.
    destruct (queue_rounds rounds o1) as [o2 all'] eqn:Hrs. intros [= <- <-] [|i] j f b s Hi Hm Hj Hs; simpl in Hi.
    + simplify_eq. destruct (queue_round_sends _ _ _ _ _ _ Hr) as (taken & _ & Hsent & Hh).
      destruct j as [|j]; simpl in Hs; [simplify_eq; auto|].
      destruct (queue_rounds_keep _ _ _ _ f Hrs Hm) as [Hall _]; [by apply Hh; auto|].
      rewrite Forall_forall in Hall. apply Hall. by eapply list_elem_of_lookup_2.
    + destruct j as [|j]; [lia|]. simpl in Hs. eapply IH; [exact Hrs|exact Hi|done| |exact Hs]. lia.
Qed.
End Outbox.

(** ** Witnesses *)

(** Two deliveries at a time, everything expired: two ticks delete all four, a third finds none. *)
Definition demo_settings : PruneCommonSettings := MkPruneSettings 0 2 0 0 0.
Definition demo_ticks : list tick_env := replicate 3 (MkTick (Ok ()) (Ok ()) 9000 7).
Definition background_world : world := MkWorld example_db empty_registry 0.

Lemma background_world_wf : world_wf background_world.
Proof. split; [exact example_db_wf|exact empty_registry_wf]. Qed.

Lemma cleanup_catches_up_witness :
  ∃ k period w', (k ≤ 2)%nat ∧
    ticks (prune_tick (prune_ApplyDefaults demo_settings)
      (job_Execute (E := id_engine) ExpiredDeliveries (MkPrune Hour 2))) (take (S k) demo_ticks) (100 * Millisecond, background_world)
      = (Ok period, w') ∧
    ∀ i e, deliveries (w_db w') !! i = Some e → ¬ d_expiresAt e < 9000.
Proof.
  destruct (cleanup_catches_up (E := id_engine) demo_settings (prune_ApplyDefaults demo_settings) (MkPrune Hour 2)
    ExpiredDeliveries demo_ticks background_world) as (k & te & Hte & Hk & _ & period & w' & Hrun & _ & Hend).
  - reflexivity.
  - reflexivity.
  - exact background_world_wf.
  - repeat constructor.
  - vm_compute. repeat constructor.
  - exists k, period, w'. split; [|split; [exact Hrun|]].
    + change (k * 2 ≤ 4)%nat in Hk. lia.
    + apply list_elem_of_lookup_2, elem_of_replicate in Hte as [-> _]. exact Hend.
Defined.

(** A pusher runs for a subscription whose endpoint is changed meanwhile. *)
Definition push_sub_at (endpoint : string) : subscription := sub_set_pushEndpoint (Some endpoint) sub_plain.
Definition push_world (endpoint : string) : world :=
  MkWorld (with_subscriptions {[11%N := push_sub_at endpoint]}
    (with_deliveries ∅ (with_snapshots ∅ example_db))) empty_registry 0.
Lemma push_world_wf endpoint : world_wf (push_world endpoint).
Proof. split; [apply db_wf_b_sound; vm_compute; reflexivity|exact empty_registry_wf]. Qed.

Lemma pushers_follow_subscriptions_witness :
  ∃ w' ps', startPushersOnce (E := id_engine) false (Ok ()) (Ok ()) (push_world "http://new")
      {[11%N := start_pusher (push_sub_at "http://old")]} = (Ok (), w', ps') ∧
    running ps' 11%N (start_pusher (push_sub_at "http://old")).
Proof.
  destruct (startPushersOnce (E := id_engine) false (Ok ()) (Ok ()) (push_world "http://new")
    {[11%N := start_pusher (push_sub_at "http://old")]}) as [[res w'] ps'] eqn:H.
  assert (Hres : res = Ok ()) by (vm_compute in H; injection H as <- _ _; reflexivity). subst res.
  exists w', ps'. split; [reflexivity|].
  destruct (pushers_follow_subscriptions (E := id_engine) (Ok ()) (push_world "http://new")
    {[11%N := start_pusher (push_sub_at "http://old")]} w' ps' (push_world_wf _) H) as (_ & _ & _ & Hkeep).
  apply (Hkeep 11%N _ (push_sub_at "http://new")).
  - split; reflexivity.
  - reflexivity.
  - split; [reflexivity|]. split; [eexists; reflexivity|discriminate].
Defined.

Lemma bits_print_no_space p : split_space (bits_print p) = None.
Proof.
  induction p as [p IH|p IH|]; [| |done]; cbn [bits_print split_space];
    (rewrite decide_False by done; by rewrite IH).
Qed.
Lemma bits_no_space u : split_space (uuid_String (UuidText := bits_text) u) = None.
Proof.
  destruct u as [|p]; [done|]. cbn [uuid_String bits_text bits_string split_space].
  rewrite decide_False by done. by rewrite bits_print_no_space.
Qed.

Lemma notification_roundtrip_witness :
  on_notification (U := bits_text) (message_of (U := bits_text) (QTopic 5%N "a name with spaces")) =
    [OpWakeModify TopicSide true 5%N "a name with spaces"].
Proof. apply (notification_roundtrip (U := bits_text) bits_no_space (QTopic 5%N "a name with spaces")). Defined.

Lemma modifications_are_resent_witness :
  ∃ o' all, queue_rounds (U := bits_text) [(QTopic 5%N "t", []); (QPublish 7%N, [])] empty_outbox = (o', all) ∧
    ∃ sent, all !! 1%nat = Some sent ∧ message_of (U := bits_text) (QTopic 5%N "t") ∈ sent.
Proof.
  destruct (queue_rounds (U := bits_text) [(QTopic 5%N "t", []); (QPublish 7%N, [])] empty_outbox)
    as [o' all] eqn:H.
  exists o', all. split; [reflexivity|].
  destruct (modifications_are_resent (U := bits_text) [(QTopic 5%N "t", []); (QPublish 7%N, [])] empty_outbox o' all
    (QPublish 0%N) H) as (Hfirst & _ & Hlater).
  destruct (Hfirst 1%nat _ _ eq_refl) as (sent & Hs & _). exists sent. split; [exact Hs|].
  apply (Hlater 0%nat 1%nat (QTopic 5%N "t") [] sent eq_refl I); [lia|exact Hs].
Defined.
