(* ===== verification/SubTypes.v ===== *)
(** * What is stored of a subscription has its type

    [src/ent/schema/subscription.go] has [messageFilter] and [pushEndpoint] as strings; the code
    that delivers and pushes reads them as a filter and an address.  Only two transactions write
    filters ([CreateSubscription], [UpdateSubscription]) and both parse them first; so in every
    world the service can reach, every filter in the database parses, and a delivery is never
    dropped because its filter could not be read. *)

From S2P Require Import Prelude Uuid Filter FilterParse Schema Backoff Notify Store Example Deliver.
From S2P Require Import Lifecycle Ack Receive Seek Prune Rpc Publisher Subscriber System Background.

Section SubTypes.
Context {E : Engine} {FP : FilterParser} {F : Float64} {U : UuidText}.

Definition subs_typed (d : db) : Prop := ∀ k s, subscriptions d !! k = Some s → sub_typed s.
Definition typed_stays (t t' : txn) : Prop :=
  db_wf (tx_db t) → subs_typed (tx_db t) → db_wf (tx_db t') ∧ subs_typed (tx_db t').

#[export] Instance typed_stays_rel : TxRel typed_stays.
Proof.
  split; [|by intros ???|by intros ??]. split; [by intros ???|].
  intros t1 t2 t3 H12 H23 W T. by destruct (H12 W T); apply H23.
Qed.

(** A statement is judged by the subscriptions it leaves. *)
Lemma respects_typed {A} (m : Tx A) :
  respects keeps_wf m →
  (∀ t a t', m t = Ok (a, t') → db_wf (tx_db t) → subs_typed (tx_db t) → subs_typed (tx_db t')) →
  respects typed_stays m.
Proof. intros Hw Hs t a t' H W T. split; [by eapply Hw|by eapply Hs]. Qed.

(** [s'] is [s], or [s] with an edge set to null. *)
Definition same_strings (s s' : subscription) : Prop :=
  s_messageFilter s' = s_messageFilter s ∧ s_pushEndpoint s' = s_pushEndpoint s.
Lemma same_strings_typed s s' : same_strings s s' → sub_typed s → sub_typed s'.
Proof. intros [Hf Hp]. unfold sub_typed. by rewrite Hf, Hp. Qed.

(** The tables whose statements write no subscription, but for nulled edges. *)
Definition spares_subs (A : Type) `{Table A} : Prop :=
  (∀ d (m : gmap uuid A), subscriptions (with_table m d) = subscriptions d) ∧
  (∀ d ids k s', subscriptions (set_null ids d) !! k = Some s' →
     ∃ s, subscriptions d !! k = Some s ∧ same_strings s s').

Lemma put_typed A `{TableLaws A} (r : A) : spares_subs A → respects typed_stays (put r).
Proof.
  intros [Hs _]. apply respects_typed; [apply put_wf|]. intros t [] t' [_ ->]%put_run _ T k s.
  simpl. rewrite Hs. apply T.
Qed.
Lemma tolerates_table_typed A `{TableLaws A} : spares_subs A → tolerates_table typed_stays A.
Proof.
  intros Hs. split.
  - intros r. apply respects_bind; [apply respects_gets|].
    intros []; [apply respects_fail|by apply put_typed].
  - intros P ? f. apply respects_bind; [apply respects_gets|]. intros rs.
    apply respects_bind; [|intros; apply respects_ret]. apply respects_forM. intros. by apply put_typed.
  - intros id f. apply respects_bind; [apply respects_gets|].
    intros []; [by apply put_typed|apply respects_fail].
  - intros P ?. apply respects_typed; [apply Delete_wf|]. intros t n t' Ht _ T.
    unfold Delete, All in Ht. inv_monad. case_decide; inv_monad. intros k s'. simpl. unfold delete_ids.
    intros (s & Hk & Hsame)%(proj2 Hs). rewrite (proj1 Hs) in Hk. by eapply same_strings_typed, T.
Qed.

Lemma topic_spares : spares_subs topic.
Proof.
  split; [done|]. intros d ids k s'. simpl. rewrite lookup_fmap, fmap_Some. intros (s & Hs & ->).
  exists s. split; [done|]. by repeat case_match.
Qed.
Lemma other_spares A `{Table A} :
  (∀ d (m : gmap uuid A), subscriptions (with_table m d) = subscriptions d) →
  (∀ d ids, subscriptions (set_null ids d) = subscriptions d) → spares_subs A.
Proof. intros Hw Hn. split; [done|]. intros d ids k s. rewrite Hn. by exists s. Qed.
Lemma delivery_typed : tolerates_table typed_stays delivery.
Proof. apply (tolerates_table_typed _), (other_spares _); intros; reflexivity. Qed.

#[export] Instance typed_rest : tolerates_rest typed_stays.
Proof.
  pose proof delivery_typed as [Hc Hu Ho Hd].
  split; [apply _|apply (tolerates_table_typed _), topic_spares
    |apply (tolerates_table_typed _), (other_spares _); intros; reflexivity..| |auto|auto|auto].
  intros dc _. unfold CreateBulk. apply respects_forM. intros c _.
  apply respects_bind; [apply respects_uuid_New|auto].
Qed.

(** ** Statements on subscriptions *)

Lemma typed_insert d s : subs_typed d → sub_typed s →
  subs_typed (with_subscriptions (<[s_id s := s]> (subscriptions d)) d).
Proof. intros T Hs k s'. simpl. intros [[_ <-]|[_ Hk]]%lookup_insert_Some; [done|by eapply T]. Qed.
Lemma put_sub_typed (s : subscription) : sub_typed s → respects typed_stays (put s).
Proof.
  intros Hs. apply respects_typed; [apply put_wf|]. intros t [] t' [_ ->]%put_run _ T. by apply typed_insert.
Qed.
Lemma sub_Update_typed (P : subscription → Prop) `{∀ x, Decision (P x)} f :
  sub_quiet f → respects typed_stays (Update P f).
Proof.
  intros Hf t n t' Ht W T. unfold Update, All in Ht. apply bind_Ok in Ht as (rs & t1 & [-> <-]%gets_Ok & Ht).
  eapply (respects_bind (R := typed_stays)); [|intros; apply respects_ret|exact Ht|exact W|exact T].
  apply respects_forM. intros s [_ Hs]%elem_of_rows_wf; [|done]. by apply put_sub_typed, Hf, (T _ _ Hs).
Qed.
Lemma sub_UpdateOneID_typed id f : sub_quiet f → respects typed_stays (UpdateOneID id f).
Proof.
  intros Hf. apply respects_typed; [apply UpdateOneID_wf|]. intros t [] t' Ht W T.
  destruct (UpdateOneID_inv _ _ _ _ _ Ht W) as (s & Hs & -> & _).
  apply (typed_insert _ (f s)); [done|]. by eapply Hf, T.
Qed.
Lemma sub_Delete_typed (P : subscription → Prop) `{∀ x, Decision (P x)} : respects typed_stays (Delete P).
Proof.
  apply respects_typed; [apply Delete_wf|]. intros t n t' Ht _ T.
  unfold Delete, All in Ht. inv_monad. case_decide; inv_monad.
  intros k s [Hk _]%map_lookup_filter_Some. by eapply T.
Qed.

(** The filter a request sets, when it was parsed. *)
Lemma if_set_typed (src x : string) :
  src = EmptyString ∨ is_Some (ParseString src) → if_set src = Some x → x ≠ EmptyString ∧ is_Some (ParseString x).
Proof.
  unfold if_set, is_empty. case_bool_decide as He; [done|]. by intros [?|?] [= <-].
Qed.

Lemma CreateSubscription_parses p now createdAt t s t' :
  CreateSubscription_Execute p now createdAt t = Ok (s, t') →
  cs_Filter p = EmptyString ∨ is_Some (ParseString (cs_Filter p)).
Proof.
  unfold CreateSubscription_Execute. intros (ex & t0 & _ & H)%bind_Ok.
  destruct ex; [by apply fail_Ok in H|]. apply bind_Ok in H as (tp & t1 & _ & H).
  apply bind_Ok in H as ([] & t2 & H & _). unfold is_empty in H. case_bool_decide; [by left|right].
  destruct (ParseString _); [by eexists|by apply fail_Ok in H].
Qed.
Lemma CreateSubscription_typed p now createdAt :
  respects typed_stays (CreateSubscription_Execute p now createdAt).
Proof.
  intros t s t' H W T. pose proof (CreateSubscription_parses _ _ _ _ _ _ H) as Hp.
  destruct (CreateSubscription_inv _ _ _ _ _ _ W H) as (tp & dl & _ & _ & _ & -> & _ & -> & W').
  split; [done|]. apply (typed_insert _ (store_intervals _)); [done|].
  split; [by intros; eapply if_set_typed|apply if_set_nonempty].
Qed.

Lemma masked_typed req now d paths s s' : masked req now d paths s s' → sub_typed s → sub_typed s'.
Proof.
  intros Hm [Hf Hp]. pose proof (mk_filter _ _ _ _ _ _ Hm) as Hf'. pose proof (mk_parses _ _ _ _ _ _ Hm) as Hx.
  pose proof (mk_push _ _ _ _ _ _ Hm) as Hp'. split.
  - intros src. rewrite Hf'. clear Hp'. case_decide; [by apply if_set_typed|apply Hf].
  - rewrite Hp'. case_decide; [|done]. destruct (ps_PushConfig req); [apply if_set_nonempty|done].
Qed.
Lemma UpdateSubscription_typed req paths now : respects typed_stays (UpdateSubscription_tx req paths now).
Proof.
  intros t r t' H W T. pose proof (UpdateSubscription_tx_run req paths now t W) as Hrun. rewrite H in Hrun.
  destruct Hrun as (s & tp & Hs & _ & _ & [(_ & _ & ->)|(_ & s' & Hm & _ & -> & W')]); [done|].
  split; [done|]. rewrite <- (proj1 (mk_fixed _ _ _ _ _ _ Hm)). apply typed_insert; [done|].
  by eapply masked_typed, T.
Qed.

#[export] Instance typed_sub : tolerates_sub typed_stays.
Proof.
  split; [exact @sub_Update_typed|exact sub_UpdateOneID_typed|exact @sub_Delete_typed
    |exact CreateSubscription_typed|exact UpdateSubscription_typed].
Qed.
#[export] Instance tolerates_typed : tolerates typed_stays.
Proof. split; apply _. Qed.

(** ** Every reachable world *)

Lemma transaction_typed rq now : respects typed_stays (transaction rq now).
Proof.
  apply transaction_respects; [apply _..|]. intros _ P ? x y. by apply delivery_typed.
Qed.
Lemma step_typed allowed w w' : step allowed w w' → db_wf (w_db w) → subs_typed (w_db w) → subs_typed (w_db w').
Proof.
  intros [rq now committed v _|o v r Hr] W T; [|done]. unfold DoTx.
  destruct (transaction rq now _) as [[u t]|e|q] eqn:Ht; [|done..].
  destruct (transaction_typed _ _ _ _ _ Ht W T) as [_ Tt]. destruct committed; [|done..].
  by destruct (run_hooks _ _) as [[? ?]|?|?].
Qed.
Lemma reachable_typed w : reachable w → subs_typed (w_db w).
Proof.
  intros Hr. enough (world_wf w ∧ subs_typed (w_db w)) by tauto.
  apply (rtc_ind_r (R := step any_request) (λ w, world_wf w ∧ subs_typed (w_db w)) empty_world); [split; [apply empty_world_wf|done]| |exact Hr].
  intros w1 w2 _ Hs [W T]. split; [by eapply step_wf|]. by eapply step_typed; [|apply W|].
Qed.

(** C8 In every world the service can reach the strings stored with a subscription have the
    types their readers take them to have: a stored filter is not empty and parses, to a
    condition as the grammar builds them, so delivering any message to the subscription drops
    it exactly when that condition is false of the attributes (never because the filter does not parse
    or cannot be evaluated); and a stored push endpoint is not empty, so that the pusher
    monitor's query for live subscriptions with an endpoint misses none of them. *)
Theorem reachable_strings_typed w k s :
  reachable w → subscriptions (w_db w) !! k = Some s →
  (∀ m, match s_messageFilter s with
        | None => filtered_out s m = Ok false
        | Some src => ∃ f, src ≠ EmptyString ∧ ParseString src = Some f ∧ Condition_wf f = true ∧
            filtered_out s m = Ok (negb (Condition_holds f (m_attributes m)))
        end) ∧
  s_pushEndpoint s ≠ Some EmptyString ∧
  (push_sub s ↔ s_deletedAt s = None ∧ is_Some (s_pushEndpoint s)).
Proof.
  intros Hr Hs. destruct (reachable_typed w Hr _ _ Hs) as [Hf Hp]. split_and!; [|done|].
  - intros m. unfold filtered_out. destruct (s_messageFilter s) as [src|]; [|done].
    destruct (Hf src eq_refl) as [Hne [f Hparse]]. exists f. split_and!; [done|done|by eapply ParseString_wf|].
    destruct src; [done|]. rewrite Hparse. by rewrite (proj1 (Evaluate_holds _) f (ParseString_wf _ _ Hparse)).
  - unfold push_sub. tauto.
Qed.
End SubTypes.

#[local] Existing Instance bits_text.

(** ** Witness *)

(** A topic and a subscription with a filter and an endpoint. *)
Definition typed_requests : list (request * time) := [
  (ReqCreateTopic (MkCreateTopic "t" ∅), 10);
  (ReqCreateSubscription (MkCreateSub "t" "s" Hour Minute false ∅ "http://localhost" 0 0 "attributes:color" 0
     EmptyString) 20, 20) ].
Definition typed_world : world := foldl demo_step empty_world typed_requests.

Lemma reachable_strings_typed_witness :
  ∃ s f, subscriptions (w_db typed_world) !! s_id s = Some s ∧ s_messageFilter s = Some "attributes:color" ∧
    ParseString "attributes:color" = Some f ∧ Condition_wf f = true ∧ push_sub s.
Proof.
  destruct (rows_where (E := id_engine) (λ s : subscription, s_name s = "s") (w_db typed_world)) as [|s l] eqn:Hl;
    [vm_compute in Hl; discriminate Hl|].
  assert (Hs : subscriptions (w_db typed_world) !! s_id s = Some s /\
    s_messageFilter s = Some "attributes:color" /\ s_deletedAt s = None /\ is_Some (s_pushEndpoint s)).
  { vm_compute in Hl. injection Hl as <- <-.
    split; [vm_compute; reflexivity|]. split; [reflexivity|]. split; [reflexivity|].
    eexists. reflexivity. }
  destruct Hs as (Hs & Hf & Hd & Hp).
  destruct (reachable_strings_typed (E := id_engine) typed_world _ s (demo_steps empty_world typed_requests) Hs)
    as (H & _ & Hpush).
  specialize (H msg_1). rewrite Hf in H. destruct H as (f & _ & Hparse & Hwf & _).
  exists s, f. split; [exact Hs|]. split; [exact Hf|]. split; [exact Hparse|]. split; [exact Hwf|].
  apply Hpush. split; [exact Hd|exact Hp].
Defined.
