(* ===== verification/Listener.v ===== *)
(** * The connection on which the notifier listens

    [pgNotifier.runOnce] and the retry loop of [Start] in [src/services/notifier.go]: a goroutine
    waits for notifications and hands them to the loop over a channel with room for one; the loop
    starts the wakes of [Background.on_notification].  A step is what happens between two points
    where a channel, the connection or the context is used; the connection is the input of a step.
    [ops], [received] and [dispatched] are history: the wakes started since the service began, and
    the notifications of the present connection that arrived and that the loop has looked at. *)

From S2P Require Import Prelude Uuid Notify Rpc Background.

(** How an error is told apart: [context.Canceled] or [DeadlineExceeded] (also wrapped), a
    [net.Error] that is a timeout, any other. *)
Inductive err_kind := KContext | KTimeout | KOther.

Inductive reader := Waiting | Sending (n : notification) | Exited (res : option err_kind).
Inductive loop := Selecting | Broken.

Inductive phase :=
  | Connecting
  | Running (r : reader) (buffer : list notification) (l : loop)
  | Sleeping
  | Ended.

Record lstate := MkLState {
  ctx_done : bool; at_ : phase; ops : list nop; received : list notification; dispatched : list notification }.
Definition listener_start : lstate := MkLState false Connecting [] [] [].

(** What happens: the service is stopped; a connection attempt with its three [LISTEN] ends; the
    reader gets a notification or an error; the reader sends; the loop takes the branch of its
    [select] that is named; the errgroup is waited for; the delay of a retry is over or cut short. *)
Inductive event :=
  | Cancel
  | Connected (res : option err_kind)
  | Notified (n : notification)
  | ReadFailed (k : err_kind)
  | Sent
  | LoopDone
  | LoopReceived
  | GroupDone
  | RetryDelay
  | RetryCancelled.

Section Listener.
Context {U : UuidText}.

(** [egCtx.Done()]: the parent is done, or the reader returned an error. *)
Definition eg_done (s : lstate) (r : reader) : bool :=
  ctx_done s || match r with Exited (Some _) => true | _ => false end.

Definition goto (p : phase) (s : lstate) : lstate := MkLState (ctx_done s) p (ops s) (received s) (dispatched s).

Definition listen_step (e : event) (s : lstate) : option lstate :=
  match e, at_ s with
  | Cancel, _ => Some (MkLState true (at_ s) (ops s) (received s) (dispatched s))
  | Connected (Some k), Connecting =>
      (** [isContextError] ends the goroutine, anything else is retried *)
      Some (goto (match k with KContext => Ended | _ => Sleeping end) s)
  | Connected None, Connecting =>
      Some (MkLState (ctx_done s) (Running Waiting [] Selecting) (ops s ++ [OpWakeAll]) [] [])
  | Notified n, Running Waiting buffer l =>
      Some (MkLState (ctx_done s) (Running (Sending n) buffer l) (ops s) (received s ++ [n]) (dispatched s))
  | ReadFailed k, Running Waiting buffer l =>
      Some (goto (Running (Exited (match k with KOther => Some KOther | _ => None end)) buffer l) s)
  | Sent, Running (Sending n) [] l => Some (goto (Running Waiting [n] l) s)
  | LoopDone, Running r buffer Selecting =>
      if eg_done s r then Some (goto (Running r buffer Broken) s) else None
  | LoopReceived, Running r (n :: buffer) Selecting =>
      Some (MkLState (ctx_done s) (Running r buffer Selecting) (ops s ++ on_notification n) (received s) (dispatched s ++ [n]))
  | GroupDone, Running (Exited res) _ Broken =>
      Some (goto (match res with Some _ => Sleeping | None => Connecting end) s)
  | RetryDelay, Sleeping => Some (goto Connecting s)
  | RetryCancelled, Sleeping => if ctx_done s then Some (goto Ended s) else None
  | _, _ => None
  end.

Inductive lstep : lstate → lstate → Prop :=
  | lstep_event e s s' : listen_step e s = Some s' → lstep s s'.
Definition listening (s : lstate) : Prop := rtc lstep listener_start s.

(** ** What is heard *)

Definition in_flight (p : phase) : list notification :=
  match p with
  | Running r buffer _ => buffer ++ match r with Sending n => [n] | _ => [] end
  | _ => []
  end.
Definition connected (p : phase) : bool := match p with Running _ _ _ => true | _ => false end.

Record heard (s : lstate) : Prop := {
  h_order : connected (at_ s) = true → received s = dispatched s ++ in_flight (at_ s);
  h_ops : connected (at_ s) = true →
    ∃ before, ops s = before ++ OpWakeAll :: (dispatched s ≫= on_notification);
  h_room : match at_ s with Running _ buffer _ => (length buffer ≤ 1)%nat | _ => True end;
  h_broken : match at_ s with Running r _ Broken => eg_done s r = true | _ => True end;
  h_exited : match at_ s with Running (Exited (Some k)) _ _ => k = KOther | _ => True end }.

Lemma heard_step s s' : heard s → lstep s s' → heard s'.
Proof.
  intros Hh Hst. revert Hh. destruct Hst as [e s s' Hs]. intros [Ho Hops Hr Hb He].
  destruct s as [d p ops0 rec0 dis0], e as [|[k|]|n|k| | | | | |], p as [|r buf l| |]; simpl in Hs; try done;
    repeat case_match; simplify_eq/=; split; simpl in *; auto; try naive_solver lia.
  all: try (intros _; rewrite Ho by done; by rewrite ?app_nil_r, <- ?app_assoc).
  all: try (intros _; destruct (Hops eq_refl) as [before ->]; exists before;
    by rewrite bind_app, <- app_assoc; simpl; rewrite app_nil_r).
  all: unfold eg_done, goto; simpl; repeat case_match; auto using orb_true_r.
Qed.

Lemma listening_heard s : listening s → heard s.
Proof.
  apply (rtc_ind_r heard); [by split|]. intros s1 s2 _ Hs IH. by eapply heard_step.
Qed.

(** C30 While it is connected, the listener looks at the notifications in the order in which they
    arrived, at each once, and at most two have arrived that it has not looked at; the wakes
    started since the connection was made are those of the notifications looked at, after one wake
    of every waiter, which makes up for what was missed before. *)
Theorem listener_hears s :
  listening s → connected (at_ s) = true →
  received s = dispatched s ++ in_flight (at_ s) ∧ (length (in_flight (at_ s)) ≤ 2)%nat ∧
  ∃ before, ops s = before ++ OpWakeAll :: (dispatched s ≫= on_notification).
Proof.
  intros Hl Hc. destruct (listening_heard s Hl) as [Ho Hops Hr _ _]. split_and!; [by apply Ho| |by apply Hops].
  destruct (at_ s) as [|r buf l| |]; try done. simpl. rewrite length_app. destruct r; simpl; lia.
Qed.

(** ** Stopping *)

(** Nothing more can happen but another cancellation. *)
Definition stuck (s : lstate) : Prop := ∀ e s', listen_step e s = Some s' → e = Cancel.

(** After the service is stopped the listener can come to rest in two ways: it has returned; or it
    never will, because the loop has left while the reader waits to hand over a notification and
    another one fills the channel. *)
Theorem listener_stops_or_hangs s :
  listening s → ctx_done s = true → stuck s →
  at_ s = Ended ∨ ∃ n m, at_ s = Running (Sending n) [m] Broken.
Proof.
  intros Hl Hd Hs. destruct (listening_heard s Hl) as [_ _ Hr _ _].
  assert (Hno : ∀ e, e ≠ Cancel → listen_step e s = None).
  { intros e He. destruct (listen_step e s) eqn:Hst; [by apply Hs in Hst|done]. }
  clear Hs. unfold listen_step, eg_done in Hno. rewrite Hd in Hno.
  destruct (at_ s) as [|r buf l| |]; [by specialize (Hno (Connected None) ltac:(done))| |by specialize (Hno RetryDelay ltac:(done))|by left].
  right. destruct l; [by specialize (Hno LoopDone ltac:(done))|]. destruct r as [|n|res].
  - by specialize (Hno (ReadFailed KContext) ltac:(done)).
  - destruct buf as [|m [|? ?]]; [by specialize (Hno Sent ltac:(done))|by exists n, m|simpl in Hr; lia].
  - by specialize (Hno GroupDone ltac:(done)).
Qed.

(** ** Going deaf *)

(** Two errors that do not come from stopping the service end the listening for good: a read that
    times out ends the reader without an error, so that the loop waits on, and a connection attempt
    whose error is a deadline ends the retries. *)
Definition deaf (s : lstate) : Prop :=
  match at_ s with
  | Running (Exited None) _ Selecting => True
  | Ended => True
  | _ => False
  end.

Lemma deaf_step e s s' :
  deaf s → ctx_done s = false → e ≠ Cancel → listen_step e s = Some s' →
  deaf s' ∧ ctx_done s' = false ∧ received s' = received s.
Proof.
  unfold deaf. intros Hd Hc He Hs. destruct s as [d p o r dd]. simpl in *. subst d.
  destruct e as [|[k|]|n|k| | | | | |], p as [|[|n'|[res|]] [|m buf] []| |]; simpl in Hs; try done; by simplify_eq.
Qed.

(** Nothing is heard any more, whatever happens short of stopping the service. *)
Theorem deaf_listener es s s' :
  deaf s → ctx_done s = false → Cancel ∉ es → foldl (λ o e, o ≫= listen_step e) (Some s) es = Some s' →
  deaf s' ∧ received s' = received s.
Proof.
  revert s. induction es as [|e es IH]; intros s Hd Hc Hin Hrun; simpl in Hrun; [by simplify_eq|].
  destruct (listen_step e s) as [s1|] eqn:Hs.
  - destruct (deaf_step e s s1) as (Hd1 & Hc1 & Hr1); [done|done|set_solver|done|].
    rewrite <- Hr1. apply (IH s1); [done|done|set_solver|done].
  - exfalso. clear -Hrun. induction es as [|e' es IH]; simpl in Hrun; [done|auto].
Qed.

(** Both ways of going deaf *)
Lemma goes_deaf s s' e :
  ctx_done s = false → listen_step e s = Some s' →
  (∃ buf, e = ReadFailed KTimeout ∧ at_ s = Running Waiting buf Selecting) ∨ (e = Connected (Some KContext) ∧ at_ s = Connecting) →
  deaf s' ∧ ctx_done s' = false.
Proof.
  intros Hc Hs [(buf & -> & Hp)|[-> Hp]]; unfold listen_step in Hs; rewrite Hp in Hs; simplify_eq; by unfold deaf.
Qed.
End Listener.

(** ** Witnesses *)

Fixpoint events_run {U : UuidText} (es : list event) (s : lstate) : option lstate :=
  match es with [] => Some s | e :: es => listen_step e s ≫= events_run es end.

Lemma events_run_listening {U : UuidText} es s0 s : rtc lstep listener_start s0 → events_run es s0 = Some s → listening s.
Proof.
  revert s0. induction es as [|e es IH]; intros s0 H0; simpl; [by intros [= ->]|].
  intros (s1 & Hs & Hr)%bind_Some. eapply IH, Hr. eapply rtc_r; [exact H0|by econstructor].
Qed.

Definition demo_note (i : uuid) : notification := message_of (U := bits_text) (QPublish i).
(** Three notifications arrive while the loop looks at the first; then the service is stopped and
    the loop leaves. *)
Definition demo_events : list event :=
  [Connected None; Notified (demo_note 11); Sent; LoopReceived; Notified (demo_note 12); Sent; Notified (demo_note 13);
   Cancel; LoopDone].

Lemma listener_hears_witness :
  ∃ s, events_run (U := bits_text) (take 7 demo_events) listener_start = Some s ∧
    dispatched s = [demo_note 11] ∧ in_flight (at_ s) = [demo_note 12; demo_note 13] ∧
    received s = [demo_note 11; demo_note 12; demo_note 13] ∧
    ∃ before, ops s = before ++ OpWakeAll :: (dispatched s ≫= on_notification (U := bits_text)).
Proof.
  destruct (events_run (U := bits_text) (take 7 demo_events) listener_start) as [s|] eqn:H; [|vm_compute in H; discriminate].
  assert (Hl : listening (U := bits_text) s) by (eapply events_run_listening; [apply rtc_refl|exact H]).
  assert (Hs : dispatched s = [demo_note 11] ∧ in_flight (at_ s) = [demo_note 12; demo_note 13] ∧ connected (at_ s) = true)
    by (vm_compute in H; injection H as <-; vm_compute; repeat split).
  destruct Hs as (Hd & Hi & Hc). exists s. split; [reflexivity|].
  destruct (listener_hears (U := bits_text) s Hl Hc) as (Hr & _ & Ho).
  split; [exact Hd|]. split; [exact Hi|]. split; [rewrite Hr, Hd, Hi; reflexivity|exact Ho].
Defined.

(** The hang is reached, and nothing leads out of it. *)
Lemma listener_hangs :
  ∃ s n m, listening (U := bits_text) s ∧ ctx_done s = true ∧ at_ s = Running (Sending n) [m] Broken ∧
    stuck (U := bits_text) s.
Proof.
  destruct (events_run (U := bits_text) demo_events listener_start) as [s|] eqn:H; [|vm_compute in H; discriminate].
  assert (Hl : listening (U := bits_text) s) by (eapply events_run_listening; [apply rtc_refl|exact H]).
  assert (Hs : ctx_done s = true ∧ at_ s = Running (Sending (demo_note 13)) [demo_note 12] Broken)
    by (vm_compute in H; injection H as <-; vm_compute; repeat split).
  destruct Hs as [Hc Ha]. exists s, (demo_note 13), (demo_note 12). split_and!; [done..|].
  intros e s' Hs. unfold listen_step in Hs. rewrite Ha in Hs. destruct e as [|[?|]| | | | | | | |]; done.
Qed.
