(* ===== verification/Services.v ===== *)
(** * Starting and stopping the services

    [src/services/wrap.go] and the [Start] and [Cleanup] that [prune-common.go], [deadletter.go],
    [http-push.go] and [notifier.go] have in common: [Start] runs on a goroutine of its own, makes a
    context and the channel [done], runs its body until the context is done and closes [done];
    [Cleanup] cancels the context, waits for [done] and lets go of the client.  The body is the class
    [ServiceBody] with instances for the jobs and the pushers of [Background] and the notifier of
    [Listener]; the theorems about [Start] and [Cleanup] are about every instance.

    What [fx] does: a stop hook runs only after its start hook has returned, or without it if that
    was never called.  A step is what happens between two points where a channel, a context or a field
    of the service is used by both goroutines. *)

From S2P Require Import Prelude Uuid Filter FilterParse Schema Backoff Notify Store Example Deliver.
From S2P Require Import Lifecycle Ack Prune Rpc Subscriber Background Listener.

(** ** What a body promises *)

Inductive effect := Quiet | CloseReady | Leave (res : option error).

(** [body_step e d b]: what the body does at the event [e] if its context is done ([d]); [announced]:
    it has closed [ready]. *)
Class ServiceBody := {
  body : Type; body_event : Type; body_start : body; announced : body → bool;
  body_step : body_event → bool → body → option (outcome (body * effect));
  announced_start : announced body_start = false;
  announced_step e d b b' eff : body_step e d b = Some (Ok (b', eff)) →
    announced b' = match eff with CloseReady => true | _ => announced b end ∧
    (eff = CloseReady → announced b = false) }.

(** A run of the body while its context is done *)
Fixpoint body_run {B : ServiceBody} (es : list body_event) (b : body) : option (body * option effect) :=
  match es with
  | [] => Some (b, None)
  | e :: es =>
      match body_step e true b with
      | Some (Ok (b, Leave res)) => match es with [] => Some (b, Some (Leave res)) | _ => None end
      | Some (Ok (b, _)) => body_run es b
      | _ => None
      end
  end.

(** It returns only when it is asked to, and then it always can; [leaving]: it has seen that its
    context is done. *)
Class StoppingBody (B : ServiceBody) := {
  leaving : body → bool;
  leaving_start : leaving body_start = false;
  leaves_when_asked e d b b' eff : body_step e d b = Some (Ok (b', eff)) →
    match eff with Leave _ => True | _ => leaving b' = true end → leaving b = true ∨ d = true;
  can_leave b : ∃ es b' res, body_run es b = Some (b', Some (Leave res)) }.

Section Service.
Context {B : ServiceBody}.

(** ** The wrapped service *)

Inductive start_pc :=
  | SNotCalled | SEntered | SCancelSet | SBody (b : body)
  | SClosing (res : option error) | SCancelling (res : option error) | SReturned (res : option error).
Inductive hook_pc := HNotRun | HWaiting | HDone.
Inductive cleanup_pc := CNotCalled | CCalled | CCancelled | CWaiting | CReleasing | CReturned.

(** [s_done]: the field [done], nil or open or closed; [s_fields]: the client, the logger and the
    action are there; [w_watching] and [w_ready]: the goroutine and the flag of [serviceReady]. *)
Record service := MkService {
  s_parent : bool; s_own : bool; s_cancel : bool; s_done : option bool; s_ready : bool; s_fields : bool;
  s_start : start_pc; s_hook : hook_pc; s_cleanup : cleanup_pc; w_watching : bool; w_ready : bool }.

(** After [Initialize] *)
Definition initialized : service :=
  MkService false false false None false true SNotCalled HNotRun CNotCalled false false.

Definition s_ctx_done (s : service) : bool := s_parent s || s_own s.

Definition with_start (p : start_pc) (s : service) : service :=
  MkService (s_parent s) (s_own s) (s_cancel s) (s_done s) (s_ready s) (s_fields s) p (s_hook s) (s_cleanup s)
    (w_watching s) (w_ready s).
Definition with_cleanup (p : cleanup_pc) (s : service) : service :=
  MkService (s_parent s) (s_own s) (s_cancel s) (s_done s) (s_ready s) (s_fields s) (s_start s) (s_hook s) p
    (w_watching s) (w_ready s).
Definition with_done (d : option bool) (s : service) : service :=
  MkService (s_parent s) (s_own s) (s_cancel s) d (s_ready s) (s_fields s) (s_start s) (s_hook s) (s_cleanup s)
    (w_watching s) (w_ready s).
Definition with_own (s : service) : service :=
  MkService (s_parent s) true (s_cancel s) (s_done s) (s_ready s) (s_fields s) (s_start s) (s_hook s) (s_cleanup s)
    (w_watching s) (w_ready s).
Definition with_parent (s : service) : service :=
  MkService true (s_own s) (s_cancel s) (s_done s) (s_ready s) (s_fields s) (s_start s) (s_hook s) (s_cleanup s)
    (w_watching s) (w_ready s).

(** [Start], but for its body; its error cancels the context of the group it runs in. *)
Definition start_step (s : service) : option (outcome service) :=
  match s_start s with
  | SEntered =>
      Some (Ok (MkService (s_parent s) (s_own s) true (s_done s) (s_ready s) (s_fields s) SCancelSet (s_hook s)
                  (s_cleanup s) (w_watching s) (w_ready s)))
  | SCancelSet => Some (Ok (with_start (SBody body_start) (with_done (Some false) s)))
  | SClosing res =>
      match s_done s with
      | Some false => Some (Ok (with_start (SCancelling res) (with_done (Some true) s)))
      | Some true => Some (Panic "close of closed channel")
      | None => Some (Panic "close of nil channel")
      end
  | SCancelling res =>
      let s := with_start (SReturned res) (with_own s) in
      Some (Ok (match res with Some _ => with_parent s | None => s end))
  | _ => None
  end.

(** A step of the body; every one is taken to use the fields of the service. *)
Definition service_body_step (e : body_event) (s : service) : option (outcome service) :=
  match s_start s with
  | SBody b =>
      match body_step e (s_ctx_done s) b with
      | Some (Ok (b, eff)) =>
          if s_fields s then
            Some (match eff with
                  | Quiet => Ok (with_start (SBody b) s)
                  | CloseReady =>
                      if s_ready s then Panic "close of closed channel"
                      else Ok (MkService (s_parent s) (s_own s) (s_cancel s) (s_done s) true (s_fields s) (SBody b)
                                 (s_hook s) (s_cleanup s) (w_watching s) (w_ready s))
                  | Leave res => Ok (with_start (SClosing res) s)
                  end)
          else Some (Panic "nil pointer")
      | Some (Err _) => None
      | Some (Panic m) => Some (Panic m)
      | None => None
      end
  | _ => None
  end.

Definition cleanup_step (s : service) : option service :=
  match s_cleanup s with
  | CNotCalled => match s_hook s with HWaiting => None | _ => Some (with_cleanup CCalled s) end
  | CCalled => Some (with_cleanup CCancelled (if s_cancel s then with_own s else s))
  | CCancelled => Some (with_cleanup (match s_done s with Some _ => CWaiting | None => CReleasing end) s)
  | CWaiting => match s_done s with Some true => Some (with_cleanup CReleasing s) | _ => None end
  | CReleasing =>
      Some (MkService (s_parent s) (s_own s) (s_cancel s) (s_done s) (s_ready s) false (s_start s) (s_hook s) CReturned
              (w_watching s) (w_ready s))
  | CReturned => None
  end.

(** [HookRuns]: the start hook starts both goroutines; [HookReady]: it receives from [readyCh];
    [ParentDone]: the context of the process ends; [WatchReady], [WatchDone]: the two branches of
    [serviceReady.watch]. *)
Inductive service_event :=
  | HookRuns | HookReady | StartStep | BodyStep (e : body_event) | CleanupStep | ParentDone | WatchReady | WatchDone.

Definition service_step (ev : service_event) (s : service) : option (outcome service) :=
  match ev with
  | HookRuns =>
      match s_hook s, s_cleanup s with
      | HNotRun, CNotCalled =>
          Some (Ok (MkService (s_parent s) (s_own s) (s_cancel s) (s_done s) (s_ready s) (s_fields s) SEntered HWaiting
                      (s_cleanup s) true (w_ready s)))
      | _, _ => None
      end
  | HookReady =>
      match s_hook s with
      | HWaiting =>
          if s_ready s then Some (Ok (MkService (s_parent s) (s_own s) (s_cancel s) (s_done s) (s_ready s) (s_fields s)
                                        (s_start s) HDone (s_cleanup s) (w_watching s) (w_ready s)))
          else None
      | _ => None
      end
  | StartStep => start_step s
  | BodyStep e => service_body_step e s
  | CleanupStep => Ok <$> cleanup_step s
  | ParentDone => Some (Ok (with_parent s))
  | WatchReady =>
      if w_watching s && s_ready s
      then Some (Ok (MkService (s_parent s) (s_own s) (s_cancel s) (s_done s) (s_ready s) (s_fields s) (s_start s)
                       (s_hook s) (s_cleanup s) false true))
      else None
  | WatchDone =>
      if w_watching s && s_parent s
      then Some (Ok (MkService (s_parent s) (s_own s) (s_cancel s) (s_done s) (s_ready s) (s_fields s) (s_start s)
                       (s_hook s) (s_cleanup s) false (w_ready s)))
      else None
  end.

(** [Ready] *)
Definition Ready (s : service) : outcome () := if w_ready s then Ok () else Err (ErrOther "service not ready").

Inductive service_runs : service → service → Prop :=
  | service_runs_event ev s s' : service_step ev s = Some (Ok s') → service_runs s s'.
Definition serving (s : service) : Prop := rtc service_runs initialized s.

(** ** Start and Cleanup take turns *)

(** Where [Start] is determines the fields it has set. *)
Definition start_ok (s : service) : Prop :=
  match s_start s with
  | SNotCalled => s_hook s = HNotRun ∧ s_cancel s = false ∧ s_done s = None ∧ s_ready s = false
  | SEntered => s_hook s ≠ HNotRun ∧ s_cancel s = false ∧ s_done s = None ∧ s_ready s = false
  | SCancelSet => s_hook s ≠ HNotRun ∧ s_cancel s = true ∧ s_done s = None ∧ s_ready s = false
  | SBody b => s_hook s ≠ HNotRun ∧ s_cancel s = true ∧ s_done s = Some false ∧ s_ready s = announced b
  | SClosing _ => s_hook s ≠ HNotRun ∧ s_cancel s = true ∧ s_done s = Some false
  | SCancelling _ | SReturned _ => s_hook s ≠ HNotRun ∧ s_cancel s = true ∧ s_done s = Some true
  end.

Record service_ok (s : service) : Prop := {
  so_start : start_ok s;
  so_hook : s_hook s = HDone → s_ready s = true;
  so_watch : w_ready s = true → s_ready s = true;
  so_cleanup : match s_cleanup s with
               | CNotCalled => s_fields s = true
               | CCalled => s_fields s = true ∧ s_hook s ≠ HWaiting
               | CCancelled | CWaiting =>
                   s_fields s = true ∧ s_hook s ≠ HWaiting ∧ (s_hook s = HDone → s_own s = true)
               | CReleasing => s_fields s = true ∧ s_hook s ≠ HWaiting ∧ (s_hook s = HDone → s_done s = Some true)
               | CReturned => s_hook s ≠ HWaiting ∧ (s_hook s = HDone → s_done s = Some true)
               end }.

Lemma initialized_ok : service_ok initialized.
Proof. by split. Qed.

Ltac service_cases := unfold with_start, with_done, with_own, with_parent, with_cleanup in *; simplify_eq/=.

Lemma start_step_ok s s' : service_ok s → start_step s = Some (Ok s') → service_ok s'.
Proof.
  destruct s as [p o c d r f st h cl wa re]. unfold start_step. intros [Hs Hh Hw Hc] Hst. unfold start_ok in Hs. simpl in *.
  destruct st as [| | |b|res|res|res]; try done; repeat case_match; service_cases;
    split; unfold start_ok; simpl; try done; try naive_solver (congruence || auto using announced_start).
Qed.

Lemma body_step_ok e s s' : service_ok s → service_body_step e s = Some (Ok s') → service_ok s'.
Proof.
  destruct s as [p o c d r f st h cl wa re]. unfold service_body_step. intros [Hs Hh Hw Hc] Hst. unfold start_ok in Hs.
  simpl in *. destruct st as [| | |b|res|res|res]; try done.
  destruct (body_step e _ b) as [[[b' eff]| |]|] eqn:Hb; try done.
  destruct (announced_step _ _ _ _ _ Hb) as [Ha Hn]. destruct f; [|done].
  destruct Hs as (Hnr & Hcn & Hd & Hr). 
  destruct eff as [| |res]; repeat case_match; service_cases;
    split; unfold start_ok; simpl; try done; try naive_solver congruence.
Qed.

Lemma cleanup_step_ok s s' : service_ok s → cleanup_step s = Some s' → service_ok s'.
Proof.
  destruct s as [p o c d r f st h cl wa re]. unfold cleanup_step. intros [Hs Hh Hw Hc] Hst. unfold start_ok in Hs.
  simpl in *. destruct cl; try done; repeat case_match; service_cases;
    split; unfold start_ok; simpl; try done; try naive_solver congruence.
Qed.

Lemma service_step_ok s s' : service_ok s → service_runs s s' → service_ok s'.
Proof.
  intros Hok Hst. revert Hok. destruct Hst as [ev s s' Hs]. intros Hok.
  destruct ev; simpl in Hs; eauto using start_step_ok, body_step_ok.
  3: { destruct (cleanup_step s) eqn:Hc; simplify_eq/=. eauto using cleanup_step_ok. }
  all: destruct s as [p o c d r f st h cl wa re], Hok as [H1 H2 H3 H4]; simpl in *; repeat case_match; service_cases;
    bool_props; split; unfold start_ok in *; simpl in *; repeat case_match; naive_solver.
Qed.

Lemma serving_ok s : serving s → service_ok s.
Proof.
  apply (rtc_ind_r service_ok); [apply initialized_ok|]. intros s1 s2 _ Hs IH. by eapply service_step_ok.
Qed.

(** [Start] is past the last thing it does with the service. *)
Definition start_over (s : service) : Prop :=
  match s_start s with SCancelling _ | SReturned _ => True | _ => False end.

Lemma fields_there s : service_ok s → s_hook s ≠ HNotRun → s_done s ≠ Some true → s_fields s = true.
Proof.
  intros [_ _ _ Hc] Hn Hd. destruct (s_cleanup s); try by (destruct Hc).
  destruct Hc as [Hw Hf]. destruct (s_hook s); try done. by specialize (Hf eq_refl).
Qed.

(** C31 Whatever the order in which the hooks, [Start] and [Cleanup] run: when [Cleanup] returns after
    a start hook, [Start] is over; the client and the logger are there as long as [Start] uses
    them; no channel is closed twice, and nothing panics unless the body does; a service that
    calls itself ready has closed its channel. *)
Theorem cleanup_waits_for_start s :
  serving s →
  (s_cleanup s = CReturned → s_hook s = HDone → start_over s) ∧
  (s_fields s = false → start_over s ∨ s_start s = SNotCalled) ∧
  (∀ ev msg, service_step ev s = Some (Panic msg) →
     ∃ e b, ev = BodyStep e ∧ s_start s = SBody b ∧ body_step e (s_ctx_done s) b = Some (Panic msg)) ∧
  (Ready s = Ok () → s_ready s = true).
Proof.
  intros Hok%serving_ok. pose proof (fields_there s Hok) as Hfields. destruct Hok as [Hs Hh Hw Hc].
  unfold start_over, start_ok in *. split_and!.
  - intros Hcl Hhk. rewrite Hcl in Hc. destruct Hc as [_ Hd]. specialize (Hd Hhk). destruct (s_start s); naive_solver congruence.
  - intros Hf. destruct (s_start s) as [| | |b|res|res|res]; try (by right); try (by left);
      rewrite Hfields in Hf; try done; destruct Hs as (Hn & _ & Hd); naive_solver congruence.
  - intros ev msg Hst. destruct ev; simpl in Hst; try (repeat case_match; done).
    + unfold start_step in Hst. repeat case_match; naive_solver congruence.
    + unfold service_body_step in Hst. destruct (s_start s) as [| | |b| | |]; try done. exists e, b.
      split; [done|]. split; [done|]. destruct (body_step e (s_ctx_done s) b) as [[[b' eff]| |m]|] eqn:Hb; try done; [|congruence].
      exfalso. destruct (announced_step _ _ _ _ _ Hb) as [_ Hn]. destruct Hs as (Hnr & _ & Hd & Hr).
      assert (Hf : s_fields s = true) by (apply Hfields; [done|rewrite Hd; discriminate]).
      rewrite Hf in Hst. destruct eff; simplify_eq. destruct (s_ready s); [|done]. specialize (Hn eq_refl). congruence.
    + by destruct (cleanup_step s).
  - unfold Ready. destruct (w_ready s); naive_solver.
Qed.

(** ** A service can always be stopped *)

Lemma run_to ev s s' : service_step ev s = Some (Ok s') → rtc service_runs s s'.
Proof. intros H. apply rtc_once. by econstructor. Qed.

Lemma serving_more s s' : serving s → rtc service_runs s s' → serving s'.
Proof. unfold serving. intros. by etrans. Qed.

Lemma start_runs s s' : start_step s = Some (Ok s') → service_runs s s'.
Proof. intros H. by apply (service_runs_event StartStep). Qed.
Lemma cleanup_runs s s' : cleanup_step s = Some s' → service_runs s s'.
Proof. intros H. apply (service_runs_event CleanupStep). simpl. by rewrite H. Qed.

(** The hook has returned: [Start] has made its context and its channel. *)
Lemma hooked s : service_ok s → s_hook s = HDone → s_cancel s = true ∧ is_Some (s_done s) ∧ s_start s ≠ SNotCalled.
Proof.
  intros [Hs Hr _ _] Hh. specialize (Hr Hh). unfold start_ok in Hs.
  destruct (s_start s); destruct_and?; try congruence; (split; [done|split; [by eexists|done]]).
Qed.

(** [Cleanup] gets as far as waiting without anybody's help. *)
Lemma cleanup_cancels s :
  serving s → s_hook s = HDone →
  ∃ s', rtc service_runs s s' ∧ s_hook s' = HDone ∧ s_start s' = s_start s ∧
    (s_own s' = true ∧ s_cleanup s' = CWaiting ∨ s_cleanup s' = CReleasing ∨ s_cleanup s' = CReturned).
Proof.
  intros Hsv Hh. pose proof (serving_ok s Hsv) as Hok. destruct (hooked s Hok Hh) as (Hc & [d Hd] & _).
  destruct Hok as [_ _ _ Hcl]. destruct s as [p o c d' r f st h cl wa re]. simpl in *. subst h c d'.
  destruct cl; simpl in Hcl.
  - eexists. split; [do 3 (eapply rtc_l; [by apply cleanup_runs|]); apply rtc_refl|]. simpl. auto.
  - eexists. split; [do 2 (eapply rtc_l; [by apply cleanup_runs|]); apply rtc_refl|]. simpl. auto.
  - eexists. split; [eapply rtc_l; [by apply cleanup_runs|]; apply rtc_refl|]. simpl. naive_solver.
  - eexists. split; [apply rtc_refl|]. simpl. naive_solver.
  - eexists. split; [apply rtc_refl|]. simpl. auto.
  - eexists. split; [apply rtc_refl|]. simpl. auto.
Qed.

(** What the body does while its context is done is what the service can do. *)
Lemma body_runs es b s b' res :
  service_ok s → s_start s = SBody b → s_own s = true → body_run es b = Some (b', Some (Leave res)) →
  ∃ s', rtc service_runs s s' ∧ s_start s' = SClosing res ∧ s_own s' = true ∧ s_hook s' = s_hook s ∧
    s_cleanup s' = s_cleanup s.
Proof.
  revert b s. induction es as [|e es IH]; intros b s Hok Hs Ho Hrun; simpl in Hrun; [done|].
  assert (Hf : s_fields s = true).
  { pose proof (so_start s Hok) as Hst. unfold start_ok in Hst. rewrite Hs in Hst.
    apply fields_there; [done|apply Hst|]. destruct Hst as (_ & _ & -> & _). done. }
  assert (Hd : s_ctx_done s = true) by (unfold s_ctx_done; by rewrite Ho, orb_true_r).
  destruct (body_step e true b) as [[[b1 eff]| |]|] eqn:Hb; try done.
  destruct (announced_step _ _ _ _ _ Hb) as [_ Hn].
  assert (Hstep : service_step (BodyStep e) s = Some match eff with
    | Quiet => Ok (with_start (SBody b1) s)
    | CloseReady => Ok (MkService (s_parent s) (s_own s) (s_cancel s) (s_done s) true (s_fields s) (SBody b1)
                                 (s_hook s) (s_cleanup s) (w_watching s) (w_ready s))
    | Leave res => Ok (with_start (SClosing res) s) end).
  { simpl. unfold service_body_step. rewrite Hs, Hd, Hb, Hf. destruct eff; try done.
    specialize (Hn eq_refl). pose proof (so_start s Hok) as Hst. unfold start_ok in Hst. rewrite Hs in Hst.
    destruct Hst as (_ & _ & _ & ->). by rewrite Hn. }
  destruct eff as [| |res'].
  - pose proof (service_runs_event _ _ _ Hstep) as Hr.
    destruct (IH b1 (with_start (SBody b1) s)) as (s' & Hr' & ?); [by eapply service_step_ok|done..|].
    exists s'. split; [by eapply rtc_l|done].
  - pose proof (service_runs_event _ _ _ Hstep) as Hr.
    destruct (IH b1 _ (service_step_ok _ _ Hok Hr)) as (s' & Hr' & ?); [done..|].
    exists s'. split; [by eapply rtc_l|done].
  - pose proof (service_runs_event _ _ _ Hstep) as Hr. destruct es; [|done]. injection Hrun as -> ->.
    eexists. split; [by apply rtc_once|done].
Qed.
End Service.

Section Stopping.
Context {B : ServiceBody} {SB : StoppingBody B}.

(** Once [Cleanup] has cancelled, [Start] can run to its end by itself. *)
Lemma closing_ends s res :
  service_ok s → s_start s = SClosing res →
  ∃ s', rtc service_runs s s' ∧ s_start s' = SReturned res ∧ s_hook s' = s_hook s ∧ s_cleanup s' = s_cleanup s.
Proof.
  intros [Hs _ _ _] Hst. unfold start_ok in Hs. rewrite Hst in Hs. destruct s as [p o c d r f st h cl wa re]. simpl in *.
  destruct Hs as (_ & _ & ->). subst st.
  eexists. split; [do 2 (eapply rtc_l; [by apply start_runs|]); apply rtc_refl|]. by destruct res.
Qed.

Lemma start_can_end s :
  serving s → s_hook s = HDone → (s_own s = true ∨ s_done s = Some true) →
  ∃ s' res, rtc service_runs s s' ∧ s_start s' = SReturned res ∧ s_hook s' = HDone ∧ s_cleanup s' = s_cleanup s.
Proof.
  intros Hsv Hh Ho. pose proof (serving_ok s Hsv) as Hok. pose proof (so_start s Hok) as Hs. pose proof (so_hook s Hok Hh) as Hr.
  unfold start_ok in Hs. destruct (s_start s) as [| | |b|res|res|res] eqn:Hst; try (destruct_and?; congruence).
  - destruct Ho as [Ho|Ho]; [|destruct Hs as (_ & _ & Hd & _); congruence].
    destruct (can_leave b) as (es & b' & res & Hrun).
    destruct (body_runs es b s b' res Hok Hst Ho Hrun) as (s1 & Hr1 & Hs1 & _ & Hh1 & Hc1).
    destruct (closing_ends s1 res) as (s2 & Hr2 & Hs2 & Hh2 & Hc2); [by apply serving_ok, (serving_more s)|done|].
    exists s2, res. split; [by etrans|]. split; [done|]. split; congruence.
  - destruct (closing_ends s res Hok Hst) as (s2 & Hr2 & Hs2 & Hh2 & Hc2). exists s2, res. by rewrite Hh2.
  - eexists (default s (match start_step s with Some (Ok s') => Some s' | _ => None end)), res.
    unfold start_step. rewrite Hst. simpl. split; [apply rtc_once, start_runs; unfold start_step; by rewrite Hst|].
    by destruct res.
  - exists s, res. split; [apply rtc_refl|done].
Qed.

(** C36 A service that was started can be stopped from wherever it is: [Cleanup] and [Start] can both
    return, and no step of anybody else is needed. *)
Theorem service_can_stop s :
  serving s → s_hook s = HDone →
  ∃ s' res, rtc service_runs s s' ∧ s_cleanup s' = CReturned ∧ s_start s' = SReturned res.
Proof.
  intros Hsv Hh. destruct (cleanup_cancels s Hsv Hh) as (s1 & Hr1 & Hh1 & _ & Hc1).
  pose proof (serving_more _ _ Hsv Hr1) as Hsv1. pose proof (so_cleanup s1 (serving_ok s1 Hsv1)) as Hcl.
  destruct (start_can_end s1 Hsv1 Hh1) as (s2 & res & Hr2 & Hs2 & Hh2 & Hc2).
  { destruct Hc1 as [[? _]|[Hc|Hc]]; [by left|..]; rewrite Hc in Hcl; right; by apply Hcl. }
  pose proof (serving_more _ _ Hsv1 Hr2) as Hsv2. pose proof (so_start s2 (serving_ok s2 Hsv2)) as Hst.
  unfold start_ok in Hst. rewrite Hs2 in Hst. destruct Hst as (_ & _ & Hd).
  assert (Hend : ∃ s3, rtc service_runs s2 s3 ∧ s_cleanup s3 = CReturned ∧ s_start s3 = s_start s2).
  { destruct s2 as [p o c d r f st h cl wa re]. simpl in *. subst d cl. destruct Hc1 as [[_ ->]|[->| ->]].
    - eexists. split; [do 2 (eapply rtc_l; [by apply cleanup_runs|]); apply rtc_refl|done].
    - eexists. split; [do 1 (eapply rtc_l; [by apply cleanup_runs|]); apply rtc_refl|done].
    - eexists. split; [apply rtc_refl|done]. }
  destruct Hend as (s3 & Hr3 & Hc3 & Hs3). exists s3, res. split; [by do 2 (etrans; [eassumption|])|].
  split; [done|congruence].
Qed.

(** It runs until then: [Start] returns only when its context is done. *)
Definition asked (s : service) : Prop :=
  match s_start s with
  | SClosing _ | SCancelling _ | SReturned _ => s_ctx_done s = true
  | SBody b => leaving b = true → s_ctx_done s = true
  | _ => True
  end.
Lemma asked_step s s' : asked s → service_runs s s' → asked s'.
Proof.
  intros Ha Hst. revert Ha. destruct Hst as [ev s s' Hs]. unfold asked, s_ctx_done.
  destruct s as [p o c d r f st h cl wa re]. simpl. intros Ha.
  destruct ev; simpl in Hs.
  4: { unfold service_body_step in Hs. simpl in Hs. destruct st as [| | |b|res|res|res]; try done.
    destruct (body_step e _ b) as [[[b1 eff]| |]|] eqn:Hb; try done. destruct f; [|done].
    pose proof (leaves_when_asked _ _ _ _ _ Hb) as Hl. unfold s_ctx_done in Hl. simpl in Hl.
    destruct eff as [| |res]; [|destruct r; [done|]|]; simplify_eq/=; naive_solver. }
  all: unfold start_step, cleanup_step in Hs; simpl in Hs; repeat case_match;
    unfold with_start, with_done, with_own, with_parent, with_cleanup in *; simplify_eq/=; bool_props; subst;
    rewrite ?orb_true_r, ?leaving_start; naive_solver.
Qed.

Theorem runs_until_asked s res :
  serving s → s_start s = SReturned res → s_ctx_done s = true.
Proof.
  intros Hsv Hs. enough (Ha : asked s) by (unfold asked in Ha; by rewrite Hs in Ha).
  clear Hs res. revert s Hsv. apply (rtc_ind_r asked); [done|]. intros s1 s2 _ Hr Ha. by eapply asked_step.
Qed.
End Stopping.

(** ** The jobs on a timer *)

(** A cleanup or dead-letter service: it closes [ready]; it waits for the ticker or the end of its
    context; it runs its job, which is a tick of [Background] on the world as it is then. *)
Inductive job_pc := JReady | JSelect | JTick.
Inductive job_event := JStarted | JTicker | JTicked (te : tick_env) (w : world) | JDone.

Section Job.
Context (tick : tick_env → duration * world → outcome duration * world) (backoff : duration).

(** The body with the period of its ticker *)
Definition job_step (e : job_event) (ctx_done : bool) (b : job_pc * duration)
  : option (outcome (job_pc * duration * effect)) :=
  let '(pc, period) := b in
  match e, pc with
  | JStarted, JReady => Some (Ok (JSelect, period, CloseReady))
  | JTicker, JSelect => Some (Ok (JTick, period, Quiet))
  | JTicked te w, JTick =>
      Some match (tick te (period, w)).1 with
           | Ok period => Ok (JSelect, period, Quiet)
           | Err e => Err e
           | Panic m => Panic m
           end
  | JDone, JSelect => if ctx_done then Some (Ok (JSelect, period, Leave None)) else None
  | _, _ => None
  end.

Definition job_announced (b : job_pc * duration) : bool := match b.1 with JReady => false | _ => true end.

#[refine] Definition JobService : ServiceBody := {|
  body := job_pc * duration; body_event := job_event; body_start := (JReady, backoff);
  announced := job_announced; body_step := job_step |}.
Proof.
  - done.
  - intros e d [pc period] b' eff Hs. unfold job_announced.
    destruct e, pc; simpl in Hs; repeat case_match; simplify_eq/=; done.
Defined.

(** A tick that cannot begin its transaction leaves the service in order: for the services of
    [Background] because their fuzz is positive. *)
Context (w0 : world) (te0 : tick_env) (Htick : ∀ period, ∃ period', (tick te0 (period, w0)).1 = Ok period').

#[refine] Definition JobService_stopping : StoppingBody JobService := {| leaving := λ _, false |}.
Proof.
  - done.
  - intros e d [pc period] b' eff Hs He. destruct e, pc; simpl in Hs; repeat case_match; simplify_eq/=; try done; by right.
  - intros [pc period]. destruct pc.
    + by exists [JStarted; JDone], (JSelect, period), None.
    + by exists [JDone], (JSelect, period), None.
    + destruct (Htick period) as [period' Ht].
      exists [JTicked te0 w0; JDone], (JSelect, period'), None. simpl. by rewrite Ht.
Defined.
End Job.

Definition quiet_tick : tick_env := MkTick (Err ContextCanceled) (Ok ()) 0 0.

Section Jobs_stop.
Context {E : Engine} {FP : FilterParser} {F : Float64}.

Definition PruneService (s : PruneCommonSettings) (execute : time → Tx nat) : ServiceBody :=
  JobService (prune_tick s execute) (pcs_Backoff s).
Definition DeadLetterService (s : DeadLetterSettings) : ServiceBody :=
  JobService (deadletter_tick s) (dls_Backoff s).

#[export] Instance PruneService_stopping s execute :
  TCEq (pcs_Fuzz s <=? 0) false → StoppingBody (PruneService s execute).
Proof.
  intros Hf%TCEq_eq. apply (JobService_stopping _ _ (MkWorld empty_db empty_registry 0) quiet_tick).
  intros period. simpl. unfold next_period, fuzzed. rewrite Hf. by eexists.
Qed.
#[export] Instance DeadLetterService_stopping s :
  TCEq (dls_Fuzz s <=? 0) false → TCEq (dls_MaxDeliveries s <? 1) false → StoppingBody (DeadLetterService s).
Proof.
  intros Hf%TCEq_eq Hm%TCEq_eq. apply (JobService_stopping _ _ (MkWorld empty_db empty_registry 0) quiet_tick).
  intros period. unfold deadletter_tick, NewDeadLetterDeliveries. rewrite Hm. simpl. unfold next_period, fuzzed.
  rewrite Hf. by eexists.
Qed.
End Jobs_stop.

(** ** The pushers *)

Section Pusher.
Context {E : Engine}.

(** [monitorSubs]: a round of [startPushersOnce]; the second before the next try; waiting in
    [waitPusherMonitors]; [Start] waiting for the pushers that are left, with the first error. *)
Inductive pusher_pc := MRound | MRetry | MWait | MDrain (left_ : gset uuid) (err : option error).
Inductive pusher_event :=
  | MStarted (begun committed : outcome ()) (w : world)
  | MRetryOver
  | MWoken
  | MDone
  | MPusherEnds (id : uuid)
  | MDrained (id : uuid) (res : option error)
  | MAllDrained.

Record pusher_body := MkPusherBody { m_pc : pusher_pc; m_announced : bool; m_pushers : gmap uuid pusher }.

Definition pusher_step (e : pusher_event) (ctx_done : bool) (b : pusher_body) : option (outcome (pusher_body * effect)) :=
  let '(MkPusherBody pc ann ps) := b in
  match e, pc with
  | MStarted begun committed w, MRound =>
      Some match startPushersOnce ctx_done begun committed w ps with
           | (Ok _, _, ps) => Ok (MkPusherBody MWait true ps, if ann then Quiet else CloseReady)
           | (Err _, _, ps) => Ok (MkPusherBody MRetry ann ps, Quiet)
           | (Panic m, _, _) => Panic m
           end
  | MRetryOver, MRetry => Some (Ok (MkPusherBody MRound ann ps, Quiet))
  | MDone, (MRetry | MWait) =>
      if ctx_done then Some (Ok (MkPusherBody (MDrain (dom ps) None) ann ps, Quiet)) else None
  | MWoken, MWait => Some (Ok (MkPusherBody MRound ann ps, Quiet))
  | MPusherEnds id, _ => Some (Ok (MkPusherBody pc ann (alter cancel_pusher id ps), Quiet))
  | MDrained id res, MDrain left_ err =>
      if decide (id ∈ left_) then
        Some (Ok (MkPusherBody (MDrain (left_ ∖ {[id]}) (match err with None => res | _ => err end)) ann ps, Quiet))
      else None
  | MAllDrained, MDrain left_ err => if decide (left_ = ∅) then Some (Ok (b, Leave err)) else None
  | _, _ => None
  end.

#[refine] Definition PusherService : ServiceBody := {|
  body := pusher_body; body_event := pusher_event; body_start := MkPusherBody MRound false ∅;
  announced := m_announced; body_step := pusher_step |}.
Proof.
  - done.
  - intros e d [pc ann ps] b' eff Hs. simpl in Hs.
    destruct e, pc; simpl in Hs; repeat case_match; simplify_eq/=; try done; try (by destruct ann).
Defined.

#[export] Existing Instance PusherService.

Lemma drain_run left_ err ann ps :
  ∃ es b' res, body_run es (MkPusherBody (MDrain left_ err) ann ps) = Some (b', Some (Leave res)).
Proof.
  revert err. induction left_ as [|id left_ Hid IH] using set_ind_L; intros err.
  - exists [MAllDrained]. simpl. by eexists _, _.
  - destruct (IH err) as (es & b' & res & Hrun). exists (MDrained id None :: es), b', res. simpl.
    rewrite decide_True by set_solver. replace (({[id]} ∪ left_) ∖ {[id]}) with left_ by set_solver.
    by destruct err.
Qed.

(** The events [es] lead from [b] on with its context done, without leaving. *)
Lemma body_run_cons {B : ServiceBody} e b b1 eff :
  body_step e true b = Some (Ok (b1, eff)) → (∀ res, eff ≠ Leave res) →
  (∃ es b' res, body_run es b1 = Some (b', Some (Leave res))) →
  ∃ es b' res, body_run es b = Some (b', Some (Leave res)).
Proof.
  intros Hs He (es & b' & res & Hrun). exists (e :: es), b', res. simpl. rewrite Hs. by destruct eff; [..|by destruct (He res0)].
Qed.

#[refine, export] Instance PusherService_stopping : StoppingBody PusherService :=
  {| leaving := λ b, match m_pc b with MDrain _ _ => true | _ => false end |}.
Proof.
  - done.
  - intros e d [pc ann ps] b' eff Hs He. destruct e, pc; simpl in Hs; repeat case_match; simplify_eq/=; auto.
  - intros [pc ann ps]. assert (Hwait : ∃ es b' res, body_run es (MkPusherBody MWait ann ps) = Some (b', Some (Leave res))).
    { apply (body_run_cons (B := PusherService) MDone _ (MkPusherBody (MDrain (dom ps) None) ann ps) Quiet); [done..|]. apply drain_run. }
    destruct pc as [| | |left_ err].
    + apply (body_run_cons (B := PusherService) (MStarted (Ok ()) (Ok ()) (MkWorld empty_db empty_registry 0)) _ (MkPusherBody MWait true ps)
        (if ann then Quiet else CloseReady)); [done|by destruct ann|].
      apply (body_run_cons (B := PusherService) MDone _ (MkPusherBody (MDrain (dom ps) None) true ps) Quiet); [done..|]. apply drain_run.
    + apply (body_run_cons (B := PusherService) MDone _ (MkPusherBody (MDrain (dom ps) None) ann ps) Quiet); [done..|]. apply drain_run.
    + exact Hwait.
    + apply drain_run.
Defined.
End Pusher.

(** ** The notifier *)

Section Notifier.
Context {U : UuidText} (postgres : bool).

(** [NBegin]: the dialect is looked at; [NNone]: not PostgreSQL, [ready] is closed; [NRunning]: the
    loop that listens and the one that sends run, [queue] says whether the second still does. *)
Inductive notifier_body := NBegin | NNone | NRunning (l : lstate) (queue ann : bool).
Inductive notifier_event := NStart | NListen (ev : event) | NQueueDone | NEnd.

(** The listener sees that the context is done by the event [Cancel]. *)
Definition notifier_step (e : notifier_event) (d : bool) (b : notifier_body) : option (outcome (notifier_body * effect)) :=
  match e, b with
  | NStart, NBegin =>
      Some (Ok (if postgres then (NRunning listener_start true false, Quiet) else (NNone, CloseReady)))
  | NEnd, NNone => Some (Ok (NNone, Leave None))
  | NListen ev, NRunning l queue ann =>
      match ev, d with
      | Cancel, false => None
      | _, _ =>
          match listen_step ev l with
          | Some l' =>
              Some (Ok match ev with
                       | Connected None => (NRunning l' queue true, if ann then Quiet else CloseReady)
                       | _ => (NRunning l' queue ann, Quiet)
                       end)
          | None => None
          end
      end
  | NQueueDone, NRunning l true ann => if d then Some (Ok (NRunning l false ann, Quiet)) else None
  | NEnd, NRunning l false ann =>
      match at_ l with Ended => Some (Ok (b, Leave None)) | _ => None end
  | _, _ => None
  end.

Definition notifier_announced (b : notifier_body) : bool :=
  match b with NBegin => false | NNone => true | NRunning _ _ ann => ann end.

#[refine] Definition NotifierService : ServiceBody := {|
  body := notifier_body; body_event := notifier_event; body_start := NBegin;
  announced := notifier_announced; body_step := notifier_step |}.
Proof.
  - done.
  - intros e d b b' eff Hs. unfold notifier_step in Hs. repeat case_match; simplify_eq/=; try done; by destruct ann.
Defined.

(** The listener's hang of [listener_hangs]: the loop has left and the reader cannot send. *)
Definition hung (s : service (B := NotifierService)) : Prop :=
  match s_start s with
  | SBody (NRunning l _ _) => ∃ n m, at_ l = Running (Sending n) [m] Broken
  | _ => False
  end.

Lemma hung_step s s' : service_ok s → hung s → service_runs s s' → hung s'.
Proof.
  intros [Hok _ _ _] Hh Hst. revert Hok Hh. destruct Hst as [ev s s' Hs]. unfold hung, start_ok.
  destruct s as [p o c d r f st h cl wa re]. simpl. intros Hok Hh.
  destruct st as [| | |b|res|res|res]; try done. destruct b as [| |l queue ann]; try done. destruct Hh as (n & m & Hl), Hok as [Hn _].
  destruct ev; simpl in Hs.
  4: { unfold service_body_step in Hs. simpl in Hs. destruct e as [|ev| |]; simpl in Hs; [done| |by repeat case_match; simplify_eq/=; eauto|].
    - assert (Hev : ev ≠ Cancel → listen_step ev l = None).
      { intros He. unfold listen_step. rewrite Hl. by destruct ev as [|[]| | | | | | | |]. }
      assert (Hc : ev = Cancel ∨ ev ≠ Cancel) by (destruct ev; auto). destruct Hc as [->|Hne].
      + unfold s_ctx_done in Hs. simpl in Hs. destruct (p || o), f; simplify_eq/=; eauto.
      + rewrite Hev in Hs by done. destruct ev; repeat case_match; done.
    - rewrite Hl in Hs. by destruct queue. }
  all: unfold cleanup_step in Hs; simpl in Hs; repeat case_match;
    unfold with_start, with_done, with_own, with_parent, with_cleanup in *; simplify_eq/=; eauto.
Qed.

(** If the listener hangs, [Cleanup] never returns, and with it the stopping of the process. *)
Theorem notifier_cleanup_hangs s s' :
  serving s → hung s → rtc service_runs s s' → hung s' ∧ s_cleanup s' ≠ CReturned.
Proof.
  intros Hsv Hh Hr. assert (Hh' : hung s').
  { revert Hsv Hh. induction Hr as [|s s1 s2 H1 _ IH]; [done|]. intros Hsv Hh.
    apply IH; [eapply serving_more; [exact Hsv|by apply rtc_once]|by eapply hung_step; [apply serving_ok|..]]. }
  split; [exact Hh'|]. destruct (serving_ok s') as [Hs _ _ Hc]; [by eapply serving_more|].
  unfold hung, start_ok in *. destruct (s_start s') as [| | |b| | |]; try done.
  intros Hcl. rewrite Hcl in Hc. destruct Hs as (Hn & _ & Hd & _), Hc as [Hw Hdone].
  destruct (s_hook s'); try done. specialize (Hdone eq_refl). congruence.
Qed.
End Notifier.

(** ** Witnesses *)

Fixpoint service_run {B : ServiceBody} (evs : list service_event) (s : service) : option service :=
  match evs with
  | [] => Some s
  | ev :: evs => match service_step ev s with Some (Ok s) => service_run evs s | _ => None end
  end.
Lemma service_run_runs {B : ServiceBody} evs s s' : service_run evs s = Some s' → rtc service_runs s s'.
Proof.
  revert s. induction evs as [|ev evs IH]; intros s; simpl; [by intros [= ->]|].
  destruct (service_step ev s) as [[s1| |]|] eqn:Hs; try done. intros Hr. eapply rtc_l; [by econstructor|by apply IH].
Qed.

(** A cleanup service with its defaults *)
Definition demo_prune : ServiceBody :=
  PruneService (prune_ApplyDefaults (MkPruneSettings 0 0 0 0 0))
    (PruneCompletedMessages_Execute (E := id_engine) (MkPrune Hour 100)).
Definition demo_prune_stopping : StoppingBody demo_prune :=
  PruneService_stopping (prune_ApplyDefaults (MkPruneSettings 0 0 0 0 0)) _ (TCEq_refl _).
Definition job (e : job_event) : service_event (B := demo_prune) := BodyStep (e : body_event (ServiceBody := demo_prune)).
(** It is started, works on a tick, and is cleaned up when its context is seen to be done. *)
Definition demo_service : list (service_event (B := demo_prune)) :=
  [HookRuns; StartStep; StartStep; job JStarted; HookReady; WatchReady; job JTicker].
Definition demo_cleanup : list (service_event (B := demo_prune)) :=
  demo_service ++ [CleanupStep; CleanupStep; CleanupStep; job (JTicked quiet_tick (MkWorld empty_db empty_registry 0));
    job JDone; StartStep; CleanupStep; CleanupStep].

Lemma ran_to {B : ServiceBody} evs (P : service → bool) :
  match service_run evs initialized with Some s => P s | None => false end = true → ∃ s, serving s ∧ P s = true.
Proof.
  destruct (service_run evs initialized) as [s|] eqn:H; [|done]. intros Hp. exists s. split; [|done].
  exact (service_run_runs _ _ _ H).
Qed.

Definition cleaned_up {B : ServiceBody} (s : service) : bool :=
  match s_cleanup s, s_hook s, w_ready s with CReturned, HDone, true => true | _, _, _ => false end.

Lemma cleanup_waits_for_start_witness :
  ∃ s : service (B := demo_prune), serving s ∧ s_cleanup s = CReturned ∧ start_over s ∧ s_ready s = true ∧
    ∀ msg, service_step StartStep s ≠ Some (Panic msg).
Proof.
  destruct (ran_to demo_cleanup cleaned_up ltac:(vm_compute; reflexivity)) as (s & Hs & Hc).
  unfold cleaned_up in Hc. destruct (s_cleanup s) eqn:Hcl; try discriminate Hc.
  destruct (s_hook s) eqn:Hh; try discriminate Hc. destruct (w_ready s) eqn:Hr; try discriminate Hc.
  destruct (cleanup_waits_for_start s Hs) as (H1 & _ & H3 & H4).
  exists s. split; [exact Hs|]. split; [exact Hcl|]. split; [exact (H1 Hcl Hh)|].
  split; [apply H4; unfold Ready; rewrite Hr; reflexivity|].
  intros msg Hm. destruct (H3 _ _ Hm) as (e & b & He & _). discriminate He.
Defined.

Definition hook_done {B : ServiceBody} (s : service) : bool := match s_hook s with HDone => true | _ => false end.

Lemma service_can_stop_witness :
  ∃ s s' : service (B := demo_prune), serving s ∧ s_hook s = HDone ∧ rtc service_runs s s' ∧ s_cleanup s' = CReturned ∧
    ∃ res, s_start s' = SReturned res.
Proof.
  destruct (ran_to demo_service hook_done ltac:(vm_compute; reflexivity)) as (s & Hs & Hc).
  unfold hook_done in Hc. destruct (s_hook s) eqn:Hh; try discriminate Hc.
  destruct (service_can_stop (SB := demo_prune_stopping) s Hs Hh) as (s' & res & Hr & Hcl & Hst).
  exists s, s'. split; [exact Hs|]. split; [exact Hh|]. split; [exact Hr|]. split; [exact Hcl|]. exists res. exact Hst.
Defined.

(** A notifier is started, three notifications arrive, [Cleanup] is called, the loop leaves. *)
Definition demo_notifier : ServiceBody := NotifierService (U := bits_text) true.
Definition listens (es : list event) : list (service_event (B := demo_notifier)) :=
  (λ ev, BodyStep (NListen ev : body_event (ServiceBody := demo_notifier))) <$> es.
Definition demo_started : list (service_event (B := demo_notifier)) :=
  [HookRuns; StartStep; StartStep; BodyStep (NStart : body_event (ServiceBody := demo_notifier))] ++
  listens (take 1 demo_events) ++ [HookReady; WatchReady].
Definition demo_stopped : list (service_event (B := demo_notifier)) :=
  demo_started ++ listens (take 6 (drop 1 demo_events)) ++ [CleanupStep; CleanupStep; CleanupStep] ++
  listens (drop 7 demo_events).

Definition is_hung (s : service (B := demo_notifier)) : bool :=
  match s_start s, s_hook s, s_cleanup s with
  | SBody (NRunning l _ _), HDone, CWaiting =>
      match at_ l with Running (Sending _) [_] Broken => w_ready s | _ => false end
  | _, _, _ => false
  end.

(** The hang is reached by a service that was started and is being stopped. *)
Lemma hung_reached :
  ∃ s : service (B := demo_notifier),
    serving s ∧ hung (U := bits_text) true s ∧ s_hook s = HDone ∧ s_cleanup s = CWaiting ∧ Ready s = Ok ().
Proof.
  destruct (ran_to demo_stopped is_hung ltac:(vm_compute; reflexivity)) as (s & Hs & Ht).
  exists s. split; [done|]. unfold is_hung in Ht. repeat case_match; try done. simplify_eq.
  unfold hung, Ready, demo_notifier in *. rewrite H, Ht, H3. split; [by eexists _, _|done].
Qed.

(** ** A start that is not waited out *)

(** If [Start] returns before it has closed [ready], the start hook never returns. *)
Lemma start_hook_waits {B : ServiceBody} s s' res :
  serving s → s_hook s = HWaiting → s_ready s = false → s_start s = SReturned res → rtc service_runs s s' →
  s_hook s' = HWaiting.
Proof.
  intros _ Hh Hr Hs Hrun. enough (s_hook s' = HWaiting ∧ s_ready s' = false ∧ s_start s' = SReturned res) by tauto.
  assert (H0 : s_hook s = HWaiting ∧ s_ready s = false ∧ s_start s = SReturned res) by done. clear Hh Hr Hs. revert H0.
  induction Hrun as [|s1 s2 s3 Hst _ IH]; [done|]. intros (Hh & Hr & Hs). apply IH. clear IH. revert Hh Hr Hs.
  destruct Hst as [ev s1 s2 Hst]. destruct s1 as [p o c d r f st h cl wa re]. simpl. intros -> -> ->.
  destruct ev; simpl in Hst; unfold start_step, service_body_step, cleanup_step in Hst; simpl in Hst;
    repeat case_match; unfold with_cleanup, with_parent, with_own in *; by simplify_eq/=.
Qed.

(** It happens to the pushers when the first round fails and the process ends before the next. *)
Definition demo_pushers : ServiceBody := PusherService (E := id_engine).
Definition pushes (es : list pusher_event) : list (service_event (B := demo_pushers)) :=
  (λ e, BodyStep (e : body_event (ServiceBody := demo_pushers))) <$> es.
Definition demo_pusher : list (service_event (B := demo_pushers)) :=
  [HookRuns; StartStep; StartStep] ++
  pushes [MStarted (Err ContextCanceled) (Ok ()) (MkWorld empty_db empty_registry 0)] ++ [ParentDone] ++
  pushes [MDone; MAllDrained] ++ [StartStep; StartStep].
Definition stays_out {B : ServiceBody} (s : service) : bool :=
  match s_hook s, s_ready s, s_start s with HWaiting, false, SReturned _ => true | _, _, _ => false end.
Lemma pusher_hook_waits :
  ∃ s : service (B := demo_pushers), serving s ∧ ∀ s', rtc service_runs s s' → s_hook s' = HWaiting.
Proof.
  destruct (ran_to demo_pusher stays_out ltac:(vm_compute; reflexivity)) as (s & Hs & Ht).
  exists s. split; [done|]. intros s'. unfold stays_out in Ht. repeat case_match; try done.
  by eapply start_hook_waits.
Qed.
