(* ===== verification/Streamer.v ===== *)
(** * Streaming messages

    [src/actions/message-streamer.go] and [flow-control.go].  [Go] starts five goroutines: one
    reads the client's requests, one fetches and sends messages, one refreshes the in-memory
    state from the database, one delays what the client still works on (unless
    [AutomaticNack]), and one closes the connection when the context is done.  They share the
    flow control, the map of outstanding messages (both under a mutex), the one-place channel
    [wakeSend] and the context.

    A goroutine is a program counter; [..._step] makes its next step: one locked section, one
    transaction, one channel operation or one call of the connection.  Steps of different
    goroutines, of other users of the world and the cancellation of the context interleave
    freely ([step]).  The connection, the clock and the database's answers are the [input] of
    a step. *)

From S2P Require Import Prelude Uuid Filter FilterParse Schema Backoff Notify Store Example Deliver.
From S2P Require Import Ack Receive.

(** ** Data *)

Record FlowControl := MkFC { MaxMessages : Z; MaxBytes : Z }.

Record pendingMessage := MkPending { pm_bytes : Z; pm_nextAttemptAt : time }.

Section Data.
Context {F : Float64}.
Record MessageStreamRequest := MkRequest {
  rq_FlowControl : option FlowControl; rq_Ack : list uuid; rq_Nack : list uuid;
  rq_Delay : list uuid; rq_DelaySeconds : flt }.

(** [time.Duration(msg.DelaySeconds*float64(time.Second))] *)
Definition rq_delay (msg : MessageStreamRequest) : duration :=
  f_trunc (f_mul (rq_DelaySeconds msg) (f_ofZ Second)).
End Data.

Record MessageStreamer := MkStreamer {
  ms_SubscriptionID : uuid; ms_SubscriptionName : string; ms_AutomaticNack : bool;
  ms_batch : bool (** the connection implements [StreamConnectionBatchSend] *) }.

(** What the goroutines share.  [granted] is a history variable: the flow control the sender
    last found room in. *)
Record shared := MkShared {
  fc : FlowControl; pending : gmap uuid pendingMessage; wakeSend : bool; done : bool;
  failure : option error; granted : FlowControl }.

Definition set_fc x m := MkShared x (pending m) (wakeSend m) (done m) (failure m) (granted m).
Definition set_pending x m := MkShared (fc m) x (wakeSend m) (done m) (failure m) (granted m).
Definition set_wake x m := MkShared (fc m) (pending m) x (done m) (failure m) (granted m).
Definition set_granted x m := MkShared (fc m) (pending m) (wakeSend m) (done m) (failure m) x.
Definition cancel m := MkShared (fc m) (pending m) (wakeSend m) true (failure m) (granted m).
(** A goroutine of the group returns an error: the first one is kept, the context is cancelled. *)
Definition group_error e m := MkShared (fc m) (pending m) (wakeSend m) true
  (match failure m with None => Some e | o => o end) (granted m).

(** [tryWake] *)
Definition tryWake (m : shared) : shared := set_wake true m.

(** Before any message, the most conservative flow control. *)
Definition initial_shared : shared := MkShared (MkFC 1 1) ∅ false false None (MkFC 1 1).

Definition pending_bytes (m : gmap uuid pendingMessage) : Z :=
  list_sum ((λ kp : uuid * pendingMessage, pm_bytes kp.2) <$> map_to_list m).

(** The loop over [pending]: what is left of the limits. *)
Definition remaining (m : shared) : FlowControl :=
  MkFC (MaxMessages (fc m) - Z.of_nat (size (pending m))) (MaxBytes (fc m) - pending_bytes (pending m)).
Definition has_room (c : FlowControl) : bool := (0 <? MaxBytes c) && (0 <? MaxMessages c).

(** ** Program counters *)

(** The outcome of a step: not enabled, a panic (which ends the process), or the next state. *)
Inductive move (P : Type) :=
  | Blocked | Crashed (msg : string) | Moves (w : world) (m : shared) (pc : P).
Arguments Blocked {P}.
Arguments Crashed {P} msg.
Arguments Moves {P} w m pc.

Section Machine.
Context {E : Engine} {FP : FilterParser} {F : Float64}.
Context (ms : MessageStreamer).

Inductive reader_pc :=
  | RTop | RReceive | RFlow (msg : MessageStreamRequest) | RAcks (msg : MessageStreamRequest)
  | RForget (msg : MessageStreamRequest) | RDelay (msg : MessageStreamRequest) | RExit.

(** The sender's [anyPending] lives through the inner loop. *)
Inductive sender_pc :=
  | SStart
  | SCheck (pubNotify : chan) (anyPending : bool)
  | SLook (pubNotify : chan) (anyPending : bool)
  | SWait (pubNotify : chan) (anyPending : bool)
  | SFirst (pubNotify : chan) (p : GetSubscriptionMessagesParams)
  | SRound (pubNotify : chan) (p : GetSubscriptionMessagesParams) (id : uuid) (old : option chan)
  | SStore (pubNotify : chan) (p : GetSubscriptionMessagesParams) (r : list SubscriptionMessageDelivery)
  | SSend (pubNotify : chan) (r : list SubscriptionMessageDelivery)
  | SExit.

Inductive refresher_pc :=
  | FStart | FWait (pubNotify : chan) | FList (pubNotify : chan)
  | FQuery (pubNotify : chan) (now : time) (ids : list uuid)
  | FUpdate (pubNotify : chan) (ids : list uuid) (found : list delivery)
  | FWake (pubNotify : chan) | FExit.

Inductive delayer_pc :=
  | DStart | DTick (delayAmount checkInterval : duration)
  | DScan (delayAmount checkInterval : duration)
  | DDelay (delayAmount checkInterval : duration) (now : time) (ids : list uuid)
  | DUpdate (delayAmount checkInterval : duration) (now : time) (ids : list uuid) | DExit.

Inductive closer_pc := CWait | CClose | CWake | CExit.

(** What a step reads from its surroundings: clocks, whether a transaction begins and commits,
    what the connection returns, which branch a [select] with several ready ones takes. *)
Record input := MkInput {
  i_now : time; i_now2 : time; i_begun : outcome (); i_commit : outcome (); i_io : outcome ();
  i_other : bool; i_msg : MessageStreamRequest; i_round : round }.

(** A step that ends in the result of a call: an error ends the goroutine. *)
Definition after {A P} (exit : P) (m : shared) (r : outcome A * world) (k : A → world → move P) : move P :=
  match r with
  | (Ok a, w) => k a w
  | (Err e, w) => Moves w (group_error e m) exit
  | (Panic s, _) => Crashed s
  end.

(** [BeginTx] may fail. *)
Definition begin_tx {A} (begun : outcome ()) (tx : world → outcome A * world) (w : world)
  : outcome A * world :=
  match begun with Ok _ => tx w | Err e => (Err e, w) | Panic s => (Panic s, w) end.
(** A call that only reads, or only does I/O. *)
Definition call (o : outcome ()) (w : world) : outcome () * world := (o, w).

(** [doAcksNacks] *)
Definition doAcksNacks (ack nack : list uuid) (i : input) (w : world) : outcome () * world :=
  begin_tx (i_begun i) (DoTx (i_commit i) (AckNack ack nack (i_now i) (i_now2 i))) w.

(** [doDelay] *)
Definition doDelay (ids : list uuid) (delay : duration) (i : input) (w : world) : outcome () * world :=
  match ids with
  | [] => (Ok (), w)
  | _ => begin_tx (i_begun i) (DoTx (i_commit i)
           (DelayDeliveries_Execute ids delay (i_now i) ≫= λ _, mret ())) w
  end.

Definition forget_ids (ids : list uuid) (m : gmap uuid pendingMessage) : gmap uuid pendingMessage :=
  foldr delete m ids.

(** The message reader. *)
Definition reader_step (i : input) (w : world) (m : shared) (pc : reader_pc) : move reader_pc :=
  match pc with
  | RTop => if done m then Moves w (tryWake m) RExit else Moves w m RReceive
  | RReceive => after RExit m (call (i_io i) w) (λ _ w, Moves w m (RFlow (i_msg i)))
  | RFlow msg =>
      Moves w (match rq_FlowControl msg with Some c => tryWake (set_fc c m) | None => m end) (RAcks msg)
  | RAcks msg =>
      match rq_Ack msg, rq_Nack msg with
      | [], [] => Moves w m (RDelay msg)
      | ack, nack => after RExit m (doAcksNacks ack nack i w) (λ _ w, Moves w m (RForget msg))
      end
  | RForget msg =>
      Moves w (tryWake (set_pending (forget_ids (rq_Nack msg) (forget_ids (rq_Ack msg) (pending m))) m))
        (RDelay msg)
  | RDelay msg =>
      match rq_Delay msg with
      | [] => Moves w m RTop
      | ids => after RExit m (doDelay ids (rq_delay msg) i w) (λ _ w, Moves w m RTop)
      end
  | RExit => Blocked
  end.

Definition await (w : world) : outcome (chan * world) := renew_awaiter (ms_SubscriptionID ms) None w.
(** The deferred [CancelPublishAwaiter] of the sender. *)
Definition sender_call {A} (c : chan) (m : shared) (r : outcome A * world)
    (k : A → world → move sender_pc) : move sender_pc :=
  match r with
  | (Err e, w) => Moves (cancel_awaiter (ms_SubscriptionID ms) (Some c) w) (group_error e m) SExit
  | _ => after SExit m r k
  end.
(** [pubNotify = PublishAwaiter(id)] *)
Definition with_awaiter {P} (w : world) (m : shared) (k : chan → P) : move P :=
  match await w with
  | Ok (c, w) => Moves w m (k c)
  | Err e => Crashed "unreachable"
  | Panic s => Crashed s
  end.
Definition notified (c : chan) (w : world) : bool := bool_decide (c ∈ closed (w_reg w)).

Definition add_pending (l : list SubscriptionMessageDelivery) (m : gmap uuid pendingMessage)
  : gmap uuid pendingMessage :=
  foldl (λ m del, <[smd_ID del := MkPending (Z.of_nat (String.length (smd_Payload del)))
                                    (smd_NextAttemptAt del)]> m) m l.

(** The parameters of the fetch, capped at 100 messages. *)
Definition fetch_params (curFc : FlowControl) (anyPending : bool) : GetSubscriptionMessagesParams :=
  MkGet (ms_SubscriptionName ms) (Some (ms_SubscriptionID ms)) (Z.min 100 (MaxMessages curFc))
    (MaxBytes curFc) anyPending 0.

(** The first transaction of [ExecuteClient], tried again after a deadlock; the id it binds is
    the one the parameters have. *)
Definition first_step (i : input) (w : world) (m : shared) (c : chan) (p : GetSubscriptionMessagesParams)
  : move sender_pc :=
  let r := begin_tx (i_begun i) (DoTx (i_commit i) (first_tx p (i_now i))) w in
  let go_on := sender_call c m r (λ id w, Moves w m (SRound c (with_id id p) id None)) in
  match i_begun i, r.1 with
  | Ok _, Err e => if is_deadlock e then Moves r.2 m (SFirst c p) else go_on
  | _, _ => go_on
  end.

(** The message retriever and sender. *)
Definition sender_step (i : input) (w : world) (m : shared) (pc : sender_pc) : move sender_pc :=
  match pc with
  | SStart => with_awaiter w m (λ c, SCheck c false)
  | SCheck c anyPending =>
      if done m then Moves (cancel_awaiter (ms_SubscriptionID ms) (Some c) w) m SExit
      else Moves w m (SLook c anyPending)
  | SLook c anyPending =>
      let anyPending := anyPending || negb (bool_decide (pending m = ∅)) in
      let curFc := remaining m in
      if has_room curFc then
        match NewGetSubscriptionMessages (fetch_params curFc anyPending) with
        | Ok p => Moves w (set_granted (fc m) m) (SFirst c p)
        | Err e => Crashed "unreachable"
        | Panic s => Crashed s
        end
      else Moves w m (SWait c anyPending)
  | SWait c anyPending =>
      if i_other i then
        if notified c w then with_awaiter w m (λ c, SCheck c anyPending) else Blocked
      else if wakeSend m then Moves w (set_wake false m) (SCheck c anyPending) else Blocked
  | SFirst c p =>
      first_step i w m c p
  | SRound c p id old =>
      if match r_select (i_round i) with ContextDone _ => negb (done m) | _ => false end then Blocked
      else
        match begin_tx (i_begun i) (λ w,
          match execute_round p id old (i_round i) w with Some (r, w) => (Ok (Some r), w) | None => (Ok None, w) end) w with
        | (Ok None, _) => Blocked
        | (Ok (Some (inr c')), w) => Moves w m (SRound c p id (Some c'))
        | (Ok (Some (inl res)), w) => sender_call c m (res, w) (λ r w, Moves w m (SStore c p (Deliveries r)))
        | (Err e, w) => sender_call c m (Err e : outcome (), cancel_awaiter id old w) (λ _ _, Blocked)
        | (Panic s, _) => Crashed s
        end
  | SStore c p l =>
      Moves w (set_pending (add_pending l (pending m)) m)
        (match l with [] => SCheck c false | _ => SSend c l end)
  | SSend c l =>
      sender_call c m (call (i_io i) w) (λ _ w,
        Moves w m (match (if ms_batch ms then [] else tail l) with [] => SCheck c false | l => SSend c l end))
  | SExit => Blocked
  end.

(** One id of the loop that rebuilds [pending] from the database. *)
Definition refresh_one (found : list delivery) (m : gmap uuid pendingMessage) (id : uuid)
  : gmap uuid pendingMessage :=
  match list_find (λ e, d_id e = id) found with
  | None => delete id m
  | Some (_, e) => alter (λ p, MkPending (pm_bytes p) (Z.max (pm_nextAttemptAt p) (d_attemptAt e))) id m
  end.

Definition still_pending (ids : list uuid) (now : time) (e : delivery) : Prop :=
  d_id e ∈ ids ∧ d_completedAt e = None ∧ now ≤ d_expiresAt e.
#[export] Instance still_pending_dec ids now e : Decision (still_pending ids now e).
Proof. unfold still_pending. apply _. Defined.

(** Refresh [pending] from the database when a notification arrives. *)
Definition refresher_step (i : input) (w : world) (m : shared) (pc : refresher_pc) : move refresher_pc :=
  match pc with
  | FStart => with_awaiter w m FWait
  | FWait c =>
      if i_other i then if done m then Moves w m FExit else Blocked
      else if notified c w then with_awaiter w m FList else Blocked
  | FList c =>
      match (map_to_list (pending m)).*1 with
      | [] => Moves w m (FWait c)
      | ids => Moves w m (FQuery c (i_now i) ids)
      end
  | FQuery c now ids =>
      after FExit m (call (i_io i) w) (λ _ w,
        Moves w m (FUpdate c ids (rows_where (still_pending ids now) (w_db w))))
  | FUpdate c ids found =>
      Moves w (set_pending (foldl (refresh_one found) (pending m) ids) m)
        (if bool_decide (Forall (λ id, id ∈ d_id <$> found) ids) then FWait c else FWake c)
  | FWake c => Moves w (tryWake m) (FWait c)
  | FExit => Blocked
  end.

(** The amount and the interval of the automatic delays; [time.NewTicker] panics on an
    interval that is not positive. *)
Definition auto_delay (minBackoff : option duration) : outcome (duration * duration) :=
  let delayAmount := Z.quot (default defaultMinDelay minBackoff) 2 in
  let checkInterval := Z.quot (int64_wrap (delayAmount * 9)) 10 in
  let delayAmount := if delayAmount <? Second then Second else delayAmount in
  if checkInterval <=? 0 then Panic "non-positive interval for NewTicker"
  else Ok (delayAmount, checkInterval).

(** Delay what the client is still working on before it is due again. *)
Definition delayer_step (i : input) (w : world) (m : shared) (pc : delayer_pc) : move delayer_pc :=
  match pc with
  | DStart =>
      after DExit m (begin_tx (i_io i)
        (λ w, (only (rows_where (λ s, s_id s = ms_SubscriptionID ms) (w_db w)), w)) w) (λ s w,
      after DExit m (auto_delay (s_minBackoff s), w) (λ dc w, Moves w m (DTick dc.1 dc.2)))
  | DTick delay check =>
      if i_other i then if done m then Moves w m DExit else Blocked
      else Moves w m (DScan delay check)
  | DScan delay check =>
      match (filter (λ kp : uuid * pendingMessage, pm_nextAttemptAt kp.2 < i_now i + check)
               (map_to_list (pending m))).*1 with
      | [] => Moves w m (DTick delay check)
      | ids => Moves w m (DDelay delay check (i_now i) ids)
      end
  | DDelay delay check now ids =>
      after DExit m (doDelay ids delay i w) (λ _ w, Moves w m (DUpdate delay check now ids))
  | DUpdate delay check now ids =>
      Moves w (set_pending (foldr (alter (λ p, MkPending (pm_bytes p)
                 (Z.max (pm_nextAttemptAt p) (now + delay)))) (pending m) ids) m) (DTick delay check)
  | DExit => Blocked
  end.

(** Close the connection when the context is done. *)
Definition closer_step (w : world) (m : shared) (pc : closer_pc) : move closer_pc :=
  match pc with
  | CWait => if done m then Moves w m CClose else Blocked
  | CClose => Moves w m CWake
  | CWake => Moves w (tryWake m) CExit
  | CExit => Blocked
  end.

(** ** All goroutines together *)

Record stream := MkStream {
  st_world : world; st_mem : shared; st_reader : reader_pc; st_sender : sender_pc;
  st_refresher : refresher_pc; st_delayer : delayer_pc; st_closer : closer_pc }.

Definition initial_stream (w : world) : stream :=
  MkStream w initial_shared RTop SStart FStart (if ms_AutomaticNack ms then DExit else DStart) CWait.

Inductive event :=
  | Reader (i : input) | Sender (i : input) | Refresher (i : input) | Delayer (i : input) | Closer
  | Others (f : world → world) | CancelCtx.

(** [inl]: the process crashed; [None]: the step is not enabled. *)
Definition moved {P} (mv : move P) (k : world → shared → P → stream) : option (string + stream) :=
  match mv with Blocked => None | Crashed s => Some (inl s) | Moves w m pc => Some (inr (k w m pc)) end.

Definition step (ev : event) (st : stream) : option (string + stream) :=
  let '(MkStream w m r s f d c) := st in
  match ev with
  | Reader i => moved (reader_step i w m r) (λ w m r, MkStream w m r s f d c)
  | Sender i => moved (sender_step i w m s) (λ w m s, MkStream w m r s f d c)
  | Refresher i => moved (refresher_step i w m f) (λ w m f, MkStream w m r s f d c)
  | Delayer i => moved (delayer_step i w m d) (λ w m d, MkStream w m r s f d c)
  | Closer => moved (closer_step w m c) (λ w m c, MkStream w m r s f d c)
  | Others g => Some (inr (MkStream (g w) m r s f d c))
  | CancelCtx => Some (inr (MkStream w (cancel m) r s f d c))
  end.

Fixpoint run (evs : list event) (st : stream) : option (string + stream) :=
  match evs with
  | [] => Some (inr st)
  | ev :: evs =>
      match step ev st with
      | Some (inr st) => run evs st
      | o => o
      end
  end.

Definition reachable (st : stream) : Prop := ∃ w evs, run evs (initial_stream w) = Some (inr st).

(** [eg.Wait()] returns when every goroutine has; the end of the stream is not an error. *)
Definition all_exited (st : stream) : bool :=
  match st with MkStream _ _ RExit SExit FExit DExit CExit => true | _ => false end.
Definition Go_result (m : shared) : outcome () :=
  match failure m with
  | None => Ok ()
  | Some e => if decide (e = ErrOther "EOF") then Ok () else Err e
  end.
End Machine.
#[global] Arguments first_step : simpl never.

(** The beginning of [Go]: the id and the name of the subscription. *)
Definition Go_resolve {E : Engine} (SubscriptionID : option uuid) (SubscriptionName : string)
    (automaticNack batch : bool) : Tx MessageStreamer :=
  match SubscriptionID with
  | None =>
      All (λ s, s_name s = SubscriptionName ∧ s_deletedAt s = None) ≫= λ ss,
      lift (not_found (only ss)) ≫= λ s,
      mret (MkStreamer (s_id s) SubscriptionName automaticNack batch)
  | Some id =>
      if decide (SubscriptionName = EmptyString) then
        All (λ s, s_id s = id ∧ s_deletedAt s = None) ≫= λ ss,
        lift (not_found (only ss)) ≫= λ s,
        mret (MkStreamer id (s_name s) automaticNack batch)
      else mret (MkStreamer id SubscriptionName automaticNack batch)
  end.

(** ** Outstanding messages *)

(** [m'] holds only what [m] holds, with the same sizes. *)
Definition shrinks (m m' : gmap uuid pendingMessage) : Prop := pm_bytes <$> m' ⊆ pm_bytes <$> m.
Lemma shrinks_refl m : shrinks m m.
Proof. by unfold shrinks. Qed.
Lemma shrinks_trans m1 m2 m3 : shrinks m1 m2 → shrinks m2 m3 → shrinks m1 m3.
Proof. unfold shrinks. intros. by etrans. Qed.
Definition sizes_ok (m : gmap uuid pendingMessage) : Prop := map_Forall (λ _ p, 0 ≤ pm_bytes p) m.

Lemma pending_bytes_sizes m :
  pending_bytes m = list_sum (map_to_list (pm_bytes <$> m)).*2.
Proof.
  unfold pending_bytes. by rewrite map_to_list_fmap, <- list_fmap_compose.
Qed.

Lemma sizes_ok_list m : sizes_ok m → Forall (λ z, 0 ≤ z) (map_to_list (pm_bytes <$> m)).*2.
Proof.
  intros Hm. apply Forall_fmap, Forall_forall. intros [k b] Hb%elem_of_map_to_list. simpl.
  apply lookup_fmap_Some in Hb as (p & <- & Hp). by apply (Hm k).
Qed.

Lemma shrinks_bytes m m' : sizes_ok m → shrinks m m' → pending_bytes m' ≤ pending_bytes m.
Proof.
  intros Hm Hs. rewrite !pending_bytes_sizes. apply list_sum_submseteq; [by apply sizes_ok_list|].
  by apply fmap_submseteq, map_to_list_submseteq.
Qed.
Lemma shrinks_size m m' : shrinks m m' → (size m' ≤ size m)%nat.
Proof.
  intros Hs. rewrite <- (map_size_fmap pm_bytes m), <- (map_size_fmap pm_bytes m').
  by apply map_subseteq_size.
Qed.
Section Sizes.
Implicit Types m : gmap uuid pendingMessage.

Lemma shrinks_ok m m' : sizes_ok m → shrinks m m' → sizes_ok m'.
Proof.
  intros Hm Hs k p Hp. assert (Hb : (pm_bytes <$> m') !! k = Some (pm_bytes p)) by (by rewrite lookup_fmap, Hp).
  pose proof (lookup_weaken _ _ _ _ Hb Hs) as Hw.
  apply lookup_fmap_Some in Hw as (p' & <- & Hp'). by apply (Hm k).
Qed.
Lemma shrinks_empty m' : shrinks ∅ m' → m' = ∅.
Proof.
  unfold shrinks. rewrite fmap_empty. intros Hs%map_subseteq_size. rewrite map_size_empty, map_size_fmap in Hs.
  apply map_size_empty_inv. lia.
Qed.

Lemma shrinks_delete m id : shrinks m (delete id m).
Proof. unfold shrinks. rewrite fmap_delete. apply delete_subseteq. Qed.
(** An update that keeps the sizes. *)
Lemma sizes_alter m (f : pendingMessage → pendingMessage) id :
  (∀ p, pm_bytes (f p) = pm_bytes p) → pm_bytes <$> alter f id m = pm_bytes <$> m.
Proof.
  intros Hf. apply map_eq. intros k. rewrite !lookup_fmap. destruct (decide (id = k)) as [<-|].
  - rewrite lookup_alter_eq. destruct (m !! id); simpl; [by rewrite Hf|done].
  - by rewrite lookup_alter_ne.
Qed.

Lemma forget_shrinks ids m : shrinks m (forget_ids ids m).
Proof.
  unfold forget_ids. induction ids as [|id ids IH]; simpl; [apply shrinks_refl|].
  eapply shrinks_trans; [exact IH|apply shrinks_delete].
Qed.

Lemma same_sizes_bytes m m' : pm_bytes <$> m' = pm_bytes <$> m → pending_bytes m' = pending_bytes m.
Proof. intros Hs. by rewrite !pending_bytes_sizes, Hs. Qed.
Lemma same_sizes_size m m' : pm_bytes <$> m' = pm_bytes <$> m → size m' = size m.
Proof. intros Hs. by rewrite <- (map_size_fmap pm_bytes m'), Hs, map_size_fmap. Qed.
Lemma same_sizes_remaining (sh : shared) x :
  pm_bytes <$> x = pm_bytes <$> pending sh → remaining (set_pending x sh) = remaining sh.
Proof. intros Hs. unfold remaining. simpl. by rewrite (same_sizes_bytes _ _ Hs), (same_sizes_size _ _ Hs). Qed.

Lemma pending_bytes_insert m id p :
  sizes_ok m → pending_bytes (<[id := p]> m) ≤ pending_bytes m + pm_bytes p.
Proof.
  intros Hm. rewrite <- insert_delete_eq. unfold pending_bytes at 1.
  rewrite map_to_list_insert by apply lookup_delete_eq.
  rewrite fmap_cons, list_sum_cons. cbv beta.
    pose proof (shrinks_bytes m (delete id m) Hm (shrinks_delete m id)) as Hd.
    unfold pending_bytes at 1 in Hd. simpl. lia.
Qed.

Lemma add_pending_sizes l m :
  sizes_ok m → sizes_ok (add_pending l m) ∧
  (size (add_pending l m) ≤ size m + length l)%nat ∧
  pending_bytes (add_pending l m) ≤ pending_bytes m + results_bytes l.
Proof.
  unfold results_bytes. revert m. induction l as [|x l IH]; intros m Hm.
  { split_and!; [done|simpl; lia|]. unfold list_sum. simpl. lia. }
  rewrite fmap_cons, list_sum_cons. simpl.
  set (p := MkPending (Z.of_nat (String.length (smd_Payload x))) (smd_NextAttemptAt x)).
  destruct (IH (<[smd_ID x := p]> m)) as (H1 & H2 & H3).
  { apply map_Forall_insert_2; [simpl; lia|done]. }
  split_and!; [done|..].
  - etrans; [exact H2|]. rewrite map_size_insert. destruct (m !! smd_ID x); simpl; lia.
  - pose proof (pending_bytes_insert m (smd_ID x) p Hm) as Hb. simpl in Hb. lia.
Qed.
End Sizes.

(** ** What each goroutine does to the shared state *)

#[local] Arguments after {A P} _ _ _ _ : simpl never.
#[local] Arguments sender_call ms {A} _ _ _ _ : simpl never.

Create HintDb quiet.

Section Machine_run.
Context {E : Engine} {FP : FilterParser} {F : Float64}.
Context (ms : MessageStreamer).

(** A step that leaves the sender's view alone: outstanding messages only go, no wake-up is
    lost, and more room is announced ([told] says by whom). *)
Record quiet (told : Prop) (m m' : shared) : Prop := {
  q_granted : granted m' = granted m;
  q_shrinks : shrinks (pending m) (pending m');
  q_wake : wakeSend m = true → wakeSend m' = true;
  q_done : done m = true → done m' = true;
  q_told : wakeSend m' = true ∨ remaining m' = remaining m ∨ told }.

Lemma quiet_refl P m : quiet P m m.
Proof. split; auto. apply shrinks_refl. Qed.
Lemma quiet_error P e m : quiet P m (group_error e m).
Proof. split; auto. apply shrinks_refl. Qed.
Lemma quiet_wake P m : quiet P m (tryWake m).
Proof. split; auto. apply shrinks_refl. Qed.
Lemma quiet_same_sizes P m x : pm_bytes <$> x = pm_bytes <$> pending m → quiet P m (set_pending x m).
Proof.
  intros Hs. split; auto.
  - unfold shrinks. simpl. by rewrite Hs.
  - right. left. by apply same_sizes_remaining.
Qed.
Hint Resolve quiet_refl quiet_error quiet_wake : quiet.

Lemma after_moves {A P} (exit : P) m (r : outcome A * world) k w' m' pc' (told : Prop) :
  after exit m r k = Moves w' m' pc' →
  (∀ a w, r = (Ok a, w) → k a w = Moves w' m' pc' → quiet told m m') → quiet told m m'.
Proof.
  unfold after. destruct r as [[a|e|s] w]; intros H Hk; [by eapply Hk|simplify_eq/=; auto with quiet|done].
Qed.

(** A deadlock keeps the sender at its first transaction. *)
Lemma first_call_cases i w m c p w' m' pc' :
  first_step ms i w m c p = Moves w' m' pc' →
  let r := begin_tx (i_begun i) (DoTx (i_commit i) (first_tx p (i_now i))) w in
  (w' = r.2 ∧ m' = m ∧ pc' = SFirst c p) ∨
  sender_call ms c m r (λ id w, Moves w m (SRound c (with_id id p) id None)) = Moves w' m' pc'.
Proof.
  unfold first_step. destruct (i_begun i); simpl; [|by right..]. destruct (DoTx _ _ _) as [[?|e|?] w1]; simpl; [by right| |by right].
  destruct (is_deadlock e); [|by right]. intros [= <- <- <-]. by left.
Qed.

Lemma reader_quiet i w m pc w' m' pc' :
  reader_step i w m pc = Moves w' m' pc' → quiet False m m'.
Proof.
  destruct pc as [| |msg|msg|msg|msg|]; simpl; intros H; try done.
  - destruct (done m); simplify_eq/=; auto with quiet.
  - eapply after_moves; [exact H|]. intros ? ? _ ?. simplify_eq/=. auto with quiet.
  - destruct (rq_FlowControl msg); simplify_eq/=; [|auto with quiet].
    split; simpl; auto. apply shrinks_refl.
  - assert (Hb : ∀ r, after RExit m r (λ (_ : ()) w, Moves w m (RForget msg)) = Moves w' m' pc' →
      quiet False m m').
    { intros r Hr. eapply after_moves; [exact Hr|]. intros ? ? _ ?. simplify_eq/=. auto with quiet. }
    destruct (rq_Ack msg), (rq_Nack msg); [simplify_eq/=; auto with quiet|by eapply Hb..].
  - simplify_eq/=. split; simpl; auto. eapply shrinks_trans; apply forget_shrinks.
  - destruct (rq_Delay msg); [simplify_eq/=; auto with quiet|].
    eapply after_moves; [exact H|]. intros ? ? _ ?. simplify_eq/=. auto with quiet.
Qed.

Lemma refresh_shrinks found ids m : shrinks m (foldl (refresh_one found) m ids).
Proof.
  revert m. induction ids as [|id ids IH]; intros m; simpl; [apply shrinks_refl|].
  eapply shrinks_trans; [|apply IH]. unfold refresh_one.
  destruct (list_find _ _) as [[? e]|]; [|apply shrinks_delete].
  unfold shrinks. by rewrite sizes_alter.
Qed.
Lemma refresh_same found ids m :
  Forall (λ id, id ∈ d_id <$> found) ids →
  pm_bytes <$> foldl (refresh_one found) m ids = pm_bytes <$> m.
Proof.
  intros Hall. revert m. induction Hall as [|id ids Hin Hall IH]; intros m; simpl; [done|].
  rewrite IH. unfold refresh_one. destruct (list_find _ _) as [[? e]|] eqn:Hf; [by apply sizes_alter|].
  apply list_find_None in Hf. apply list_elem_of_fmap in Hin as (e & -> & He).
  rewrite Forall_forall in Hf. by destruct (Hf e He).
Qed.

Lemma refresher_quiet i w m pc w' m' pc' :
  refresher_step ms i w m pc = Moves w' m' pc' → quiet (∃ c, pc' = FWake c) m m'.
Proof.
  unfold refresher_step, with_awaiter.
  destruct pc as [|c|c|c now ids|c ids found|c|]; intros H; try done.
  - destruct (await ms w) as [[? ?]|?|?]; simplify_eq/=. auto with quiet.
  - destruct (i_other i); [destruct (done m)|destruct (notified c w), (await ms w) as [[? ?]|?|?]];
      simplify_eq/=; auto with quiet.
  - destruct (_.*1); simplify_eq/=; auto with quiet.
  - eapply after_moves; [exact H|]. intros ? ? _ ?. simplify_eq/=. auto with quiet.
  - simplify_eq/=. case_bool_decide as Hall.
    + by apply quiet_same_sizes, refresh_same.
    + split; simpl; eauto. apply refresh_shrinks.
  - simplify_eq/=. auto with quiet.
Qed.

Lemma delayer_quiet i w m pc w' m' pc' :
  delayer_step ms i w m pc = Moves w' m' pc' → quiet False m m'.
Proof.
  destruct pc as [|d c|d c|d c now ids|d c now ids|]; simpl; intros H; try done.
  - eapply after_moves; [exact H|]. intros s w1 _ H1.
    eapply after_moves; [exact H1|]. intros ? ? _ ?. simplify_eq/=. auto with quiet.
  - destruct (i_other i), (done m); simplify_eq/=; auto with quiet.
  - destruct (_.*1); simplify_eq/=; auto with quiet.
  - eapply after_moves; [exact H|]. intros ? ? _ ?. simplify_eq/=. auto with quiet.
  - simplify_eq/=. apply quiet_same_sizes. induction ids as [|id ids IH]; simpl; [done|].
    by rewrite sizes_alter.
Qed.

Lemma closer_quiet w m pc w' m' pc' : closer_step w m pc = Moves w' m' pc' → quiet False m m'.
Proof. destruct pc; simpl; try destruct (done m); intros; simplify_eq/=; auto with quiet. Qed.
End Machine_run.
