(* ===== verification/StreamSafety.v ===== *)
(** * Safety of streaming

    Invariants of every interleaving of the goroutines of [Streamer]: the flow control the
    client asked for is kept, and the sender never sleeps through a wake-up. *)

From S2P Require Import Prelude Uuid Filter FilterParse Schema Backoff Notify Store Example Deliver.
From S2P Require Import Ack Receive Streamer.

#[local] Arguments after {A P} _ _ _ _ : simpl never.
#[local] Arguments sender_call ms {A} _ _ _ _ : simpl never.
#[local] Arguments with_awaiter ms {P} _ _ _ : simpl never.

Section Safety.
Context {E : Engine} {FP : FilterParser} {F : Float64}.
Context (ms : MessageStreamer).

(** ** Flow control *)

(** The outstanding messages keep to [c]; a single one may be too big. *)
Definition within (c : FlowControl) (m : gmap uuid pendingMessage) : Prop :=
  Z.of_nat (size m) ≤ MaxMessages c ∧ (pending_bytes m ≤ MaxBytes c ∨ (size m ≤ 1)%nat).

(** A fetch asks for no more than there is room for. *)
Definition room_for (m : shared) (p : GetSubscriptionMessagesParams) : Prop :=
  1 ≤ g_MaxMessages p ∧ 1 ≤ g_MaxBytes p ∧
  Z.of_nat (size (pending m)) + g_MaxMessages p ≤ MaxMessages (granted m) ∧
  pending_bytes (pending m) + g_MaxBytes p ≤ MaxBytes (granted m) ∧
  (g_MaxBytesStrict p = false → pending m = ∅).

Definition sender_ok (m : shared) (pc : sender_pc) : Prop :=
  match pc with
  | SFirst _ p | SRound _ p _ _ => room_for m p
  | SStore _ p l => room_for m p ∧ fits p l
  | _ => True
  end.

Record flow_ok (m : shared) (pc : sender_pc) : Prop := {
  fo_sizes : sizes_ok (pending m);
  fo_within : within (granted m) (pending m);
  fo_sender : sender_ok m pc }.

Lemma within_shrinks c m m' : sizes_ok m → shrinks m m' → within c m → within c m'.
Proof.
  intros Hm Hs [H1 H2]. pose proof (shrinks_size _ _ Hs). pose proof (shrinks_bytes _ _ Hm Hs).
  split; [lia|]. destruct H2; [left; lia|right; lia].
Qed.

Lemma flow_ok_quiet P m m' pc : quiet P m m' → flow_ok m pc → flow_ok m' pc.
Proof.
  intros [Hg Hs _ _ _] [Hm Hw Ho].
  assert (Hroom : ∀ p, room_for m p → room_for m' p).
  { intros p (? & ? & ? & ? & He). unfold room_for. rewrite Hg.
    pose proof (shrinks_size _ _ Hs). pose proof (shrinks_bytes _ _ Hm Hs).
    split_and!; [done|done|lia|lia|]. intros Hp. specialize (He Hp).
    apply shrinks_empty. by rewrite <- He. }
  split; [by eapply shrinks_ok|rewrite Hg; by eapply within_shrinks|].
  destruct pc; simpl in *; naive_solver.
Qed.

Lemma sender_call_moves {A} c m (r : outcome A * world) k w' m' pc' (Q : shared → sender_pc → Prop) :
  sender_call ms c m r k = Moves w' m' pc' →
  (∀ e, Q (group_error e m) SExit) →
  (∀ a w, r = (Ok a, w) → k a w = Moves w' m' pc' → Q m' pc') → Q m' pc'.
Proof.
  unfold sender_call, after. destruct r as [[a|e|s] w]; intros H He Hk; simplify_eq; [by eapply Hk|done].
Qed.
Lemma with_awaiter_moves {P} w m (k : chan → P) w' m' pc' :
  with_awaiter ms w m k = Moves w' m' pc' → m' = m ∧ ∃ c, pc' = k c.
Proof.
  unfold with_awaiter. destruct (await ms w) as [[c w1]|?|?]; intros; simplify_eq. eauto.
Qed.

Lemma flow_ok_exit e m pc : flow_ok m pc → flow_ok (group_error e m) SExit.
Proof. intros [? ? _]. by split. Qed.

Lemma bytes_nonneg m : sizes_ok m → 0 ≤ pending_bytes m.
Proof. intros Hm. rewrite pending_bytes_sizes. by apply list_sum_nonneg, sizes_ok_list. Qed.

(** With room, the parameters of the fetch are valid: the constructor does not panic. *)
Lemma fetch_params_ok c b :
  has_room c = true → NewGetSubscriptionMessages (fetch_params ms c b) = Ok (fetch_params ms c b).
Proof.
  intros Hr. unfold has_room in Hr. bool_props. unfold NewGetSubscriptionMessages. simpl.
  rewrite (proj2 (Z.ltb_ge (Z.min 100 (MaxMessages c)) 1)), (proj2 (Z.ltb_ge (MaxBytes c) 1)) by lia.
  by rewrite andb_false_r.
Qed.

Lemma look_ok c anyPending m :
  flow_ok m (SLook c anyPending) → has_room (remaining m) = true →
  let p := fetch_params ms (remaining m) (anyPending || negb (bool_decide (pending m = ∅))) in
  NewGetSubscriptionMessages p = Ok p ∧ flow_ok (set_granted (fc m) m) (SFirst c p).
Proof.
  intros [Hm _ _] Hr p. split; [by apply fetch_params_ok|].
  unfold has_room, remaining in Hr. simpl in Hr. bool_props.
  split; [done|split; simpl; [lia|left; lia]|].
  split_and!; [unfold p; simpl; lia..|].
  unfold p. simpl. intros [_ Hp]%orb_false_iff. by bool_props.
Qed.

Lemma store_ok m p l c :
  flow_ok m (SStore c p l) → flow_ok (set_pending (add_pending l (pending m)) m) (SCheck c false).
Proof.
  intros [Hm Hw [(? & ? & HM & HB & He) [Hl Hb]]].
  destruct (add_pending_sizes l (pending m) Hm) as (H1 & H2 & H3).
  split; [done| |done]. split; simpl; [lia|].
  destruct Hb as [Hb|[Hs Hb]]; [left; lia|].
  specialize (He Hs). right. etrans; [exact H2|]. rewrite He, map_size_empty. lia.
Qed.

Lemma sender_flow i w m pc w' m' pc' :
  sender_step ms i w m pc = Moves w' m' pc' → flow_ok m pc → flow_ok m' pc'.
Proof.
  intros H Hok. assert (Hx : ∀ e, flow_ok (group_error e m) SExit) by (intros; by eapply flow_ok_exit).
  assert (Hm : flow_ok m SExit) by (by destruct Hok).
  destruct pc as [|c b|c b|c b|c p|c p id old|c p l|c l|]; simpl in H.
  - apply with_awaiter_moves in H as [-> [c ->]]. by destruct Hm.
  - destruct (done m); simplify_eq; by destruct Hm.
  - destruct (has_room (remaining m)) eqn:Hr; [|simplify_eq; by destruct Hm].
    destruct (look_ok c b m Hok Hr) as [Hnew Hp]. rewrite Hnew in H. by simplify_eq.
  - destruct (i_other i).
    + destruct (notified c w); [|done]. apply with_awaiter_moves in H as [-> [c' ->]]. by destruct Hm.
    + destruct (wakeSend m); simplify_eq. destruct Hm. by split.
  - apply first_call_cases in H as [(_ & -> & ->)|H]; [done|].
    eapply sender_call_moves; [exact H|done|]. intros id w1 _ ?. simplify_eq/=. by destruct Hok.
  - destruct (match _ with ContextDone _ => _ | _ => _ end); [done|].
    destruct (begin_tx _ _ _) as [[[[res|c']|]|e|s] w1] eqn:Hb; simplify_eq; [|by destruct Hok|].
    + eapply sender_call_moves; [exact H|done|]. intros r w2 [= -> ->] ?. simplify_eq/=.
      unfold begin_tx in Hb. destruct (i_begun i); [|done..].
      destruct (execute_round _ _ _ _ _) as [[x w3]|] eqn:Hround; simplify_eq/=.
      destruct Hok as [H1 H2 (HM & HB & Hrest)]. split; [done|done|]. split; [done|].
      by eapply execute_round_fits.
    + eapply sender_call_moves; [exact H|done|]. intros ? ? ?. done.
  - simplify_eq. apply store_ok in Hok. destruct l; [done|]. by destruct Hok.
  - eapply sender_call_moves; [exact H|done|]. intros ? w1 _ ?. simplify_eq/=.
    destruct (if ms_batch ms then [] else tail l); by destruct Hm.
  - done.
Qed.

(** ** Wake-ups *)

(** A sender that waits, or will, has nothing to send, or will be woken. *)
Definition wake_ok (m : shared) (s : sender_pc) (f : refresher_pc) (c : closer_pc) : Prop :=
  (c ≠ CWait → done m = true) ∧
  match s with
  | SLook _ _ => c = CExit → wakeSend m = true
  | SWait _ _ =>
      (c = CExit → wakeSend m = true) ∧
      (wakeSend m = true ∨ (∃ ch, f = FWake ch) ∨ has_room (remaining m) = false)
  | _ => True
  end.

Lemma wake_ok_quiet told m m' s f f' c c' :
  quiet told m m' → wake_ok m s f c → (told → ∃ ch, f' = FWake ch) →
  ((∃ ch, f = FWake ch) → (∃ ch, f' = FWake ch) ∨ wakeSend m' = true) →
  (c' ≠ CWait → done m' = true) → (c' = CExit → c = CExit ∨ wakeSend m' = true) →
  wake_ok m' s f' c'.
Proof.
  intros [_ _ Hw Hd Ht] [Hc Hs] Htold Hf Hc' Hce. split; [done|].
  destruct s; try done.
  - intros H. destruct (Hce H); auto.
  - destruct Hs as [Hs1 Hs2]. split; [intros H; destruct (Hce H); auto|].
    destruct Ht as [?|[Ht|?]]; [auto| |right; left; auto].
    destruct Hs2 as [?|[Hs2|Hs2]]; [left; auto|destruct (Hf Hs2); auto|].
    right. right. by rewrite Ht.
Qed.

Lemma refresher_wakes i w m f w' m' f' ch :
  refresher_step ms i w m f = Moves w' m' f' → f = FWake ch → wakeSend m' = true.
Proof. intros H ->. simpl in H. by simplify_eq. Qed.

Lemma sender_wake i w m pc w' m' pc' f c :
  sender_step ms i w m pc = Moves w' m' pc' → wake_ok m pc f c → wake_ok m' pc' f c.
Proof.
  intros H [Hc Hs].
  assert (Hx : ∀ e, wake_ok (group_error e m) SExit f c) by (intros; by split).
  destruct pc as [|ch b|ch b|ch b|ch p|ch p id old|ch p l|ch l|]; simpl in H.
  - apply with_awaiter_moves in H as [-> [? ->]]. by split.
  - destruct (done m) eqn:Hd; simplify_eq; [by split|].
    assert (Hc' : c = CWait) by (destruct c; try done; by discriminate Hc).
    subst c. by split.
  - destruct (has_room (remaining m)) eqn:Hr.
    + destruct (NewGetSubscriptionMessages _); simplify_eq. by split.
    + simplify_eq. split; [done|]. split; [done|]. auto.
  - destruct (i_other i).
    + destruct (notified ch w); [|done]. apply with_awaiter_moves in H as [-> [? ->]]. by split.
    + destruct (wakeSend m); simplify_eq. by split.
  - apply first_call_cases in H as [(_ & -> & ->)|H]; [by split|].
    eapply (sender_call_moves _ _ _ _ _ _ _ (λ m s, wake_ok m s f c)); [exact H|done|].
    intros id w1 _ ?. simplify_eq/=. by split.
  - destruct (match _ with ContextDone _ => _ | _ => _ end); [done|].
    destruct (begin_tx _ _ _) as [[[[res|c']|]|e|s] w1]; simplify_eq; [|by split|].
    + eapply (sender_call_moves _ _ _ _ _ _ _ (λ m s, wake_ok m s f c)); [exact H|done|].
      intros r w2 _ ?. simplify_eq/=. by split.
    + eapply (sender_call_moves _ _ _ _ _ _ _ (λ m s, wake_ok m s f c)); [exact H|done|]. done.
  - simplify_eq. destruct l; by split.
  - eapply (sender_call_moves _ _ _ _ _ _ _ (λ m s, wake_ok m s f c)); [exact H|done|].
    intros ? w1 _ ?. simplify_eq/=. destruct (if ms_batch ms then [] else tail l); by split.
  - done.
Qed.

(** ** Every interleaving *)

Definition invariant (st : stream) : Prop :=
  flow_ok (st_mem st) (st_sender st) ∧
  wake_ok (st_mem st) (st_sender st) (st_refresher st) (st_closer st).

Lemma moved_inr {P} (mv : move P) k (st : stream) :
  moved mv k = Some (inr st) → ∃ w m pc, mv = Moves w m pc ∧ st = k w m pc.
Proof. destruct mv; simpl; naive_solver. Qed.

Lemma invariant_quiet told w m m' r r' s f f' d d' c c' :
  quiet told m m' → (told → ∃ ch, f' = FWake ch) →
  ((∃ ch, f = FWake ch) → (∃ ch, f' = FWake ch) ∨ wakeSend m' = true) →
  (c' ≠ CWait → done m' = true) → (c' = CExit → c = CExit ∨ wakeSend m' = true) →
  invariant (MkStream w m r s f d c) → ∀ w', invariant (MkStream w' m' r' s f' d' c').
Proof.
  intros Hq Htold Hf Hc' Hce [Hflow Hwake] w'. split; simpl in *; [by eapply flow_ok_quiet|].
  by eapply wake_ok_quiet.
Qed.

Lemma step_invariant ev st st' :
  step ms ev st = Some (inr st') → invariant st → invariant st'.
Proof.
  destruct st as [w m r s f d c]. intros H Hi. pose proof (proj1 (proj2 Hi)) as Hdone. simpl in Hdone.
  destruct ev as [i|i|i|i| |g|]; simpl in H.
  - apply moved_inr in H as (w' & m' & pc & H & ->). apply reader_quiet in H.
    eapply invariant_quiet, Hi; [exact H|done|by left|intros; apply H; auto|by left].
  - apply moved_inr in H as (w' & m' & pc & H & ->). destruct Hi as [Hf Hw]. split; simpl in *.
    + by eapply sender_flow.
    + by eapply sender_wake.
  - apply moved_inr in H as (w' & m' & pc & H & ->).
    assert (Hwakes : (∃ ch, f = FWake ch) → wakeSend m' = true).
    { intros [ch ->]. by eapply refresher_wakes. }
    apply refresher_quiet in H.
    eapply invariant_quiet, Hi; [exact H|done|auto|intros; apply H; auto|by left].
  - apply moved_inr in H as (w' & m' & pc & H & ->). apply delayer_quiet in H.
    eapply invariant_quiet, Hi; [exact H|done|by left|intros; apply H; auto|by left].
  - apply moved_inr in H as (w' & m' & pc & H & ->). pose proof (closer_quiet _ _ _ _ _ _ H) as Hq.
    eapply invariant_quiet, Hi; [exact Hq|done|by left|..].
    + intros _. apply Hq. destruct c; [|by apply Hdone..]. simpl in H. by destruct (done m).
    + intros ->. destruct c; simpl in H; [by destruct (done m)|done|simplify_eq; by right|done].
  - simplify_eq. exact Hi.
  - simplify_eq. eapply (invariant_quiet False), Hi; [|done|by left|done|by left].
    split; auto. apply shrinks_refl.
Qed.

Lemma run_app evs evs' st st' :
  run ms evs st = Some (inr st') → run ms (evs ++ evs') st = run ms evs' st'.
Proof.
  revert st. induction evs as [|ev evs IH]; intros st; simpl; [by intros [= ->]|].
  destruct (step ms ev st) as [[|st1]|]; [done| |done]. apply IH.
Qed.

Lemma run_invariant evs st st' : run ms evs st = Some (inr st') → invariant st → invariant st'.
Proof.
  revert st. induction evs as [|ev evs IH]; intros st; simpl; [by intros [= ->]|].
  destruct (step ms ev st) as [[|st1]|] eqn:Hs; [done| |done]. intros H Hi.
  eapply IH, step_invariant, Hi; done.
Qed.

Lemma reachable_stream_invariant st : reachable ms st → invariant st.
Proof.
  intros (w & evs & H). eapply run_invariant; [exact H|]. split; [|by split].
  split; [done| |done]. split; simpl; [rewrite map_size_empty; lia|right; rewrite map_size_empty; lia].
Qed.

(** What a fetch that is under way asks for, or has brought, fits besides what is pending. *)
Definition fetch_within (c : FlowControl) (m : gmap uuid pendingMessage) (pc : sender_pc) : Prop :=
  match pc with
  | SFirst _ p | SRound _ p _ _ =>
      1 ≤ g_MaxMessages p ∧ 1 ≤ g_MaxBytes p ∧
      Z.of_nat (size m) + g_MaxMessages p ≤ MaxMessages c ∧ pending_bytes m + g_MaxBytes p ≤ MaxBytes c
  | SStore _ _ l => Z.of_nat (size m) + Z.of_nat (length l) ≤ MaxMessages c
  | _ => True
  end.
(** A wake-up is in the channel, or the refresher is about to put one there. *)
Definition wake_coming (st : stream) : Prop :=
  wakeSend (st_mem st) = true ∨ ∃ ch, st_refresher st = FWake ch.

(** C15 In every reachable state of a stream, whatever the client, the other users and the
    database do and however the goroutines interleave, the outstanding messages keep to the
    flow control the sender last found room in: no more than [MaxMessages] of them, and no more
    than [MaxBytes] in total unless it is a single one.  A fetch that is under way asks for no
    more than there is room for, and what it has returned fits. *)
Theorem stream_within_flow_control st :
  reachable ms st →
  let c := granted (st_mem st) in let m := pending (st_mem st) in
  Z.of_nat (size m) ≤ MaxMessages c ∧ (pending_bytes m ≤ MaxBytes c ∨ (size m ≤ 1)%nat) ∧
  fetch_within c m (st_sender st).
Proof.
  intros [[_ [H1 H2] Ho] _]%reachable_stream_invariant. split_and!; [done|done|].
  destruct (st_sender st); simpl in *; try done; unfold room_for, fits in Ho; [tauto..|]. lia.
Qed.

(** C13 The sender never sleeps through a wake-up: in every reachable state in which it waits
    for room, there is no room, or a wake-up is already in the channel, or the refresher is
    about to put one there.  And once the goroutine that closes the connection has finished, a
    wake-up is in the channel, so that the sender notices the cancellation. *)
Theorem stream_no_lost_wakeup st c anyPending :
  reachable ms st → st_sender st = SWait c anyPending →
  (has_room (remaining (st_mem st)) = true → wake_coming st) ∧
  (st_closer st = CExit → wakeSend (st_mem st) = true) ∧
  (st_closer st ≠ CWait → done (st_mem st) = true).
Proof.
  intros [_ [Hd Hs]]%reachable_stream_invariant Heq. rewrite Heq in Hs. destruct Hs as [Hc Hw].
  split_and!; [|done|done]. intros Hr. destruct Hw as [?|[?|Hno]]; [by left|by right|congruence].
Qed.
End Safety.

(** ** Witnesses *)

(** One client streams from the subscription "plain": its first fetch sends the one message it
    may have outstanding, and then it waits. *)
Definition demo_ms : MessageStreamer := MkStreamer 11 "plain" false true.
Definition demo_input : input :=
  MkInput 400 400 (Ok ()) (Ok ()) (Ok ()) false (MkRequest None [] [] [] (f_ofZ 0))
    (MkRound [attempt_at (clock_at 400)] NextAttemptDue).
Definition demo_stream (n : nat) : string + stream :=
  default (inl EmptyString)
    (run (E := id_engine) demo_ms (replicate n (Sender demo_input))
       (initial_stream demo_ms (MkWorld example_db empty_registry 0))).

Lemma demo_stream_reachable n st :
  demo_stream n = inr st → reachable (E := id_engine) demo_ms st.
Proof.
  unfold demo_stream, reachable. intros H. do 2 eexists.
  destruct (run _ _ _) as [[|st']|] eqn:Hr; simplify_eq/=. exact Hr.
Qed.

Lemma stream_within_flow_control_witness :
  ∃ st, demo_stream 6 = inr st ∧ Z.of_nat (size (pending (st_mem st))) ≤ MaxMessages (granted (st_mem st)).
Proof.
  destruct (demo_stream 6) as [s|st] eqn:H; [vm_compute in H; discriminate|].
  exists st. split; [reflexivity|].
  apply (stream_within_flow_control (E := id_engine) demo_ms st (demo_stream_reachable 6 st H)).
Defined.

Lemma stream_no_lost_wakeup_witness :
  ∃ st c, demo_stream 9 = inr st ∧ st_sender st = SWait c true ∧
    (has_room (remaining (st_mem st)) = true → wake_coming st).
Proof.
  destruct (demo_stream 9) as [s|st] eqn:H; [vm_compute in H; discriminate|].
  destruct (st_sender st) eqn:Hs; try (exfalso; vm_compute in H; injection H as <-; discriminate Hs).
  assert (Hb : anyPending = true).
  { vm_compute in H. injection H as <-. vm_compute in Hs. injection Hs as _ <-. reflexivity. }
  subst anyPending. exists st, pubNotify. split; [reflexivity|]. split; [exact Hs|].
  apply (stream_no_lost_wakeup (E := id_engine) demo_ms st pubNotify true
    (demo_stream_reachable 9 st H) Hs).
Defined.
