(* ===== verification/StreamStop.v ===== *)
(** * A cancelled stream stops

    Once the context is done, [BeginTx] and the calls of the connection fail (the context or
    [Close] makes them) and a [select] that can take its [ctx.Done()] branch does.  Then the
    group of goroutines cannot hang and cannot go on: at most eighteen more steps are made. *)

From S2P Require Import Prelude Uuid Filter FilterParse Schema Backoff Notify Store Example Deliver.
From S2P Require Import Ack Receive Streamer StreamSafety.

#[local] Arguments after {A P} _ _ _ _ : simpl never.
#[local] Arguments sender_call ms {A} _ _ _ _ : simpl never.
#[local] Arguments with_awaiter ms {P} _ _ _ : simpl never.

Section Stop.
Context {E : Engine} {FP : FilterParser} {F : Float64}.
Context (ms : MessageStreamer).

Definition is_err {A} (o : outcome A) : bool := match o with Err _ => true | _ => false end.
Definition calls_fail (i : input) : bool := is_err (i_begun i) && is_err (i_io i).

(** The steps a cancelled stream makes. *)
Definition stopping (ev : event) : bool :=
  match ev with
  | Reader i | Sender i => calls_fail i
  | Refresher i | Delayer i => calls_fail i && i_other i
  | _ => true
  end.
Definition of_goroutine (ev : event) : bool :=
  match ev with Others _ | CancelCtx => false | _ => true end.

Definition reader_rank (pc : reader_pc) : nat :=
  match pc with RExit => 0 | RTop | RReceive => 1 | RDelay _ => 2 | RForget _ => 3 | RAcks _ => 4 | RFlow _ => 5 end.
Definition sender_rank (pc : sender_pc) : nat :=
  match pc with
  | SExit => 0 | SCheck _ _ | SSend _ _ | SFirst _ _ | SRound _ _ _ _ => 1
  | SStart | SWait _ _ | SStore _ _ _ => 2 | SLook _ _ => 3
  end.
Definition refresher_rank (pc : refresher_pc) : nat :=
  match pc with FExit => 0 | FWait _ | FQuery _ _ _ => 1 | FStart | FList _ | FWake _ => 2 | FUpdate _ _ _ => 3 end.
Definition delayer_rank (pc : delayer_pc) : nat :=
  match pc with DExit => 0 | DStart | DTick _ _ => 1 | DUpdate _ _ _ _ => 2 | DDelay _ _ _ _ => 3 | DScan _ _ => 4 end.
Definition closer_rank (pc : closer_pc) : nat :=
  match pc with CExit => 0 | CWake => 1 | CClose => 2 | CWait => 3 end.
Definition rank (st : stream) : nat :=
  reader_rank (st_reader st) + sender_rank (st_sender st) + refresher_rank (st_refresher st)
  + delayer_rank (st_delayer st) + closer_rank (st_closer st).

Lemma rank_bound st : (rank st ≤ 18)%nat.
Proof.
  destruct st as [w m r s f d c]. unfold rank. simpl.
  destruct r; destruct s; destruct f; destruct d; destruct c; simpl; lia.
Qed.
Lemma rank_zero st : rank st = 0%nat → all_exited st = true.
Proof.
  destruct st as [w m r s f d c]. unfold rank. simpl.
  destruct r; simpl; try lia. destruct s; simpl; try lia. destruct f; simpl; try lia.
  destruct d; simpl; try lia. by destruct c.
Qed.

(** A failing call ends the goroutine. *)
Lemma after_err {A P} (exit : P) m (r : outcome A * world) k :
  is_err r.1 = true → ∃ w m', after exit m r k = Moves w m' exit.
Proof. unfold after. destruct r as [[|e|] w]; simpl; intros; try done. eauto. Qed.
Lemma sender_call_err {A} c m (r : outcome A * world) k :
  is_err r.1 = true → ∃ w m', sender_call ms c m r k = Moves w m' SExit.
Proof. unfold sender_call. destruct r as [[|e|] w]; simpl; intros; try done. eauto. Qed.
Lemma begin_err {A} begun (tx : world → outcome A * world) w :
  is_err begun = true → is_err (begin_tx begun tx w).1 = true.
Proof. by destruct begun. Qed.
Lemma with_awaiter_run {P} w m (k : chan → P) : ∃ w' c, with_awaiter ms w m k = Moves w' m (k c).
Proof. unfold with_awaiter, await, renew_awaiter. simpl. eauto. Qed.

(** A goroutine that has not returned makes a step, and gets nearer to its end. *)
Definition nearer {P} (rk : P → nat) (mv : move P) (pc : P) : Prop :=
  ∃ w m pc', mv = Moves w m pc' ∧ (rk pc' < rk pc)%nat.

Lemma nearer_after {A P} (rk : P → nat) (exit pc : P) m (r : outcome A * world) k :
  is_err r.1 = true → (rk exit < rk pc)%nat → nearer rk (after exit m r k) pc.
Proof. intros He Hr. destruct (after_err exit m r k He) as (w & m' & ->). by exists w, m', exit. Qed.
Lemma nearer_moves {P} (rk : P → nat) w m pc pc' :
  (rk pc' < rk pc)%nat → nearer rk (Moves w m pc') pc.
Proof. by exists w, m, pc'. Qed.

Lemma reader_stops i w m pc :
  done m = true → calls_fail i = true → pc ≠ RExit → nearer reader_rank (reader_step i w m pc) pc.
Proof.
  intros Hd [Hb Hio]%andb_true_iff Hne. destruct pc as [| |msg|msg|msg|msg|]; simpl; try done.
  - rewrite Hd. apply nearer_moves. simpl. lia.
  - by apply nearer_after; [|simpl; lia].
  - apply nearer_moves. simpl. lia.
  - assert (Hx : nearer reader_rank (after RExit m (doAcksNacks (rq_Ack msg) (rq_Nack msg) i w)
      (λ _ w, Moves w m (RForget msg))) (RAcks msg)).
    { apply nearer_after; [by apply begin_err|simpl; lia]. }
    destruct (rq_Ack msg), (rq_Nack msg); [|exact Hx..]. apply nearer_moves. simpl. lia.
  - apply nearer_moves. simpl. lia.
  - destruct (rq_Delay msg); [apply nearer_moves; simpl; lia|].
    apply nearer_after; [by apply begin_err|simpl; lia].
Qed.

Lemma nearer_sender {A} c m (r : outcome A * world) k pc :
  is_err r.1 = true → (0 < sender_rank pc)%nat → nearer sender_rank (sender_call ms c m r k) pc.
Proof. intros He Hr. destruct (sender_call_err c m r k He) as (w & m' & ->). by exists w, m', SExit. Qed.

Lemma sender_stops i w m pc :
  done m = true → calls_fail i = true → flow_ok m pc → pc ≠ SExit →
  (∀ c b, pc = SWait c b → wakeSend m = true ∧ i_other i = false) →
  nearer sender_rank (sender_step ms i w m pc) pc.
Proof.
  intros Hd [Hb Hio]%andb_true_iff Hok Hne Hw.
  destruct pc as [|c b|c b|c b|c p|c p id old|c p l|c l|]; simpl; try done.
  - destruct (with_awaiter_run w m (λ c, SCheck c false)) as (w' & c & ->). apply nearer_moves. simpl. lia.
  - rewrite Hd. apply nearer_moves. simpl. lia.
  - destruct (has_room (remaining m)) eqn:Hr; [|apply nearer_moves; simpl; lia].
    destruct (look_ok ms c b m Hok Hr) as [-> _]. apply nearer_moves. simpl. lia.
  - destruct (Hw c b eq_refl) as [-> ->]. apply nearer_moves. simpl. lia.
  - unfold first_step. destruct (i_begun i) as [|e|]; try done.
    apply nearer_sender; [done|simpl; lia].
  - rewrite Hd. destruct (i_begun i) as [|e|]; try done.
    destruct (r_select (i_round i)); simpl; by apply nearer_sender; [|simpl; lia].
  - apply nearer_moves. destruct l; simpl; lia.
  - by apply nearer_sender; [|simpl; lia].
Qed.

Lemma refresher_stops i w m pc :
  done m = true → calls_fail i = true → i_other i = true → pc ≠ FExit →
  nearer refresher_rank (refresher_step ms i w m pc) pc.
Proof.
  intros Hd [Hb Hio]%andb_true_iff Ho Hne. destruct pc as [|c|c|c now ids|c ids found|c|]; simpl; try done.
  - destruct (with_awaiter_run w m FWait) as (w' & c & ->). apply nearer_moves. simpl. lia.
  - rewrite Ho, Hd. apply nearer_moves. simpl. lia.
  - destruct (_.*1); apply nearer_moves; simpl; lia.
  - by apply nearer_after; [|simpl; lia].
  - apply nearer_moves. case_bool_decide; simpl; lia.
  - apply nearer_moves. simpl. lia.
Qed.

Lemma delayer_stops i w m pc :
  done m = true → calls_fail i = true → i_other i = true → pc ≠ DExit →
  nearer delayer_rank (delayer_step ms i w m pc) pc.
Proof.
  intros Hd [Hb Hio]%andb_true_iff Ho Hne. destruct pc as [|a k|a k|a k now ids|a k now ids|]; simpl; try done.
  - apply nearer_after; [by apply begin_err|simpl; lia].
  - rewrite Ho, Hd. apply nearer_moves. simpl. lia.
  - destruct (_.*1); apply nearer_moves; simpl; lia.
  - destruct ids; [apply nearer_moves; simpl; lia|].
    apply nearer_after; [by apply begin_err|simpl; lia].
  - apply nearer_moves. simpl. lia.
Qed.

Lemma closer_stops w m pc : done m = true → pc ≠ CExit → nearer closer_rank (closer_step w m pc) pc.
Proof.
  intros Hd Hne. destruct pc; simpl; try done; rewrite ?Hd; apply nearer_moves; simpl; lia.
Qed.

Lemma nearer_inv {P} (rk : P → nat) (mv : move P) pc w m pc' :
  nearer rk mv pc → mv = Moves w m pc' → (rk pc' < rk pc)%nat.
Proof. intros (w1 & m1 & pc1 & -> & Hr). naive_solver. Qed.

Lemma sender_descends i w m pc w' m' pc' :
  done m = true → calls_fail i = true → flow_ok m pc →
  sender_step ms i w m pc = Moves w' m' pc' → (sender_rank pc' < sender_rank pc)%nat.
Proof.
  intros Hd Hi Hok H. destruct pc as [|c b|c b|c b|c p|c p id old|c p l|c l|].
  4: { simpl in H. destruct (i_other i).
       - destruct (notified c w); [|done]. apply with_awaiter_moves in H as [_ [c' ->]]. simpl. lia.
       - destruct (wakeSend m); simplify_eq. simpl. lia. }
  all: try done; eapply nearer_inv, H; by apply sender_stops.
Qed.

Lemma sender_done i w m pc w' m' pc' :
  sender_step ms i w m pc = Moves w' m' pc' → done m = true → done m' = true.
Proof.
  intros H Hd. destruct pc as [|c b|c b|c b|c p|c p id old|c p l|c l|]; simpl in H; try done.
  - by apply with_awaiter_moves in H as [-> _].
  - destruct (done m) eqn:?; by simplify_eq.
  - destruct (has_room (remaining m)); [|by simplify_eq].
    destruct (NewGetSubscriptionMessages _); by simplify_eq.
  - destruct (i_other i); [destruct (notified c w); [|done]|destruct (wakeSend m)]; [|by simplify_eq|done].
    by apply with_awaiter_moves in H as [-> _].
  - apply first_call_cases in H as [(_ & -> & _)|H]; [done|].
    eapply (sender_call_moves _ _ _ _ _ _ _ _ (λ m _, done m = true)); [exact H|done|].
    intros ? ? _ ?. by simplify_eq/=.
  - destruct (match _ with ContextDone _ => _ | _ => _ end); [done|].
    destruct (begin_tx _ _ _) as [[[[res|c']|]|e|s] w1]; simplify_eq; [|done|].
    all: eapply (sender_call_moves _ _ _ _ _ _ _ _ (λ m _, done m = true)); [exact H|done|].
    all: intros ? ? _ ?; by simplify_eq/=.
  - by simplify_eq.
  - eapply (sender_call_moves _ _ _ _ _ _ _ _ (λ m _, done m = true)); [exact H|done|].
    intros ? ? _ ?. by simplify_eq/=.
Qed.

Lemma stopping_step ev st st' :
  invariant st → done (st_mem st) = true → stopping ev = true → step ms ev st = Some (inr st') →
  done (st_mem st') = true ∧ (rank st' + (if of_goroutine ev then 1 else 0) ≤ rank st)%nat.
Proof.
  destruct st as [w m r s f d c]. intros [Hflow _] Hd Hs H. simpl in Hflow, Hd.
  destruct ev as [i|i|i|i| |g|]; simpl in H; try apply moved_inr in H as (w' & m' & pc & H & ->);
    simpl in Hs; unfold rank; simpl.
  - split; [by apply reader_quiet in H as [_ _ _ Hq _]; apply Hq|].
    assert (r ≠ RExit) by (by intros ->).
    pose proof (nearer_inv _ _ _ _ _ _ (reader_stops i w m r Hd Hs ltac:(done)) H). lia.
  - split; [by eapply sender_done|]. pose proof (sender_descends _ _ _ _ _ _ _ Hd Hs Hflow H). lia.
  - apply andb_true_iff in Hs as [Hs Ho].
    split; [by apply refresher_quiet in H as [_ _ _ Hq _]; apply Hq|].
    assert (f ≠ FExit) by (by intros ->).
    pose proof (nearer_inv _ _ _ _ _ _ (refresher_stops i w m f Hd Hs Ho ltac:(done)) H). lia.
  - apply andb_true_iff in Hs as [Hs Ho].
    split; [by apply delayer_quiet in H as [_ _ _ Hq _]; apply Hq|].
    assert (d ≠ DExit) by (by intros ->).
    pose proof (nearer_inv _ _ _ _ _ _ (delayer_stops i w m d Hd Hs Ho ltac:(done)) H). lia.
  - split; [by apply closer_quiet in H as [_ _ _ Hq _]; apply Hq|].
    assert (c ≠ CExit) by (by intros ->).
    pose proof (nearer_inv _ _ _ _ _ _ (closer_stops w m c Hd ltac:(done)) H). lia.
  - simplify_eq. simpl. split; [done|lia].
  - simplify_eq. simpl. split; [done|lia].
Qed.

Lemma stopping_run evs st st' :
  invariant st → done (st_mem st) = true → forallb stopping evs = true →
  run ms evs st = Some (inr st') →
  invariant st' ∧ done (st_mem st') = true ∧
  (rank st' + length (filter (λ ev, of_goroutine ev = true) evs) ≤ rank st)%nat.
Proof.
  revert st. induction evs as [|ev evs IH]; intros st Hi Hd; simpl.
  { intros _ [= ->]. split_and!; [done|done|lia]. }
  intros [Hev Hevs]%andb_true_iff.
  destruct (step ms ev st) as [[|st1]|] eqn:Hs; [done| |done]. intros H.
  destruct (stopping_step _ _ _ Hi Hd Hev Hs) as [Hd1 Hr1].
  destruct (IH st1) as (H1 & H2 & H3); [by eapply step_invariant|done..|].
  split_and!; [done|done|]. rewrite filter_cons. destruct (of_goroutine ev); simpl in *; lia.
Qed.

Context (any_clock : clock) (any_msg : MessageStreamRequest).
(** An input for a step of a cancelled stream. *)
Definition stop_input (other : bool) : input :=
  MkInput 0 0 (Err (ContextCanceled)) (Ok ()) (Err (ContextCanceled)) other
    any_msg (MkRound [attempt_at any_clock] (ContextDone ContextCanceled)).

Lemma nearer_moved {P} (rk : P → nat) (mv : move P) pc k :
  nearer rk mv pc → ∃ st, moved mv k = Some (inr st).
Proof. intros (w & m & pc' & -> & _). simpl. eauto. Qed.

(** Unless all goroutines have returned, one can make a step. *)
Lemma stopping_progress st :
  invariant st → done (st_mem st) = true → all_exited st = false →
  ∃ ev st', of_goroutine ev = true ∧ stopping ev = true ∧ step ms ev st = Some (inr st').
Proof.
  destruct st as [w m r s f d c]. intros [Hflow [_ Hwake]] Hd Hne. simpl in Hflow, Hwake, Hd.
  assert (Hgo : ∀ ev, of_goroutine ev = true → stopping ev = true →
    (∃ st', step ms ev (MkStream w m r s f d c) = Some (inr st')) →
    ∃ ev st', of_goroutine ev = true ∧ stopping ev = true ∧
      step ms ev (MkStream w m r s f d c) = Some (inr st')).
  { intros ev H1 H2 [st' H3]. by exists ev, st'. }
  assert (Hc : c = CExit ∨ c ≠ CExit) by (destruct c; auto).
  destruct Hc as [->|Hc].
  2: { apply (Hgo Closer); [done..|]. eapply nearer_moved. by apply closer_stops. }
  assert (Hr : r = RExit ∨ r ≠ RExit) by (destruct r; auto).
  destruct Hr as [->|Hr].
  2: { apply (Hgo (Reader (stop_input true))); [done..|]. eapply nearer_moved. by apply reader_stops. }
  assert (Hf : f = FExit ∨ f ≠ FExit) by (destruct f; auto).
  destruct Hf as [->|Hf].
  2: { apply (Hgo (Refresher (stop_input true))); [done..|]. eapply nearer_moved. by apply refresher_stops. }
  assert (Hx : d = DExit ∨ d ≠ DExit) by (destruct d; auto).
  destruct Hx as [->|Hx].
  2: { apply (Hgo (Delayer (stop_input true))); [done..|]. eapply nearer_moved. by apply delayer_stops. }
  assert (Hs : s ≠ SExit) by (by intros ->).
  apply (Hgo (Sender (stop_input false))); [done..|]. eapply nearer_moved. apply sender_stops; try done.
  intros ch b ->. split; [by apply Hwake|done].
Qed.

Lemma stopping_finishes n st :
  (rank st ≤ n)%nat → invariant st → done (st_mem st) = true →
  ∃ evs st', forallb stopping evs = true ∧ run ms evs st = Some (inr st') ∧ all_exited st' = true.
Proof.
  revert st. induction n as [|n IH]; intros st Hr Hi Hd.
  { exists [], st. split_and!; [done|done|]. apply rank_zero. lia. }
  destruct (all_exited st) eqn:Hx; [by exists [], st|].
  destruct (stopping_progress st Hi Hd Hx) as (ev & st1 & Hg & Hev & Hs).
  destruct (stopping_step _ _ _ Hi Hd Hev Hs) as [Hd1 Hr1]. rewrite Hg in Hr1.
  destruct (IH st1) as (evs & st' & H1 & H2 & H3); [lia|by eapply step_invariant|done|].
  exists (ev :: evs), st'. simpl. by rewrite Hev, Hs.
Qed.

(** C12 Once its context is done, a stream stops.  From any reachable state, every run in
    which calls fail and selects take their [ctx.Done()] branch makes at most eighteen steps
    of goroutines, whatever others do in between; at no point of it is the group stuck: a
    goroutine that has not returned can make a step; and it can be completed to a run after which
    all goroutines have returned, so that [eg.Wait()] returns. *)
Theorem cancelled_stream_stops st :
  reachable ms st → done (st_mem st) = true →
  ∀ evs st', forallb stopping evs = true → run ms evs st = Some (inr st') →
    (length (filter (λ ev, of_goroutine ev = true) evs) ≤ 18)%nat ∧
    (all_exited st' = false →
       ∃ ev st'', of_goroutine ev = true ∧ stopping ev = true ∧ step ms ev st' = Some (inr st'')) ∧
    ∃ evs' st'', forallb stopping evs' = true ∧ run ms evs' st' = Some (inr st'') ∧
      all_exited st'' = true.
Proof.
  intros Hr Hd evs st' Hevs Hrun. apply reachable_stream_invariant in Hr.
  destruct (stopping_run _ _ _ Hr Hd Hevs Hrun) as (Hi & Hd' & Hlen).
  pose proof (rank_bound st). split_and!; [lia|by apply stopping_progress|by eapply stopping_finishes].
Qed.
End Stop.

(** ** Witness *)

(** The stream of the demonstration, waiting for room, is cancelled. *)
Lemma cancelled_stream_stops_witness :
  ∃ st, demo_stream 9 = inr st ∧
    ∃ evs st', run (E := id_engine) demo_ms (CancelCtx :: evs) st = Some (inr st') ∧ all_exited st' = true.
Proof.
  destruct (demo_stream 9) as [s|st] eqn:H; [vm_compute in H; discriminate|].
  exists st. split; [reflexivity|].
  destruct (step (E := id_engine) demo_ms CancelCtx st) as [[|st1]|] eqn:Hs; [destruct st; discriminate..| |destruct st; discriminate].
  assert (Hr : reachable (E := id_engine) demo_ms st1).
  { destruct (demo_stream_reachable 9 st H) as (w & evs & Hrun). exists w, (evs ++ [CancelCtx]).
    rewrite (run_app (E := id_engine) demo_ms _ _ _ _ Hrun). cbn [run]. by rewrite Hs. }
  assert (Hd : done (st_mem st1) = true) by (destruct st; simpl in Hs; by simplify_eq).
  destruct (cancelled_stream_stops (E := id_engine) demo_ms (clock_at 400) (i_msg demo_input) st1 Hr Hd
    [] st1 eq_refl eq_refl) as (_ & _ & evs & st' & _ & Hrun & Hx).
  exists evs, st'. split; [|exact Hx]. cbn [run]. rewrite Hs. exact Hrun.
Defined.
