(* ===== verification/StreamSystem.v ===== *)
(** * Streaming refines the system

    Every step of a stream changes the world (database, waiters, id generator) only by steps
    of [System]: the actions it runs, and listeners coming and going.  So what [System] proves
    of every run holds while clients stream. *)

From S2P Require Import Prelude Uuid Filter FilterParse Schema Backoff Notify Store Example Deliver.
From S2P Require Import Lifecycle Ack Receive Seek Prune Rpc System.
From S2P Require Import Streamer StreamSafety.

#[local] Arguments after {A P} _ _ _ _ : simpl never.
#[local] Arguments sender_call ms {A} _ _ _ _ : simpl never.
#[local] Arguments with_awaiter ms {P} _ _ _ : simpl never.

Section Refinement.
Context {E : Engine} {FP : FilterParser} {F : Float64} {U : UuidText}.
Context (ms : MessageStreamer).

Definition sys : world → world → Prop := rtc (System.step no_seek).

(** Others act only through the system. *)
Definition by_system (g : world → world) : Prop := ∀ w, sys w (g w).
Definition attempt_by_system {C} (y : attempt C) : Prop := by_system (a_others y).
Definition round_by_system (rd : round) : Prop :=
  Forall attempt_by_system (r_tries rd) ∧
  match r_select rd with FindTimeout tries => Forall attempt_by_system tries | _ => True end.
Definition event_by_system (ev : event) : Prop :=
  match ev with Sender i => round_by_system (i_round i) | Others g => by_system g | _ => True end.

Lemma sys_listener o w r : run_op o (w_reg w) = Ok ((), r) → sys w (with_reg r w).
Proof. intros H. apply rtc_once. by econstructor. Qed.

Lemma sys_tx rq now commit w : no_seek rq → sys w (DoTx commit (transaction rq now) w).2.
Proof. intros H. apply rtc_once. by constructor. Qed.

Lemma sys_cancel id c w : sys w (cancel_awaiter id c w).
Proof.
  unfold cancel_awaiter. destruct (CancelPublishAwaiter id c (w_reg w)) as [[[] r]|e|s] eqn:H; [|done..].
  by apply (sys_listener (OpCancelPublish id c)).
Qed.

Lemma sys_renew id old w c w' : renew_awaiter id old w = Ok (c, w') → sys w w'.
Proof.
  unfold renew_awaiter, mbind, M_bind.
  destruct (CancelPublishAwaiter id old (w_reg w)) as [[[] r]|e|s] eqn:H1; [|done..].
  destruct (PublishAwaiter id r) as [[c' r']|e|s] eqn:H2; [|done..]. intros [= -> <-].
  etrans; [by apply (sys_listener (OpCancelPublish id old))|].
  change (with_reg r' w) with (with_reg r' (with_reg r w)).
  apply (sys_listener (OpPublishAwaiter id)). simpl. unfold mbind, M_bind. by rewrite H2.
Qed.

(** Whatever the number of attempts, each of them is an action. *)
Lemma sys_runTx {C V A} (tx : V → C → Tx A) assign rq now tries v w res v' w' :
  (∀ v c, transaction (rq v c) (now c) = forget (tx v c)) → (∀ v c, no_seek (rq v c)) →
  Forall attempt_by_system tries → runTx tx assign tries v w = Some (res, v', w') → sys w w'.
Proof.
  intros Ht Hrq Htries. revert v w. induction Htries as [|y tries Ho _ IH]; intros v w; simpl; [done|].
  assert (Hrun : sys w (DoTx (a_commit y) (tx v (a_clock y)) (a_others y w)).2).
  { rewrite <- DoTx_forget, <- Ht. etrans; [apply Ho|]. by apply sys_tx. }
  destruct (DoTx _ _ _) as [[a|e|s] w2]; simpl in Hrun; [by intros [= _ _ <-]| |by intros [= _ _ <-]].
  destruct (is_deadlock e); [|by intros [= _ _ <-]]. intros H. etrans; [exact Hrun|by eapply IH].
Qed.

Lemma sys_round p id old rd w x w' :
  round_by_system rd → execute_round p id old rd w = Some (x, w') → sys w w'.
Proof.
  intros [Ho Hs]. unfold execute_round.
  destruct (renew_awaiter id old w) as [[c w1]|e|s] eqn:Hr; [|naive_solver..].
  apply sys_renew in Hr. destruct (runTx _ (keep_results p) _ _ _) as [[[res v] w2]|] eqn:Hx; [|done].
  apply (sys_runTx _ _ (λ _, ReqGetRound p false) (λ _, 0)) in Hx; [|done|by intros ?? []|done].
  assert (Hround : sys w w2) by by etrans. clear Hr Hx.
  assert (Hcancel : ∀ x0, Some (x0, cancel_awaiter id (Some c) w2) = Some (x, w') → sys w w').
  { intros x0 [= _ <-]. etrans; [exact Hround|apply sys_cancel]. }
  destruct res as [[[sub o] next]|e|s]; [|by apply Hcancel..].
  destruct v as [r|]; [by apply Hcancel|].
  destruct (r_select rd) as [tries| | |]; [|by intros [= _ <-]..|by apply Hcancel].
  intros ([[res []] w3] & Hx & [= _ ->])%fmap_Some.
  apply (sys_runTx _ _ (λ _ _, ReqGetTimeout p sub) (λ now, now)) in Hx; [|done|by intros ?? []|done].
  etrans; [exact Hround|]. etrans; [exact Hx|apply sys_cancel].
Qed.

(** A call whose effect on the world is one of the system's. *)
Lemma sys_after {A P} (exit : P) m (r : outcome A * world) k w0 w' m' pc' :
  sys w0 r.2 → (∀ a w, k a w = Moves w' m' pc' → sys w w') →
  after exit m r k = Moves w' m' pc' → sys w0 w'.
Proof.
  unfold after. destruct r as [[a|e|s] w]; simpl; intros Hr Hk H; [|by simplify_eq|done].
  etrans; [exact Hr|by eapply Hk].
Qed.
Lemma sys_sender_call {A} c m (r : outcome A * world) k w0 w' m' pc' :
  sys w0 r.2 → (∀ a w, k a w = Moves w' m' pc' → sys w w') →
  sender_call ms c m r k = Moves w' m' pc' → sys w0 w'.
Proof.
  intros Hr Hk H. destruct r as [[a|e|s] w]; [by apply (sys_after SExit m (Ok a, w) k _ _ m' pc')| |done].
  simpl in H. unfold sender_call in H. simplify_eq. etrans; [exact Hr|apply sys_cancel].
Qed.
Lemma sys_begin {A} begun (tx : world → outcome A * world) w :
  sys w (tx w).2 → sys w (begin_tx begun tx w).2.
Proof. by destruct begun. Qed.
Lemma sys_begin_tx {A} begun commit (m : Tx A) rq now w :
  no_seek rq → (∀ t, transaction rq now t = forget m t) →
  sys w (begin_tx begun (DoTx commit m) w).2.
Proof.
  intros Hn Ht. apply sys_begin. rewrite <- DoTx_forget.
  replace (DoTx commit (forget m) w) with (DoTx commit (transaction rq now) w); [by apply sys_tx|].
  unfold DoTx. by rewrite Ht.
Qed.
Lemma sys_awaiter {P} w m (k : chan → P) w' m' pc' :
  with_awaiter ms w m k = Moves w' m' pc' → sys w w'.
Proof.
  unfold with_awaiter, await. destruct (renew_awaiter _ _ _) as [[c w1]|?|?] eqn:H; intros; simplify_eq.
  by eapply sys_renew.
Qed.

Lemma sys_acks ack nack i w : sys w (doAcksNacks ack nack i w).2.
Proof.
  unfold doAcksNacks. apply (sys_begin_tx _ _ _ (ReqAckNack ack nack (i_now2 i)) (i_now i)); [by intros []|].
  intros t. simpl. unfold forget, mbind, M_bind. by destruct (AckNack _ _ _ _ t) as [[[] ?]|?|?].
Qed.
Lemma sys_delay ids delay i w : sys w (doDelay ids delay i w).2.
Proof.
  unfold doDelay. destruct ids as [|id ids]; [done|].
  apply (sys_begin_tx _ _ _ (ReqDelay (id :: ids) delay) (i_now i)); [by intros []|].
  intros t. simpl. unfold forget, mbind, M_bind. by destruct (DelayDeliveries_Execute _ _ _ t) as [[? ?]|?|?].
Qed.

Lemma sys_reader i w m pc w' m' pc' : reader_step i w m pc = Moves w' m' pc' → sys w w'.
Proof.
  destruct pc as [| |msg|msg|msg|msg|]; simpl; intros H; try done; try by simplify_eq.
  - by destruct (done m); simplify_eq.
  - eapply sys_after, H; [done|]. intros ? w1 ?. by simplify_eq/=.
  - assert (Hx : after RExit m (doAcksNacks (rq_Ack msg) (rq_Nack msg) i w)
      (λ _ w, Moves w m (RForget msg)) = Moves w' m' pc' → sys w w').
    { intros Hx. eapply sys_after, Hx; [apply sys_acks|]. intros ? w1 ?. by simplify_eq/=. }
    destruct (rq_Ack msg), (rq_Nack msg); [by simplify_eq|by apply Hx..].
  - destruct (rq_Delay msg); [by simplify_eq|].
    eapply sys_after, H; [exact (sys_delay (_ :: _) _ _ _)|]. intros ? w1 ?. by simplify_eq/=.
Qed.

Lemma sys_sender i w m pc w' m' pc' :
  round_by_system (i_round i) → sender_step ms i w m pc = Moves w' m' pc' → sys w w'.
Proof.
  intros Hr. destruct pc as [|c b|c b|c b|c p|c p id old|c p l|c l|]; simpl; intros H; try done; try by simplify_eq.
  - by eapply sys_awaiter.
  - destruct (done m); simplify_eq; [apply sys_cancel|done].
  - destruct (has_room _); [|by simplify_eq]. destruct (NewGetSubscriptionMessages _); by simplify_eq.
  - destruct (i_other i); [destruct (notified c w); [by eapply sys_awaiter|done]|].
    destruct (wakeSend m); by simplify_eq.
  - assert (Hb : sys w (begin_tx (i_begun i) (DoTx (i_commit i) (first_tx p (i_now i))) w).2).
    { by apply (sys_begin_tx _ _ _ (ReqGetFirst p) (i_now i)); [intros []|]. }
    apply first_call_cases in H as [[-> _]|H]; [done|].
    eapply sys_sender_call, H; [exact Hb|intros ? w1 ?; by simplify_eq/=].
  - destruct (match _ with ContextDone _ => _ | _ => _ end); [done|].
    assert (Hb : sys w (begin_tx (i_begun i) (λ w,
      match execute_round p id old (i_round i) w with Some (r, w) => (Ok (Some r), w) | None => (Ok None, w) end) w).2).
    { apply sys_begin. destruct (execute_round _ _ _ _ _) as [[x w1]|] eqn:Hx; [by eapply sys_round|done]. }
    destruct (begin_tx _ _ _) as [[[[res|c']|]|e|s] w1]; simpl in Hb; [|by simplify_eq|done| |done].
    + eapply sys_sender_call, H; [done|]. intros ? w2 ?. by simplify_eq/=.
    + eapply sys_sender_call, H; [|done]. simpl. etrans; [exact Hb|apply sys_cancel].
  - eapply sys_sender_call, H; [done|]. intros ? w1 ?. by simplify_eq/=.
Qed.

Lemma sys_refresher i w m pc w' m' pc' : refresher_step ms i w m pc = Moves w' m' pc' → sys w w'.
Proof.
  destruct pc as [|c|c|c now ids|c ids found|c|]; simpl; intros H; try done; try by simplify_eq.
  - by eapply sys_awaiter.
  - destruct (i_other i); [destruct (done m); by simplify_eq|].
    destruct (notified c w); [by eapply sys_awaiter|done].
  - destruct (_.*1); by simplify_eq.
  - eapply sys_after, H; [done|]. intros ? w1 ?. by simplify_eq/=.
Qed.

Lemma sys_delayer i w m pc w' m' pc' : delayer_step ms i w m pc = Moves w' m' pc' → sys w w'.
Proof.
  destruct pc as [|a k|a k|a k now ids|a k now ids|]; simpl; intros H; try done; try by simplify_eq.
  - eapply sys_after, H; [by apply sys_begin|]. intros s w1 H1.
    eapply sys_after, H1; [done|]. intros ? w2 ?. by simplify_eq/=.
  - destruct (i_other i), (done m); by simplify_eq.
  - destruct (_.*1); by simplify_eq.
  - eapply sys_after, H; [exact (sys_delay _ _ _ _)|]. intros ? w1 ?. by simplify_eq/=.
Qed.

Lemma sys_step ev st st' :
  event_by_system ev → Streamer.step ms ev st = Some (inr st') → sys (st_world st) (st_world st').
Proof.
  destruct st as [w m r s f d c]. intros Hev H.
  destruct ev as [i|i|i|i| |g|]; simpl in H; try apply moved_inr in H as (w' & m' & pc & H & ->); simpl.
  - by eapply sys_reader.
  - by eapply sys_sender.
  - by eapply sys_refresher.
  - by eapply sys_delayer.
  - destruct c; simpl in H; try destruct (done m); by simplify_eq.
  - simplify_eq. apply Hev.
  - by simplify_eq.
Qed.

(** C16 Whatever a stream does to the world is a run of the system without a seek, provided
    that the other users act through the system too.  So in a world the system can reach all
    its invariants hold at every moment of the stream, and a delivery that was completed when
    the stream began is never handed out by it: at any later moment it is gone or still
    completed. *)
Theorem stream_refines_system w evs st :
  Forall event_by_system evs → run ms evs (initial_stream ms w) = Some (inr st) →
  sys w (st_world st) ∧
  (System.reachable w → world_wf (st_world st) ∧
     ((∀ i j, new_uuid i = new_uuid j → i = j) →
      ∀ k e, deliveries (w_db w) !! k = Some e → is_Some (d_completedAt e) →
      ∀ e', deliveries (w_db (st_world st)) !! k = Some e' → is_Some (d_completedAt e'))).
Proof.
  intros Hevs Hrun.
  assert (Hs : sys w (st_world st)).
  { change w with (st_world (initial_stream ms w)). revert Hrun.
    generalize (initial_stream ms w) as st0.
    induction Hevs as [|ev evs Hev _ IH]; intros st0; simpl; [by intros [= ->]|].
    destruct (Streamer.step ms ev st0) as [[|st1]|] eqn:H1; [done| |done]. intros Hrun.
    etrans; [by eapply sys_step|by apply IH]. }
  split; [done|]. intros Hr. split.
  - eapply steps_wf, reachable_world_wf, Hr. exact Hs.
  - intros Hinj k e He Hc. eapply completed_stays; done.
Qed.
End Refinement.

#[local] Existing Instance bits_text.

(** ** Witness *)

Lemma stream_refines_system_witness :
  ∃ st, demo_stream 6 = inr st ∧ sys (E := id_engine) (MkWorld example_db empty_registry 0) (st_world st).
Proof.
  destruct (demo_stream 6) as [s|st] eqn:H; [vm_compute in H; discriminate|].
  exists st. split; [reflexivity|].
  assert (Hrun : run (E := id_engine) demo_ms (replicate 6 (Sender demo_input))
    (initial_stream demo_ms (MkWorld example_db empty_registry 0)) = Some (inr st)).
  { unfold demo_stream in H. destruct (run _ _ _) as [[|st']|]; simpl in H; [discriminate|by simplify_eq|discriminate]. }
  apply (stream_refines_system (E := id_engine) demo_ms _ (replicate 6 (Sender demo_input)) st); [|exact Hrun].
  apply Forall_replicate. split; [|exact I].
  apply Forall_cons_2, Forall_nil_2. intros w. apply rtc_refl.
Defined.
