(* ===== verification/GrpcSystem.v ===== *)
(** * The services refine the system

    Every unary method of the publisher and the subscriber service as one request [rpc], with
    what the environment contributes to it (the database's answers to [COMMIT], the clock, what
    others do meanwhile).  What a method does to the world is a run of [System], so what holds of
    every run holds under any sequence of requests; and the requests on which a method panics
    are characterised. *)

From S2P Require Import Prelude Uuid Filter FilterParse Schema Backoff Notify Store Example Deliver.
From S2P Require Import Lifecycle Ack Receive Seek Prune Rpc Publisher Subscriber System NoPanic.
From S2P Require Import StreamSystem.

Inductive rpc :=
  | RpcListTopics (req : ListTopicsRequest) (committed : outcome ())
  | RpcCreateTopic (req : PbTopic) (committed : outcome ()) (now : time)
  | RpcGetTopic (name : string) (committed : outcome ())
  | RpcUpdateTopic (req : UpdateTopicRequest) (committed : outcome ())
  | RpcDeleteTopic (name : string) (committed : outcome ()) (now : time)
  | RpcListTopicSubscriptions (req : ListTopicSubscriptionsRequest) (committed : outcome ())
  | RpcPublish (req : PublishRequest) (committed : outcome ()) (now : nat → time)
  | RpcCreateSubscription (req : PbSubscription) (committed : outcome ()) (now createdAt : time)
  | RpcGetSubscription (name : string) (committed : outcome ())
  | RpcUpdateSubscription (req : option PbSubscription) (paths : list string) (committed : outcome ())
      (now : nat → time)
  | RpcListSubscriptions (req : ListTopicsRequest) (committed : outcome ())
  | RpcDeleteSubscription (name : string) (committed : outcome ()) (now : time)
  | RpcModifyPushConfig (name : string) (cfg : option PushConfig) (committed : outcome ())
  | RpcModifyAckDeadline (name : string) (AckIds : list string) (AckDeadlineSeconds : Z)
      (rounds : list (outcome ())) (now : time)
  | RpcAcknowledge (name : string) (AckIds : list string) (rounds : list (outcome ())) (now : time)
  | RpcPull (req : PullRequest) (first : list (attempt time)) (rounds : list round)
  | RpcSeek (name : string) (target : option seek_target) (rounds : list (outcome ())) (now : time)
  | RpcGetSnapshot (name : string) (committed : outcome ())
  | RpcListSnapshots (req : ListTopicsRequest) (committed : outcome ())
  | RpcCreateSnapshot (name subscription : string) (l : option labels) (committed : outcome ()) (now : time)
  | RpcUpdateSnapshot
  | RpcDeleteSnapshot (name : string) (committed : outcome ()).

Section Handle.
Context {E : Engine} {FP : FilterParser} {F : Float64} {U : UuidText}.

(** The response is left aside: only whether it is one. *)
Definition done_with {A} (r : outcome A * world) : option (outcome () * world) :=
  Some (map_ok (λ _, ()) r.1, r.2).

Definition handle (r : rpc) (w : world) : option (outcome () * world) :=
  match r with
  | RpcListTopics req c => done_with (ListTopics req c w)
  | RpcCreateTopic req c now => done_with (CreateTopic req c now w)
  | RpcGetTopic name c => done_with (GetTopic name c w)
  | RpcUpdateTopic req c => done_with (UpdateTopic req c w)
  | RpcDeleteTopic name c now => done_with (DeleteTopic name c now w)
  | RpcListTopicSubscriptions req c => done_with (ListTopicSubscriptions req c w)
  | RpcPublish req c now => done_with (Publish req c now w)
  | RpcCreateSubscription req c now createdAt => done_with (CreateSubscription req c now createdAt w)
  | RpcGetSubscription name c => done_with (GetSubscription name c w)
  | RpcUpdateSubscription req paths c now => done_with (UpdateSubscription req paths c now w)
  | RpcListSubscriptions req c => done_with (ListSubscriptions req c w)
  | RpcDeleteSubscription name c now => done_with (DeleteSubscription name c now w)
  | RpcModifyPushConfig name cfg c => done_with (ModifyPushConfig name cfg c w)
  | RpcModifyAckDeadline name ids secs rounds now => ModifyAckDeadline name ids secs rounds now w
  | RpcAcknowledge name ids rounds now => Acknowledge name ids rounds now w
  | RpcPull req first rounds => Pull req first rounds w ≫= done_with
  | RpcSeek name target rounds now => Subscriber.Seek name target rounds now w
  | RpcGetSnapshot name c => done_with (GetSnapshot name c w)
  | RpcListSnapshots req c => done_with (ListSnapshots req c w)
  | RpcCreateSnapshot name sub l c now => done_with (CreateSnapshot name sub l c now w)
  | RpcUpdateSnapshot => done_with (UpdateSnapshot w)
  | RpcDeleteSnapshot name c => done_with (DeleteSnapshot name c w)
  end.

(** Requests one after the other; [None]: one of them is still waiting. *)
Fixpoint serve (rs : list rpc) (w : world) : option world :=
  match rs with
  | [] => Some w
  | r :: rs => handle r w ≫= λ '(_, w), serve rs w
  end.
End Handle.

(** The actions a request may run: only [Seek] runs a seek. *)
Definition rpc_allowed (r : rpc) : request → Prop :=
  match r with RpcSeek _ _ _ _ => any_request | _ => no_seek end.
(** While a [Pull] waits, others act through the system. *)
Definition rpc_by_system `{Engine} `{FilterParser} `{Float64} `{UuidText} (r : rpc) : Prop :=
  match r with
  | RpcPull _ first rounds => Forall attempt_by_system first ∧ Forall round_by_system rounds
  | _ => True
  end.

(** ** Transactions of the handlers *)

Section Runs.
Context {E : Engine} {FP : FilterParser} {F : Float64} {U : UuidText}.

Lemma DoTx_runs {A} committed (m : Tx A) rq now allowed w :
  allowed rq → transaction rq now = forget m → rtc (step allowed) w (DoTx committed m w).2.
Proof. intros Hal Ht. rewrite <- DoTx_forget, <- Ht. by apply rtc_once, step_action. Qed.

Lemma retried_runs {A} rounds (m : Tx A) f rq now allowed w res w' :
  allowed rq → transaction rq now = forget m →
  retried rounds m f w = Some (res, w') → rtc (step allowed) w w'.
Proof.
  intros Hal Ht. unfold retried. intros ([res1 w1] & H & [= _ ->])%fmap_Some. revert w H.
  induction rounds as [|c rounds IH]; intros w; simpl; [done|].
  pose proof (DoTx_runs c m rq now allowed w Hal Ht) as Hrun.
  destruct (DoTx c m w) as [[a|e|s] w2]; simpl in Hrun; [by intros [= <- <-]| |by intros [= <- <-]].
  destruct (RetryOnErrorCode _ _ e); [intros H; etrans; [exact Hrun|by apply IH]|by intros [= <- <-]].
Qed.

Lemma execute_loop_runs p id old rounds w res w' :
  Forall round_by_system rounds → execute_loop p id old rounds w = Some (res, w') → sys w w'.
Proof.
  intros Hr. revert old w. induction Hr as [|rd rounds Hrd _ IH]; intros old w; simpl; [done|].
  destruct (execute_round p id old rd w) as [[x w1]|] eqn:Hx; [|done]. apply sys_round in Hx; [|done].
  destruct x as [r|c]; [by intros [= -> ->]|]. intros H. etrans; [exact Hx|by eapply IH].
Qed.
Lemma ExecuteClient_runs p first rounds w res w' :
  Forall attempt_by_system first → Forall round_by_system rounds →
  ExecuteClient p first rounds w = Some (res, w') → sys w w'.
Proof.
  intros Hf Hr. unfold ExecuteClient. destruct (runTx _ _ _ _ _) as [[[res1 p1] w1]|] eqn:Hx; [|done].
  apply (sys_runTx _ _ (λ p _, ReqGetFirst p) (λ now, now)) in Hx; [|done|by intros ?? []|done].
  destruct res1 as [id|e|s]; [|by intros [= _ <-]..].
  intros H%execute_loop_runs; [|done]. by etrans.
Qed.

Lemma done_with_Some {A} (x : outcome A * world) res w' :
  done_with x = Some (res, w') → res = map_ok (λ _, ()) x.1 ∧ w' = x.2.
Proof. by intros [= -> ->]. Qed.
End Runs.

(** ** Refinement *)

Section Refine.
Context {E : Engine} {FP : FilterParser} {F : Float64} {U : UuidText}.

Lemma DoTx_snd {A B} committed (m : Tx A) w (f : outcome A → outcome B) :
  (let '(res, w') := DoTx committed m w in (f res, w')).2 = (DoTx committed m w).2.
Proof. by destruct (DoTx _ _ _). Qed.

(** The guards before a handler's transaction leave the world alone. *)
Ltac guards := repeat (simpl; lazymatch goal with
  | |- rtc _ ?w ?w => reflexivity
  | |- rtc _ _ (if ?b then _ else _).2 => destruct b
  | |- rtc _ _ (match ?o with _ => _ end).2 =>
      lazymatch o with DoTx _ _ _ => rewrite DoTx_snd | _ => destruct o end
  end).
Ltac runs rq now := apply (DoTx_runs _ _ rq now); [by try intros []|reflexivity].
Lemma Pull_runs req first rounds w res w' :
  Forall attempt_by_system first → Forall round_by_system rounds →
  Pull req first rounds w = Some (res, w') → sys w w'.
Proof.
  intros Hf Hr. unfold Pull. destruct (negb _); [by intros [= _ <-]|].
  destruct (NewGetSubscriptionMessages _) as [p|e|s]; [|by intros [= _ <-]..].
  intros ([res1 w1] & H & [= _ ->])%fmap_Some. by eapply ExecuteClient_runs.
Qed.

Lemma handle_refines r w res w' :
  rpc_by_system r → handle r w = Some (res, w') → rtc (step (rpc_allowed r)) w w'.
Proof.
  intros Hr H. destruct r; simpl in *; try (apply done_with_Some in H as [_ ->]).
  - unfold ListTopics. guards. runs (ReqRead (ReadTopics req)) 0.
  - unfold CreateTopic. guards. runs (ReqCreateTopic a) now.
  - unfold GetTopic. guards. runs (ReqRead (ReadTopic name)) 0.
  - unfold UpdateTopic. guards. runs (ReqUpdateTopic p (ut_Paths req)) 0.
  - unfold DeleteTopic. guards. runs (ReqDeleteTopic name) now.
  - unfold ListTopicSubscriptions. guards. runs (ReqRead (ReadTopicSubscriptions req)) 0.
  - unfold Publish. guards. runs (ReqPublishAll req now) 0.
  - unfold CreateSubscription. guards. runs (ReqCreateSubscription a createdAt) now.
  - unfold GetSubscription. guards. runs (ReqRead (ReadSubscription name)) 0.
  - unfold UpdateSubscription. guards. runs (ReqUpdateSubscription p paths now) 0.
  - unfold ListSubscriptions. guards. runs (ReqRead (ReadSubscriptions req)) 0.
  - unfold DeleteSubscription. guards. runs (ReqDeleteSubscription name) now.
  - unfold ModifyPushConfig. guards.
    apply rtc_once, (step_action no_seek (ReqModifyPushConfig name cfg) 0). by intros [].
  - unfold ModifyAckDeadline in H. destruct (negb _); [by simplify_eq|].
    destruct (parse_all _ _) as [ids|e|s]; [|by simplify_eq..].
    by eapply (retried_runs _ _ _ (ReqDelay ids (AckDeadlineSeconds * Second)) now); [intros []| |exact H].
  - unfold Acknowledge in H. destruct (negb _); [by simplify_eq|].
    destruct (parse_all _ _) as [ids|e|s]; [|by simplify_eq..].
    by eapply (retried_runs _ _ _ (ReqAck ids) now); [intros []| |exact H].
  - apply bind_Some in H as ([res1 w1] & H & [_ ->]%done_with_Some). destruct Hr. by eapply Pull_runs.
  - unfold Subscriber.Seek in H. destruct (negb _); [by simplify_eq|].
    destruct target as [[target|snapshot]|]; [..|by simplify_eq].
    + destruct (NewSeekSubscriptionToTime _) as [p|e|s]; [|by simplify_eq..].
      by eapply (retried_runs _ _ _ (ReqSeekTime p) now); [| |exact H].
    + destruct (NewSeekSubscriptionToSnapshot _) as [p|e|s]; [|by simplify_eq..].
      by eapply (retried_runs _ _ _ (ReqSeekSnapshot p) now); [| |exact H].
  - unfold GetSnapshot. guards. runs (ReqRead (ReadSnapshot name)) 0.
  - unfold ListSnapshots. guards. runs (ReqRead (ReadSnapshots req)) 0.
  - unfold CreateSnapshot. guards. runs (ReqCreateSnapshot a) now.
  - reflexivity.
  - unfold DeleteSnapshot. guards. runs (ReqDeleteSnapshot name) 0.
Qed.
End Refine.

(** ** Sequences of requests *)

Section Serve.
Context {E : Engine} {FP : FilterParser} {F : Float64} {U : UuidText}.

Definition seeks (r : rpc) : Prop := match r with RpcSeek _ _ _ _ => True | _ => False end.

Lemma any_of_allowed allowed w w' : rtc (step allowed) w w' → rtc (step any_request) w w'.
Proof. apply rtc_subrel. intros v v' [rq now c u _|o u r Hr]; by econstructor. Qed.

Lemma serve_refines rs w w' :
  Forall rpc_by_system rs → serve rs w = Some w' →
  rtc (step any_request) w w' ∧ (Forall (λ r, ¬ seeks r) rs → sys w w').
Proof.
  intros Hrs. revert w. induction Hrs as [|r rs Hr _ IH]; intros w; simpl; [by intros [= ->]|].
  intros ([res w1] & H%handle_refines & Hs)%bind_Some; [|done]. destruct (IH w1 Hs) as [H1 H2]. split.
  - etrans; [by eapply any_of_allowed|done].
  - intros [Hseek Hrest]%Forall_cons. etrans; [|by apply H2]. by destruct r.
Qed.

(** C3 Whatever requests the services are sent, in whatever order, with whatever
    answers the database gives to the commits, and while a [Pull] waits for messages others do
    what they like through the system: a reachable world becomes a reachable world, in which all
    constraints hold; and if no request is a [Seek], a delivery that was acknowledged before is
    gone or still acknowledged. *)
Theorem served_requests_safe rs w w' :
  Forall rpc_by_system rs → serve rs w = Some w' → System.reachable w →
  System.reachable w' ∧ world_wf w' ∧
  ((∀ i j, new_uuid i = new_uuid j → i = j) → Forall (λ r, ¬ seeks r) rs →
   ∀ k e, deliveries (w_db w) !! k = Some e → is_Some (d_completedAt e) →
   ∀ e', deliveries (w_db w') !! k = Some e' → is_Some (d_completedAt e')).
Proof.
  intros Hrs Hserve Hw. destruct (serve_refines rs w w' Hrs Hserve) as [Hany Hsys].
  assert (Hw' : System.reachable w') by (unfold System.reachable in *; by etrans).
  split_and!; [done|by apply reachable_world_wf|].
  intros Hinj Hseek k e He Hc. by apply (completed_stays w w' k e Hinj Hw He Hc (Hsys Hseek)).
Qed.
End Serve.

(** ** Requests that panic *)

(** What the environment may do: no driver panics, and others act through the system. *)
Definition calm_attempt `{Engine} `{FilterParser} `{Float64} `{UuidText} {C} (y : attempt C) : Prop :=
  attempt_by_system y ∧ no_panic (a_commit y).
Definition calm_round `{Engine} `{FilterParser} `{Float64} `{UuidText} (rd : round) : Prop :=
  Forall calm_attempt (r_tries rd) ∧
  match r_select rd with FindTimeout tries => Forall calm_attempt tries | _ => True end.
Definition rpc_calm `{Engine} `{FilterParser} `{Float64} `{UuidText} (r : rpc) : Prop :=
  match r with
  | RpcListTopics _ c | RpcCreateTopic _ c _ | RpcGetTopic _ c | RpcUpdateTopic _ c | RpcDeleteTopic _ c _
  | RpcListTopicSubscriptions _ c | RpcPublish _ c _ | RpcCreateSubscription _ c _ _
  | RpcGetSubscription _ c | RpcUpdateSubscription _ _ c _ | RpcListSubscriptions _ c
  | RpcDeleteSubscription _ c _ | RpcModifyPushConfig _ _ c | RpcGetSnapshot _ c | RpcListSnapshots _ c
  | RpcCreateSnapshot _ _ _ c _ | RpcDeleteSnapshot _ c => no_panic c
  | RpcModifyAckDeadline _ _ _ rounds _ | RpcAcknowledge _ _ rounds _ | RpcSeek _ _ rounds _ =>
      Forall no_panic rounds
  | RpcPull _ first rounds => Forall calm_attempt first ∧ Forall calm_round rounds
  | RpcUpdateSnapshot => True
  end.

Definition bad_dead_letter_policy (dlp : DeadLetterPolicy) : Prop :=
  dlp_MaxDeliveryAttempts dlp < 0 ∨ dlp_DeadLetterTopic dlp = EmptyString.

#[export] Instance bad_dead_letter_policy_dec dlp : Decision (bad_dead_letter_policy dlp).
Proof. unfold bad_dead_letter_policy. apply _. Defined.
Definition bad_subscription (req : PbSubscription) : Prop :=
  default 0 (ps_Ttl req) < 0 ∨ default 0 (ps_MessageRetentionDuration req) < 0 ∨
  ∃ dlp, ps_DeadLetterPolicy req = Some dlp ∧ bad_dead_letter_policy dlp.

#[export] Instance bad_subscription_dec req : Decision (bad_subscription req).
Proof.
  unfold bad_subscription. destruct (ps_DeadLetterPolicy req) as [dlp|].
  - destruct (decide (bad_dead_letter_policy dlp)) as [Hb|Hb].
    + left. right. right. by exists dlp.
    + destruct (decide (default 0 (ps_Ttl req) < 0 ∨ default 0 (ps_MessageRetentionDuration req) < 0)) as [H|H];
        [left; tauto|right]. intros [?|[?|(? & [= <-] & ?)]]; tauto.
  - destruct (decide (default 0 (ps_Ttl req) < 0 ∨ default 0 (ps_MessageRetentionDuration req) < 0)) as [H|H];
      [left; tauto|right]. intros [?|[?|(? & ? & ?)]]; [tauto..|done].
Defined.

(** The parts of a request that the code dereferences or hands to a constructor unchecked. *)
Definition bad_request (r : rpc) : Prop :=
  match r with
  | RpcUpdateTopic req _ => ut_Topic req = None
  | RpcUpdateSubscription req paths _ _ =>
      match req with None => True | Some req => "push_config" ∈ paths ∧ ps_PushConfig req = None end
  | RpcModifyPushConfig _ cfg _ => cfg = None
  | RpcCreateSubscription req _ _ _ => bad_subscription req
  | RpcPull req _ _ => pl_MaxMessages req < 1
  | RpcSeek _ target _ _ => target = Some (SeekTime zero_time) ∨ target = Some (SeekSnapshot EmptyString)
  | _ => False
  end.

Section Panics.
Context {E : Engine} {FP : FilterParser} {F : Float64} {U : UuidText}.

Lemma no_panic_map_error {A} f (o : outcome A) : no_panic o → no_panic (map_error f o).
Proof. intros Ho msg. specialize (Ho msg). by destruct o. Qed.
Lemma no_panic_map_ok {A B} (f : A → B) (o : outcome A) : no_panic o → no_panic (map_ok f o).
Proof. intros Ho msg Hm. apply (Ho msg). by destruct o; simplify_eq/=. Qed.
Lemma no_panic_bind {A B} (f : A → outcome B) (o : outcome A) :
  no_panic o → (∀ a, no_panic (f a)) → no_panic (o ≫= f).
Proof. intros Ho Hf msg Hm. destruct o as [a|e|s]; [by apply (Hf a msg)|done|by apply (Ho s)]. Qed.

Lemma forgotten_no_panic {A} (m : Tx A) rq now w :
  transaction rq now = forget m → ¬ may_panic rq → world_wf w → no_panic (m (txn_of w)).
Proof.
  intros Ht Hrq W msg Hp. apply Hrq, (transaction_no_panic rq now (txn_of w) msg); [apply W|].
  rewrite Ht. unfold forget, mbind, M_bind. by rewrite Hp.
Qed.

Lemma retried_no_panic {A} rounds (m : Tx A) f rq now w res w' :
  world_wf w → transaction rq now = forget m → ¬ may_panic rq → Forall no_panic rounds →
  retried rounds m f w = Some (res, w') → no_panic res.
Proof.
  intros W Ht Hrq Hrounds. unfold retried. intros ([res1 w1] & H & [= -> _])%fmap_Some.
  apply no_panic_bind; [|by intros a msg]. apply no_panic_map_error. revert w W H.
  induction Hrounds as [|c rounds Hc _ IH]; intros w W; simpl; [done|].
  pose proof (DoTx_no_panic c m w (ww_reg _ W) (forgotten_no_panic m rq now w Ht Hrq W) Hc) as Hnp.
  pose proof (DoTx_runs c m rq now any_request w I Ht) as Hrun.
  destruct (DoTx c m w) as [[a|e|s] w2]; simpl in *; [by intros [= <- <-]| |by destruct (Hnp s)].
  destruct (RetryOnErrorCode _ _ e); [|by intros [= <- <-]]. apply IH. by eapply steps_wf.
Qed.

Lemma renew_awaiter_no_panic id old w : world_wf w → ∀ s, renew_awaiter id old w ≠ Panic s.
Proof.
  intros [_ Wr] s. unfold renew_awaiter, mbind, M_bind.
  pose proof (run_op_effect (OpCancelPublish id old) _ Wr) as H1. unfold wp in H1. simpl in H1.
  destruct (CancelPublishAwaiter id old (w_reg w)) as [[[] r]|e|m]; [|done..].
  pose proof (wp_PublishAwaiter id r) as H2. unfold wp in H2.
  by destruct (PublishAwaiter id r) as [[c r']|e|m].
Qed.

Lemma runTx_no_panic {C V A} (tx : V → C → Tx A) assign rq now tries v w res v' w' :
  (∀ v c, transaction (rq v c) (now c) = forget (tx v c)) → (∀ v c, ¬ may_panic (rq v c)) →
  world_wf w → Forall calm_attempt tries → runTx tx assign tries v w = Some (res, v', w') →
  no_panic res ∧ world_wf w'.
Proof.
  intros Ht Hrq W Htries. revert v w W.
  induction Htries as [|y tries [Ho Hc] _ IH]; intros v w W; simpl; [done|].
  assert (W1 : world_wf (a_others y w)) by (by eapply steps_wf; [apply Ho|]).
  pose proof (DoTx_no_panic (a_commit y) (tx v (a_clock y)) _ (ww_reg _ W1)
    (forgotten_no_panic _ _ _ _ (Ht v (a_clock y)) (Hrq v (a_clock y)) W1) Hc) as Hnp.
  pose proof (DoTx_runs (a_commit y) _ _ _ any_request (a_others y w) I (Ht v (a_clock y))) as Hrun.
  destruct (DoTx _ _ _) as [[a|e|s] w2]; simpl in *; [intros [= <- _ <-]| |by destruct (Hnp s)].
  - split; [done|by eapply steps_wf].
  - destruct (is_deadlock e); [apply IH; by eapply steps_wf|]. intros [= <- _ <-]. split; [done|by eapply steps_wf].
Qed.

Lemma calm_round_by_system rd : calm_round rd → round_by_system rd.
Proof.
  intros [Ht Hs]. split; [eapply Forall_impl; [exact Ht|by intros ? []]|].
  destruct (r_select rd); try done. eapply Forall_impl; [exact Hs|by intros ? []].
Qed.

Lemma execute_round_no_panic p id old rd w s w' :
  world_wf w → calm_round rd → execute_round p id old rd w ≠ Some (inl (Panic s), w').
Proof.
  intros W [Ht Hs]. unfold execute_round.
  destruct (renew_awaiter id old w) as [[c w1]|e|m] eqn:Hr; [|done|by apply renew_awaiter_no_panic in Hr].
  apply sys_renew in Hr. assert (W1 : world_wf w1) by (by eapply steps_wf).
  destruct (runTx _ (keep_results p) _ _ _) as [[[res v] w2]|] eqn:Hx; [|done].
  apply (runTx_no_panic _ _ (λ _, ReqGetRound p false) (λ _, 0)) in Hx as [Hnp W2]; [|done|by intros ?? []|done..].
  destruct res as [[[sub o] next]|e|msg]; [|done|by destruct (Hnp msg)].
  destruct v as [r|]; [done|]. destruct (r_select rd) as [tries| | |]; [|done..].
  intros ([[res []] w3] & Hx & [= <- _])%fmap_Some.
  by apply (runTx_no_panic _ _ (λ _ _, ReqGetTimeout p sub) (λ now, now)) in Hx as [Hnp2 _];
    [destruct (Hnp2 s)|done|intros ?? []|done..].
Qed.

Lemma execute_loop_no_panic p id old rounds w s w' :
  world_wf w → Forall calm_round rounds → execute_loop p id old rounds w ≠ Some (Panic s, w').
Proof.
  intros W Hr. revert old w W. induction Hr as [|rd rounds Hrd _ IH]; intros old w W; simpl; [done|].
  destruct (execute_round p id old rd w) as [[[r|c] w1]|] eqn:Hx; [| |done].
  - intros [= -> ->]. by eapply execute_round_no_panic.
  - apply IH. eapply steps_wf; [|exact W]. eapply sys_round; [by apply calm_round_by_system|exact Hx].
Qed.

Lemma ExecuteClient_no_panic p first rounds w s w' :
  world_wf w → Forall calm_attempt first → Forall calm_round rounds →
  ExecuteClient p first rounds w ≠ Some (Panic s, w').
Proof.
  intros W Hf Hr. unfold ExecuteClient. destruct (runTx _ _ _ _ _) as [[[res p1] w1]|] eqn:Hx; [|done].
  apply (runTx_no_panic _ _ (λ p _, ReqGetFirst p) (λ now, now)) in Hx as [Hnp W1]; [|done|by intros ?? []|done..].
  destruct res as [id|e|m]; [|done|by destruct (Hnp m)]. by apply execute_loop_no_panic.
Qed.

Lemma NewCreateSubscription_accepts p :
  0 < cs_TTL p → 0 < cs_MessageTTL p → 0 ≤ cs_MaxDeliveryAttempts p →
  (cs_MaxDeliveryAttempts p = 0 ↔ cs_DeadLetterTopic p = EmptyString) → NewCreateSubscription p = Ok p.
Proof.
  intros H1 H2 H3 H4. unfold NewCreateSubscription, is_empty.
  rewrite !(proj2 (Z.leb_gt _ _)), (proj2 (Z.ltb_ge _ _)) by lia.
  destruct (Z.eqb_spec (cs_MaxDeliveryAttempts p) 0), (bool_decide_reflect (cs_DeadLetterTopic p = EmptyString));
    naive_solver.
Qed.

Lemma or_default_pos dflt d : 0 < dflt → 0 < or_default dflt d ↔ ¬ d < 0.
Proof. intros ?. unfold or_default. destruct (Z.eqb_spec d 0); lia. Qed.

Lemma create_sub_panics req :
  (∃ s, NewCreateSubscription (create_sub_params req) = Panic s) ↔ bad_subscription req.
Proof.
  assert (Httl : 0 < cs_TTL (create_sub_params req) ↔ ¬ default 0 (ps_Ttl req) < 0) by by apply or_default_pos.
  assert (Hmttl : 0 < cs_MessageTTL (create_sub_params req) ↔ ¬ default 0 (ps_MessageRetentionDuration req) < 0)
    by by apply or_default_pos.
  set (dl := ∃ dlp, ps_DeadLetterPolicy req = Some dlp ∧ bad_dead_letter_policy dlp).
  assert (Hdl : 0 ≤ cs_MaxDeliveryAttempts (create_sub_params req) ∧
    (cs_MaxDeliveryAttempts (create_sub_params req) = 0 ↔ cs_DeadLetterTopic (create_sub_params req) = EmptyString)
    ↔ ¬ dl).
  { unfold dl, bad_dead_letter_policy. simpl. destruct (ps_DeadLetterPolicy req) as [dlp|]; [|naive_solver].
    pose proof (or_default_pos defaultDeadLetterMaxAttempts (dlp_MaxDeliveryAttempts dlp) eq_refl) as Hpos.
    assert (or_default defaultDeadLetterMaxAttempts (dlp_MaxDeliveryAttempts dlp) ≠ 0).
    { unfold or_default. by destruct (Z.eqb_spec (dlp_MaxDeliveryAttempts dlp) 0). }
    split; [intros [H1 H2] (? & [= <-] & [?|?]); [lia|tauto]|].
    intros Hn. assert (¬ dlp_MaxDeliveryAttempts dlp < 0 ∧ dlp_DeadLetterTopic dlp ≠ EmptyString) as [? ?]
      by (split; intros ?; apply Hn; eauto). split; [lia|tauto]. }
  split.
  - intros [s Hs]. apply dec_stable. intros Hn. unfold bad_subscription in Hn. fold dl in Hn. rewrite NewCreateSubscription_accepts in Hs; [done|tauto..].
  - intros Hbad. destruct (NewCreateSubscription _) as [p|e|s] eqn:Hnew; [..|by eexists].
    + apply NewCreateSubscription_Ok in Hnew as (_ & ? & ? & ? & ?). unfold bad_subscription in Hbad. fold dl in Hbad. tauto.
    + unfold NewCreateSubscription in Hnew. by repeat case_match.
Qed.

(** The guards on the way to the place where a bad request panics. *)
Definition reaches (r : rpc) : Prop :=
  match r with
  | RpcUpdateSubscription (Some _) _ _ _ => False
  | RpcModifyPushConfig name _ _ | RpcSeek name _ _ _ => isValidSubscriptionName name = true
  | RpcPull req _ _ => isValidSubscriptionName (pl_Subscription req) = true
  | RpcCreateSubscription req _ _ _ => isValidSubscriptionName (ps_Name req) = true ∧ ps_Detached req = false ∧
      match ps_PushConfig req with Some cfg => push_config_supported cfg = true | None => True end
  | _ => True
  end.

Lemma bad_request_panics r w : bad_request r → reaches r → ∃ msg, handle r w = Some (Panic msg, w).
Proof.
  destruct r; simpl; try done; unfold done_with.
  - intros Hreq _. unfold UpdateTopic. rewrite Hreq. by eexists.
  - intros [s Hs]%create_sub_panics (Hname & Hdet & Hcfg). unfold CreateSubscription. rewrite Hname, Hdet. simpl.
    destruct (ps_PushConfig req) as [cfg|]; rewrite ?Hcfg; simpl; rewrite Hs; by eexists.
  - destruct req; [done|]. by eexists.
  - intros -> Hname. unfold ModifyPushConfig. rewrite Hname. by eexists.
  - intros Hmax Hname. unfold Pull. rewrite Hname. simpl. unfold NewGetSubscriptionMessages. simpl.
    rewrite (proj2 (Z.ltb_lt _ _)) by lia. by eexists.
  - intros Ht Hname. unfold Subscriber.Seek. rewrite Hname. simpl.
    assert (Hne : is_empty name = false).
    { unfold is_empty. apply bool_decide_eq_false. by apply (has_shape_nonempty "subscriptions"). }
    destruct Ht as [-> | ->]; unfold NewSeekSubscriptionToTime, NewSeekSubscriptionToSnapshot; simpl;
      rewrite Hne; by eexists.
Qed.

Lemma DoTx_fst {A B} committed (m : Tx A) w (f : outcome A → outcome B) :
  (let '(res, w') := DoTx committed m w in (f res, w')).1 = f (DoTx committed m w).1.
Proof. by destruct (DoTx _ _ _). Qed.

(** The result of a handler that ends at once: its guards answer with errors, then its
    transaction. *)
Ltac quiet_guards := repeat (simpl; lazymatch goal with
  | |- no_panic (Ok _) => by intros ?
  | |- no_panic (Err _) => by intros ?
  | |- no_panic invalid => by intros ?
  | |- no_panic (map_ok _ _) => apply no_panic_map_ok
  | |- no_panic (map_error _ _) => apply no_panic_map_error
  | |- no_panic (_ ≫= _) => apply no_panic_bind; [|by intros ? ?]
  | |- no_panic (if ?b then _ else _).1 => let H := fresh "Hguard" in destruct b eqn:H
  | |- no_panic (let '(_, _) := DoTx _ _ _ in _).1 => rewrite DoTx_fst
  end).
Ltac quiet_tx rq now :=
  apply DoTx_no_panic; [by apply ww_reg|apply (forgotten_no_panic _ rq now); [done|exact (λ H, H)|done]|done].
Lemma pull_params_accepted req :
  pl_Subscription req ≠ EmptyString → ¬ pl_MaxMessages req < 1 →
  NewGetSubscriptionMessages (pull_params req) = Ok (pull_params req).
Proof.
  intros Hname Hmax. unfold NewGetSubscriptionMessages. simpl.
  rewrite (proj2 (Z.ltb_ge _ _)), bool_decide_false by (done || lia). by destruct (pl_ReturnImmediately req).
Qed.

Lemma handle_no_panic r w msg w' :
  world_wf w → rpc_calm r → handle r w = Some (Panic msg, w') → bad_request r.
Proof.
  intros W Hc H. destruct r; simpl in *;
    try (apply done_with_Some in H as [H _]; symmetry in H; revert msg H;
         lazymatch goal with |- ∀ msg, ?o = Panic msg → False => change (no_panic o) | _ => idtac end).
  - unfold ListTopics. quiet_guards. quiet_tx (ReqRead (ReadTopics req)) 0.
  - unfold CreateTopic. quiet_guards. unfold NewCreateTopic. simpl.
    rewrite bool_decide_false by (apply negb_false_iff in Hguard; by apply has_shape_nonempty in Hguard).
    quiet_guards. quiet_tx (ReqCreateTopic (MkCreateTopic (pt_Name req) (pt_Labels req))) now.
  - unfold GetTopic. quiet_guards. quiet_tx (ReqRead (ReadTopic name)) 0.
  - unfold UpdateTopic. intros msg Hm. destruct (ut_Topic req) as [t|]; [exfalso; revert msg Hm|done].
    change (no_panic (map_ok (λ _, ()) (if negb (isValidTopicName (pt_Name t)) then (invalid, w)
      else DoTx committed (UpdateTopic_tx t (ut_Paths req)) w).1)). quiet_guards.
    quiet_tx (ReqUpdateTopic t (ut_Paths req)) 0.
  - unfold DeleteTopic. quiet_guards. quiet_tx (ReqDeleteTopic name) now.
  - unfold ListTopicSubscriptions. quiet_guards. quiet_tx (ReqRead (ReadTopicSubscriptions req)) 0.
  - unfold Publish. quiet_guards. quiet_tx (ReqPublishAll req now) 0.
  - intros msg Hm. apply create_sub_panics. revert Hm. unfold CreateSubscription.
    destruct (negb _); [done|]. destruct (ps_Detached req); [done|]. destruct (negb _); [done|].
    destruct (NewCreateSubscription _) as [p|e|s]; [|done|by eexists]. intros Hm. exfalso. revert msg Hm.
    lazymatch goal with |- ∀ msg, ?o = Panic msg → False => change (no_panic o) end. quiet_guards.
    quiet_tx (ReqCreateSubscription p createdAt) now.
  - unfold GetSubscription. quiet_guards. quiet_tx (ReqRead (ReadSubscription name)) 0.
  - intros msg Hm. destruct req as [req|]; [|done]. unfold UpdateSubscription in Hm.
    destruct (negb _); [done|].
    pose proof (UpdateSubscription_tx_run req paths now (txn_of w) (ww_db _ W)) as Hrun.
    destruct (UpdateSubscription_tx req paths now (txn_of w)) as [x|e|s] eqn:Htx; [exfalso..|exact Hrun];
      (eapply no_panic_map_ok, Hm; apply DoTx_no_panic; [by apply ww_reg|by rewrite Htx|done]).
  - unfold ListSubscriptions. quiet_guards. quiet_tx (ReqRead (ReadSubscriptions req)) 0.
  - unfold DeleteSubscription. quiet_guards. quiet_tx (ReqDeleteSubscription name) now.
  - intros msg Hm. destruct cfg as [cfg|]; [exfalso; revert msg Hm|done]. unfold ModifyPushConfig.
    assert (Hv : no_panic (validatePushConfig (Some cfg))).
    { intros s. unfold validatePushConfig. by repeat case_match. }
    lazymatch goal with |- ∀ msg, ?o = Panic msg → False => change (no_panic o) end. quiet_guards.
    destruct (validatePushConfig (Some cfg)) as [[]|e|s]; [|done|by destruct (Hv s)]. quiet_guards.
    apply DoTx_no_panic; [by apply ww_reg| |done]. intros s.
    exact (transaction_no_panic (ReqModifyPushConfig name (Some cfg)) 0 (txn_of w) s (ww_db _ W)).
  - unfold ModifyAckDeadline in H. destruct (negb _); [done|].
    destruct (parse_all _ _) as [ids|e|s] eqn:Hp; [|done|by apply parse_all_not_panic in Hp].
    by eapply (retried_no_panic _ _ _ (ReqDelay ids (AckDeadlineSeconds * Second)) now) in H;
      [apply (H msg)|..|exact (λ H, H)|].
  - unfold Acknowledge in H. destruct (negb _); [done|].
    destruct (parse_all _ _) as [ids|e|s] eqn:Hp; [|done|by apply parse_all_not_panic in Hp].
    by eapply (retried_no_panic _ _ _ (ReqAck ids) now) in H; [apply (H msg)|..|exact (λ H, H)|].
  - apply bind_Some in H as ([res1 w1] & H & [Hres _]%done_with_Some). unfold Pull in H.
    destruct (negb _) eqn:Hname; [by simplify_eq|]. apply negb_false_iff, has_shape_nonempty in Hname.
    destruct (decide (pl_MaxMessages req < 1)) as [|Hmax]; [done|exfalso].
    rewrite pull_params_accepted in H by (done || lia).
    apply fmap_Some in H as ([res2 w2] & H & [= -> _]). destruct Hc as [Hc Hr].
    destruct res2 as [r|e|s]; [done..|]. by eapply ExecuteClient_no_panic.
  - unfold Subscriber.Seek in H. destruct (negb _) eqn:Hname; [done|].
    apply negb_false_iff, has_shape_nonempty in Hname.
    assert (He : is_empty name = false) by by apply bool_decide_eq_false.
    destruct target as [[target|snapshot]|]; [..|done].
    + unfold NewSeekSubscriptionToTime in H. simpl in H. rewrite He in H. simpl in H.
      destruct (Z.eqb_spec target zero_time) as [->|]; [by left|exfalso].
      by eapply (retried_no_panic _ _ _ (ReqSeekTime (MkSeekTime name None target)) now) in H;
        [apply (H msg)|..|exact (λ H, H)|].
    + unfold NewSeekSubscriptionToSnapshot in H. simpl in H. rewrite He in H. simpl in H.
      unfold is_empty in H. destruct (decide (snapshot = EmptyString)) as [->|Hne]; [by right|exfalso].
      rewrite (bool_decide_false (snapshot = _)) in H by done. simpl in H.
      by eapply (retried_no_panic _ _ _ (ReqSeekSnapshot (MkSeekSnap name None snapshot None)) now) in H;
        [apply (H msg)|..|exact (λ H, H)|].
  - unfold GetSnapshot. quiet_guards. quiet_tx (ReqRead (ReadSnapshot name)) 0.
  - unfold ListSnapshots. quiet_guards. quiet_tx (ReqRead (ReadSnapshots req)) 0.
  - unfold CreateSnapshot. quiet_guards. unfold NewCreateSnapshot, is_empty. simpl.
    apply negb_false_iff in Hguard, Hguard0. apply has_shape_nonempty in Hguard, Hguard0.
    rewrite !bool_decide_false by done. quiet_guards.
    quiet_tx (ReqCreateSnapshot (MkCreateSnap subscription name l)) now.
  - quiet_guards.
  - unfold DeleteSnapshot. quiet_guards.
    assert (Hd : no_panic (DoTx committed (Delete (λ n : snapshot, n_name n = name)) w).1)
      by quiet_tx (ReqDeleteSnapshot name) 0.
    intros s Hs. apply (Hd s). by destruct (DoTx _ _ _).1 as [[|]|e|?]; simplify_eq/=.
Qed.

(** C32 The requests that panic, and so end the process (nothing recovers): in a
    well-formed world, whatever is stored in it, a handler panics only on a request that lacks a
    part it dereferences or that has a part its constructor does not accept; and it does panic on
    such a request when no earlier guard refuses it.  They are: an update without the resource;
    [push_config] to be changed without a push configuration; a negative TTL, retention or number
    of delivery attempts, or a dead-letter policy without a topic; a pull of less than one
    message; a seek to the zero time or to the snapshot without a name. *)
Theorem handlers_panic r w :
  world_wf w →
  (rpc_calm r → ∀ msg w', handle r w = Some (Panic msg, w') → bad_request r) ∧
  (bad_request r → reaches r → ∃ msg, handle r w = Some (Panic msg, w)).
Proof.
  intros W. split; [|apply bad_request_panics]. intros Hc msg w'. by apply handle_no_panic.
Qed.
End Panics.

(** ** Witnesses *)

(** Publish, try to acknowledge with an id that is none, list. *)
Definition demo_rpcs : list rpc := [
  RpcPublish (MkPublishRequest "projects/p/topics/t" [MkPubsubMessage "1" ∅ EmptyString]) (Ok ()) (λ _, 50);
  RpcAcknowledge "projects/p/subscriptions/s" ["x"] [Ok ()] 60;
  RpcListTopics (MkListTopics "projects/p" 10 EmptyString) (Ok ()) ].

Lemma served_requests_safe_witness :
  ∃ w', serve (E := id_engine) (U := bits_text) demo_rpcs demo_world = Some w' ∧
    ∀ e', deliveries (w_db w') !! 1003%N = Some e' → is_Some (d_completedAt e').
Proof.
  destruct (serve (E := id_engine) (U := bits_text) demo_rpcs demo_world) as [w'|] eqn:Hs;
    [|vm_compute in Hs; discriminate Hs].
  destruct (deliveries (w_db demo_world) !! 1003%N) as [e|] eqn:He; [|vm_compute in He; discriminate He].
  exists w'. split; [reflexivity|].
  destruct (served_requests_safe (E := id_engine) (U := bits_text) demo_rpcs demo_world w') as (_ & _ & H).
  - repeat constructor.
  - exact Hs.
  - exact demo_reachable.
  - apply (H ltac:(intros i j Hij; simpl in Hij; lia)) with (k := 1003%N) (e := e).
    + repeat constructor; intros Hseek; exact Hseek.
    + exact He.
    + vm_compute in He. injection He as <-. eexists. reflexivity.
Defined.

Lemma handlers_panic_witness :
  ∃ msg, handle (E := id_engine) (U := bits_text)
    (RpcPull (MkPull_ "projects/p/subscriptions/s" 0 false) [attempt_at 100] []) rpc_world = Some (Panic msg, rpc_world).
Proof.
  apply (handlers_panic (E := id_engine) (U := bits_text)
    (RpcPull (MkPull_ "projects/p/subscriptions/s" 0 false) [attempt_at 100] []) rpc_world rpc_world_wf).
  - vm_compute. reflexivity.
  - vm_compute. reflexivity.
Defined.
