(* ===== verification/StreamLive.v ===== *)
(** * What a stream keeps doing

    The automatic delays of a stream, and the busy loop its sender falls into when the next
    message does not fit into what is left of the client's byte limit. *)

From S2P Require Import Prelude Uuid Filter FilterParse Schema Backoff Notify Store Example Deliver.
From S2P Require Import Lifecycle Ack Receive Streamer StreamSafety.

(** ** Automatic delays *)

Section Delays.
Context {E : Engine} {FP : FilterParser} {F : Float64}.

(** The row that the query of the delayer finds. *)
Definition streams_from (ms : MessageStreamer) (st : stream) (s : subscription) : Prop :=
  rows_where (λ s, s_id s = ms_SubscriptionID ms) (w_db (st_world st)) = [s].

(** The automatic delays of a subscription whose minimum backoff is at least four
    nanoseconds (ten seconds if it has none) are made at intervals shorter than the delay they
    ask for, and move a message by half the minimum backoff, at least one second.  With a
    shorter backoff, zero included, [time.NewTicker] panics and the process ends. *)
Theorem auto_delay_spec d :
  - 2 ^ 60 ≤ d ≤ 2 ^ 60 →
  (4 ≤ d → ∃ delay check, auto_delay (Some d) = Ok (delay, check) ∧
     delay = Z.max Second (d / 2) ∧ 0 < check ∧ 10 * check ≤ 9 * (d / 2) ∧ check < delay) ∧
  (d ≤ 3 → auto_delay (Some d) = Panic "non-positive interval for NewTicker" ∧
     ∀ ms st i s, st_delayer st = DStart → i_io i = Ok () →
       streams_from ms st s → s_minBackoff s = Some d →
       step ms (Delayer i) st = Some (inl "non-positive interval for NewTicker")) ∧
  auto_delay None = Ok (5 * Second, 4500 * Millisecond).
Proof.
  intros Hd.
  assert (Hwrap : int64_wrap (Z.quot d 2 * 9) = Z.quot d 2 * 9).
  { apply int64_wrap_id. unfold in_int64, int64_min, int64_max.
    pose proof (Z.quot_rem d 2 ltac:(lia)). pose proof (Z.rem_bound_abs d 2 ltac:(lia)). lia. }
  split_and!; [| |reflexivity].
  - intros H4. unfold auto_delay. simpl default. rewrite Hwrap, (Z.quot_div_nonneg d 2) by lia.
    assert (Ha : 2 ≤ d / 2) by (apply Z.div_le_lower_bound; lia).
    rewrite (Z.quot_div_nonneg (d / 2 * 9) 10) by lia.
    assert (Hc : 0 < d / 2 * 9 / 10) by (apply Z.div_str_pos; lia).
    pose proof (Z.mul_div_le (d / 2 * 9) 10 ltac:(lia)).
    rewrite (proj2 (Z.leb_gt _ _) Hc).
    eexists _, _. split; [reflexivity|].
    destruct (Z.ltb_spec (d / 2) Second); split_and!; lia.
  - intros H3.
    assert (Hp : auto_delay (Some d) = Panic "non-positive interval for NewTicker").
    { unfold auto_delay. simpl default. rewrite Hwrap.
      pose proof (Z.quot_le_mono d 3 2 ltac:(lia) H3) as Hq. change (Z.quot 3 2) with 1 in Hq.
      pose proof (Z.quot_le_mono (Z.quot d 2 * 9) 9 10 ltac:(lia) ltac:(lia)) as Hc.
      change (Z.quot 9 10) with 0 in Hc.
      by rewrite (proj2 (Z.leb_le _ _) Hc). }
    split; [done|]. intros ms st i s Hst Hio Hrow Hmin. unfold streams_from in Hrow. destruct st as [w m r sd f dl c].
    simpl in *. subst dl. simpl. rewrite Hio. simpl. rewrite Hrow. simpl. by rewrite Hmin, Hp.
Qed.
End Delays.

(** ** The busy loop *)

Section Spin.
Context {E : Engine} {FP : FilterParser} {F : Float64}.
Context (ms : MessageStreamer) (now : time).

(** Something is due for the subscription, but all of it is bigger than [B]. *)
Definition oversized (d : db) (sub : subscription) (B : Z) : Prop :=
  (∃ k e, deliveries d !! k = Some e ∧ due d sub now now ∅ e) ∧
  ∀ k e m, deliveries d !! k = Some e → due d sub now now ∅ e →
    messages d !! d_messageID e = Some m → B < payload_len m.

(** The sender is about to look; something is outstanding and there is room for more. *)
Record spinning (st : stream) : Prop := {
  sp_sender : ∃ c, st_sender st = SCheck c false;
  sp_live : done (st_mem st) = false;
  sp_pending : pending (st_mem st) ≠ ∅;
  sp_room : has_room (remaining (st_mem st)) = true;
  sp_wf : db_wf (w_db (st_world st));
  sp_sub : ∃ sub, subscriptions (w_db (st_world st)) !! ms_SubscriptionID ms = Some sub ∧
    subMatch (ms_SubscriptionName ms) (Some (ms_SubscriptionID ms)) sub ∧
    oversized (w_db (st_world st)) sub (MaxBytes (remaining (st_mem st))) }.

Definition spin_input : input :=
  MkInput now now (Ok ()) (Ok ()) (Ok ()) false (MkRequest None [] [] [] (f_ofZ 0))
    (MkRound [attempt_at (clock_at now)] NextAttemptDue).

(** What the loop does to the database. *)
Definition touch (sub : subscription) (d : db) : db :=
  with_table (<[s_id sub := sub_set_expiresAt (now + s_ttl sub) sub]> (subscriptions d)) d.
Definition touched (sub : subscription) : subscription := sub_set_expiresAt (now + s_ttl sub) sub.

Lemma touch_run sub t :
  db_wf (tx_db t) → subscriptions (tx_db t) !! s_id sub = Some sub →
  UpdateOneID (s_id sub) (sub_set_expiresAt (now + s_ttl sub)) t
    = Ok ((), with_db (touch sub (tx_db t)) t) ∧ db_wf (touch sub (tx_db t)).
Proof.
  intros W Hs. exact (UpdateOneID_run (λ _, True) _ (s_id sub) sub t (sub_expiresAt_harmless _ _) W Hs I).
Qed.

Lemma touch_lookup sub d : subscriptions (touch sub d) !! s_id sub = Some (touched sub).
Proof. apply lookup_insert_eq. Qed.
Lemma touch_oversized sub d B : oversized d sub B → oversized (touch sub d) (touched sub) B.
Proof. exact id. Qed.
Lemma touch_match name id sub : subMatch name id sub → subMatch name id (touched sub).
Proof. exact (λ H, H). Qed.

Lemma verify_live name id p t sub :
  db_wf (tx_db t) → subscriptions (tx_db t) !! id = Some sub → subMatch name (Some id) sub →
  g_Name p = name → g_ID p = Some id → verifySub p t = Ok (sub, t).
Proof.
  intros W Hs Hm Hn Hi. apply verifySub_run. rewrite Hn, Hi.
  rewrite (rows_where_key (A := subscription) _ (tx_db t) id W).
  - simpl. rewrite Hs. by rewrite decide_True.
  - intros s (_ & Hid & _). exact Hid.
Qed.

(** In strict mode a round that finds only oversized messages hands out nothing. *)
Lemma apply_loop_oversized p sub i ds t :
  g_MaxBytesStrict p = true → Forall (λ em : delivery * message, g_MaxBytes p < payload_len em.2) ds →
  apply_loop p sub now i 0 ds t = Ok (MkGot [] 0, t).
Proof.
  intros Hs Hall. revert i. induction Hall as [|[e m] ds Hm _ IH]; intros i; [done|].
  cbn [apply_loop]. simpl in Hm. rewrite Z.add_0_l, Hs, (proj2 (Z.ltb_lt _ _) Hm). apply IH.
Qed.

Lemma sortedDeliveries_nil : sortedDeliveries [] = [].
Proof. unfold sortedDeliveries. apply Permutation_nil_r. apply plan_perm. Qed.

Lemma round_oversized p sub t :
  db_wf (tx_db t) → subscriptions (tx_db t) !! ms_SubscriptionID ms = Some sub →
  subMatch (ms_SubscriptionName ms) (Some (ms_SubscriptionID ms)) sub →
  g_Name p = ms_SubscriptionName ms → g_ID p = Some (ms_SubscriptionID ms) →
  1 ≤ g_MaxMessages p → g_MaxBytesStrict p = true → oversized (tx_db t) sub (g_MaxBytes p) →
  get_round false p (clock_at now) t
    = Ok ((sub, Some (MkGot [] 0), None), with_db (touch sub (tx_db t)) t).
Proof.
  intros W Hs Hm Hn Hi HM Hstrict [(k & e & He & Hdue) Hbig].
  assert (Hid : s_id sub = ms_SubscriptionID ms) by (by destruct Hm as (_ & Hid & _)).
  unfold get_round. rewrite (bind_step _ _ _ _ _ (verify_live _ _ p t sub W Hs Hm Hn Hi)).
  set (ds := queried p sub (clock_at now) (tx_db t)).
  rewrite (bind_step _ _ t ds t) by done.
  assert (Hne : ds ≠ []).
  { intros Hnil. assert (Hlen : length ds.*1 = 0%nat) by (by rewrite Hnil).
    unfold ds in Hlen. rewrite (queried_fst p sub (clock_at now) (tx_db t) W) in Hlen.
    assert (Hin : e ∈ sort_by d_attemptAt (rows_where (due (tx_db t) sub now now ∅) (tx_db t))).
    { apply elem_of_sort_by, elem_of_rows_where. eauto. }
    rewrite length_take in Hlen. simpl in Hlen.
    destruct (sort_by _ _); [by apply elem_of_nil in Hin|simpl in Hlen; lia]. }
  rewrite bool_decide_false by done. simpl.
  assert (Happly : applyResults p sub now ds t = Ok (MkGot [] 0, with_db (touch sub (tx_db t)) t)).
  { unfold applyResults. rewrite <- Hid in Hs. destruct (touch_run sub t W Hs) as [H1 _].
    rewrite (bind_step _ _ _ _ _ H1).
    rewrite (bind_step _ _ _ _ _ (apply_loop_oversized p sub 0 ds (with_db (touch sub (tx_db t)) t) Hstrict
      ltac:(apply Forall_forall; intros em (Hd & Hst & Hmsg)%queried_in; [by eapply Hbig|done]))).
    simpl. by rewrite sortedDeliveries_nil. }
  by rewrite (bind_step _ _ _ _ _ Happly).
Qed.

(** A transaction without hooks that succeeds. *)
Lemma DoTx_quiet {A} (m : Tx A) w a d fresh :
  m (MkTxn (w_db w) [] (w_fresh w)) = Ok (a, MkTxn d [] fresh) →
  DoTx (Ok ()) m w = (Ok a, MkWorld d (w_reg w) fresh).
Proof. unfold DoTx. by intros ->. Qed.

(** The events of a run, none of which leaves the sender waiting. *)
Definition waits (pc : sender_pc) : bool := match pc with SWait _ _ => true | _ => false end.
Fixpoint awake (evs : list event) (st : stream) : bool :=
  match evs with
  | [] => true
  | ev :: evs =>
      match step ms ev st with
      | Some (inr st) => negb (waits (st_sender st)) && awake evs st
      | _ => false
      end
  end.
Lemma awake_app evs evs' st st' :
  run ms evs st = Some (inr st') → awake evs st = true → awake evs' st' = true →
  awake (evs ++ evs') st = true.
Proof.
  revert st. induction evs as [|ev evs IH]; intros st; simpl; [by intros [= ->]|].
  destruct (step ms ev st) as [[|st1]|]; [done| |done]. intros Hr [-> Ha]%andb_true_iff Ha'. simpl. by apply IH.
Qed.
Lemma sender_run w m r s f d c w' m' s' :
  sender_step ms spin_input w m s = Moves w' m' s' →
  step ms (Sender spin_input) (MkStream w m r s f d c) = Some (inr (MkStream w' m' r s' f d c)).
Proof. simpl. by intros ->. Qed.

Lemma busy_cons w m r s f d c w' m' s' evs st' :
  sender_step ms spin_input w m s = Moves w' m' s' → waits s' = false →
  (let st1 := MkStream w' m' r s' f d c in run ms evs st1 = Some (inr st') ∧ awake evs st1 = true) →
  let st := MkStream w m r s f d c in
  run ms (Sender spin_input :: evs) st = Some (inr st') ∧ awake (Sender spin_input :: evs) st = true.
Proof.
  intros H Hw [H1 H2] st. unfold st. cbn [run awake].
  rewrite (sender_run _ _ r _ f d c _ _ _ H). simpl. by rewrite Hw.
Qed.

(** The fetch of the busy sender: its two transactions. *)
Lemma spin_fetch w m c sub :
  let p := fetch_params ms (remaining m) true in
  db_wf (w_db w) → has_room (remaining m) = true →
  subscriptions (w_db w) !! ms_SubscriptionID ms = Some sub →
  subMatch (ms_SubscriptionName ms) (Some (ms_SubscriptionID ms)) sub →
  oversized (w_db w) sub (MaxBytes (remaining m)) →
  ∃ w1 w2, sender_step ms spin_input w m (SFirst c p) = Moves w1 m (SRound c p (ms_SubscriptionID ms) None) ∧
    sender_step ms spin_input w1 m (SRound c p (ms_SubscriptionID ms) None) = Moves w2 m (SStore c p []) ∧
    w_db w2 = touch (touched sub) (touch sub (w_db w)) ∧ db_wf (w_db w2).
Proof.
  intros p W Hroom Hs Hm Hbig. destruct w as [d reg fresh].
  cbn [w_db] in W, Hs, Hbig |- *.
  assert (Hid : s_id sub = ms_SubscriptionID ms) by (by destruct Hm as (_ & Hid & _)).
  assert (HM : 1 ≤ g_MaxMessages p) by (by apply (New_limits p p), fetch_params_ok).
  set (t := MkTxn d [] fresh).
  destruct (touch_run sub t W) as [Htouch W1]; [by rewrite Hid|].
  assert (Hfirst : first_tx p now t = Ok (ms_SubscriptionID ms, MkTxn (touch sub d) [] fresh)).
  { unfold first_tx. rewrite (bind_step _ _ t sub t (verify_live _ _ p t sub W Hs Hm eq_refl eq_refl)).
    rewrite (bind_step _ _ _ _ _ Htouch). by rewrite Hid. }
  assert (Hs1 : subscriptions (touch sub d) !! ms_SubscriptionID ms = Some (touched sub)).
  { rewrite <- Hid. apply touch_lookup. }
  exists (MkWorld (touch sub d) reg fresh).
  destruct (renew_awaiter (ms_SubscriptionID ms) None (MkWorld (touch sub d) reg fresh))
    as [[ch w2]|e|s] eqn:Hren; [|by unfold renew_awaiter in Hren..].
  assert (Hw2 : w_db w2 = touch sub d ∧ w_fresh w2 = fresh).
  { unfold renew_awaiter in Hren. simpl in Hren. by simplify_eq. }
  set (d2 := touch (touched sub) (touch sub d)).
  assert (Hgot : get_round false p (clock_at now) (MkTxn (w_db w2) [] (w_fresh w2))
    = Ok ((touched sub, Some (MkGot [] 0), None), MkTxn d2 [] fresh)).
  { destruct Hw2 as [-> ->].
    exact (round_oversized p (touched sub) (MkTxn (touch sub d) [] fresh) W1 Hs1 Hm eq_refl eq_refl HM
      eq_refl Hbig). }
  eexists. split_and!.
  - unfold sender_step, first_step, spin_input, i_begun, i_commit, i_now, begin_tx.
    rewrite (DoTx_quiet _ (MkWorld d reg fresh) _ _ _ Hfirst). reflexivity.
  - unfold sender_step, spin_input, i_begun, i_round, r_select, begin_tx, execute_round.
    rewrite Hren. cbn [r_tries runTx attempt_at a_others a_clock a_commit id]. unfold keep_results.
    rewrite Hgot, (DoTx_quiet _ w2 _ _ _ Hgot). reflexivity.
  - unfold cancel_awaiter. by destruct (CancelPublishAwaiter _ _ _) as [[[] ?]|?|?].
  - assert (W2 : db_wf d2).
    { apply (touch_run (touched sub) (MkTxn (touch sub d) [] fresh) W1). exact (touch_lookup sub d). }
    unfold cancel_awaiter. by destruct (CancelPublishAwaiter _ _ _) as [[[] ?]|?|?].
Qed.

Definition spin_cycle : list event := replicate 5 (Sender spin_input).

Lemma spin_once st :
  spinning st → ∃ st', run ms spin_cycle st = Some (inr st') ∧ awake spin_cycle st = true ∧
    spinning st' ∧ pending (st_mem st') = pending (st_mem st) ∧
    deliveries (w_db (st_world st')) = deliveries (w_db (st_world st)) ∧
    messages (w_db (st_world st')) = messages (w_db (st_world st)).
Proof.
  destruct st as [w m r s f d cl]. intros [[c Hc] Hl Hp Hroom W (sub & Hs & Hm & Hbig)]. simpl in *. subst s.
  set (m2 := set_granted (fc m) m).
  destruct (spin_fetch w m2 c sub W Hroom Hs Hm Hbig) as (w1 & w2 & H3 & H4 & Hdb & W2).
  assert (H1 : sender_step ms spin_input w m (SCheck c false) = Moves w m (SLook c false)).
  { simpl. by rewrite Hl. }
  assert (H2 : sender_step ms spin_input w m (SLook c false)
    = Moves w m2 (SFirst c (fetch_params ms (remaining m2) true))).
  { simpl. rewrite Hroom, (bool_decide_false (pending m = ∅)) by done. simpl.
    change (remaining m) with (remaining m2). by rewrite (fetch_params_ok ms (remaining m2) true Hroom). }
  assert (H5 : sender_step ms spin_input w2 m2 (SStore c (fetch_params ms (remaining m2) true) [])
    = Moves w2 m2 (SCheck c false)) by done.
  exists (MkStream w2 m2 r (SCheck c false) f d cl).
  assert (Hb : run ms spin_cycle (MkStream w m r (SCheck c false) f d cl)
      = Some (inr (MkStream w2 m2 r (SCheck c false) f d cl)) ∧
    awake spin_cycle (MkStream w m r (SCheck c false) f d cl) = true).
  { apply (busy_cons _ _ _ _ _ _ _ _ _ _ _ _ H1 eq_refl), (busy_cons _ _ _ _ _ _ _ _ _ _ _ _ H2 eq_refl).
    apply (busy_cons _ _ _ _ _ _ _ _ _ _ _ _ H3 eq_refl), (busy_cons _ _ _ _ _ _ _ _ _ _ _ _ H4 eq_refl).
    by apply (busy_cons _ _ _ _ _ _ _ _ _ _ _ _ H5 eq_refl). }
  destruct Hb as [Hb1 Hb2].
  assert (Hid : s_id sub = ms_SubscriptionID ms) by (by destruct Hm as (_ & Hid & _)).
  split_and!; [exact Hb1|exact Hb2| |done|simpl; by rewrite Hdb..].
  split; simpl; [eauto|done|done|done|done|].
  exists (touched (touched sub)). rewrite Hdb. split_and!; [|exact Hm|exact Hbig].
  rewrite <- Hid. apply (touch_lookup (touched sub)).
Qed.

(** The sender of a stream can be kept busy doing nothing.  When messages are outstanding,
    there is room for more, and all that is due is bigger than what is left of the byte limit,
    the sender does not wait for an acknowledgement: for every [n] it can make [n] rounds of
    two transactions each, at one instant, never waiting, sending nothing, at the end of which
    it is where it began and no delivery, message or outstanding entry has changed. *)
Theorem sender_spins st n :
  spinning st →
  ∃ evs st', length evs = (5 * n)%nat ∧ Forall (λ ev, ev = Sender spin_input) evs ∧
    run ms evs st = Some (inr st') ∧ awake evs st = true ∧ spinning st' ∧
    pending (st_mem st') = pending (st_mem st) ∧
    deliveries (w_db (st_world st')) = deliveries (w_db (st_world st)) ∧
    messages (w_db (st_world st')) = messages (w_db (st_world st)).
Proof.
  revert st. induction n as [|n IH]; intros st Hst.
  { exists [], st. split_and!; done. }
  destruct (spin_once st Hst) as (st1 & Hr1 & Ha1 & Hs1 & Hp1 & Hd1 & Hm1).
  destruct (IH st1 Hs1) as (evs & st' & Hl & Hall & Hr & Ha & Hs & Hp & Hd & Hm).
  exists (spin_cycle ++ evs), st'.
  split_and!; [rewrite length_app; simpl; lia| |by rewrite (run_app ms _ _ _ _ Hr1)|by eapply awake_app|done|congruence..].
  apply Forall_app. split; [|done]. unfold spin_cycle. by repeat constructor.
Qed.
End Spin.

(** ** Witnesses *)

(** A backoff of one nanosecond is accepted when the subscription is created. *)
Lemma auto_delay_spec_witness :
  auto_delay (Some 1) = Panic "non-positive interval for NewTicker" ∧
  auto_delay (Some 4) = Ok (Second, 1).
Proof.
  split; [|reflexivity].
  apply (auto_delay_spec (E := id_engine) 1); lia.
Defined.

(** Two messages are due: a small one that is sent, and a big one that then does not fit into
    what is left of the ten bytes the client allows. *)
Definition big_db : db := with_messages
  (<[22%N := MkMessage 22 1 "a large payload" ∅ 200 None]> (messages example_db))
  (with_deliveries {[31%N := del_1; 32%N := MkDelivery 32 22 11 200 200 None 0 None 5200 None]} example_db).
Definition ten_bytes : input :=
  MkInput 400 400 (Ok ()) (Ok ()) (Ok ()) false (MkRequest (Some (MkFC 5 10)) [] [] [] (f_ofZ 0))
    (MkRound [attempt_at (clock_at 400)] NextAttemptDue).
Definition big_events : list event :=
  replicate 3 (Reader ten_bytes) ++ replicate 7 (Sender ten_bytes).

Definition big_start : stream := initial_stream demo_ms (MkWorld big_db empty_registry 0).
Definition big_stream : stream :=
  match run (E := id_engine) demo_ms big_events big_start with Some (inr st) => st | _ => big_start end.
Definition big_sub : subscription :=
  default sub_plain (subscriptions (w_db (st_world big_stream)) !! 11%N).

Lemma oversized_check now d sub B k e :
  deliveries d !! k = Some e → bool_decide (due d sub now now ∅ e) = true →
  bool_decide (map_Forall (λ _ e, due d sub now now ∅ e →
    joined (λ m, B < payload_len m) (messages d !! d_messageID e)) (deliveries d)) = true →
  oversized now d sub B.
Proof.
  intros He Hd%bool_decide_eq_true Hall%bool_decide_eq_true. split; [eauto|].
  intros k' e' m He' Hd' Hm. specialize (Hall _ _ He' Hd'). by rewrite Hm in Hall.
Qed.

Lemma big_spinning : spinning demo_ms 400 big_stream.
Proof.
  split.
  - exists 0%nat. vm_compute. reflexivity.
  - vm_compute. reflexivity.
  - apply (bool_decide_unpack _). vm_compute. reflexivity.
  - vm_compute. reflexivity.
  - apply db_wf_b_sound. vm_compute. reflexivity.
  - exists big_sub. split_and!.
    + vm_compute. reflexivity.
    + apply (bool_decide_unpack _). vm_compute. reflexivity.
    + eapply (oversized_check _ _ _ _ 32%N); vm_compute; reflexivity.
Qed.

(** The client's five messages and ten bytes lead to the busy loop; a hundred rounds of it. *)
Lemma sender_spins_witness :
  reachable (E := id_engine) demo_ms big_stream ∧
  ∃ evs st', length evs = 500%nat ∧ run (E := id_engine) demo_ms evs big_stream = Some (inr st') ∧
    awake (E := id_engine) demo_ms evs big_stream = true.
Proof.
  split.
  - exists (MkWorld big_db empty_registry 0), big_events. vm_compute. reflexivity.
  - destruct (sender_spins (E := id_engine) demo_ms 400 big_stream 100 big_spinning)
      as (evs & st' & Hl & _ & Hr & Ha & _).
    exists evs, st'. split; [|split; [exact Hr|exact Ha]]. rewrite Hl. vm_compute. reflexivity.
Defined.
