(* ===== verification/StreamConn.v ===== *)
(** * The two kinds of connection of a stream

    [StreamConnection] of [Streamer] has two implementations: [httpPushStreamConn] of
    [src/actions/http-push-streamer.go], which posts every message to an endpoint and turns
    the answers into acknowledgements while adapting the number of outstanding messages, and
    [streamWrapper] of [src/services/grpc-subscriber.go], which adapts the requests of a
    [StreamingPull] client.

    A Go channel with room for ten ids and any number of goroutines blocked on sending to it
    is one list, oldest first: a receive takes the head of it, and draining takes all.  Once the
    context is done, a goroutine that is blocked (the ids after the first ten) may give up. *)

From S2P Require Import Prelude Uuid Schema Backoff Streamer.

(** ** HTTP push *)

Record httpPushStreamConn := MkPushConn {
  fastAckQueue : list uuid; slowAckQueue : list uuid; nackQueue : list uuid;
  maxBytes : Z; maxMessages : Z; failing : bool; lastFail : option time (** [None]: zero *) }.

Definition newHttpPushConn (endpoint : string) : outcome httpPushStreamConn :=
  if decide (endpoint = EmptyString) then Panic "empty endpoint"
  else Ok (MkPushConn [] [] [] 10000000 1 false None).

Inductive queue := FastAck | SlowAck | NackQ.

Definition queued (q : queue) (c : httpPushStreamConn) : list uuid :=
  match q with FastAck => fastAckQueue c | SlowAck => slowAckQueue c | NackQ => nackQueue c end.
Definition set_queue (q : queue) (l : list uuid) (c : httpPushStreamConn) : httpPushStreamConn :=
  let '(MkPushConn f s n b m fl lf) := c in
  match q with
  | FastAck => MkPushConn l s n b m fl lf
  | SlowAck => MkPushConn f l n b m fl lf
  | NackQ => MkPushConn f s l b m fl lf
  end.
Definition set_maxMessages (mm : Z) (c : httpPushStreamConn) : httpPushStreamConn :=
  MkPushConn (fastAckQueue c) (slowAckQueue c) (nackQueue c) (maxBytes c) mm (failing c) (lastFail c).

(** [nowFailing] *)
Definition nowFailing (newValue : bool) (now : time) (c : httpPushStreamConn) : bool * httpPushStreamConn :=
  let isChanged := negb (Bool.eqb (failing c) newValue) ||
    match lastFail c with None => true | Some t => Minute <? now - t end in
  (isChanged, MkPushConn (fastAckQueue c) (slowAckQueue c) (nackQueue c) (maxBytes c) (maxMessages c)
     newValue (if isChanged && newValue then Some now else lastFail c)).

(** What [client.Do] returns. *)
Inductive http_result := NoAnswer | Answer (statusCode : Z).

(** [StatusProcessing], [StatusOK], [StatusCreated], [StatusAccepted], [StatusNoContent] *)
Definition is_ack (r : http_result) : bool :=
  match r with
  | NoAnswer => false
  | Answer code => bool_decide (code ∈ [102; 200; 201; 202; 204])
  end.

Definition queue_for (dur : duration) (r : http_result) : queue :=
  if is_ack r then (if dur <? Second then FastAck else SlowAck) else NackQ.

(** The goroutine that [Send] starts, once the request is over; [sent] is the branch of its last
    [select]: [q <- del.ID], or [ctx.Done()], which drops the id. *)
Definition push_finished (id : uuid) (dur : duration) (r : http_result) (now : time) (sent : bool)
    (c : httpPushStreamConn) : httpPushStreamConn :=
  let c := (nowFailing (negb (is_ack r)) now c).2 in
  let q := queue_for dur r in
  if sent then set_queue q (queued q c ++ [id]) c else c.

(** The new limit when [n] ids came out of the queue, if it is changed. *)
Definition resize (q : queue) (n mm : Z) : option Z :=
  match q with
  | FastAck => if mm <? 1000 then Some (if 1000 <? mm + n then 1000 else mm + n) else None
  | SlowAck => if 1 <? mm then Some (if mm - n <? 1 then 1 else mm - n) else None
  | NackQ => if 1 <? mm then Some (if mm - 10 * n <? 1 then 1 else mm - 10 * n) else None
  end.

Section Push.
Context {F : Float64}.

(** [Receive], when the [select] takes the branch of [q]; [None]: that queue is empty. *)
Definition Receive (q : queue) (c : httpPushStreamConn)
  : option (MessageStreamRequest * httpPushStreamConn) :=
  match queued q c with
  | [] => None
  | ids =>
      let c := set_queue q [] c in
      let mm := resize q (Z.of_nat (length ids)) (maxMessages c) in
      let c := match mm with Some mm => set_maxMessages mm c | None => c end in
      let fc := (λ mm, MkFC mm (maxBytes c)) <$> mm in
      Some (match q with
            | NackQ => MkRequest fc [] ids [] (f_ofZ 0)
            | _ => MkRequest fc ids [] [] (f_ofZ 0)
            end, c)
  end.

(** [GaveUp q i]: the goroutine of the [i]-th id of the queue is still blocked, and takes its
    [ctx.Done()] branch. *)
Inductive push_event :=
  | Finished (id : uuid) (dur : duration) (r : http_result) (now : time) (sent : bool)
  | GaveUp (q : queue) (i : nat) | Cancelled
  | Received (q : queue).

Definition queue_capacity : nat := 10.

(** One event: the request that the streamer receives, if it is one, whether the context is done,
    and the connection; [None]: it cannot happen. *)
Definition push_step (ev : push_event) (ctxDone : bool) (c : httpPushStreamConn)
  : option (list MessageStreamRequest * bool * httpPushStreamConn) :=
  match ev with
  | Finished id dur r now sent =>
      if sent || ctxDone then Some ([], ctxDone, push_finished id dur r now sent c) else None
  | GaveUp q i =>
      if ctxDone && bool_decide (queue_capacity ≤ i < length (queued q c))%nat
      then Some ([], ctxDone, set_queue q (delete i (queued q c)) c) else None
  | Cancelled => Some ([], true, c)
  | Received q => (λ '(rq, c), ([rq], ctxDone, c)) <$> Receive q c
  end.
Fixpoint push_steps (evs : list push_event) (ctxDone : bool) (c : httpPushStreamConn)
  : option (list MessageStreamRequest * bool * httpPushStreamConn) :=
  match evs with
  | [] => Some ([], ctxDone, c)
  | ev :: evs =>
      push_step ev ctxDone c ≫= λ '(rq, d, c), push_steps evs d c ≫= λ '(rqs, d, c), Some (rq ++ rqs, d, c)
  end.

(** The requests that the streamer receives, and the connection after the events. *)
Definition push_run (evs : list push_event) (c : httpPushStreamConn)
  : option (list MessageStreamRequest * httpPushStreamConn) :=
  (λ '(rqs, _, c), (rqs, c)) <$> push_steps evs false c.

(** The flow control the streamer has after the requests. *)
Definition last_fc (rqs : list MessageStreamRequest) (fc : FlowControl) : FlowControl :=
  foldl (λ fc rq, default fc (rq_FlowControl rq)) fc rqs.
End Push.

(** ** StreamingPull *)

Definition maxInt : Z := 2 ^ 63 - 1.

Definition effectiveFlowControl (maxMessages maxBytes : Z) : FlowControl :=
  MkFC (if maxInt <? maxMessages then maxInt else if maxMessages <=? 0 then 1000 else maxMessages)
       (if maxInt <? maxBytes then maxInt else if maxBytes <=? 0 then 10 * 1024 * 1024 else maxBytes).

(** The fields of a [StreamingPullRequest] that are used. *)
Record StreamingPullRequest := MkPull {
  AckIds : list string; ModifyDeadlineSeconds : list Z; ModifyDeadlineAckIds : list string;
  MaxOutstandingMessages : Z; MaxOutstandingBytes : Z }.

Section Pull.
Context {F : Float64} (uuid_Parse : string → option uuid).

(** [adaptIn]; [first] says whether it is the initial request. *)
Definition adaptIn (first : bool) (m : StreamingPullRequest) : outcome MessageStreamRequest :=
  let fc := if first then Some (effectiveFlowControl (MaxOutstandingMessages m) (MaxOutstandingBytes m))
            else None in
  match AckIds m with
  | [] => Ok []
  | ids => parse_all uuid_Parse ids
  end ≫= λ ack,
  if negb (length (ModifyDeadlineSeconds m) =? length (ModifyDeadlineAckIds m))%nat then
    Err (StatusError InvalidArgument)
  else
    match ModifyDeadlineAckIds m with
    | [] => Ok (MkRequest fc ack [] [] (f_ofZ 0))
    | ids =>
        parse_all uuid_Parse ids ≫= λ delay,
        Ok (MkRequest fc ack [] delay
          (foldl (λ acc d, let df := f_ofZ d in if f_gtb df acc then df else acc) (f_ofZ 0)
             (ModifyDeadlineSeconds m)))
    end.
End Pull.

(** ** What a push connection guarantees *)

Section Push_run.
Context {F : Float64}.

Definition window_ok (c : httpPushStreamConn) : Prop := 1 ≤ maxMessages c ≤ 1000 ∧ maxBytes c = 10000000.

Lemma resize_bounds q n mm mm' : 0 ≤ n → 1 ≤ mm ≤ 1000 → resize q n mm = Some mm' → 1 ≤ mm' ≤ 1000.
Proof.
  intros Hn Hm. destruct q; simpl; repeat case_match; intros; simplify_eq; bool_props; lia.
Qed.

Lemma set_queue_window q l c :
  maxMessages (set_queue q l c) = maxMessages c ∧ maxBytes (set_queue q l c) = maxBytes c.
Proof. by destruct c, q. Qed.
Lemma finished_window id dur r now sent c :
  maxMessages (push_finished id dur r now sent c) = maxMessages c ∧
  maxBytes (push_finished id dur r now sent c) = maxBytes c.
Proof.
  unfold push_finished. destruct sent; [|done].
  lazymatch goal with |- context [set_queue ?q ?l ?c] => by destruct (set_queue_window q l c) as [-> ->] end.
Qed.

Lemma Receive_window q c rq c' :
  Receive q c = Some (rq, c') → window_ok c →
  window_ok c' ∧ (∀ fc, rq_FlowControl rq = Some fc → fc = MkFC (maxMessages c') (maxBytes c')) ∧
  (rq_FlowControl rq = None → maxMessages c' = maxMessages c).
Proof.
  unfold Receive. destruct (queued q c) as [|id ids]; [done|]. intros H [Hm Hb].
  assert (Hs : maxMessages (set_queue q [] c) = maxMessages c ∧ maxBytes (set_queue q [] c) = maxBytes c)
    by (by destruct c, q).
  destruct Hs as [Hs1 Hs2]. rewrite Hs1 in H.
  destruct (resize q _ (maxMessages c)) as [mm|] eqn:Hr; simplify_eq/=.
  - pose proof (resize_bounds _ _ _ _ (Nat2Z.is_nonneg _) Hm Hr).
    split_and!; [split; simpl; congruence|..]; destruct q; simpl; naive_solver.
  - split_and!; [split; congruence|..]; destruct q; simpl; naive_solver.
Qed.

Lemma push_step_window ev d c rqs d' c' fc :
  push_step ev d c = Some (rqs, d', c') → window_ok c → MaxMessages fc = maxMessages c →
  window_ok c' ∧ MaxMessages (last_fc rqs fc) = maxMessages c' ∧
  Forall (λ rq, ∀ fc, rq_FlowControl rq = Some fc → 1 ≤ MaxMessages fc ≤ 1000 ∧ MaxBytes fc = 10000000) rqs.
Proof.
  unfold window_ok. destruct ev as [id dur r now sent|q i| |q]; simpl; intros H Hw Hfc.
  - destruct (sent || d); simplify_eq. by destruct (finished_window id dur r now sent c) as [-> ->].
  - destruct (d && _); simplify_eq. by destruct (set_queue_window q (delete i (queued q c)) c) as [-> ->].
  - by simplify_eq.
  - apply fmap_Some in H as ([rq c1] & Hr & [= -> -> ->]).
    destruct (Receive_window _ _ _ _ Hr Hw) as (Hw1 & Hf1 & Hn1). split_and!; [apply Hw1..| |].
    + simpl. destruct (rq_FlowControl rq) as [fc'|]; simpl; [by rewrite (Hf1 fc' eq_refl)|]. by rewrite Hn1.
    + constructor; [|done]. intros fc' ->%Hf1. exact Hw1.
Qed.
Lemma push_steps_window evs d c rqs d' c' fc :
  push_steps evs d c = Some (rqs, d', c') → window_ok c → MaxMessages fc = maxMessages c →
  window_ok c' ∧ MaxMessages (last_fc rqs fc) = maxMessages c' ∧
  Forall (λ rq, ∀ fc, rq_FlowControl rq = Some fc → 1 ≤ MaxMessages fc ≤ 1000 ∧ MaxBytes fc = 10000000) rqs.
Proof.
  revert d c rqs fc. induction evs as [|ev evs IH]; intros d c rqs fc H Hw Hfc; cbn [push_steps] in H.
  - by simplify_eq.
  - apply bind_Some in H as ([[rq d1] c1] & Hs & H). apply bind_Some in H as ([[rqs' d2] c2] & Hrun & [= <- <- <-]).
    destruct (push_step_window _ _ _ _ _ _ fc Hs Hw Hfc) as (Hw1 & Hl & Hall).
    destruct (IH _ _ _ _ Hrun Hw1 Hl) as (H1 & H2 & H3).
    split_and!; [apply H1..| |by apply Forall_app]. unfold last_fc in *. by rewrite foldl_app.
Qed.

(** C29 A push connection keeps the number of outstanding messages between one and a thousand,
    whatever the endpoint answers and in whatever order answers and receives come: every flow
    control it reports is in these bounds, the streamer's is the connection's at all times
    (starting from the streamer's own one message), a fast acknowledgement adds one per
    message, a slow one takes one away, a failed push ten. *)
Theorem push_window evs c rqs endpoint c0 :
  newHttpPushConn endpoint = Ok c0 → push_run evs c0 = Some (rqs, c) →
  1 ≤ maxMessages c ≤ 1000 ∧ maxBytes c = 10000000 ∧
  MaxMessages (last_fc rqs (fc initial_shared)) = maxMessages c ∧
  Forall (λ rq, ∀ fc, rq_FlowControl rq = Some fc → 1 ≤ MaxMessages fc ≤ 1000 ∧ MaxBytes fc = 10000000) rqs ∧
  ∀ q rq c', Receive q c = Some (rq, c') →
    let n := Z.of_nat (length (queued q c)) in
    maxMessages c' = match q with
                     | FastAck => Z.min 1000 (maxMessages c + n)
                     | SlowAck => Z.max 1 (maxMessages c - n)
                     | NackQ => Z.max 1 (maxMessages c - 10 * n)
                     end.
Proof.
  unfold newHttpPushConn. case_decide; [done|]. intros [= <-] Hrun.
  apply fmap_Some in Hrun as ([[rqs' d] c1] & Hrun & [= <- <-]).
  destruct (push_steps_window _ _ _ _ _ _ (fc initial_shared) Hrun) as ([Hm Hb] & Hl & Hall); [done..|].
  split_and!; [lia|lia|done|done|done|].
  intros q rq c' Hr. unfold Receive in Hr.
  assert (Hs : maxMessages (set_queue q [] c) = maxMessages c) by (by destruct c, q).
  destruct (queued q c) as [|id ids]; [done|]. rewrite Hs in Hr. injection Hr as _ <-.
  set (n := Z.of_nat _). assert (1 ≤ n) by (unfold n; simpl; lia).
  destruct q; simpl; repeat case_match; simplify_eq; simpl; bool_props; simpl in *; lia.
Qed.

(** Ids that came back, by how. *)
Definition finished_ids (ack : bool) (evs : list push_event) : list uuid :=
  omap (λ ev, match ev with
              | Finished id _ r _ _ => if Bool.eqb (is_ack r) ack then Some id else None
              | _ => None
              end) evs.
Definition acked (rqs : list MessageStreamRequest) : list uuid := rqs ≫= rq_Ack.
Definition nacked (rqs : list MessageStreamRequest) : list uuid := rqs ≫= rq_Nack.
Definition settled (ack : bool) (rqs : list MessageStreamRequest) : list uuid := if ack then acked rqs else nacked rqs.
(** Ids on their way to the streamer. *)
Definition waiting (ack : bool) (c : httpPushStreamConn) : list uuid :=
  if ack then fastAckQueue c ++ slowAckQueue c else nackQueue c.

(** The ids that goroutines dropped because the context was done. *)
Definition acks (q : queue) : bool := match q with NackQ => false | _ => true end.
Definition dropped (ack : bool) (ev : push_event) (c : httpPushStreamConn) : list uuid :=
  match ev with
  | Finished id _ r _ false => if Bool.eqb (is_ack r) ack then [id] else []
  | GaveUp q i => if Bool.eqb (acks q) ack then option_list (queued q c !! i) else []
  | _ => []
  end.
Fixpoint lost_ids (ack : bool) (evs : list push_event) (d : bool) (c : httpPushStreamConn) : list uuid :=
  match evs with
  | [] => []
  | ev :: evs =>
      dropped ack ev c ++ match push_step ev d c with Some (_, d, c) => lost_ids ack evs d c | None => [] end
  end.

Lemma finished_queues ack id dur r now sent c :
  waiting ack (push_finished id dur r now sent c) ++ dropped ack (Finished id dur r now sent) c ≡ₚ
    finished_ids ack [Finished id dur r now sent] ++ waiting ack c.
Proof.
  unfold push_finished, queue_for, finished_ids. cbn [omap list_omap dropped].
  destruct ack, (is_ack r), sent, (dur <? Second); simpl; rewrite ?app_nil_r; solve_Permutation.
Qed.

Lemma gave_up_queues ack q i c :
  (i < length (queued q c))%nat →
  waiting ack (set_queue q (delete i (queued q c)) c) ++ dropped ack (GaveUp q i) c ≡ₚ waiting ack c.
Proof.
  intros [x Hx]%lookup_lt_is_Some. cbn [dropped]. rewrite Hx.
  pose proof (delete_Permutation _ _ _ Hx) as Hd. destruct c as [f s n b mm fl lf].
  destruct ack, q; simpl in *; rewrite ?app_nil_r; try done; revert Hd;
    lazymatch goal with |- _ ≡ₚ x :: ?l' → _ => generalize l' as rest end; intros rest ->; solve_Permutation.
Qed.

Lemma Receive_queues q c rq c' :
  Receive q c = Some (rq, c') →
  rq_Ack rq ++ fastAckQueue c' ++ slowAckQueue c' ≡ₚ fastAckQueue c ++ slowAckQueue c ∧
  rq_Nack rq ++ nackQueue c' ≡ₚ nackQueue c ∧ rq_Delay rq = [] ∧ (rq_Ack rq = [] ↔ rq_Nack rq ≠ []).
Proof.
  destruct c as [f s n b mm fl lf]. unfold Receive.
  destruct q; simpl; [destruct f|destruct s|destruct n]; [done| |done| |done|]; intros [= <- <-]; simpl;
    destruct (_ <? _); simpl; rewrite ?app_nil_r; (split_and!; [|done|done|done]); try done.
  all: by rewrite <- Permutation_middle, Permutation_app_comm.
Qed.

Definition well_formed (rq : MessageStreamRequest) : Prop := rq_Delay rq = [] ∧ (rq_Ack rq = [] ↔ rq_Nack rq ≠ []).

(** One event keeps account of every id. *)
Lemma push_step_ids ack ev d c rqs d' c' :
  push_step ev d c = Some (rqs, d', c') →
  settled ack rqs ++ waiting ack c' ++ dropped ack ev c ≡ₚ finished_ids ack [ev] ++ waiting ack c ∧
  Forall well_formed rqs.
Proof.
  destruct ev as [id dur r now sent|q i| |q]; cbn [push_step]; intros H.
  - destruct (sent || d); simplify_eq. split; [|done]. rewrite <- (finished_queues ack id dur r now sent c). by destruct ack.
  - destruct (d && bool_decide _) eqn:Hg; simplify_eq. apply andb_true_iff in Hg as [_ Hg]. bool_props.
    split; [|done]. pose proof (gave_up_queues ack q i c) as Hq. destruct ack; apply Hq; lia.
  - simplify_eq. split; [|done]. simpl. rewrite app_nil_r. by destruct ack.
  - apply fmap_Some in H as ([rq c1] & Hr & [= -> -> ->]).
    destruct (Receive_queues _ _ _ _ Hr) as (Hq1 & Hq2 & Hq3). split; [|by constructor].
    cbn [dropped]. rewrite app_nil_r. unfold settled, acked, nacked, waiting. cbn [mbind list_bind].
    rewrite !app_nil_r. by destruct ack.
Qed.

Lemma settled_app ack rqs rqs' : settled ack (rqs ++ rqs') = settled ack rqs ++ settled ack rqs'.
Proof. destruct ack; unfold settled, acked, nacked; apply bind_app. Qed.

Lemma push_steps_ids ack evs d c rqs d' c' :
  push_steps evs d c = Some (rqs, d', c') →
  settled ack rqs ++ waiting ack c' ++ lost_ids ack evs d c ≡ₚ finished_ids ack evs ++ waiting ack c ∧
  Forall well_formed rqs.
Proof.
  revert d c rqs. induction evs as [|ev evs IH]; intros d c rqs H; cbn [push_steps lost_ids] in *.
  { simplify_eq. split; [|done]. rewrite app_nil_r. by destruct ack. }
  apply bind_Some in H as ([[rq d1] c1] & Hs & H). rewrite Hs.
  apply bind_Some in H as ([[rqs' d2] c2] & Hrun & [= <- <- <-]).
  destruct (push_step_ids ack _ _ _ _ _ _ Hs) as [H1 Hf1]. destruct (IH _ _ _ Hrun) as [H2 Hf2].
  split; [|by apply Forall_app].
  assert (Hfin : finished_ids ack (ev :: evs) = finished_ids ack [ev] ++ finished_ids ack evs).
  { unfold finished_ids. by rewrite <- omap_app. }
  rewrite settled_app, Hfin. clear -H1 H2.
  transitivity (settled ack rq ++ (settled ack rqs' ++ waiting ack c2 ++ lost_ids ack evs d1 c1) ++ dropped ack ev c);
    [solve_Permutation|]. rewrite H2.
  transitivity (finished_ids ack evs ++ (settled ack rq ++ waiting ack c1 ++ dropped ack ev c)); [solve_Permutation|].
  rewrite H1. solve_Permutation.
Qed.

(** Nothing is dropped before the context is done. *)
Lemma nothing_lost ack evs c rqs d' c' :
  Cancelled ∉ evs → push_steps evs false c = Some (rqs, d', c') → lost_ids ack evs false c = [] ∧ d' = false.
Proof.
  revert c rqs. induction evs as [|ev evs IH]; intros c rqs; [by intros _ [= _ <- _]|].
  intros [Hne Hni]%not_elem_of_cons H. cbn [push_steps lost_ids] in *.
  apply bind_Some in H as ([[rq d1] c1] & Hs & H). rewrite Hs.
  apply bind_Some in H as ([[rqs' d2] c2] & Hrun & [= <- <- <-]).
  assert (d1 = false ∧ dropped ack ev c = []) as [-> ->].
  { destruct ev as [id dur r now []|q i| |q]; simpl in Hs; [by simplify_eq|done|done|done|].
    by apply fmap_Some in Hs as ([? ?] & _ & [= _ -> _]). }
  destruct (IH _ _ Hni Hrun) as [-> ->]. done.
Qed.

(** Receiving what is queued *)
Definition receive_rest (c : httpPushStreamConn) : list push_event :=
  [FastAck; SlowAck; NackQ] ≫= λ q, match queued q c with [] => [] | _ => [Received q] end.
Lemma push_steps_app evs evs' d c rqs d1 c1 :
  push_steps evs d c = Some (rqs, d1, c1) →
  push_steps (evs ++ evs') d c = (λ '(rqs', d2, c2), (rqs ++ rqs', d2, c2)) <$> push_steps evs' d1 c1.
Proof.
  revert d c rqs. induction evs as [|ev evs IH]; intros d c rqs; cbn [push_steps app].
  - intros [= <- -> ->]. by destruct (push_steps evs' d1 c1) as [[[??]?]|].
  - intros ([[rq d2] c2] & -> & H)%bind_Some. apply bind_Some in H as ([[rqs' ?] ?] & Hr & [= <- -> ->]).
    cbn [mbind option_bind]. rewrite (IH _ _ _ Hr). destruct (push_steps evs' d1 c1) as [[[??]?]|]; simpl; [|done].
    by rewrite (assoc_L (++)).
Qed.
Lemma rest_received d c : ∃ rqs c', push_steps (receive_rest c) d c = Some (rqs, d, c') ∧
  (∀ q, queued q c' = []) ∧ ∀ ack, finished_ids ack (receive_rest c) = [] ∧ lost_ids ack (receive_rest c) d c = [].
Proof.
  destruct c as [f s n b mm fl lf]. unfold receive_rest.
  destruct f as [|i1 f], s as [|i2 s], n as [|i3 n]; cbn; unfold Receive, resize; cbn;
    repeat match goal with |- context [if (?x <? ?y) then _ else _] => destruct (x <? y); cbn end;
    eexists _, _; (split; [reflexivity|]); (split; [by intros []|done]).
Qed.

(** C28 Every message that was pushed is settled the way the endpoint answered, and at most once: the
    ids whose push succeeded are, each once, those acknowledged to the streamer, those queued to
    be, and those that were dropped; the ids whose push failed (no answer, or any other status)
    those refused, queued to be, or dropped.  Nothing is dropped unless the context of the
    connection is cancelled.  Whatever is queued is settled when the streamer receives from each
    queue that is not empty.  No request both acknowledges and refuses, or delays. *)
Theorem push_settles evs c rqs endpoint c0 :
  newHttpPushConn endpoint = Ok c0 → push_run evs c0 = Some (rqs, c) →
  acked rqs ++ (fastAckQueue c ++ slowAckQueue c) ++ lost_ids true evs false c0 ≡ₚ finished_ids true evs ∧
  nacked rqs ++ nackQueue c ++ lost_ids false evs false c0 ≡ₚ finished_ids false evs ∧
  (Cancelled ∉ evs → lost_ids true evs false c0 = [] ∧ lost_ids false evs false c0 = []) ∧
  Forall well_formed rqs ∧
  ∃ rqs' c', push_run (evs ++ receive_rest c) c0 = Some (rqs ++ rqs', c') ∧
    acked (rqs ++ rqs') ++ lost_ids true evs false c0 ≡ₚ finished_ids true evs ∧
    nacked (rqs ++ rqs') ++ lost_ids false evs false c0 ≡ₚ finished_ids false evs.
Proof.
  unfold newHttpPushConn. case_decide; [done|]. intros [= <-].
  set (c0' := MkPushConn _ _ _ _ _ _ _). unfold push_run.
  intros ([[rqs1 d] c1] & Hrun & [= <- <-])%fmap_Some.
  assert (Hempty : ∀ ack, waiting ack c0' = []) by by intros [].
  pose proof (λ ack, push_steps_ids ack _ _ _ _ _ _ Hrun) as Hids.
  setoid_rewrite Hempty in Hids. setoid_rewrite app_nil_r in Hids.
  destruct (rest_received d c) as (rqs' & c' & Hdrain & Hnone & Hquiet).
  assert (Hall : push_steps (evs ++ receive_rest c) false c0' = Some (rqs ++ rqs', d, c')).
  { by rewrite (push_steps_app _ _ _ _ _ _ _ Hrun), Hdrain. }
  pose proof (λ ack, push_steps_ids ack _ _ _ _ _ _ Hdrain) as Hids'.
  assert (Hend : ∀ ack, settled ack rqs' ≡ₚ waiting ack c).
  { intros ack. destruct (Hids' ack) as [Hp _]. destruct (Hquiet ack) as [Hf Hl]. rewrite Hf, Hl in Hp.
    assert (waiting ack c' = []) as Hw by (by destruct ack; unfold waiting;
      pose proof (Hnone FastAck) as Hf1; pose proof (Hnone SlowAck) as Hs1; pose proof (Hnone NackQ) as Hn1;
      simpl in *; rewrite ?Hf1, ?Hs1, ?Hn1).
    rewrite Hw in Hp. by rewrite !app_nil_r in Hp. }
  split_and!; [apply (Hids true)|apply (Hids false)| |apply (Hids true)|].
  - intros Hni. split; by eapply nothing_lost.
  - exists rqs', c'. rewrite Hall. split; [done|].
    assert (Hb : ∀ ack, settled ack (rqs ++ rqs') ++ lost_ids ack evs false c0' ≡ₚ finished_ids ack evs).
    { intros ack. rewrite settled_app, Hend, <- (assoc_L (++)). apply Hids. }
    exact (conj (Hb true) (Hb false)).
Qed.
End Push_run.

(** ** What a StreamingPull request means *)

Section Pull_run.
Context {F : Float64} {L : Float64Laws F} (uuid_Parse : string → option uuid).
#[local] Arguments parse_all _ _ : simpl never.

(** The greatest of the deadlines, or zero. *)
Lemma max_deadline ds acc :
  let r := foldl (λ acc d, let df := f_ofZ d in if f_gtb df acc then df else acc) acc ds in
  f_le acc r ∧ Forall (λ d, f_le (f_ofZ d) r) ds.
Proof.
  revert acc. induction ds as [|d ds IH]; intros acc; simpl; [split; [apply f_le_refl|done]|].
  destruct (f_gtb (f_ofZ d) acc) eqn:Hg.
  - destruct (IH (f_ofZ d)) as [H1 H2]. split; [|by constructor].
    eapply f_le_trans, H1. by apply f_gt_le.
  - destruct (IH acc) as [H1 H2]. split; [done|]. constructor; [|done]. by eapply f_le_trans.
Qed.

(** Only the first request of a [StreamingPull] sets the flow control, and it always allows at
    least one message and one byte, as many as were asked for when that is positive.  A request
    is refused exactly when an id does not parse or the deadlines do not pair with their ids;
    otherwise its acknowledgements and delays are the ids given, in order, it refuses nothing,
    and the delay of all of them is the longest deadline. *)
Theorem adaptIn_spec first m :
  (∀ a b, let c := effectiveFlowControl a b in in_int64 a → in_int64 b →
     1 ≤ MaxMessages c ∧ 1 ≤ MaxBytes c ∧ (0 < a → MaxMessages c = a) ∧ (0 < b → MaxBytes c = b)) ∧
  match adaptIn uuid_Parse first m with
  | Ok rq =>
      rq_FlowControl rq = (if first then
        Some (effectiveFlowControl (MaxOutstandingMessages m) (MaxOutstandingBytes m)) else None) ∧
      Forall2 (λ s u, uuid_Parse s = Some u) (AckIds m) (rq_Ack rq) ∧
      Forall2 (λ s u, uuid_Parse s = Some u) (ModifyDeadlineAckIds m) (rq_Delay rq) ∧
      rq_Nack rq = [] ∧
      (ModifyDeadlineAckIds m ≠ [] →
         Forall (λ d, f_le (f_ofZ d) (rq_DelaySeconds rq)) (ModifyDeadlineSeconds m))
  | Err _ =>
      length (ModifyDeadlineSeconds m) ≠ length (ModifyDeadlineAckIds m) ∨
      ∃ s, s ∈ AckIds m ++ ModifyDeadlineAckIds m ∧ uuid_Parse s = None
  | Panic _ => False
  end.
Proof.
  split.
  { intros a b c Ha Hb. unfold c, effectiveFlowControl, in_int64, int64_max, maxInt in *. simpl.
    repeat case_match; bool_props; lia. }
  unfold adaptIn.
  assert (Hack : match AckIds m with [] => Ok [] | ids => parse_all uuid_Parse ids end
    = parse_all uuid_Parse (AckIds m)) by (by destruct (AckIds m)).
  rewrite Hack. clear Hack. unfold mbind, outcome_bind.
  destruct (parse_all uuid_Parse (AckIds m)) as [ack|e|s] eqn:Ha; simpl.
  - apply parse_all_Ok in Ha. destruct (Nat.eqb_spec (length (ModifyDeadlineSeconds m))
      (length (ModifyDeadlineAckIds m))) as [Hl|Hl]; simpl; [|by left].
    destruct (ModifyDeadlineAckIds m) as [|i ids] eqn:Hids.
    { simpl. by split_and!; try constructor. }
    destruct (parse_all uuid_Parse (i :: ids)) as [delay|e|s] eqn:Hd.
    + apply parse_all_Ok in Hd. simpl. split_and!; try done. intros _. apply max_deadline.
    + right. destruct (parse_all_Err _ _ _ Hd) as (s & Hs & ?). exists s. rewrite elem_of_app. by split; [right|].
    + by apply parse_all_not_panic in Hd.
  - right. destruct (parse_all_Err _ _ _ Ha) as (s & Hs & ?). exists s. rewrite elem_of_app. by split; [left|].
  - by apply parse_all_not_panic in Ha.
Qed.
End Pull_run.

(** ** Witnesses *)

(** A fast answer, a slow one and a refusal. *)
Definition push_demo : list push_event :=
  [Finished 1 (100 * Millisecond) (Answer 200) 10 true; Received FastAck;
   Finished 2 (2 * Second) (Answer 204) 20 true; Finished 3 Second (Answer 500) 30 true; Received NackQ;
   Cancelled; Finished 4 Second NoAnswer 40 false].

Lemma push_window_witness :
  ∃ c0 rqs c, newHttpPushConn "http://push" = Ok c0 ∧ push_run push_demo c0 = Some (rqs, c) ∧
    1 ≤ maxMessages c ≤ 1000.
Proof.
  destruct (newHttpPushConn "http://push") as [c0|e|s] eqn:H0; [|vm_compute in H0; discriminate..].
  destruct (push_run push_demo c0) as [[rqs c]|] eqn:H.
  - exists c0, rqs, c. split; [reflexivity|]. split; [reflexivity || exact H|].
    destruct (push_window push_demo c rqs "http://push" c0 H0 H) as (H1 & _). exact H1.
  - exfalso. vm_compute in H0. injection H0 as <-. vm_compute in H. discriminate.
Defined.

Lemma push_settles_witness :
  ∃ c0 rqs c, newHttpPushConn "http://push" = Ok c0 ∧ push_run push_demo c0 = Some (rqs, c) ∧
    acked rqs ++ (fastAckQueue c ++ slowAckQueue c) ++ lost_ids true push_demo false c0 ≡ₚ [1; 2]%N.
Proof.
  destruct (newHttpPushConn "http://push") as [c0|e|s] eqn:H0; [|vm_compute in H0; discriminate..].
  destruct (push_run push_demo c0) as [[rqs c]|] eqn:H.
  - exists c0, rqs, c. split; [reflexivity|]. split; [reflexivity || exact H|].
    destruct (push_settles push_demo c rqs "http://push" c0 H0 H) as (H1 & _). exact H1.
  - exfalso. vm_compute in H0. injection H0 as <-. vm_compute in H. discriminate.
Defined.
