(* ===== verification/PushBody.v ===== *)
(** * What a push posts

    The body that [httpPushStreamConn.Send] of [src/actions/http-push-streamer.go] posts, before
    [encoding/json] prints it: the payload goes in base64 ([base64.StdEncoding]).  The texts of a
    time and of JSON are the library's. *)

From S2P Require Import Prelude Uuid Filter Schema Notify Store Example Deliver.
From S2P Require Import Lifecycle Receive Rpc Subscriber.

(** ** Base64 *)

Definition alphabet : string := "ABCDEFGHIJKLMNOPQRSTUVWXYZabcdefghijklmnopqrstuvwxyz0123456789+/".
Definition pad : ascii := "=".
Definition sextet (n : N) : ascii := default pad (String.get (N.to_nat n) alphabet).

(** The numbers of four characters *)
Definition quad1 (a : ascii) : N := (N_of_ascii a / 4)%N.
Definition quad2 (a b : ascii) : N := (N_of_ascii a mod 4 * 16 + N_of_ascii b / 16)%N.
Definition quad3 (b c : ascii) : N := (N_of_ascii b mod 16 * 4 + N_of_ascii c / 64)%N.
Definition quad4 (c : ascii) : N := (N_of_ascii c mod 64)%N.

(** [base64.StdEncoding.EncodeToString] *)
Fixpoint base64 (src : string) : string :=
  match src with
  | EmptyString => EmptyString
  | String a EmptyString =>
      String (sextet (quad1 a)) (String (sextet (quad2 a zero)) (String pad (String pad EmptyString)))
  | String a (String b EmptyString) =>
      String (sextet (quad1 a)) (String (sextet (quad2 a b)) (String (sextet (quad3 b zero)) (String pad EmptyString)))
  | String a (String b (String c src)) =>
      String (sextet (quad1 a)) (String (sextet (quad2 a b)) (String (sextet (quad3 b c))
        (String (sextet (quad4 c)) (base64 src))))
  end.

(** How a receiver reads it. *)
Fixpoint position (c : ascii) (s : string) : option N :=
  match s with
  | EmptyString => None
  | String x s => if decide (x = c) then Some 0%N else N.succ <$> position c s
  end.
Definition six (c : ascii) : option N := position c alphabet.
Definition byte1 (n1 n2 : N) : ascii := ascii_of_N (n1 * 4 + n2 / 16).
Definition byte2 (n2 n3 : N) : ascii := ascii_of_N (n2 mod 16 * 16 + n3 / 4).
Definition byte3 (n3 n4 : N) : ascii := ascii_of_N (n3 mod 4 * 64 + n4).
Fixpoint read_base64 (s : string) : option string :=
  match s with
  | EmptyString => Some EmptyString
  | String c1 (String c2 (String c3 (String c4 s))) =>
      n1 ← six c1; n2 ← six c2;
      match six c3, six c4 with
      | Some n3, Some n4 =>
          (λ r, String (byte1 n1 n2) (String (byte2 n2 n3) (String (byte3 n3 n4) r))) <$> read_base64 s
      | Some n3, None =>
          if decide (c4 = pad ∧ s = EmptyString) then Some (String (byte1 n1 n2) (String (byte2 n2 n3) EmptyString)) else None
      | None, _ =>
          if decide (c3 = pad ∧ c4 = pad ∧ s = EmptyString) then Some (String (byte1 n1 n2) EmptyString) else None
      end
  | _ => None
  end.

Lemma sextet_six n : (n < 64)%N → six (sextet n) = Some n.
Proof.
  intros Hn. assert (Hall : forallb (λ k, bool_decide (six (sextet (N.of_nat k)) = Some (N.of_nat k))) (seq 0 64) = true)
    by (vm_compute; reflexivity).
  rewrite forallb_forall in Hall. specialize (Hall (N.to_nat n)). rewrite N2Nat.id in Hall.
  eapply bool_decide_eq_true_1, Hall, in_seq. lia.
Qed.

Lemma quads_small a b c : (quad1 a < 64 ∧ quad2 a b < 64 ∧ quad3 b c < 64 ∧ quad4 c < 64)%N.
Proof.
  unfold quad1, quad2, quad3, quad4. pose proof (N_ascii_bounded a). pose proof (N_ascii_bounded b).
  pose proof (N_ascii_bounded c). split_and!; zify; Z.to_euclidean_division_equations; lia.
Qed.

Lemma bytes_back a b c :
  byte1 (quad1 a) (quad2 a b) = a ∧ byte2 (quad2 a b) (quad3 b c) = b ∧ byte3 (quad3 b c) (quad4 c) = c.
Proof.
  unfold byte1, byte2, byte3, quad1, quad2, quad3, quad4. pose proof (N_ascii_bounded a). pose proof (N_ascii_bounded b).
  pose proof (N_ascii_bounded c). split_and!.
  - etrans; [|apply (ascii_N_embedding a)]. f_equal. zify; Z.to_euclidean_division_equations; lia.
  - etrans; [|apply (ascii_N_embedding b)]. f_equal. zify; Z.to_euclidean_division_equations; lia.
  - etrans; [|apply (ascii_N_embedding c)]. f_equal. zify; Z.to_euclidean_division_equations; lia.
Qed.

(** What is encoded is decoded, whatever the bytes and their number. *)
Lemma base64_roundtrip src : read_base64 (base64 src) = Some src.
Proof.
  assert (Hpad : six pad = None) by done.
  revert src. fix IH 1. intros [|a [|b [|c src]]]; [done|..].
  - destruct (quads_small a zero zero) as (H1 & H2 & _), (bytes_back a zero zero) as (Ha & _).
    cbn [base64 read_base64]. rewrite !sextet_six by done. simpl. by rewrite Ha.
  - destruct (quads_small a b zero) as (H1 & H2 & H3 & _), (bytes_back a b zero) as (Ha & Hb & _).
    cbn [base64 read_base64]. rewrite !sextet_six by done. simpl. by rewrite Ha, Hb.
  - destruct (quads_small a b c) as (H1 & H2 & H3 & H4), (bytes_back a b c) as (Ha & Hb & Hc).
    cbn [base64 read_base64]. rewrite !sextet_six by done. simpl. by rewrite IH, Ha, Hb, Hc.
Qed.

(** ** The request *)

(** [PushRequest] with its [PushMessage]; [encoding/json] leaves an empty ordering key out. *)
Record PushMessage := MkPushMessage {
  pu_Attributes : Attributes; pu_Data : string; pu_MessageId : string; pu_OrderingKey : string; pu_PublishTime : time }.
Record PushRequest := MkPushRequest { pu_Message : PushMessage; pu_Subscription : string; pu_DeliveryAttempt : Z }.

Section Push.
Context {U : UuidText}.

Definition push_request (subscriptionName : string) (del : SubscriptionMessageDelivery) : PushRequest :=
  MkPushRequest
    (MkPushMessage (smd_Attributes del) (base64 (smd_Payload del)) (uuid_String (smd_MessageID del))
       (default EmptyString (smd_OrderKey del)) (smd_PublishedAt del))
    subscriptionName (smd_NumAttempts del).

(** A push carries what a pull of the same delivery does: the payload in base64, the rest as it
    is, but for the attempt, which a pull answers in 32 bits. *)
Theorem push_like_pull name del :
  let rq := push_request name del in
  let m := entDeliveryToGrpc del in
  read_base64 (pu_Data (pu_Message rq)) = Some (pbr_Data m) ∧
  pu_MessageId (pu_Message rq) = pbr_MessageId m ∧
  uuid_Parse (pu_MessageId (pu_Message rq)) = Some (smd_MessageID del) ∧
  pu_Attributes (pu_Message rq) = pbr_Attributes m ∧
  pu_OrderingKey (pu_Message rq) = pbr_OrderingKey m ∧
  pu_PublishTime (pu_Message rq) = pbr_PublishTime m ∧
  int32_wrap (pu_DeliveryAttempt rq) = pbr_DeliveryAttempt m.
Proof. split; [apply base64_roundtrip|]. by split_and!; [|apply uuid_Parse_String|..]. Qed.
End Push.

Example base64_examples :
  base64 "" = "" ∧ base64 "M" = "TQ==" ∧ base64 "Ma" = "TWE=" ∧ base64 "Man" = "TWFu" ∧ read_base64 "TQ=" = None.
Proof. by vm_compute. Qed.
