(* ===== verification/StreamPull.v ===== *)
(** * The StreamingPull handler

    [StreamingPull] of [src/services/grpc-subscriber.go] around its streamer: what it answers
    before the stream starts and when it ends; and [streamWrapper.Receive] and [Close], which
    take the client's requests on goroutines of their own because [stream.Recv] cannot be
    interrupted.

    A step of the wrapper is what happens between two points where its mutex, a channel or the
    stream is used.  [taken] and [results] are history: what [stream.Recv] has returned so far, and
    what [Receive] has. *)

From S2P Require Import Prelude Uuid Filter FilterParse Schema Backoff Notify Store Example Deliver.
From S2P Require Import Lifecycle Receive Rpc Subscriber Streamer StreamConn.

(** ** Before and after the stream *)

(** [WrapError]: a status keeps its code *)
Definition WrapError (e : error) : error :=
  match e with StatusError c => StatusError c | _ => ErrOther "Error receiving StreamingPull message" end.

(** The code of the answer to a stream that ended in [err]; [status.FromError], or else
    [status.FromContextError], is [status_code]. *)
Definition end_code (err : option error) : option code :=
  match err with
  | None => None
  | Some e =>
      let c := status_code e in
      if decide (c = Canceled ∨ c = DeadlineExceeded) then Some c
      else Some (if isNotFound e then NotFound else c)
  end.

Section Start.
Context {E : Engine}.

(** Up to the call of [streamer.Go]: [received] is the first [stream.Recv]. *)
Definition StreamingPull_start (received : error + (string * StreamingPullRequest)) (committed : outcome ()) (w : world)
  : outcome (subscription * StreamingPullRequest) * world :=
  match received with
  | inl e => (Err (WrapError e), w)
  | inr (name, initial) =>
      if negb (isValidSubscriptionName name) then (invalid, w)
      else
        let '(res, w) := DoTx committed (sub_by_name name) w in
        (map_error not_found_status (map_ok (λ sub, (sub, initial)) res), w)
  end.

Lemma sub_by_name_only name t :
  sub_by_name name t = map_ok (λ s, (s, t)) (only (rows_where (live_sub_named name) (tx_db t))).
Proof. unfold sub_by_name, Only, All. erewrite bind_step by reflexivity. by destruct (only _). Qed.

(** A client is let in exactly if it names a live subscription; otherwise it is told why. Looking
    the subscription up changes nothing but the counter of new ids. *)
Lemma StreamingPull_start_spec received committed w :
  db_wf (w_db w) →
  let '(res, w') := StreamingPull_start received committed w in
  w_db w' = w_db w ∧ w_reg w' = w_reg w ∧
  match received with
  | inl e => res = Err (WrapError e)
  | inr (name, initial) =>
      if isValidSubscriptionName name then
        match rows_where (live_sub_named name) (w_db w), committed with
        | [], _ => res = Err (StatusError NotFound)
        | s :: _, Ok _ => res = Ok (s, initial) ∧ subscriptions (w_db w) !! s_id s = Some s ∧ live_sub_named name s
        | _ :: _, Err e => res = Err (not_found_status e)
        | _ :: _, Panic p => res = Panic p
        end
      else res = invalid
  end.
Proof.
  intros W. unfold StreamingPull_start. destruct received as [e|[name initial]]; [done|].
  destruct (isValidSubscriptionName name); simpl negb; cbv iota; [|done].
  destruct (live_subs_named name (w_db w) W) as [Hl|(s & Hl & Hs & Hn)].
  - unfold DoTx. rewrite sub_by_name_only. cbn [tx_db]. by rewrite Hl.
  - unfold DoTx. rewrite sub_by_name_only. cbn [tx_db]. rewrite Hl. by destruct committed.
Qed.
End Start.

(** ** The wrapper *)

Section Wrapper.
(** What [stream.Recv] returns *)
Context {item : Type}.

(** The goroutine a [Receive] starts: it reads [w.receives], then the stream, then offers what it
    got.  [closed_chan] says whether [w.receives] was nil when it looked. *)
Inductive helper := HStart | HRecv (nil_chan : bool) | HOffer (nil_chan : bool) (x : item) | HGone.
(** The caller of [Receive] *)
Inductive receiver := RIdle | RStart | RSelect (nil_chan : bool).

Inductive received := Got (x : item) | ClosedCanceled.

Record wrapper := MkWrapper {
  w_closed : bool; w_nil : bool; w_helpers : list helper; w_receiver : receiver;
  taken : list item; results : list received }.

(** After [init], the initial request having been handed out. *)
Definition wrapper_start : wrapper := MkWrapper false false [] RIdle [] [].

Inductive wevent :=
  | Call                       (** [Receive] is called and starts its goroutine *)
  | HelperTake (i : nat)       (** the goroutine reads [w.receives] *)
  | ReceiverTake               (** so does the caller *)
  | Recv (i : nat) (x : item)  (** [stream.Recv] returns *)
  | HandOver (i : nat)
  | HelperAbandon (i : nat)
  | ReceiverClosed
  | CloseChan                  (** [close(w.closed)] *)
  | CloseNil.                  (** [w.receives = nil] *)

Definition set_helper (i : nat) (h : helper) (w : wrapper) : wrapper :=
  MkWrapper (w_closed w) (w_nil w) (<[i := h]> (w_helpers w)) (w_receiver w) (taken w) (results w).

(** [None]: the step is not possible. [Some None]: it panics. *)
Definition wstep (e : wevent) (w : wrapper) : option (option wrapper) :=
  match e with
  | Call =>
      match w_receiver w with
      | RIdle => Some (Some (MkWrapper (w_closed w) (w_nil w) (w_helpers w ++ [HStart]) RStart (taken w) (results w)))
      | _ => None
      end
  | HelperTake i =>
      match w_helpers w !! i with Some HStart => Some (Some (set_helper i (HRecv (w_nil w)) w)) | _ => None end
  | ReceiverTake =>
      match w_receiver w with
      | RStart => Some (Some (MkWrapper (w_closed w) (w_nil w) (w_helpers w) (RSelect (w_nil w)) (taken w) (results w)))
      | _ => None
      end
  | Recv i x =>
      match w_helpers w !! i with
      | Some (HRecv n) =>
          Some (Some (MkWrapper (w_closed w) (w_nil w) (<[i := HOffer n x]> (w_helpers w)) (w_receiver w)
                        (taken w ++ [x]) (results w)))
      | _ => None
      end
  | HandOver i =>
      match w_helpers w !! i, w_receiver w with
      | Some (HOffer false x), RSelect false =>
          Some (Some (MkWrapper (w_closed w) (w_nil w) (<[i := HGone]> (w_helpers w)) RIdle (taken w) (results w ++ [Got x])))
      | _, _ => None
      end
  | HelperAbandon i =>
      match w_helpers w !! i with
      | Some (HOffer _ _) => if w_closed w then Some (Some (set_helper i HGone w)) else None
      | _ => None
      end
  | ReceiverClosed =>
      match w_receiver w with
      | RSelect _ =>
          if w_closed w
          then Some (Some (MkWrapper (w_closed w) (w_nil w) (w_helpers w) RIdle (taken w) (results w ++ [ClosedCanceled])))
          else None
      | _ => None
      end
  | CloseChan =>
      if w_closed w then Some None
      else Some (Some (MkWrapper true (w_nil w) (w_helpers w) (w_receiver w) (taken w) (results w)))
  | CloseNil =>
      if w_closed w then Some (Some (MkWrapper (w_closed w) true (w_helpers w) (w_receiver w) (taken w) (results w))) else None
  end.

Inductive wrapper_step : wrapper → wrapper → Prop :=
  | wrapper_event e w w' : wstep e w = Some (Some w') → wrapper_step w w'.
Definition wrapped (w : wrapper) : Prop := rtc wrapper_step wrapper_start w.

(** ** Nothing is lost while the stream is open *)

Definition got (w : wrapper) : list item := omap (λ r, match r with Got x => Some x | ClosedCanceled => None end) (results w).
Definition offered (w : wrapper) : list item :=
  omap (λ h, match h with HOffer _ x => Some x | _ => None end) (w_helpers w).

(** There is a goroutine for the call that waits, and none but that one. *)
Definition pending (hs : list helper) (l : list helper) : Prop := ∃ n, hs = replicate n HGone ++ l.

Definition open_ok (w : wrapper) : Prop :=
  w_nil w = false ∧
  match w_receiver w with
  | RIdle => pending (w_helpers w) [] ∧ results w = Got <$> taken w
  | RStart | RSelect false =>
      ∃ h, pending (w_helpers w) [h] ∧
      match h with
      | HStart | HRecv false => results w = Got <$> taken w
      | HOffer false x => ∃ before, taken w = before ++ [x] ∧ results w = Got <$> before
      | _ => False
      end
  | RSelect true => False
  end.

Lemma pending_lookup hs l i h :
  pending hs l → hs !! i = Some h → h ≠ HGone →
  ∃ n j, hs = replicate n HGone ++ l ∧ i = (n + j)%nat ∧ l !! j = Some h.
Proof.
  intros [n ->] Hi Hh. exists n, (i - n)%nat. split; [done|].
  apply lookup_app_Some in Hi as [Hi|[Hn Hi]]; [by apply lookup_replicate in Hi as [-> _]|].
  rewrite length_replicate in Hn, Hi. split; [lia|done].
Qed.

Lemma pending_insert hs h i h0 h' :
  pending hs [h] → hs !! i = Some h0 → h0 ≠ HGone → h = h0 ∧ pending (<[i := h']> hs) [h'].
Proof.
  intros Hp Hi Hh. destruct (pending_lookup _ _ _ _ Hp Hi Hh) as (n & [|j] & -> & -> & Hj); simplify_eq/=.
  split; [done|]. exists n. rewrite insert_app_r_alt; rewrite length_replicate; [|lia].
  by replace (n + 0 - n)%nat with 0%nat by lia.
Qed.

Lemma pending_gone hs : pending hs [HGone] → pending hs [].
Proof. intros [n ->]. exists (S n). by rewrite app_nil_r, replicate_S_end. Qed.

Lemma pending_none hs i h : pending hs [] → hs !! i = Some h → h = HGone.
Proof.
  intros Hp Hi. destruct h; try done;
    destruct (pending_lookup _ _ _ _ Hp Hi ltac:(done)) as (n & j & _ & _ & Hj); by rewrite lookup_nil in Hj.
Qed.

Lemma pending_more hs h : pending hs [] → pending (hs ++ [h]) [h].
Proof. intros [n ->]. exists n. by rewrite app_nil_r. Qed.

Lemma open_step w w' : open_ok w → w_closed w' = false → wrapper_step w w' → open_ok w'.
Proof.
  intros Hok Hc Hst. revert Hok Hc. destruct Hst as [e w w' Hs]. destruct w as [c n hs r tk rs].
  unfold open_ok. simpl. intros [-> Hok] Hc.
  destruct e; simpl in Hs; repeat case_match; simplify_eq/=; split; try done;
    first [destruct Hok as (h' & Hp & Hr) | destruct Hok as [Hp Hr]].
  all: try match goal with
    | Hp : pending ?hs [], Hi : ?hs !! _ = Some _ |- _ => by pose proof (pending_none _ _ _ Hp Hi)
    | Hp : pending ?hs [_], Hi : ?hs !! _ = Some _ |- context [<[_ := ?h]> ?hs] =>
        destruct (pending_insert hs _ _ _ h Hp Hi ltac:(done)) as [-> Hq]
    end.
  - exists HStart. split; [by apply pending_more|done].
  - by exists (HRecv false).
  - by exists (HRecv false).
  - destruct nil_chan; [done|]. exists (HOffer false x). split; [done|]. by exists tk.
  - destruct nil_chan0; [done|]. exists (HOffer false x). split; [done|]. by exists tk.
  - split; [by apply pending_gone|]. destruct Hr as (before & -> & ->). by rewrite fmap_app.
Qed.

Lemma closed_step w w' : wrapper_step w w' → w_closed w' = false → w_closed w = false.
Proof.
  intros Hst. destruct Hst as [e w w' Hs]. destruct w as [[] n hs r tk rs]; [|done]. intros Hc.
  destruct e; simpl in Hs; repeat case_match; simplify_eq/=; done.
Qed.

Lemma wrapped_ok w : wrapped w → w_closed w = false → open_ok w.
Proof.
  revert w. apply (rtc_ind_r (λ w, w_closed w = false → open_ok w)).
  - intros _. split; [done|]. split; [by exists 0%nat|done].
  - intros w1 w2 _ Hs IH Hc. eauto using open_step, closed_step.
Qed.

Lemma offered_gone n hs : omap (λ h : helper, match h with HOffer _ x => Some x | _ => None end) (replicate n HGone ++ hs) =
  omap (λ h, match h with HOffer _ x => Some x | _ => None end) hs.
Proof. induction n as [|n IH]; [done|exact IH]. Qed.

(** The goroutines that are not done *)
Definition working (w : wrapper) : list helper :=
  omap (λ h, match h with HGone => None | _ => Some h end) (w_helpers w).
Lemma working_replicate n hs : omap (λ h : helper, match h with HGone => None | _ => Some h end) (replicate n HGone ++ hs) =
  omap (λ h, match h with HGone => None | _ => Some h end) hs.
Proof. induction n as [|n IH]; [done|exact IH]. Qed.

(** C35 While the stream is open, what [stream.Recv] returned has been returned by [Receive], each item
    once and in the order of the stream, but for at most one item that a goroutine holds; there is
    one goroutine at work if a caller waits and none otherwise, so that [stream.Recv] is never
    called by two at once. *)
Theorem wrapper_delivers w :
  wrapped w → w_closed w = false →
  (∃ before, taken w = before ++ offered w ∧ results w = Got <$> before) ∧
  length (working w) = match w_receiver w with RIdle => 0%nat | _ => 1%nat end ∧
  (length (offered w) ≤ length (working w))%nat.
Proof.
  intros Hw Hc. destruct (wrapped_ok w Hw Hc) as [_ Hok]. unfold offered, working.
  destruct (w_receiver w) as [| |[]]; try done.
  - destruct Hok as [[n ->] Hr]. rewrite offered_gone, working_replicate. simpl. split; [|done].
    exists (taken w). by rewrite app_nil_r.
  - destruct Hok as (h & [n ->] & Hr). rewrite offered_gone, working_replicate.
    destruct h as [|[]|[] x|]; try done; simpl; (split; [|split; [done|lia]]); exists (taken w); by rewrite app_nil_r.
  - destruct Hok as (h & [n ->] & Hr). rewrite offered_gone, working_replicate.
    destruct h as [|[]|[] x|]; try done; simpl; (split; [|split; [done|lia]]); exists (taken w); by rewrite app_nil_r.
Qed.

(** Closing lets everybody go that does not wait for the stream itself: a goroutine that has its
    item may drop it, a caller that waits is answered, and a step of [Close] never waits.  Only a
    second [Close] panics. *)
Theorem wrapper_released w :
  (w_closed w = true →
    (∀ i n x, w_helpers w !! i = Some (HOffer n x) → is_Some (wstep (HelperAbandon i) w)) ∧
    (∀ n, w_receiver w = RSelect n → is_Some (wstep ReceiverClosed w)) ∧
    is_Some (wstep CloseNil w)) ∧
  (∀ e, wstep e w = Some None ↔ e = CloseChan ∧ w_closed w = true).
Proof.
  split.
  - intros Hc. split_and!; simpl; rewrite ?Hc.
    + intros i n x ->. by eexists.
    + intros n ->. by eexists.
    + by eexists.
  - intros e. split; [|by intros [-> Hc]; simpl; rewrite Hc].
    destruct e; simpl; repeat case_match; try done.
Qed.
End Wrapper.

(** The answer of [Receive] to the streamer, once the initial request has been handed out: what
    the client sent is not its first request any more. *)
Definition receive_answer {F : Float64} (uuid_Parse : string → option uuid)
    (r : received (item := error + StreamingPullRequest)) : outcome MessageStreamRequest :=
  match r with
  | ClosedCanceled => Err ContextCanceled
  | Got (inl e) => Err e
  | Got (inr m) => adaptIn uuid_Parse false m
  end.

(** [Send] and [SendBatch]: the messages of one response *)
Definition stream_Send {U : UuidText} (m : SubscriptionMessageDelivery) : list PbReceivedMessage := [entDeliveryToGrpc m].
Definition stream_SendBatch {U : UuidText} (ms : list SubscriptionMessageDelivery) : list PbReceivedMessage :=
  entDeliveryToGrpc <$> ms.

(** ** Witness *)

Fixpoint wrapper_run {item} (es : list wevent) (w : wrapper (item := item)) : option wrapper :=
  match es with
  | [] => Some w
  | e :: es => match wstep e w with Some (Some w) => wrapper_run es w | _ => None end
  end.
Lemma wrapper_run_wrapped {item} es (w0 w : wrapper (item := item)) :
  wrapped w0 → wrapper_run es w0 = Some w → wrapped w.
Proof.
  revert w0. induction es as [|e es IH]; intros w0 H0; simpl; [by intros [= ->]|].
  destruct (wstep e w0) as [[w1|]|] eqn:Hs; try done. apply IH. eapply rtc_r; [exact H0|by econstructor].
Qed.

(** Two calls; the second item is offered when the caller has not yet looked at the channel. *)
Definition demo_pull : list wevent :=
  [Call; ReceiverTake; HelperTake 0; Recv 0 7; HandOver 0; Call; HelperTake 1; Recv 1 8].

Lemma wrapper_delivers_witness :
  ∃ w, wrapper_run demo_pull wrapper_start = Some w ∧ offered w = [8] ∧ results w = [Got 7] ∧
    (∃ before, taken w = before ++ offered w ∧ results w = Got <$> before) ∧
    length (working w) = 1%nat ∧ (length (offered w) ≤ length (working w))%nat.
Proof.
  destruct (wrapper_run demo_pull wrapper_start) as [w|] eqn:H; [|vm_compute in H; discriminate].
  assert (Hw : wrapped w) by (eapply wrapper_run_wrapped; [apply rtc_refl|exact H]).
  assert (Hs : w_closed w = false ∧ w_receiver w = RStart ∧ offered w = [8] ∧ results w = [Got 7])
    by (vm_compute in H; injection H as <-; vm_compute; repeat split).
  destruct Hs as (Hc & Hr & Ho & Hg). exists w. split; [reflexivity|]. split; [exact Ho|]. split; [exact Hg|].
  destruct (wrapper_delivers w Hw Hc) as (H1 & H2 & H3). rewrite Hr in H2.
  split; [exact H1|]. split; [exact H2|exact H3].
Defined.
