(* ===== verification/Faults.v ===== *)
(** * Fault injection

    [src/faults/description.go] and [set.go].  A [Set] holds descriptions of faults by
    operation; [Check] looks for an active one that matches and runs it, at most [Count] times
    in all.  Its callers run concurrently: the lists are guarded by a read-write mutex, the
    counts are only touched by atomic operations, also outside the mutex.

    A call of [Check] and a background [prune] are goroutines; a step of one is one atomic
    operation or the taking of the mutex ([RLock] needs that nobody holds it for writing,
    [Lock] that nobody holds it at all).  A description is a pointer into [heap]: only its
    count ever changes.  [log] and [initial] are history: the descriptions whose handler was run
    so far, and the counts they were added with.  Handlers are values of a type [handler] that a caller supplies;
    [run_handler] is what they return. *)

From S2P Require Import Prelude.

Definition Parameters : Type := gmap string string.
Definition ptr := nat.

Section Faults.
Context {handler : Type}.

Record Description := MkDescription {
  Operation : string; d_Parameters : Parameters; OnFault : option handler; Count : Z;
  FaultDescription : string }.
Context (run_handler : handler → Description → Parameters → option error).

Definition set_Count (n : Z) (d : Description) : Description :=
  MkDescription (Operation d) (d_Parameters d) (OnFault d) n (FaultDescription d).

(** [Description.match] *)
Definition match_ (d : Description) (op : string) (params : Parameters) : bool :=
  if Count d <=? 0 then false
  else if negb (bool_decide (Operation d = op)) then false
  else bool_decide (map_Forall (λ p v, params !! p = Some v) (d_Parameters d)).

(** A goroutine; [lost] are the descriptions whose race it has lost, and [prune] is the local
    variable of [Check]. *)
Inductive goroutine :=
  | Retry (op : string) (params : Parameters) (prune : bool) (lost : list ptr)
  | Scan (op : string) (params : Parameters) (prune : bool) (lost : list ptr) (rest : list ptr)
  | Hit (op : string) (params : Parameters) (prune : bool) (lost : list ptr) (d : ptr)
  | Trigger (op : string) (params : Parameters) (prune : bool) (d : ptr) (remaining : Z)
  | Returned (res : option error)
  | PruneStart
  | Pruning (todo : list (string * list ptr)) (op : string) (kept rest : list ptr)
  | Pruned.

Record state := MkState {
  heap : gmap ptr Description; faults : gmap string (list ptr); threads : list goroutine;
  faultsTriggered : gmap string Z; faultsAdded : Z; faultsExpired : Z;
  log : list ptr; initial : gmap ptr Z }.

Definition NewSet : state := MkState ∅ ∅ [] ∅ 0 0 [] ∅.

Definition set_threads ts s := MkState (heap s) (faults s) ts (faultsTriggered s) (faultsAdded s)
  (faultsExpired s) (log s) (initial s).
Definition set_faults fs s := MkState (heap s) fs (threads s) (faultsTriggered s) (faultsAdded s)
  (faultsExpired s) (log s) (initial s).
Definition expired s := MkState (heap s) (faults s) (threads s) (faultsTriggered s) (faultsAdded s)
  (faultsExpired s + 1) (log s) (initial s).
Definition triggered op d s := MkState (heap s) (faults s) (threads s)
  (<[op := default 0 (faultsTriggered s !! op) + 1]> (faultsTriggered s)) (faultsAdded s)
  (faultsExpired s) (d :: log s) (initial s).

(** [atomic.AddInt64(&d.Count, -1)] *)
Definition decrement (d : ptr) (s : state) : state :=
  MkState (alter (λ x, set_Count (Count x - 1) x) d (heap s)) (faults s) (threads s)
    (faultsTriggered s) (faultsAdded s) (faultsExpired s) (log s) (initial s).

Definition reading (g : goroutine) : bool := match g with Scan _ _ _ _ _ => true | _ => false end.
Definition writing (g : goroutine) : bool := match g with Pruning _ _ _ _ => true | _ => false end.
Definition can_RLock (s : state) : bool := forallb (λ g, negb (writing g)) (threads s).
Definition can_Lock (s : state) : bool := forallb (λ g, negb (reading g || writing g)) (threads s).

(** The loop of [prune] over the lists: what it does after it took the mutex, or finished one. *)
Definition next_list (todo : list (string * list ptr)) : goroutine :=
  match todo with [] => Pruned | (op, l) :: todo => Pruning todo op [] l end.

(** The next step of a goroutine: the state, what it becomes, and the goroutines it starts. *)
Definition advance (g : goroutine) (s : state) : option (state * goroutine * list goroutine) :=
  match g with
  | Retry op params prune lost =>
      if can_RLock s then Some (s, Scan op params prune lost (default [] (faults s !! op)), []) else None
  | Scan op params prune lost [] => Some (s, Returned None, [])
  | Scan op params prune lost (d :: rest) =>
      match heap s !! d with
      | None => None
      | Some x => Some (s, if match_ x op params then Hit op params prune lost d
                           else Scan op params prune lost rest, [])
      end
  | Hit op params prune lost d =>
      match heap s !! d with
      | None => None
      | Some x =>
          let remaining := Count x - 1 in
          let prune := if remaining <=? 0 then true else prune in
          Some (decrement d s,
                if remaining <? 0 then Retry op params prune (d :: lost)
                else Trigger op params prune d remaining, [])
      end
  | Trigger op params prune d remaining =>
      match heap s !! d with
      | None => None
      | Some x =>
          let dd := MkDescription (Operation x) (d_Parameters x) None remaining (FaultDescription x) in
          match OnFault x with
          | None => None (** a nil function *)
          | Some h => Some (triggered (Operation x) d s, Returned (run_handler h dd params),
                            if prune then [PruneStart] else [])
          end
      end
  | PruneStart => if can_Lock s then Some (s, next_list (map_to_list (faults s)), []) else None
  | Pruning todo op kept (d :: rest) =>
      match heap s !! d with
      | None => None
      | Some x => if 0 <? Count x then Some (s, Pruning todo op (kept ++ [d]) rest, [])
                  else Some (expired s, Pruning todo op kept rest, [])
      end
  | Pruning todo op kept [] =>
      Some (set_faults (match kept with [] => delete op (faults s) | _ => <[op := kept]> (faults s) end) s,
            next_list todo, [])
  | Returned _ | Pruned => None
  end.

(** [Add]: the whole body holds the mutex. *)
Definition Add (d : Description) (s : state) : state :=
  let p := fresh (dom (heap s)) in
  MkState (<[p := d]> (heap s))
    (<[Operation d := default [] (faults s !! Operation d) ++ [p]]> (faults s)) (threads s)
    (faultsTriggered s) (faultsAdded s + 1) (faultsExpired s) (log s) (<[p := Count d]> (initial s)).

(** [Current], seen at one moment. *)
Definition Current (s : state) : gmap string (list Description) :=
  omap (λ l, match filter (λ d, 0 < Count d) (omap (λ p, heap s !! p) l) with [] => None | l => Some l end)
    (faults s).

(** ** Interleaving *)

Inductive step : state → state → Prop :=
  | step_Check op params s : step s (set_threads (threads s ++ [Retry op params false []]) s)
  | step_Add d s : can_Lock s = true → step s (Add d s)
  | step_thread i g s s' g' started :
      threads s !! i = Some g → advance g s = Some (s', g', started) →
      step s (set_threads (<[i := g']> (threads s) ++ started) s').

Definition reachable (s : state) : Prop := rtc step NewSet s.

(** ** Invariant *)

(** What other goroutines do to the heap: descriptions come, counts go down. *)
Definition heap_le (h h' : gmap ptr Description) : Prop :=
  ∀ p x, h !! p = Some x → ∃ n, h' !! p = Some (set_Count n x) ∧ n ≤ Count x.

Definition lost_ok (h : gmap ptr Description) (lost : list ptr) : Prop :=
  NoDup lost ∧ ∀ p, p ∈ lost → ∃ x, h !! p = Some x ∧ Count x < 0.

(** [k] goes on to hold of every active description of [l]. *)
Definition covers (h : gmap ptr Description) (l k : list ptr) (P : Description → bool) : Prop :=
  ∀ p x, p ∈ l → h !! p = Some x → P x = true → p ∈ k.
Definition active (x : Description) : bool := 0 <? Count x.

Definition thread_ok (s : state) (g : goroutine) : Prop :=
  match g with
  | Retry _ _ _ lost => lost_ok (heap s) lost
  | Scan op params _ lost rest =>
      lost_ok (heap s) lost ∧
      covers (heap s) (default [] (faults s !! op)) rest (λ x, match_ x op params)
  | Hit _ _ _ lost d => lost_ok (heap s) lost ∧ d ∉ lost
  | Trigger _ _ _ d _ => is_Some (heap s !! d)
  | Pruning todo op kept rest =>
      (∃ l, faults s !! op = Some l ∧ covers (heap s) l (kept ++ rest) active ∧
         ∀ p, p ∈ kept ++ rest → p ∈ l) ∧
      (∀ o l, (o, l) ∈ todo → faults s !! o = Some l) ∧ NoDup (op :: todo.*1)
  | _ => True
  end.

(** Whoever holds the mutex for writing holds it alone. *)
Definition exclusive (ts : list goroutine) : Prop := ∀ i j g g',
  ts !! i = Some g → ts !! j = Some g' → writing g = true → i ≠ j → reading g' || writing g' = false.

(** How often the handler of a description was run, and how many goroutines are about to. *)
Definition runs (p : ptr) (s : state) : Z := Z.of_nat (length (filter (λ q, q = p) (log s))).
Definition target (g : goroutine) : option ptr := match g with Trigger _ _ _ d _ => Some d | _ => None end.
Definition due (p : ptr) (ts : list goroutine) : Z :=
  Z.of_nat (length (filter (λ g, target g = Some p) ts)).

Record data_ok (s : state) : Prop := {
  inv_initial : ∀ p, is_Some (heap s !! p) → is_Some (initial s !! p);
  inv_log : ∀ p, p ∈ log s → is_Some (heap s !! p);
  inv_listed : ∀ op l p, faults s !! op = Some l → p ∈ l →
    ∃ x, heap s !! p = Some x ∧ Operation x = op;
  inv_active : ∀ p x, heap s !! p = Some x → 0 < Count x →
    ∃ l, faults s !! Operation x = Some l ∧ p ∈ l }.

Record invariant (s : state) : Prop := {
  inv_data : data_ok s;
  inv_threads : ∀ i g, threads s !! i = Some g → thread_ok s g;
  inv_count : ∀ p x n, heap s !! p = Some x → initial s !! p = Some n →
    runs p s + due p (threads s) + Z.max 0 (Count x) = Z.max 0 n;
  inv_exclusive : exclusive (threads s) }.

Lemma due_cons p g ts : due p (g :: ts) = due p [g] + due p ts.
Proof. unfold due. rewrite !filter_cons. case_decide; simpl; lia. Qed.
Lemma due_app p ts us : due p (ts ++ us) = due p ts + due p us.
Proof. unfold due. rewrite filter_app, length_app. lia. Qed.
Lemma due_insert p ts i g g' :
  ts !! i = Some g → due p (<[i := g']> ts) + due p [g] = due p ts + due p [g'].
Proof.
  revert i. induction ts as [|g0 ts IH]; intros [|i] Hi; simplify_eq/=.
  - rewrite (due_cons p g' ts), (due_cons p g ts). lia.
  - rewrite (due_cons p g0 (<[i:=g']> ts)), (due_cons p g0 ts). specialize (IH i Hi). lia.
Qed.
Lemma due_none p ts : (∀ i g, ts !! i = Some g → target g ≠ Some p) → due p ts = 0.
Proof.
  intros H. unfold due. rewrite filter_none; [done|].
  intros g [i Hi]%list_elem_of_lookup. eauto.
Qed.

Lemma heap_le_refl h : heap_le h h.
Proof. intros p x Hp. exists (Count x). by destruct x. Qed.
Lemma lost_ok_le h h' lost : heap_le h h' → lost_ok h lost → lost_ok h' lost.
Proof.
  intros Hle [Hnd Hl]. split; [done|]. intros p (x & Hx & Hc)%Hl.
  destruct (Hle _ _ Hx) as (n & Hn & ?). exists (set_Count n x). split; [done|]. simpl. lia.
Qed.

Lemma heap_le_some h h' p : heap_le h h' → is_Some (h !! p) → is_Some (h' !! p).
Proof. intros Hle [x Hx]. destruct (Hle p x Hx) as (n & -> & _). eauto. Qed.

(** A property of a description that a lower count cannot make true. *)
Lemma covers_le h h' l k P :
  heap_le h h' → (∀ p, p ∈ l → is_Some (h !! p)) →
  (∀ x n, n ≤ Count x → P (set_Count n x) = true → P x = true) → covers h l k P → covers h' l k P.
Proof.
  intros Hle Hl HP Hc p x' Hp Hx' HPx. destruct (Hl p Hp) as [x Hx].
  destruct (Hle _ _ Hx) as (n & Hn & ?). simplify_eq. eapply Hc; eauto.
Qed.
Lemma active_le x n : n ≤ Count x → active (set_Count n x) = true → active x = true.
Proof. unfold active. rewrite !Z.ltb_lt. simpl. lia. Qed.
Lemma match_le op params x n : n ≤ Count x → match_ (set_Count n x) op params = true → match_ x op params = true.
Proof.
  unfold match_. simpl. intros Hn. destruct (Z.leb_spec n 0); [done|].
  by rewrite (proj2 (Z.leb_gt (Count x) 0)) by lia.
Qed.

(** A goroutine that does not hold the mutex is indifferent to the lists. *)
Lemma thread_ok_unlocked s s' g :
  heap_le (heap s) (heap s') → reading g || writing g = false → thread_ok s g → thread_ok s' g.
Proof.
  intros Hle Hg. destruct g; simpl in *; try done.
  - by apply lost_ok_le.
  - intros [Hl ?]. split; [by eapply lost_ok_le|done].
  - by apply heap_le_some.
Qed.
Lemma thread_ok_le s s' g :
  (∀ op l p, faults s !! op = Some l → p ∈ l → is_Some (heap s !! p)) →
  heap_le (heap s) (heap s') → faults s' = faults s → thread_ok s g → thread_ok s' g.
Proof.
  intros Hlisted Hle Hf. destruct (reading g || writing g) eqn:Hg; [|by eapply thread_ok_unlocked].
  destruct g as [|op params pr lost rest| | | | |todo op kept rest|]; simpl in *; try done.
  - intros [Hl Hc]. split; [by eapply lost_ok_le|]. rewrite Hf. eapply covers_le, Hc; [done| |].
    + intros p Hp. destruct (faults s !! op) eqn:Ho; [by eapply Hlisted|by apply elem_of_nil in Hp].
    + intros x n. apply match_le.
  - rewrite Hf. intros [(l & Hl & Hc & Hk) Htodo]. split; [|done]. exists l. split_and!; [done| |done].
    eapply covers_le, Hc; [done|intros p Hp; by eapply Hlisted|apply active_le].
Qed.

Lemma inv_listed_some s op l p :
  data_ok s → faults s !! op = Some l → p ∈ l → is_Some (heap s !! p).
Proof. intros Hi Hl Hp. destruct (inv_listed s Hi _ _ _ Hl Hp) as (x & -> & _). eauto. Qed.

Lemma can_Lock_free s i g : can_Lock s = true → threads s !! i = Some g → reading g || writing g = false.
Proof.
  unfold can_Lock. rewrite forallb_forall. intros H Hi. apply list_elem_of_lookup_2, list_elem_of_In in Hi.
  specialize (H _ Hi). by apply negb_true_iff in H.
Qed.
Lemma can_RLock_free s i g : can_RLock s = true → threads s !! i = Some g → writing g = false.
Proof.
  unfold can_RLock. rewrite forallb_forall. intros H Hi. apply list_elem_of_lookup_2, list_elem_of_In in Hi.
  specialize (H _ Hi). by apply negb_true_iff in H.
Qed.

Lemma lookup_started i j g' started ts g :
  (<[i := g']> ts ++ started) !! j = Some g → started = [] ∨ started = [PruneStart] →
  (j = i ∧ g = g') ∨ (j ≠ i ∧ ts !! j = Some g) ∨ g = PruneStart.
Proof.
  intros Hj Hs. apply lookup_app_Some in Hj as [Hj|[_ Hj]].
  - apply list_lookup_insert_Some in Hj as [(-> & -> & _)|[? ?]]; auto.
  - right. right. destruct Hs as [-> | ->]; [done|]. by apply list_lookup_singleton_Some in Hj as [_ <-].
Qed.

(** One goroutine moves: what is left to show.  [spent] says that what the step takes from the
    count of a description, it adds to the runs, made or due. *)
Definition spent (s s' : state) (g g' : goroutine) : Prop := ∀ p x' n,
  heap s' !! p = Some x' → initial s' !! p = Some n →
  ∃ x, heap s !! p = Some x ∧ initial s !! p = Some n ∧
    runs p s' + due p [g'] + Z.max 0 (Count x') = runs p s + due p [g] + Z.max 0 (Count x).

Lemma spent_same s s' g g' :
  heap s' = heap s → initial s' = initial s → log s' = log s → target g' = target g → spent s s' g g'.
Proof.
  intros Hh Hi Hl Ht p x n. rewrite Hh, Hi. intros Hx Hn. exists x. split_and!; [done..|].
  unfold runs, due. rewrite Hl, !filter_cons, Ht. by case_decide.
Qed.

Lemma invariant_thread s s' i g g' started :
  invariant s → threads s !! i = Some g → threads s' = threads s → data_ok s' → spent s s' g g' →
  (∀ j g1, j ≠ i → threads s !! j = Some g1 → thread_ok s' g1) → thread_ok s' g' →
  started = [] ∨ started = [PruneStart] →
  (writing g' = true → writing g = true ∨ can_Lock s = true) →
  (reading g' = true → reading g = true ∨ can_RLock s = true) →
  invariant (set_threads (<[i := g']> (threads s) ++ started) s').
Proof.
  intros [_ _ Hcount Hex] Hi Ht Hd Hspent Hothers Hg' Hs Hw Hr.
  assert (Hok : ∀ g1, thread_ok s' g1 → thread_ok (set_threads (<[i := g']> (threads s) ++ started) s') g1)
    by (by intros []).
  split; [by destruct Hd| | |]; simpl.
  - intros j g1 Hj. apply Hok.
    destruct (lookup_started _ _ _ _ _ _ Hj Hs) as [[-> ->]|[[? ?]| ->]]; [exact Hg'|by eapply Hothers|exact I].
  - intros p x' n Hx' Hn. destruct (Hspent p x' n Hx' Hn) as (x & Hx & Hn' & Heq).
    specialize (Hcount p x n Hx Hn'). pose proof (due_insert p _ _ _ g' Hi) as Hdue.
    rewrite due_app. assert (due p started = 0) as -> by (by destruct Hs as [-> | ->]).
    change (runs p (set_threads _ s')) with (runs p s'). lia.
  - intros a b ga gb Ha Hb Hwa Hab.
    destruct (lookup_started _ _ _ _ _ _ Ha Hs) as [[-> ->]|[[Hai Ha']| ->]]; [| |done];
      (destruct (lookup_started _ _ _ _ _ _ Hb Hs) as [[-> ->]|[[Hbi Hb']| ->]]; [| |done]).
    + done.
    + destruct (Hw Hwa) as [Hwg|Hl]; [by eapply (Hex i b)|by eapply can_Lock_free].
    + apply orb_false_iff. split; [destruct (reading g') eqn:Hx|destruct (writing g') eqn:Hx]; try done.
      * pose proof (Hex a i _ _ Ha' Hi Hwa Hai) as [Hg _]%orb_false_iff.
        destruct (Hr eq_refl) as [?|Hl]; [congruence|].
        pose proof (can_RLock_free s a ga Hl Ha'). congruence.
      * pose proof (Hex a i _ _ Ha' Hi Hwa Hai) as [_ Hg]%orb_false_iff.
        destruct (Hw eq_refl) as [?|Hl]; [congruence|].
        pose proof (can_Lock_free s a ga Hl Ha') as [_ ?]%orb_false_iff. congruence.
    + by eapply (Hex a b).
Qed.

(** The steps that only move the goroutine. *)
Lemma invariant_move s i g g' started :
  invariant s → threads s !! i = Some g → thread_ok s g' → target g' = target g →
  started = [] ∨ started = [PruneStart] →
  (writing g' = true → writing g = true ∨ can_Lock s = true) →
  (reading g' = true → reading g = true ∨ can_RLock s = true) →
  invariant (set_threads (<[i := g']> (threads s) ++ started) s).
Proof.
  intros Hi Hg Hg' Ht Hs Hw Hr. eapply invariant_thread; try done; [apply Hi|by apply spent_same|].
  intros j g1 _ Hj. by eapply inv_threads.
Qed.

(** Changes of the metrics. *)
Lemma thread_ok_data s s' g :
  heap s' = heap s → faults s' = faults s → thread_ok s g → thread_ok s' g.
Proof. intros Hh Hf. destruct g; simpl; by rewrite ?Hh, ?Hf. Qed.

Lemma decrement_le p h : heap_le h (alter (λ x, set_Count (Count x - 1) x) p h).
Proof.
  intros q x Hx. destruct (decide (p = q)) as [->|].
  - exists (Count x - 1). rewrite lookup_alter_eq, Hx. split; [done|lia].
  - exists (Count x). rewrite lookup_alter_ne, Hx by done. split; [by destruct x|lia].
Qed.
Lemma alter_back (p q : ptr) (h : gmap ptr Description) x' :
  alter (λ x, set_Count (Count x - 1) x) p h !! q = Some x' →
  ∃ x, h !! q = Some x ∧ x' = (if decide (p = q) then set_Count (Count x - 1) x else x).
Proof.
  intros Hx. case_decide as Hpq; [subst q|].
  - rewrite lookup_alter_eq in Hx. apply fmap_Some in Hx as (x & Hx & ->). eauto.
  - rewrite lookup_alter_ne in Hx by done. eauto.
Qed.

Lemma decrement_data p s : data_ok s → data_ok (decrement p s).
Proof.
  intros [Hin Hlog Hl Ha]. split; simpl.
  - intros q [x' (x & Hx & _)%alter_back]. apply Hin. eauto.
  - intros q Hq%Hlog. by eapply heap_le_some, Hq; apply decrement_le.
  - intros op l q Hop Hq. destruct (Hl _ _ _ Hop Hq) as (x & Hx & Ho).
    destruct (decrement_le p (heap s) q x Hx) as (n & Hn & _). exists (set_Count n x). by split.
  - intros q x' (x & Hx & ->)%alter_back Hpos.
    assert (Hpos' : 0 < Count x) by (case_decide; simpl in *; lia).
    destruct (Ha q x Hx Hpos') as (l & ? & ?). exists l. by case_decide.
Qed.

Lemma next_list_ok s todo :
  (∀ o l, (o, l) ∈ todo → faults s !! o = Some l) → NoDup todo.*1 → thread_ok s (next_list todo).
Proof.
  intros Hf Hnd. destruct todo as [|[op l] todo]; simpl; [done|]. split_and!.
  - exists l. split_and!; [apply Hf; by left|by intros p x Hp _ _|done].
  - intros o l' Hin. apply Hf. by right.
  - exact Hnd.
Qed.

(** [prune] replaces a list by what it kept of it. *)
Definition pruned_list (op : string) (kept : list ptr) (s : state) : state :=
  set_faults (match kept with [] => delete op (faults s) | _ => <[op := kept]> (faults s) end) s.

Lemma pruned_lookup op kept s o l :
  faults (pruned_list op kept s) !! o = Some l ↔
    (o = op ∧ l = kept ∧ kept ≠ []) ∨ (o ≠ op ∧ faults s !! o = Some l).
Proof.
  unfold pruned_list. simpl. destruct kept as [|k kept].
  - rewrite lookup_delete_Some. naive_solver.
  - rewrite lookup_insert_Some. naive_solver.
Qed.

Lemma pruned_data s op l kept :
  data_ok s → faults s !! op = Some l → covers (heap s) l kept active → (∀ p, p ∈ kept → p ∈ l) →
  data_ok (pruned_list op kept s).
Proof.
  intros [Hin Hlog Hl Ha] Hop Hcov Hk. split; try done.
  - intros o l' p [(-> & -> & _)|[_ Ho]]%pruned_lookup Hp; [by eapply Hl, Hk|by eapply Hl].
  - intros p x Hx Hpos. destruct (Ha p x Hx Hpos) as (l' & Hl' & Hp).
    destruct (decide (Operation x = op)) as [Ho|Ho].
    + assert (Hkept : p ∈ kept).
      { eapply Hcov; [|exact Hx|by apply Z.ltb_lt]. by simplify_eq. }
      exists kept. split; [|done]. apply pruned_lookup. left. split_and!; [done|done|].
      intros ->. by apply elem_of_nil in Hkept.
    + exists l'. split; [|done]. apply pruned_lookup. by right.
Qed.

Lemma Add_data d s : data_ok s → data_ok (Add d s).
Proof.
  intros [Hin Hlog Hl Ha]. unfold Add. set (p := fresh (dom (heap s))).
  assert (Hp : heap s !! p = None) by (apply not_elem_of_dom, is_fresh).
  assert (Hne : ∀ q, is_Some (heap s !! q) → p ≠ q) by (intros q [x Hx] ->; congruence).
  split; simpl.
  - intros q. rewrite !lookup_insert_is_Some'. naive_solver.
  - intros q Hq. rewrite lookup_insert_is_Some'. right. by apply Hlog.
  - intros op l q Hop Hq.
    assert (Hold : q ∈ default [] (faults s !! op) → ∃ x, <[p := d]> (heap s) !! q = Some x ∧ Operation x = op).
    { intros Hq'. destruct (faults s !! op) as [l0|] eqn:Hl0; [|by apply elem_of_nil in Hq'].
      destruct (Hl _ _ _ Hl0 Hq') as (x & Hx & Hox). exists x. split; [|done].
      rewrite lookup_insert_ne; [done|]. apply Hne. eauto. }
    apply lookup_insert_Some in Hop as [[<- <-]|[_ Hop]]; [|apply Hold; by rewrite Hop].
    apply elem_of_app in Hq as [Hq|Hq%list_elem_of_singleton]; [by apply Hold|subst q].
    exists d. by rewrite lookup_insert_eq.
  - intros q x [[<- <-]|[Hpq Hx]]%lookup_insert_Some Hpos.
    + eexists. rewrite lookup_insert_eq. split; [done|]. apply elem_of_app. right. by left.
    + destruct (Ha q x Hx Hpos) as (l & Hl' & Hq). destruct (decide (Operation d = Operation x)) as [->|].
      * eexists. rewrite lookup_insert_eq. split; [done|]. rewrite Hl'. apply elem_of_app. by left.
      * exists l. by rewrite lookup_insert_ne.
Qed.

Lemma Add_invariant d s : invariant s → can_Lock s = true → invariant (Add d s).
Proof.
  intros Hi Hlock. split; [apply Add_data, Hi| | |apply Hi].
  2: { unfold Add. simpl. intros q x n. rewrite !lookup_insert_Some.
    set (p := fresh _). intros [[<- <-]|[Hpq Hx]] [[? <-]|[? Hn]]; try done; [|by apply (inv_count s Hi)].
    assert (Hp : heap s !! p = None) by (apply not_elem_of_dom, is_fresh).
    rewrite due_none.
    2: { intros i g Hg Ht. apply (inv_threads s Hi) in Hg. destruct g; simplify_eq/=. destruct Hg. congruence. }
    unfold runs. simpl. rewrite filter_none; [simpl; lia|].
    intros q Hq ->. apply (inv_log s (inv_data s Hi)) in Hq as [? ?]. congruence. }
  intros i g Hg. apply (thread_ok_unlocked s); [|by eapply can_Lock_free|by eapply inv_threads].
  intros q x Hx. exists (Count x). split; [|done]. unfold Add. simpl.
  rewrite lookup_insert_ne; [by destruct x|]. intros <-.
  apply elem_of_dom_2 in Hx. by apply (is_fresh (dom (heap s))).
Qed.

Lemma Check_invariant op params s :
  invariant s → invariant (set_threads (threads s ++ [Retry op params false []]) s).
Proof.
  intros [Hd Ht Hcount Hex].
  assert (Hnew : ∀ i g, (threads s ++ [Retry op params false []]) !! i = Some g →
    threads s !! i = Some g ∨ g = Retry op params false []).
  { intros i g [?|[_ [_ <-]%list_lookup_singleton_Some]]%lookup_app_Some; auto. }
  split; [by destruct Hd| | |]; simpl.
  - intros i g [Hg| ->]%Hnew; [by apply Ht in Hg; destruct g|]. split; [constructor|]. by intros p ?%elem_of_nil.
  - intros p x n Hx Hn. rewrite due_app, Z.add_0_r. by apply Hcount.
  - intros i j g g' [Hg| ->]%Hnew [Hg'| ->]%Hnew; try done. by apply Hex.
Qed.

Lemma advance_invariant s i g s' g' started :
  invariant s → threads s !! i = Some g → advance g s = Some (s', g', started) →
  invariant (set_threads (<[i := g']> (threads s) ++ started) s').
Proof.
  intros Hi Hg H. pose proof (inv_threads s Hi _ _ Hg) as Hok. pose proof (inv_data s Hi) as Hd.
  destruct g as [op params pr lost|op params pr lost rest|op params pr lost d|op params pr d rem|
    |  |todo op kept rest|]; simpl in H, Hok; try done.
  - (* Retry *)
    destruct (can_RLock s) eqn:Hlock; simplify_eq.
    eapply invariant_move; try done; auto. split; [done|]. by intros p x Hp _ _.
  - (* Scan *)
    destruct Hok as [Hlost Hcov]. destruct rest as [|d rest]; [simplify_eq; by eapply invariant_move; try done; auto|].
    destruct (heap s !! d) as [x|] eqn:Hx; simplify_eq. eapply invariant_move; try done; auto.
    + destruct (match_ x op params) eqn:Hm; simpl.
      * split; [done|]. intros Hin. destruct (proj2 Hlost d Hin) as (y & Hy & Hc).
        assert (y = x) as -> by congruence.
        unfold match_ in Hm. by rewrite (proj2 (Z.leb_le (Count x) 0)) in Hm by lia.
      * split; [done|]. intros p y Hp Hy HPy. pose proof (Hcov p y Hp Hy HPy) as [->|]%elem_of_cons; [|done].
        simplify_eq. congruence.
    + by destruct (match_ x op params).
    + by destruct (match_ x op params).
  - (* Hit *)
    destruct Hok as [Hlost Hd']. destruct (heap s !! d) as [x|] eqn:Hx; simplify_eq.
    eapply invariant_thread; try done; auto.
    + by apply decrement_data.
    + intros p x' n (y & Hy & ->)%alter_back Hn. exists y. split_and!; [done..|].
      change (runs p (decrement d s)) with (runs p s). case_decide as Hdp.
      * subst p. assert (y = x) as -> by congruence. simpl.
        destruct (Z.ltb_spec (Count x - 1) 0); unfold due; rewrite !filter_cons; simpl; repeat case_decide;
          simplify_eq; simpl; lia.
      * destruct (_ <? _); unfold due; rewrite !filter_cons; simpl; repeat case_decide; simplify_eq; simpl; lia.
    + intros j g1 _ Hj. apply (thread_ok_le s); [|apply decrement_le|done|by eapply inv_threads].
      intros ???. by apply inv_listed_some.
    + destruct (Z.ltb_spec (Count x - 1) 0); simpl; [|eapply heap_le_some; [apply decrement_le|eauto]].
      split; [apply NoDup_cons; split; [done|apply Hlost]|].
      intros p [->|Hp]%elem_of_cons.
      * exists (set_Count (Count x - 1) x). rewrite lookup_alter_eq, Hx. by split.
      * by apply (lost_ok_le _ _ _ (decrement_le d (heap s)) Hlost).
    + by destruct (_ <? _).
    + by destruct (_ <? _).
  - (* Trigger *)
    destruct (heap s !! d) as [x|] eqn:Hx; [|done]. destruct (OnFault x) as [h|]; simplify_eq.
    eapply invariant_thread; try done; auto; [| | |by destruct pr; auto].
    + destruct Hd as [? Hlog ? ?]. split; simpl; try done. intros p [->|Hp]%elem_of_cons; [eauto|by apply Hlog].
    + intros p y n Hy Hn. exists y. split_and!; [done..|]. unfold runs, due. simpl. rewrite !filter_cons. simpl.
      repeat case_decide; simplify_eq; simpl; lia.
    + intros j g1 _ Hj. by eapply thread_ok_data, inv_threads, Hj.
  - (* PruneStart *)
    destruct (can_Lock s) eqn:Hlock; simplify_eq. eapply invariant_move; try done; auto.
    + apply next_list_ok; [|apply NoDup_fst_map_to_list]. intros o l Hl. by apply elem_of_map_to_list.
    + by destruct (map_to_list (faults _)) as [|[]].
    + by destruct (map_to_list (faults _)) as [|[]].
  - (* Pruning *)
    destruct Hok as [(l & Hl & Hcov & Hk) [Htodo Hnd]]. destruct rest as [|d rest].
    + simplify_eq. rewrite app_nil_r in Hcov, Hk. apply NoDup_cons in Hnd as [Hop Hnd].
      change (set_faults _ s) with (pruned_list op kept s).
      eapply invariant_thread; try done; auto.
      * by eapply pruned_data.
      * apply spent_same; try done. by destruct todo as [|[]].
      * intros j g1 Hj Hg1. apply (thread_ok_unlocked s); [apply heap_le_refl| |by eapply inv_threads].
        by eapply (inv_exclusive s Hi i j).
      * apply next_list_ok; [|done]. intros o l' Hin. apply pruned_lookup. right.
        split; [|by apply Htodo]. intros ->. apply Hop. by apply (list_elem_of_fmap_2 fst _ _ Hin).
      * by destruct todo as [|[]].
    + destruct (heap s !! d) as [x|] eqn:Hx; [|done]. destruct (Z.ltb_spec 0 (Count x)); simplify_eq.
      * eapply invariant_move; try done; auto. simpl. split; [|done]. exists l. by rewrite <- (assoc_L (++)).
      * eapply invariant_thread; try done; auto; [by destruct Hd|by apply spent_same|intros j g1 _ Hj; by eapply thread_ok_data, inv_threads, Hj|].
        simpl. split; [|done]. exists l. split_and!; [done| |].
        -- intros p y Hp Hy Hact. pose proof (Hcov p y Hp Hy Hact) as Hin.
           apply elem_of_app in Hin as [Hin|[->|Hin]%elem_of_cons]; [apply elem_of_app; by left| |apply elem_of_app; by right].
           simplify_eq. apply Z.ltb_lt in Hact. lia.
        -- intros p Hp. apply Hk. apply elem_of_app in Hp as [?|?]; apply elem_of_app; [by left|right; by right].
Qed.

Lemma reachable_faults s : reachable s → invariant s.
Proof.
  intros Hr. cut (∀ s0, rtc step s0 s → invariant s0 → invariant s).
  { intros Hc. apply (Hc NewSet Hr). split; [split|..]; simpl.
    - by intros p [? ?].
    - by intros p ?%elem_of_nil.
    - intros op l p H. by rewrite lookup_empty in H.
    - intros p x H. by rewrite lookup_empty in H.
    - by intros i g H.
    - intros p x n H. by rewrite lookup_empty in H.
    - by intros i j g g' H. }
  intros s0. clear Hr. induction 1 as [|s0 s1 s2 Hs _ IH]; [done|]. intros Hi. apply IH.
  destruct Hs; [by apply Check_invariant|by apply Add_invariant|by eapply advance_invariant].
Qed.

(** ** Properties *)

(** C17 The handler of a configured fault is run at most [Count] times, however many callers
    race for it: at every moment the runs made, the runs that callers are about to make and what
    is left of the count make up the count it was added with.  So it has been run exactly that
    often once it is used up and nobody is about to run it, and never if the count was not
    positive. *)
Theorem fault_at_most_count s p x n :
  reachable s → heap s !! p = Some x → initial s !! p = Some n →
  runs p s ≤ Z.max 0 n ∧
  runs p s = Z.max 0 n - Z.max 0 (Count x) - due p (threads s) ∧
  (Count x ≤ 0 → (∀ i g, threads s !! i = Some g → target g ≠ Some p) → runs p s = Z.max 0 n).
Proof.
  intros Hr Hx Hn. pose proof (inv_count s (reachable_faults s Hr) p x n Hx Hn) as Hc.
  assert (0 ≤ due p (threads s)) by (unfold due; lia).
  split_and!; [lia..|]. intros ? Hno. rewrite (due_none p _ Hno) in Hc. lia.
Qed.

(** [Check] never misses an active fault: at the moment it gives up, having gone through
    the whole list, no description of the set matches its operation and parameters; and every
    active description, of whatever operation, is in the list of its operation and so shown by
    [Current], whatever pruning is under way. *)
Theorem fault_never_missed s i op params pr lost :
  reachable s → threads s !! i = Some (Scan op params pr lost []) →
  (∀ p x, heap s !! p = Some x → match_ x op params = false) ∧
  (∀ p x, heap s !! p = Some x → 0 < Count x → ∃ l, Current s !! Operation x = Some l ∧ x ∈ l).
Proof.
  intros Hr Hi. apply reachable_faults in Hr. pose proof (inv_data s Hr) as Hd. split.
  - intros p x Hx. apply not_true_iff_false. intros Hm.
    destruct (inv_threads s Hr _ _ Hi) as [_ Hcov].
    assert (Hpos : 0 < Count x ∧ Operation x = op).
    { unfold match_ in Hm. destruct (Z.leb_spec (Count x) 0); [done|].
      destruct (bool_decide (Operation x = op)) eqn:Ho; [|done]. by bool_props. }
    destruct Hpos as [Hpos Hop]. destruct (inv_active s Hd p x Hx Hpos) as (l & Hl & Hp).
    eapply elem_of_nil, (Hcov p x); [|exact Hx|exact Hm]. rewrite Hop in Hl. by rewrite Hl.
  - intros p x Hx Hpos. destruct (inv_active s Hd p x Hx Hpos) as (l & Hl & Hp).
    unfold Current. rewrite lookup_omap, Hl. simpl.
    assert (Hin : x ∈ filter (λ d, 0 < Count d) (omap (λ p, heap s !! p) l)).
    { apply list_elem_of_filter. split; [done|]. apply list_elem_of_omap. eauto. }
    destruct (filter _ _) as [|y k] eqn:Hk; [by apply elem_of_nil in Hin|]. eauto.
Qed.

(** The retries of [Check] end: each lost race is for another description, whose count is
    below zero for good, so a call retries at most once per description ever added. *)
Theorem Check_retries_bounded s i g lost :
  reachable s → threads s !! i = Some g →
  match g with Retry _ _ _ l | Scan _ _ _ l _ | Hit _ _ _ l _ => l = lost | _ => False end →
  NoDup lost ∧ (∀ p, p ∈ lost → ∃ x, heap s !! p = Some x ∧ Count x < 0) ∧
  (length lost ≤ size (heap s))%nat.
Proof.
  intros Hr Hi Hg. apply reachable_faults in Hr. pose proof (inv_threads s Hr _ _ Hi) as Hok.
  assert (Hl : lost_ok (heap s) lost) by (destruct g; simpl in Hok; try done; subst; tauto).
  destruct Hl as [Hnd Hneg]. split_and!; [done|done|].
  rewrite <- (size_list_to_set (C := gset ptr) lost Hnd), <- (size_dom (D := gset ptr) (heap s)).
  apply subseteq_size. intros p (x & Hx & _)%elem_of_list_to_set%Hneg. by apply elem_of_dom_2 in Hx.
Qed.

(** ** Running it *)

Inductive call := CallCheck (op : string) (params : Parameters) | CallAdd (d : Description) | StepOf (i : nat).
Definition exec (c : call) (s : state) : option state :=
  match c with
  | CallCheck op params => Some (set_threads (threads s ++ [Retry op params false []]) s)
  | CallAdd d => if can_Lock s then Some (Add d s) else None
  | StepOf i =>
      threads s !! i ≫= λ g, advance g s ≫= λ '(s', g', started),
      Some (set_threads (<[i := g']> (threads s) ++ started) s')
  end.
Fixpoint execs (cs : list call) (s : state) : option state :=
  match cs with [] => Some s | c :: cs => exec c s ≫= execs cs end.

Lemma execs_steps cs s s' : execs cs s = Some s' → rtc step s s'.
Proof.
  revert s. induction cs as [|c cs IH]; intros s; simpl; [by intros [= ->]|].
  intros (s1 & Hc & Hr)%bind_Some. eapply rtc_l, IH, Hr.
  destruct c as [op params|d|i]; simpl in Hc.
  - simplify_eq. apply step_Check.
  - destruct (can_Lock s) eqn:Hl; simplify_eq. by apply step_Add.
  - apply bind_Some in Hc as (g & Hg & Hc). apply bind_Some in Hc as ([[s2 g'] started] & Ha & Hc).
    simplify_eq. by eapply step_thread.
Qed.
End Faults.

(** ** Witnesses *)

(** Two callers race for a fault with one run left; the loser retries and finds nothing, the
    winner's prune then drops the description. *)
Definition demo_fault : Description := MkDescription "Publish" {["topic" := "t"%string]} (Some tt) 1 "boom".
Definition demo_handler (h : ()) (d : Description) (p : Parameters) : option error :=
  Some (ErrOther (FaultDescription (handler := ()) d)).
Definition demo_params : Parameters := {["topic" := "t"%string; "extra" := "x"%string]}.
Definition demo_race : list call :=
  [CallAdd demo_fault; CallCheck "Publish" demo_params; CallCheck "Publish" demo_params;
   StepOf 0; StepOf 1; StepOf 0; StepOf 1; StepOf 0; StepOf 1; StepOf 0; StepOf 1; StepOf 1].
Example demo_race_ends : threads <$> execs demo_handler (demo_race ++ [StepOf 1; StepOf 2; StepOf 2; StepOf 2]) NewSet
  = Some [Returned (Some (ErrOther "boom")); Returned None; Pruned].
Proof. vm_compute. reflexivity. Qed.

Lemma race_reachable n s : execs demo_handler (take n demo_race) NewSet = Some s → reachable demo_handler s.
Proof. apply execs_steps. Qed.

Lemma fault_at_most_count_witness :
  ∃ s x, execs demo_handler (take 9 demo_race) NewSet = Some s ∧ heap s !! 0%nat = Some x ∧
    Count x = -1 ∧ runs 0%nat s ≤ 1.
Proof.
  destruct (execs demo_handler (take 9 demo_race) NewSet) as [s|] eqn:H; [|vm_compute in H; discriminate].
  destruct (heap s !! 0%nat) as [x|] eqn:Hx; [|vm_compute in H; injection H as <-; discriminate].
  destruct (initial s !! 0%nat) as [n|] eqn:Hn; [|vm_compute in H; injection H as <-; discriminate].
  assert (Hc : Count x = -1 ∧ n = 1).
  { vm_compute in H. injection H as <-. vm_compute in Hx, Hn. injection Hx as <-. injection Hn as <-. split; reflexivity. }
  destruct Hc as [Hc ->]. exists s, x. split; [reflexivity|]. split; [exact Hx|]. split; [exact Hc|].
  apply (fault_at_most_count demo_handler s 0%nat x 1 (race_reachable 9 s H) Hx Hn).
Defined.

Lemma fault_never_missed_witness :
  ∃ s, execs demo_handler (take 12 demo_race) NewSet = Some s ∧
    threads s !! 1%nat = Some (Scan "Publish" demo_params true [0%nat] []) ∧
    ∀ p x, heap s !! p = Some x → match_ x "Publish" demo_params = false.
Proof.
  destruct (execs demo_handler (take 12 demo_race) NewSet) as [s|] eqn:H; [|vm_compute in H; discriminate].
  assert (Ht : threads s !! 1%nat = Some (Scan "Publish" demo_params true [0%nat] [])).
  { vm_compute in H. injection H as <-. vm_compute. reflexivity. }
  exists s. split; [reflexivity|]. split; [exact Ht|].
  apply (fault_never_missed demo_handler s 1%nat _ _ _ _ (race_reachable 12 s H) Ht).
Defined.

Lemma Check_retries_bounded_witness :
  ∃ s, execs demo_handler (take 12 demo_race) NewSet = Some s ∧ (1 ≤ size (heap s))%nat.
Proof.
  destruct (execs demo_handler (take 12 demo_race) NewSet) as [s|] eqn:H; [|vm_compute in H; discriminate].
  assert (Ht : threads s !! 1%nat = Some (Scan "Publish" demo_params true [0%nat] [])).
  { vm_compute in H. injection H as <-. vm_compute. reflexivity. }
  exists s. split; [reflexivity|].
  apply (Check_retries_bounded demo_handler s 1%nat _ [0%nat] (race_reachable 12 s H) Ht eq_refl).
Defined.
