(* ===== verification/FaultPoints.v ===== *)
(** * Where faults are injected

    [src/grpc/faults.go]: the interceptors that ask a [Set] before every call and around every
    message of a stream, with the parameters they take from a request; [src/controllers/
    fault-injector.go]: the route that adds descriptions.  [Check] and [prune] are here calls of a
    single caller, one after another; [Check_alone_steps] shows that such a call is a run of the
    goroutines of [Faults].

    Protocol buffer messages are the list of their populated fields; the texts of errors are left
    out.  What [strcase] and [codes.Code.UnmarshalJSON] make of a name is the class [GrpcNames]. *)

From S2P Require Import Prelude Filter Faults.

(** ** Requests *)

Record field := MkField {
  is_string : bool; is_repeated : bool; TextName : string; JSONName : string; FieldName : string;
  FullName : string; field_value : string }.

(** [None]: not a protocol buffer message *)
Definition proto := option (list field).

(** The body of [m.Range]: every name of the field, those that are the same only once. *)
Definition set_field (params : Parameters) (fd : field) : Parameters :=
  if is_string fd && negb (is_repeated fd) then
    let sv := field_value fd in
    let params := <[TextName fd := sv]> params in
    let params := if decide (JSONName fd = TextName fd) then params else <[JSONName fd := sv]> params in
    let params := if decide (FieldName fd = TextName fd) then params else <[FieldName fd := sv]> params in
    <[FullName fd := sv]> params
  else params.

(** [pooled] is the map that [paramsPool.Get] returns, with what its last user left in it. *)
Definition paramsFromProtoMessage (pooled : Parameters) (service method : string) (req : proto) : Parameters :=
  let params := foldr (λ k m, delete k m) pooled (elements (dom pooled)) in
  let params := <[service := method]> params in
  match req with Some fields => foldl set_field params fields | None => params end.

Fixpoint has_slash (s : string) : bool :=
  match s with EmptyString => false | String c s => bool_decide (c = "/"%char) || has_slash s end.
Fixpoint split_slash (s : string) : option (string * string) :=
  match s with
  | EmptyString => None
  | String c s =>
      if decide (c = "/"%char) then Some (EmptyString, s)
      else (λ '(l, r), (String c l, r)) <$> split_slash s
  end.
Definition splitMethodName (fullMethodName : string) : string * string :=
  let s := match fullMethodName with
           | String c s => if decide (c = "/"%char) then s else fullMethodName
           | EmptyString => fullMethodName
           end in
  default ("unknown", "unknown")%string (split_slash s).

Section Points.
Context {handler : Type} (run_handler : handler → Description (handler := handler) → Parameters → option error).

(** ** A caller alone *)

(** [match]: the first description of the list that matches *)
Fixpoint first_match (h : gmap ptr Description) (l : list ptr) (op : string) (params : Parameters)
  : option (ptr * Description (handler := handler)) :=
  match l with
  | [] => None
  | p :: l =>
      match h !! p with
      | Some x => if match_ x op params then Some (p, x) else first_match h l op params
      | None => first_match h l op params
      end
  end.

(** [Check]; a description without a handler would be a call of a nil function. *)
Definition Check_alone (op : string) (params : Parameters) (s : state) : outcome (option error) * state (handler := handler) :=
  match first_match (heap s) (default [] (faults s !! op)) op params with
  | None => (Ok None, s)
  | Some (p, x) =>
      let remaining := Count x - 1 in
      let s := triggered (Operation x) p (decrement p s) in
      match OnFault x with
      | None => (Panic "nil function", s)
      | Some h => (Ok (run_handler h (MkDescription (Operation x) (d_Parameters x) None remaining (FaultDescription x)) params), s)
      end
  end.

(** The loop of [prune] over one list, and the whole *)
Definition is_active (h : gmap ptr (Description (handler := handler))) (p : ptr) : bool :=
  match h !! p with Some x => active x | None => false end.
Definition prune_alone (s : state (handler := handler)) : state :=
  MkState (heap s)
    (omap (λ l, match filter (λ p, is_active (heap s) p = true) l with [] => None | l => Some l end) (faults s))
    (threads s) (faultsTriggered s) (faultsAdded s)
    (faultsExpired s + map_fold (λ _ l n, n + Z.of_nat (length (filter (λ p, is_active (heap s) p = false) l))) 0 (faults s))
    (log s) (initial s).

(** ** The interceptors *)

(** What a check asks for *)
Definition UnaryFaultInjector (pooled : Parameters) (full : string) (req : proto) {A} (serve : state → outcome A * state)
    (s : state (handler := handler)) : outcome A * state :=
  let '(service, method) := splitMethodName full in
  let params := paramsFromProtoMessage pooled service method req in
  match Check_alone method params s with
  | (Ok (Some err), s) => (Err err, s)
  | (Ok None, s) => serve s
  | (Err err, s) => (Err err, s)
  | (Panic p, s) => (Panic p, s)
  end.

(** [StreamFaultInjector] up to the call of the handler *)
Definition StreamFaultInjector_start (full : string) (s : state) : outcome (option error) * state :=
  let '(service, method) := splitMethodName full in
  Check_alone method {[ service := method ]} s.

(** [faultingStream.RecvMsg]; [received] is what the stream below returns. *)
Definition RecvMsg (pooled : Parameters) (full : string) (received : error + proto) (s : state)
  : outcome (option error) * state :=
  let '(service, method) := splitMethodName full in
  match Check_alone (method +:+ ":RecvMsg") ∅ s with
  | (Ok None, s) =>
      match received with
      | inl err => (Ok (Some err), s)
      | inr m => Check_alone (method +:+ ":RecvMsg") (paramsFromProtoMessage pooled service method m) s
      end
  | r => r
  end.

(** [faultingStream.SendMsg]; the flag says whether the message was handed to the stream below,
    whose answer is [sent]. *)
Definition SendMsg (pooled : Parameters) (full : string) (m : proto) (sent : option error) (s : state)
  : outcome (option error) * bool * state :=
  let '(service, method) := splitMethodName full in
  match Check_alone (method +:+ ":SendMsg") (paramsFromProtoMessage pooled service method m) s with
  | (Ok None, s) => (Ok sent, true, s)
  | (r, s) => (r, false, s)
  end.
End Points.

(** ** The controller *)

Class GrpcNames := { screaming_code : string → option code }.

(** The functions [errorFactory] returns *)
Inductive fault_handler := StatusFault (c : code) | ContextFault (e : error) | NotFoundFault.
Definition run_fault (h : fault_handler) (d : Description (handler := fault_handler)) (p : Parameters) : option error :=
  Some match h with
       | StatusFault c => StatusError c
       | ContextFault e => e
       | NotFoundFault => EntNotFound
       end.

Section Controller.
Context {GN : GrpcNames}.

Definition errorFactory (errorType : string) : outcome fault_handler :=
  if HasPrefix errorType "grpc." then
    if decide (errorType = "grpc.Canceled") then Ok (StatusFault Canceled)
    else match screaming_code (String.substring 5 (String.length errorType - 5) errorType) with
         | Some c => Ok (StatusFault c)
         | None => Panic "unmarshal"
         end
  else if decide (errorType = "context.Canceled") then Ok (ContextFault ContextCanceled)
  else if decide (errorType = "context.DeadlineExceeded") then Ok (ContextFault ContextDeadlineExceeded)
  else if decide (errorType = "ent.NotFound") then Ok NotFoundFault
  else Panic "unsupported error type".

(** The body of a POST: [oas.FaultDescription] *)
Record fault_body := MkFaultBody {
  fb_Operation : string; fb_Parameters : option Parameters; fb_Count : option Z; fb_Error : string }.

(** [AddDescriptor]: the status, and the set; [None] is a body that does not decode. *)
Definition AddDescriptor (body : option fault_body) (s : state (handler := fault_handler)) : outcome Z * state :=
  match body with
  | None => (Ok 400, s)
  | Some fd =>
      match errorFactory (fb_Error fd) with
      | Ok h =>
          (Ok 201, Add (MkDescription (fb_Operation fd) (default ∅ (fb_Parameters fd)) (Some h)
                     (default int64_max (fb_Count fd)) (fb_Error fd)) s)
      | Err e => (Err e, s)
      | Panic p => (Panic p, s)
      end
  end.
End Controller.

(** ** A caller alone is a run of the goroutines *)

Section Alone.
Context {handler : Type} (run_handler : handler → Description (handler := handler) → Parameters → option error).

Notation step := (step run_handler).

(** The last thread takes a step. *)
Lemma last_step s s' ts g g' started :
  threads s = ts ++ [g] → advance run_handler g s = Some (s', g', started) →
  step s (set_threads (ts ++ g' :: started) s').
Proof.
  intros Hts Ha. pose proof (step_thread run_handler (length ts) g s s' g' started) as Hs.
  rewrite Hts in Hs. rewrite list_lookup_middle in Hs by done. specialize (Hs eq_refl Ha).
  rewrite insert_app_r_alt, Nat.sub_diag in Hs by done. simpl in Hs. by rewrite <- app_assoc in Hs.
Qed.

Lemma scan_steps op params prune lost l s ts :
  (∀ p, p ∈ l → is_Some (heap s !! p)) → threads s = ts ++ [Scan op params prune lost l] →
  rtc step s (set_threads (ts ++ [match first_match (heap s) l op params with
                                  | Some (p, _) => Hit op params prune lost p
                                  | None => Returned None
                                  end]) s).
Proof.
  revert s. induction l as [|p l IH]; intros s Hl Hts; simpl.
  - apply rtc_once. by eapply last_step.
  - destruct (Hl p ltac:(left)) as [x Hx]. rewrite Hx. eapply rtc_l.
    { eapply last_step; [done|]. simpl. by rewrite Hx. }
    destruct (match_ x op params); [done|].
    apply (IH (set_threads (ts ++ [Scan op params prune lost l]) s)); [|done]. intros q Hq. apply Hl. by right.
Qed.

Lemma first_match_some h l op params p (x : Description (handler := handler)) :
  first_match h l op params = Some (p, x) → p ∈ l ∧ h !! p = Some x ∧ match_ x op params = true.
Proof.
  induction l as [|q l IH]; simpl; [done|].
  destruct (h !! q) as [y|] eqn:Hq; [destruct (match_ y op params) eqn:Hy|].
  - intros [= <- <-]. split_and!; [left|done|done].
  - intros H. destruct (IH H) as (? & ? & ?). split_and!; [by right|done|done].
  - intros H. destruct (IH H) as (? & ? & ?). split_and!; [by right|done|done].
Qed.

Lemma match_positive (x : Description (handler := handler)) op params :
  match_ x op params = true → 0 < Count x ∧ Operation x = op.
Proof.
  unfold match_. destruct (Z.leb_spec (Count x) 0); [done|].
  destruct (bool_decide (Operation x = op)) eqn:Ho; [|done]. by bool_props.
Qed.

(** What a call of [Check] leaves behind as a thread, and the prune it may start. *)
Lemma Check_alone_steps op params s res s' :
  can_RLock s = true → (∀ l p, faults s !! op = Some l → p ∈ l → is_Some (heap s !! p)) →
  Check_alone run_handler op params s = (Ok res, s') →
  ∃ started, Forall (λ g, g = PruneStart) started ∧
    rtc step s (set_threads (threads s ++ Returned res :: started) s').
Proof.
  intros Hlock Hl. unfold Check_alone. set (l := default [] (faults s !! op)).
  assert (Hin : ∀ p, p ∈ l → is_Some (heap s !! p)).
  { unfold l. intros p Hp. destruct (faults s !! op) as [l'|] eqn:Hf; [by eapply Hl|]. by apply elem_of_nil in Hp. }
  set (s1 := set_threads (threads s ++ [Retry op params false []]) s).
  set (s2 := set_threads (threads s ++ [Scan op params false [] l]) s).
  assert (Hstart : rtc step s s2).
  { eapply rtc_l; [apply step_Check|]. fold s1. apply rtc_once.
    apply (last_step s1 s1 (threads s) (Retry op params false [])); [done|]. simpl.
    unfold can_RLock in *. simpl. rewrite forallb_app, Hlock. done. }
  pose proof (scan_steps op params false [] l s2 (threads s) Hin eq_refl) as Hscan. simpl in Hscan.
  destruct (first_match (heap s) l op params) as [[p x]|] eqn:Hm.
  - destruct (OnFault x) as [h|] eqn:Hh; [|done]. intros [= <- <-].
    destruct (first_match_some _ _ _ _ _ _ Hm) as (_ & Hx & [Hpos _]%match_positive).
    set (pr := if Count x - 1 <=? 0 then true else false).
    exists (if pr then [PruneStart] else []). split; [by destruct pr; repeat constructor|].
    etrans; [exact Hstart|]. etrans; [exact Hscan|].
    set (s3 := set_threads (threads s ++ [Hit op params false [] p]) s).
    set (s4 := set_threads (threads s ++ [Trigger op params pr p (Count x - 1)]) (decrement p s)).
    apply rtc_l with s4.
    + apply (last_step s3 (decrement p s3) (threads s) (Hit op params false [] p) (Trigger op params pr p (Count x - 1)) []); [done|]. simpl. rewrite Hx.
      unfold pr. rewrite (proj2 (Z.ltb_ge _ 0)) by lia. done.
    + apply rtc_once.
      assert (Hx' : heap s4 !! p = Some (set_Count (Count x - 1) x)) by (simpl; by rewrite lookup_alter_eq, Hx).
      eapply (last_step s4 (triggered (Operation x) p s4) (threads s) (Trigger op params pr p (Count x - 1))); [done|].
      unfold advance. rewrite Hx'. simpl. rewrite Hh. done.
  - intros [= <- <-]. exists []. split; [done|]. by etrans.
Qed.
End Alone.

(** ** Parameters *)

(** The names a string field goes by *)
Definition names (fd : field) : gset string := {[ TextName fd; JSONName fd; FieldName fd; FullName fd ]}.
Definition counts (fd : field) : bool := is_string fd && negb (is_repeated fd).

Lemma pooled_emptied (pooled : Parameters) :
  foldr (λ k m, delete k m) pooled (elements (dom pooled)) = ∅.
Proof.
  unfold Parameters in *. assert (H : ∀ l (m : gmap string string) k, foldr (λ k m, delete k m) m l !! k = if decide (k ∈ l) then None else m !! k).
  { induction l as [|x l IH]; intros m k; [by rewrite decide_False by apply not_elem_of_nil|]. cbn [foldr].
    destruct (decide (k = x)) as [->|Hk].
    - rewrite lookup_delete_eq, decide_True; [done|by left].
    - rewrite lookup_delete_ne, IH by done. apply decide_ext. set_solver. }
  apply map_eq. intros k. rewrite H, lookup_empty. case_decide as Hk; [done|].
  rewrite elem_of_elements in Hk. by apply not_elem_of_dom.
Qed.

Lemma set_field_lookup params fd k :
  set_field params fd !! k =
    if counts fd && bool_decide (k ∈ names fd) then Some (field_value fd) else params !! k.
Proof.
  unfold set_field, Parameters in *. fold (counts fd). destruct (counts fd); simpl; [|done]. unfold names.
  case_bool_decide as Hk.
  - destruct (decide (k = FullName fd)) as [->|]; [by rewrite lookup_insert_eq|]. rewrite lookup_insert_ne by done.
    repeat case_decide; repeat (rewrite lookup_insert; case_decide; [done|]); exfalso; set_solver.
  - assert (k ≠ TextName fd ∧ k ≠ JSONName fd ∧ k ≠ FieldName fd ∧ k ≠ FullName fd) as (? & ? & ? & ?) by set_solver.
    repeat case_decide; by rewrite !lookup_insert_ne.
Qed.

(** The value of the last field that goes by the name [k] *)
Definition last_named (k : string) (fields : list field) : option string :=
  foldl (λ v fd, if counts fd && bool_decide (k ∈ names fd) then Some (field_value fd) else v) None fields.

Lemma last_named_some k fields v :
  is_Some (foldl (λ v fd, if counts fd && bool_decide (k ∈ names fd) then Some (field_value fd) else v) (Some v) fields).
Proof. revert v. induction fields as [|fd fields IH]; intros v; simpl; [done|]. case_match; apply IH. Qed.

Lemma fields_lookup fields (params : gmap string string) k v0 :
  (match v0 with Some v => params !! k = Some v | None => True end) →
  foldl set_field params fields !! k =
    match foldl (λ v fd, if counts fd && bool_decide (k ∈ names fd) then Some (field_value fd) else v) v0 fields with
    | Some v => Some v
    | None => params !! k
    end.
Proof.
  revert params v0. induction fields as [|fd fields IH]; intros params v0 H0; simpl; [by destruct v0|].
  pose proof (set_field_lookup params fd k) as Hk.
  destruct (counts fd && bool_decide (k ∈ names fd)).
  - rewrite (IH _ (Some (field_value fd))) by done. pose proof (last_named_some k fields (field_value fd)) as [v Hv].
    by rewrite Hv.
  - rewrite (IH _ v0) by (destruct v0; [by etrans|done]).
    destruct (foldl _ v0 fields) as [v|]; [done|exact Hk].
Qed.

(** The parameters of a request are its service, with the method as value, and its populated
    singular string fields under every name a field has; of fields that share a name the last one
    counts, and a field may replace the service.  What the recycled map held makes no difference. *)
Theorem params_of_request pooled service method req k :
  paramsFromProtoMessage pooled service method req !! k =
    match req ≫= last_named k with
    | Some v => Some v
    | None => if decide (k = service) then Some method else None
    end.
Proof.
  unfold paramsFromProtoMessage. rewrite pooled_emptied. unfold Parameters in *.
  assert (Hs : (<[service := method]> (∅ : gmap string string)) !! k = if decide (k = service) then Some method else None).
  { rewrite lookup_insert. by case_decide; case_decide. }
  destruct req as [fields|]; simpl; [|exact Hs].
  etrans; [by apply (fields_lookup fields _ k None)|]. fold (last_named k fields). by rewrite Hs.
Qed.

Lemma splitMethodName_full service method :
  has_slash service = false → splitMethodName (String "/" (service +:+ String "/" method)) = (service, method).
Proof.
  intros Hs. unfold splitMethodName. rewrite decide_True by done.
  assert (Hsp : split_slash (service +:+ String "/" method) = Some (service, method)); [|by rewrite Hsp].
  revert Hs. induction service as [|c s IH]; intros Hs.
  - change (EmptyString +:+ String "/" method) with (String "/" method). done.
  - simpl in Hs. apply orb_false_iff in Hs as [Hc Hs]. bool_props.
    change (String c s +:+ String "/" method) with (String c (s +:+ String "/" method)). cbn [split_slash].
    by rewrite decide_False, IH.
Qed.

(** ** Injected faults *)

Section Injected.
Context {GN : GrpcNames}.
Notation fstate := (state (handler := fault_handler)).
Notation fdesc := (Description (handler := fault_handler)).

(** A unary request that arrives: the map from the pool, the method, the message; and whether
    pending prunes run before the next one. *)
Record arrival := MkArrival { a_pooled : Parameters; a_full : string; a_req : proto; a_prune : bool }.

(** The answers to requests one after another; a handler that is reached answers [Ok ()]. *)
Fixpoint answers (arrivals : list arrival) (s : fstate) : list (outcome ()) :=
  match arrivals with
  | [] => []
  | a :: arrivals =>
      let '(r, s) := UnaryFaultInjector run_fault (a_pooled a) (a_full a) (a_req a) (λ s, (Ok (), s)) s in
      r :: answers arrivals (if a_prune a then prune_alone s else s)
  end.

(** What a request has as the parameter [k]: the last of its populated singular string fields
    that goes by that name, or the method under the name of the service. *)
Definition param_of (a : arrival) (k : string) : option string :=
  let '(service, method) := splitMethodName (a_full a) in
  match a_req a ≫= last_named k with
  | Some v => Some v
  | None => if decide (k = service) then Some method else None
  end.

(** The request asks for the operation, and has the parameters. *)
Definition asks_for (op : string) (params : Parameters) (a : arrival) : bool :=
  bool_decide ((splitMethodName (a_full a)).2 = op ∧ map_Forall (λ k v, param_of a k = Some v) params).

(** The answers [old] with a fault on top of them: of the requests that reached their handler,
    the first [c] that ask for it are answered with [e]; all else is as it was. *)
Fixpoint hit_first (asks : arrival → bool) (e : error) (c : Z) (arrivals : list arrival) (old : list (outcome ()))
  : list (outcome ()) :=
  match arrivals, old with
  | a :: arrivals, Ok _ :: old =>
      if asks a && (0 <? c) then Err e :: hit_first asks e (c - 1) arrivals old
      else Ok () :: hit_first asks e c arrivals old
  | _ :: arrivals, r :: old => r :: hit_first asks e c arrivals old
  | _, _ => []
  end.

(** The descriptions listed for an operation *)
Definition listed (s : fstate) (op : string) : list ptr := default [] (faults s !! op).
(** The lists hold no dangling pointers. *)
Definition pointers_ok (s : fstate) : Prop := ∀ op q, q ∈ listed s op → is_Some (heap s !! q).

(** [s2] is [s] with the description [d], at [p], that has [c] runs left; [still]: it has not been
    pruned. *)
Record adds (p : ptr) (d : fdesc) (c : Z) (s s2 : fstate) : Prop := {
  ad_ok : pointers_ok s;
  ad_new : heap s !! p = None;
  ad_heap : heap s2 = <[p := set_Count c d]> (heap s);
  ad_listed : ∃ still : bool, (still = false → c ≤ 0) ∧
    ∀ op, listed s2 op = listed s op ++ (if still && bool_decide (op = Operation d) then [p] else []) }.

Lemma listed_prune s op : listed (prune_alone s) op = filter (λ q, is_active (heap s) q = true) (listed s op).
Proof.
  unfold listed, prune_alone. simpl. rewrite lookup_omap. destruct (faults s !! op) as [l|]; simpl; [|done].
  by destruct (filter _ l).
Qed.
Lemma pointers_prune s : pointers_ok s → pointers_ok (prune_alone s).
Proof. intros H op q. rewrite listed_prune, list_elem_of_filter. intros [_ Hq]. by apply (H op). Qed.

Lemma adds_prune p d c s s2 : adds p d c s s2 → adds p d c (prune_alone s) (prune_alone s2).
Proof.
  intros [Hok Hnew Hh (still & Hc & Hl)]. split; [by apply pointers_prune|done|done|].
  exists (still && (0 <? c)). split.
  { destruct still; [|by auto]. simpl. intros Hz. by apply Z.ltb_ge. }
  intros op. rewrite !listed_prune, Hl, filter_app, Hh. f_equal.
  - assert (Hne : ∀ q, q ∈ listed s op → q ≠ p) by (intros q Hq ->; destruct (Hok op p Hq); congruence).
    clear Hl. revert Hne. generalize (listed s op) as l. induction l as [|q l IH]; intros Hne; [done|].
    rewrite !filter_cons, IH by (intros; apply Hne; by right). unfold is_active.
    rewrite lookup_insert_ne; [done|]. apply not_eq_sym, Hne. by left.
  - destruct still; simpl; [|done]. case_bool_decide; [|by destruct (0 <? c)].
    destruct (Z.ltb_spec 0 c); simpl; [rewrite filter_cons_True|rewrite filter_cons_False]; try done;
      unfold is_active, active; rewrite lookup_insert_eq; simpl; [by apply Z.ltb_lt|].
    by rewrite (proj2 (Z.ltb_ge _ _)).
Qed.

Lemma first_match_app h l1 l2 op params :
  first_match h (l1 ++ l2) op params =
    match first_match h l1 op params with Some x => Some x | None => first_match (handler := fault_handler) h l2 op params end.
Proof. induction l1 as [|q l1 IH]; simpl; [done|]. destruct (h !! q) as [x|]; [by destruct (match_ x op params)|done]. Qed.
Lemma first_match_insert h (p : ptr) (x : fdesc) l op params :
  p ∉ l → first_match (<[p := x]> h) l op params = first_match h l op params.
Proof.
  induction l as [|q l IH]; simpl; [done|]. intros [Hne Hni]%not_elem_of_cons. by rewrite lookup_insert_ne, IH.
Qed.

(** One check of the two sets: an older fault that matches comes first, then the new one. *)
Lemma adds_check p d c s s2 h op params :
  adds p d c s s2 → OnFault d = Some h →
  let hit := bool_decide (Operation d = op) && bool_decide (map_Forall (λ k v, params !! k = Some v) (d_Parameters d)) in
  let '(r, s') := Check_alone run_fault op params s in
  let '(r2, s2') := Check_alone run_fault op params s2 in
  match r with
  | Ok None => s' = s ∧
      if hit && (0 <? c) then r2 = Ok (run_fault h d ∅) ∧ adds p d (c - 1) s s2' else r2 = Ok None ∧ adds p d c s s2'
  | _ => r2 = r ∧ adds p d c s' s2'
  end.
Proof.
  intros Ha Hd hit. pose proof Ha as [Hok Hnew Hh (still & Hc & Hl)].
  unfold Check_alone. fold (listed s op). fold (listed s2 op). rewrite Hl, first_match_app, Hh.
  assert (Hp : p ∉ listed s op) by (intros Hp; destruct (Hok op p Hp); congruence).
  rewrite first_match_insert by done.
  destruct (first_match (heap s) (listed s op) op params) as [[q x]|] eqn:Hm.
  - destruct (first_match_some _ _ _ _ _ _ Hm) as (Hq & Hx & _).
    assert (Hqp : q ≠ p) by (intros ->; congruence).
    assert (Hadds : adds p d c (triggered (Operation x) q (decrement q s)) (triggered (Operation x) q (decrement q s2))).
    { split; [|simpl; by rewrite lookup_alter_ne| |by exists still].
      - intros op' q' Hq'. simpl. destruct (decide (q = q')) as [->|Hne].
        + rewrite lookup_alter_eq. apply fmap_is_Some. by apply (Hok op').
        + rewrite lookup_alter_ne by done. by apply (Hok op').
      - simpl. rewrite Hh. apply map_eq. intros k. destruct (decide (k = q)) as [->|Hkq].
        + rewrite lookup_alter_eq, !lookup_insert_ne, lookup_alter_eq by done. done.
        + rewrite lookup_alter_ne by done. destruct (decide (k = p)) as [->|Hkp]; [by rewrite !lookup_insert_eq|].
          by rewrite !lookup_insert_ne, lookup_alter_ne. }
    destruct (OnFault x) as [h'|]; [|done]. by destruct (run_fault h' _ params) eqn:Hr; [|by destruct h'].
  - assert (Hmiss : first_match (<[p := set_Count c d]> (heap s))
        (if still && bool_decide (op = Operation d) then [p] else []) op params
      = if hit && (0 <? c) then Some (p, set_Count c d) else None).
    { unfold hit. destruct (Z.ltb_spec 0 c) as [Hpos|Hpos].
      - assert (still = true) as -> by (destruct still; [done|]; specialize (Hc eq_refl); lia).
        simpl. rewrite andb_true_r. case_bool_decide as Ho; [|by rewrite bool_decide_false by congruence].
        rewrite bool_decide_true by congruence. simpl. rewrite lookup_insert_eq. unfold match_. simpl.
        rewrite (proj2 (Z.leb_gt _ _)) by lia. rewrite bool_decide_true by congruence. simpl. by case_bool_decide.
      - rewrite andb_false_r. case_match; [|done]. simpl. rewrite lookup_insert_eq. unfold match_. simpl.
        by rewrite (proj2 (Z.leb_le _ _)) by lia. }
    rewrite Hmiss. destruct (hit && (0 <? c)); [|done]. simpl. rewrite Hd. split; [done|].
    split; [by destruct h|]. split; [done|done| |].
    + simpl. rewrite Hh. apply map_eq. intros k. destruct (decide (k = p)) as [->|Hk].
      * by rewrite lookup_alter_eq, !lookup_insert_eq.
      * by rewrite lookup_alter_ne, !lookup_insert_ne.
    + exists still. split; [|exact Hl]. intros ->. unfold hit in Hmiss. simpl in Hmiss. by specialize (Hc eq_refl).
Qed.

Lemma params_of_arrival a k :
  let '(service, method) := splitMethodName (a_full a) in
  paramsFromProtoMessage (a_pooled a) service method (a_req a) !! k = param_of a k.
Proof. unfold param_of. destruct (splitMethodName _). apply params_of_request. Qed.

Lemma adds_answers p d h arrivals c s s2 e :
  adds p d c s s2 → OnFault d = Some h → run_fault h d ∅ = Some e →
  answers arrivals s2 = hit_first (asks_for (Operation d) (d_Parameters d)) e c arrivals (answers arrivals s).
Proof.
  intros Ha Hd He. revert c s s2 Ha. induction arrivals as [|a arrivals IH]; intros c s s2 Ha; [done|].
  cbn [answers]. unfold UnaryFaultInjector. pose proof (params_of_arrival a) as Hparams.
  assert (Hasks : asks_for (Operation d) (d_Parameters d) a = bool_decide ((splitMethodName (a_full a)).2 = Operation d
    ∧ map_Forall (λ k v, param_of a k = Some v) (d_Parameters d))) by done.
  destruct (splitMethodName (a_full a)) as [service method]. cbn [snd] in Hasks.
  set (params := paramsFromProtoMessage _ _ _ _) in *.
  pose proof (adds_check p d c s s2 h method params Ha Hd) as Hc. cbv zeta in Hc.
  assert (Hhit : bool_decide (Operation d = method) && bool_decide (map_Forall (λ k v, params !! k = Some v) (d_Parameters d))
    = asks_for (Operation d) (d_Parameters d) a).
  { rewrite Hasks, <- bool_decide_and. apply bool_decide_ext.
    split; (intros [-> Hm]; split; [done|]; intros k v Hk; specialize (Hm k v Hk); specialize (Hparams k);
      simpl in Hm, Hparams |- *; congruence). }
  rewrite Hhit in Hc. clear Hhit Hasks Hparams.
  assert (Hnext : ∀ c s s2, adds p d c s s2 →
    answers arrivals (if a_prune a then prune_alone s2 else s2) =
    hit_first (asks_for (Operation d) (d_Parameters d)) e c arrivals (answers arrivals (if a_prune a then prune_alone s else s))).
  { intros c' t t2 Ht. destruct (a_prune a); apply IH; [by apply adds_prune|done]. }
  destruct (Check_alone run_fault method params s) as [r s'], (Check_alone run_fault method params s2) as [r2 s2'].
  destruct r as [[err|]|err|msg]; cbn [hit_first].
  - destruct Hc as [-> Hadds]. cbn [hit_first]. f_equal. by apply Hnext.
  - destruct Hc as [-> Hc]. destruct (asks_for _ _ a && (0 <? c)); destruct Hc as [-> Hadds].
    + rewrite He. f_equal. by apply Hnext.
    + f_equal. by apply Hnext.
  - destruct Hc as [-> Hadds]. cbn [hit_first]. f_equal. by apply Hnext.
  - destruct Hc as [-> Hadds]. cbn [hit_first]. f_equal. by apply Hnext.
Qed.

Lemma Add_adds d s : pointers_ok s → adds (fresh (dom (heap s))) d (Count d) s (Add d s).
Proof.
  intros Hok. split; [done| | |].
  - apply not_elem_of_dom, is_fresh.
  - simpl. by destruct d.
  - exists true. split; [done|]. intros op. unfold listed. simpl. case_bool_decide as Ho.
    + subst op. by rewrite lookup_insert_eq.
    + by rewrite lookup_insert_ne, app_nil_r.
Qed.

(** C21 A fault that is added over HTTP hits, of the unary requests that arrive afterwards and are
    not hit by an older fault, exactly the first [count] that ask for its operation and have all
    of its parameters: they are answered with the configured error and do not reach their
    handler.  Every other request, of whatever method and content, is answered as it would have
    been without the fault.  Without a count the fault hits the next 2^63-1; one that is zero or
    negative hits none.  Pruning, at whatever moment between the requests, makes no difference. *)
Theorem injected_faults_hit body h s arrivals :
  errorFactory (fb_Error body) = Ok h → pointers_ok s →
  ∃ s' e, AddDescriptor (Some body) s = (Ok 201, s') ∧
    (∀ d params, run_fault h d params = Some e) ∧
    answers arrivals s' =
      hit_first (asks_for (fb_Operation body) (default ∅ (fb_Parameters body))) e
        (default int64_max (fb_Count body)) arrivals (answers arrivals s).
Proof.
  intros Hh Hok. unfold AddDescriptor. rewrite Hh.
  set (d := MkDescription (fb_Operation body) (default ∅ (fb_Parameters body)) (Some h)
    (default int64_max (fb_Count body)) (fb_Error body)).
  destruct (run_fault h d ∅) as [e|] eqn:He; [|by destruct h].
  exists (Add d s), e. split; [done|]. split; [by intros; destruct h; injection He as <-|].
  by apply (adds_answers _ d h arrivals (Count d) s (Add d s) e (Add_adds d s Hok)).
Qed.

(** [README.md] injects a fault into "StreamingPull" with the parameter "subscription": it never
    happens.  The check at the start of a stream has no parameter but the service, and the checks
    of the messages ask for other operations. *)
Theorem stream_fault_never_happens sub err s pooled service received m sent :
  AddDescriptor (Some (MkFaultBody "StreamingPull" (Some {["subscription" := sub]}) (Some 1) err)) NewSet = (Ok 201, s) →
  has_slash service = false → service ≠ "subscription" →
  let full := String "/" (service +:+ String "/" "StreamingPull") in
  StreamFaultInjector_start run_fault full s = (Ok None, s) ∧
  RecvMsg run_fault pooled full received s = (Ok match received with inl e => Some e | inr _ => None end, s) ∧
  SendMsg run_fault pooled full m sent s = (Ok sent, true, s).
Proof.
  intros Hadd Hs Hne full. unfold AddDescriptor in Hadd. simpl in Hadd.
  destruct (errorFactory err) as [h|e|p]; [|done..]. injection Hadd as Hadd.
  assert (Hother : ∀ op params, op ≠ "StreamingPull"%string → Check_alone run_fault op params s = (Ok None, s)).
  { intros op params Hop. rewrite <- Hadd. unfold Check_alone, Add. simpl. by rewrite lookup_insert_ne. }
  unfold StreamFaultInjector_start, RecvMsg, SendMsg, full. rewrite splitMethodName_full by done.
  assert (Hr : "StreamingPull" +:+ ":RecvMsg" ≠ "StreamingPull") by (vm_compute; discriminate).
  assert (Hm : "StreamingPull" +:+ ":SendMsg" ≠ "StreamingPull") by (vm_compute; discriminate).
  pose proof (λ params, Hother _ params Hr) as HR. pose proof (λ params, Hother _ params Hm) as HM.
  rewrite HR, HM. split_and!; [clear Hr Hm|by destruct received; rewrite ?HR|done].
  rewrite <- Hadd. unfold Check_alone, Add. cbn [heap faults Operation NewSet]. rewrite lookup_insert_eq.
  cbn [default from_option first_match app id]. rewrite lookup_empty. cbn [default from_option first_match app id].
  rewrite lookup_insert_eq. unfold match_. simpl. rewrite bool_decide_eq_false_2; [done|]. intros Hm.
  specialize (Hm "subscription"%string sub (lookup_singleton_eq _ _)). simpl in Hm.
  unfold Parameters in Hm. by rewrite lookup_singleton_ne in Hm.
Qed.
End Injected.

(** ** Witnesses *)

(** The names of the codes, as far as the witnesses need them *)
Definition demo_names : GrpcNames := {|
  screaming_code s := if decide (s = "Unavailable") then Some Unavailable else None |}.
Definition sub_field (v : string) : field :=
  MkField true false "subscription" "subscription" "subscription" "google.pubsub.v1.PullRequest.subscription" v.
Definition pull_of (v : string) (prune : bool) : arrival :=
  MkArrival {["topic" := "left over"]} "/google.pubsub.v1.Subscriber/Pull" (Some [sub_field v]) prune.
Definition pull_fault : fault_body := MkFaultBody "Pull" (Some {["subscription" := "s"]}) (Some 2) "grpc.Unavailable".

(** An older fault on one subscription, and requests that ask for neither. *)
Definition old_fault : fault_body := MkFaultBody "Pull" (Some {["subscription" := "old"]}) (Some 1) "context.Canceled".
Definition demo_arrivals : list arrival := [
  pull_of "other" false; pull_of "s" true; pull_of "old" true; pull_of "old" false;
  MkArrival ∅ "/google.pubsub.v1.Subscriber/Acknowledge" (Some [sub_field "s"]) false; pull_of "s" true; pull_of "s" true].
Definition old_set : state (handler := fault_handler) := (AddDescriptor (GN := demo_names) (Some old_fault) NewSet).2.

Lemma injected_faults_hit_witness :
  ∃ s', AddDescriptor (GN := demo_names) (Some pull_fault) old_set = (Ok 201, s') ∧
    answers demo_arrivals s' = [Ok (); Err (StatusError Unavailable); Err ContextCanceled; Ok (); Ok ();
      Err (StatusError Unavailable); Ok ()].
Proof.
  destruct (injected_faults_hit (GN := demo_names) pull_fault (StatusFault Unavailable) old_set demo_arrivals)
    as (s' & e & Hadd & He & Hans).
  - reflexivity.
  - intros op q. unfold listed. simpl. rewrite lookup_insert. case_decide; [|by intros ?%elem_of_nil].
    intros Hq%list_elem_of_singleton. rewrite Hq. by eexists.
  - exists s'. split; [exact Hadd|]. rewrite Hans. injection (He (MkDescription "" ∅ None 0 "") ∅) as <-.
    vm_compute. reflexivity.
Defined.

Lemma stream_fault_never_happens_witness :
  ∃ s, AddDescriptor (GN := demo_names)
      (Some (MkFaultBody "StreamingPull" (Some {["subscription" := "s"]}) (Some 1) "grpc.Unavailable")) NewSet = (Ok 201, s) ∧
    RecvMsg run_fault ∅ "/google.pubsub.v1.Subscriber/StreamingPull" (inr (Some [sub_field "s"])) s = (Ok None, s).
Proof.
  eexists. split; [reflexivity|].
  apply (stream_fault_never_happens (GN := demo_names) "s" "grpc.Unavailable" _ ∅ "google.pubsub.v1.Subscriber"
    (inr (Some [sub_field "s"])) None None); [reflexivity|reflexivity|discriminate].
Defined.
