(* ===== verification/FaultViews.v ===== *)
(** * What is shown of the faults

    The list of [GET /faults] in [src/controllers/fault-injector.go], and the gauges of
    [src/faults/metrics.go], as functions of the set at one moment. *)

From S2P Require Import Prelude Faults FaultPoints.

(** [oas.ConfiguredFault] *)
Record ConfiguredFault := MkConfigured {
  cf_Operation : string; cf_Count : Z; cf_FaultDescription : option string; cf_Parameters : option Parameters }.

Section Views.
Context {handler : Type}.
Notation Description := (Description (handler := handler)).

Definition toOAS (d : Description) : ConfiguredFault :=
  MkConfigured (Operation d) (Count d) (Some (FaultDescription d))
    (if decide (d_Parameters d = ∅) then None else Some (d_Parameters d)).

(** The map is listed in whatever order. *)
Definition GetDescriptors (s : state (handler := handler)) : list ConfiguredFault :=
  toOAS <$> mjoin (map_to_list (Current s)).*2.

(** [Collect]: for every operation in the map the number of active descriptions and the sum of
    what is left of them, which is an [int64]. *)
Definition collect_op (h : gmap ptr Description) (l : list ptr) : Z * Z :=
  foldl (λ '(active, remaining) p,
    match h !! p with
    | Some d => if 0 <? Count d then (active + 1, int64_wrap (remaining + Count d)) else (active, remaining)
    | None => (active, remaining)
    end) (0, 0) l.
Definition Collect (s : state (handler := handler)) : gmap string (Z * Z) := collect_op (heap s) <$> faults s.

(** ** The list is complete *)

Notation reachable := (reachable (handler := handler)).
Lemma elem_of_Current (s : state (handler := handler)) op l x :
  Current s !! op = Some l → x ∈ l ↔ ∃ ps p, faults s !! op = Some ps ∧ p ∈ ps ∧ heap s !! p = Some x ∧ 0 < Count x.
Proof.
  unfold Current. rewrite lookup_omap. intros (ps & Hps & Hl)%bind_Some.
  assert (Hk : l = filter (λ d, 0 < Count d) (omap (λ p, heap s !! p) ps)) by (destruct (filter _ _); naive_solver).
  subst l. rewrite list_elem_of_filter, list_elem_of_omap. naive_solver.
Qed.

(** [GET /faults] answers with all descriptions that can still hit a request, and only with them. *)
Theorem GetDescriptors_complete run_handler (s : state (handler := handler)) c :
  reachable run_handler s → c ∈ GetDescriptors s ↔ ∃ p x, heap s !! p = Some x ∧ 0 < Count x ∧ c = toOAS x.
Proof.
  intros Hr. pose proof (inv_data s (reachable_faults run_handler s Hr)) as Hd.
  unfold GetDescriptors. rewrite list_elem_of_fmap. split.
  - intros (x & -> & (l & Hx & Hl)%list_elem_of_join). apply list_elem_of_fmap in Hl as ([op l'] & -> & Hl%elem_of_map_to_list).
    apply (elem_of_Current _ _ _ x Hl) in Hx as (ps & p & _ & _ & Hp & Hpos). eauto.
  - intros (p & x & Hp & Hpos & ->). exists x. split; [done|].
    destruct (inv_active s Hd p x Hp Hpos) as (ps & Hps & Hin).
    assert (Hf : x ∈ filter (λ d, 0 < Count d) (omap (λ p, heap s !! p) ps)).
    { apply list_elem_of_filter. split; [done|]. apply list_elem_of_omap. eauto. }
    apply list_elem_of_join. exists (filter (λ d, 0 < Count d) (omap (λ p, heap s !! p) ps)). split; [done|].
    apply list_elem_of_fmap. exists (Operation x, filter (λ d, 0 < Count d) (omap (λ p, heap s !! p) ps)).
    split; [done|]. apply elem_of_map_to_list. unfold Current. rewrite lookup_omap, Hps. simpl.
    by destruct (filter _ _); [apply elem_of_nil in Hf|].
Qed.

(** ** The gauges *)

Lemma int64_wrap_add_l r n : int64_wrap (int64_wrap r + n) = int64_wrap (r + n).
Proof.
  unfold int64_wrap. f_equal. replace ((r + 2 ^ 63) mod 2 ^ 64 - 2 ^ 63 + n + 2 ^ 63) with ((r + 2 ^ 63) mod 2 ^ 64 + n) by lia.
  rewrite Zplus_mod_idemp_l. f_equal. lia.
Qed.

Lemma collect_from (h : gmap ptr Description) l a r :
  foldl (λ '(active, remaining) p,
    match h !! p with
    | Some d => if 0 <? Count d then (active + 1, int64_wrap (remaining + Count d)) else (active, remaining)
    | None => (active, remaining)
    end) (a, int64_wrap r) l =
  let ds : list Description := filter (λ d, 0 < Count d) (omap (λ p, h !! p) l) in
  (a + Z.of_nat (length ds), int64_wrap (r + list_sum (Count <$> ds))).
Proof.
  revert a r. induction l as [|p l IH]; intros a r; [simpl; by rewrite !Z.add_0_r|].
  assert (Ho : omap (λ p, h !! p) (p :: l) = match h !! p with Some d => d :: omap (λ p, h !! p) l | None => omap (λ p, h !! p) l end)
    by done.
  rewrite Ho. cbn [foldl]. clear Ho. destruct (h !! p) as [d|]; [|apply IH]. rewrite filter_cons.
  destruct (Z.ltb_spec 0 (Count d)) as [Hp|Hp].
  - rewrite decide_True by done. rewrite int64_wrap_add_l, IH. cbv zeta. rewrite fmap_cons, length_cons.
    change (list_sum (Count d :: ?k)) with (Count d + list_sum k). f_equal; [lia|f_equal; lia].
  - rewrite decide_False by lia. apply IH.
Qed.

(** The gauges of an operation that is in the map: the number of the descriptions that [GET
    /faults] shows for it, and the sum of their counts modulo 2^64. *)
Theorem Collect_counts s op a r :
  Collect s !! op = Some (a, r) →
  let ds := default [] (Current s !! op) in
  a = Z.of_nat (length ds) ∧ r = int64_wrap (list_sum (Count <$> ds)).
Proof.
  unfold Collect. rewrite lookup_fmap. intros (l & Hl & Hf)%fmap_Some. unfold collect_op in Hf.
  change 0 with (int64_wrap 0) in Hf at 3. rewrite collect_from in Hf. injection Hf as -> ->.
  unfold Current. rewrite lookup_omap, Hl. simpl. by destruct (filter _ _).
Qed.
End Views.

(** Two faults without a count, which is then the largest [int64]: the gauge says that -2 are left. *)
Example Collect_overflows :
  match AddDescriptor (GN := demo_names) (Some (MkFaultBody "Pull" None None "context.Canceled")) NewSet with
  | (Ok 201, s) =>
      match AddDescriptor (GN := demo_names) (Some (MkFaultBody "Pull" None None "ent.NotFound")) s with
      | (Ok 201, s) => Collect s !! ("Pull" : string) = Some (2, -2) ∧ length (GetDescriptors s) = 2%nat
      | _ => False
      end
  | _ => False
  end.
Proof. by vm_compute. Qed.
