(* ===== verification/Migrate.v ===== *)
(** * Migrations

    [src/migrate]: migrations and their scripts ([migration.go]), the migrator that runs those the
    database does not record yet ([migrator.go]), the PostgreSQL dialect ([pgx.go]), the loading of
    script files ([load.go]).

    The database is a parameter: its content is a [dbstate], and what a statement or a query makes
    of it is the class [Database].  A transaction works on a content of its own, which replaces
    the database's when it is committed. *)

From S2P Require Import Prelude Quote.

(** ** Data *)

Inductive value := VString (s : string) | VTime (t : time).
Record State := MkState { st_Name : string; st_RunOn : time }.
Record Config := MkConfig { SchemaName : string; TableName : string }.
Inductive Direction := DirectionUp | DirectionDown.
#[export] Instance direction_eq_dec : EqDecision Direction.
Proof. solve_decision. Defined.
Definition direction_String (d : Direction) : string := match d with DirectionUp => "up" | DirectionDown => "down" end.

(** The database: [ExecContext] of a statement with its arguments, a query for the states. *)
Class Database := {
  dbstate : Type;
  sql_exec : string → list value → dbstate → outcome dbstate;
  sql_states : string → dbstate → outcome (list State);
  (** The error is PostgreSQL's 23505 on [pg_type_typname_nsp_index]. *)
  pg_type_raced : error → bool }.

Section Migrate.
Context {DB : Database}.

(** The interface [Migration]; its scripts run within the transaction they are given. *)
Record Migration := MkMigration {
  Name : string; mig_Up : dbstate → outcome dbstate; mig_Down : dbstate → outcome dbstate }.

(** A [ContentGetter] is what it returns; [None] is nil. *)
Record SQLMigration := MkSQLMigration { sm_name : string; sm_up : option (outcome string); sm_down : option (outcome string) }.

Definition Contents (m : SQLMigration) (d : Direction) : outcome string :=
  default (Ok EmptyString) (match d with DirectionUp => sm_up m | DirectionDown => sm_down m end).
Definition SQLMigration_run (m : SQLMigration) (d : Direction) (s : dbstate) : outcome dbstate :=
  Contents m d ≫= λ contents,
  if bool_decide (contents = EmptyString) then Err (ErrOther "no script") else sql_exec contents [] s.
Definition SQLMigration_Migration (m : SQLMigration) : Migration :=
  MkMigration (sm_name m) (SQLMigration_run m DirectionUp) (SQLMigration_run m DirectionDown).

(** Both scripts are assigned to [up], the later one last. *)
Definition FromSQL (name up down : string) : SQLMigration :=
  let ret := MkSQLMigration name None None in
  let ret := if bool_decide (up = EmptyString) then ret
             else MkSQLMigration name (Some (Ok up)) (sm_down ret) in
  if bool_decide (down = EmptyString) then ret else MkSQLMigration name (Some (Ok down)) (sm_down ret).
Definition FromContent (name : string) (up down : option (outcome string)) : SQLMigration :=
  MkSQLMigration name up down.

Definition WithPrefix (prefix : string) (migrations : list Migration) : list Migration :=
  if bool_decide (prefix = EmptyString) then migrations
  else (λ m, MkMigration (prefix +:+ Name m) (mig_Up m) (mig_Down m)) <$> migrations.

(** The interface [Dialect]. *)
Record Dialect := MkDialect {
  DefaultConfig : Config;
  Verify : outcome ();
  EnsureMigrationsTable : Config → dbstate → outcome dbstate;
  SelectStates : Config → string;
  InsertMigration : Config → string;
  DeleteMigration : Config → string;
  BeforeMigration : string → Direction → dbstate → outcome dbstate }.

Definition EffectiveConfig (d : Dialect) (c : option Config) : Config :=
  let ret := DefaultConfig d in
  match c with
  | None => ret
  | Some c =>
      MkConfig (if bool_decide (SchemaName c = EmptyString) then SchemaName ret else SchemaName c)
        (if bool_decide (TableName c = EmptyString) then TableName ret else TableName c)
  end.

Record Migrator := MkMigrator { m_config : Config; m_dialect : Dialect; m_migrations : list Migration }.
Definition New (c : option Config) (d : Dialect) : Migrator := MkMigrator (EffectiveConfig d c) d [].
Definition HasMigrations (m : Migrator) : bool := negb (bool_decide (length (m_migrations m) = 0%nat)).

(** [sort.Slice] by name; it leaves open how migrations of one name are ordered. *)
Definition name_le (x y : Migration) : Prop := String.le (Name x) (Name y).
#[export] Instance name_le_dec : RelDecision name_le.
Proof. unfold name_le. intros x y. apply _. Defined.
Definition sortMigrations (l : list Migration) : list Migration := merge_sort name_le l.

Definition AddAndSort (prefix : string) (migrations : list Migration) (m : Migrator) : Migrator :=
  MkMigrator (m_config m) (m_dialect m) (sortMigrations (m_migrations m ++ WithPrefix prefix migrations)).
Definition SortAndAppend (prefix : string) (migrations : list Migration) (m : Migrator) : Migrator :=
  MkMigrator (m_config m) (m_dialect m) (m_migrations m ++ WithPrefix prefix (sortMigrations migrations)).

(** ** Running *)

Definition toRun (m : Migrator) (direction : Direction) (states : list State) : list Migration :=
  let stateMap := list_to_set (st_Name <$> states) : gset string in
  match direction with
  | DirectionUp => filter (λ mm, Name mm ∉ stateMap) (m_migrations m)
  | DirectionDown => filter (λ mm, Name mm ∈ stateMap) (reverse (m_migrations m))
  end.

(** The database's answers to [BEGIN], [COMMIT] and [ROLLBACK] of one migration, and its clock. *)
Record run_env := MkRun { re_begun : outcome (); re_committed : outcome (); re_rolledback : outcome (); re_now : time }.

Definition migration_tx (m : Migrator) (mm : Migration) (direction : Direction) (now : time) (s : dbstate)
  : outcome dbstate :=
  BeforeMigration (m_dialect m) (Name mm) direction s ≫= λ s,
  (match direction with DirectionUp => mig_Up mm s | DirectionDown => mig_Down mm s end) ≫= λ s,
  sql_exec (match direction with
            | DirectionUp => InsertMigration (m_dialect m) (m_config m)
            | DirectionDown => DeleteMigration (m_dialect m) (m_config m)
            end) [VString (Name mm); VTime now] s.

(** The deferred [Rollback] after the error [e]. *)
Definition rollback (re : run_env) (e : error) : outcome () :=
  match re_rolledback re with Ok _ => Err e | _ => Panic "rollback failed" end.

(** After [Commit] has been called the transaction is over even if it failed, and [Rollback]
    returns [ErrTxDone]. *)
Definition runOne (m : Migrator) (mm : Migration) (direction : Direction) (re : run_env) (s : dbstate)
  : outcome () * dbstate :=
  match re_begun re with
  | Ok _ =>
      match migration_tx m mm direction (re_now re) s with
      | Ok s' =>
          match re_committed re with
          | Ok _ => (Ok (), s')
          | _ => (Panic "sql: transaction has already been committed or rolled back", s)
          end
      | Err e => (rollback re e, s)
      | Panic msg => (Panic msg, s)
      end
  | Err e => (Err e, s)
  | Panic msg => (Panic msg, s)
  end.

(** The [i]-th migration meets the environment [env i]. *)
Fixpoint run_todo (m : Migrator) (todo : list Migration) (direction : Direction) (env : nat → run_env) (i : nat)
    (s : dbstate) : outcome () * dbstate :=
  match todo with
  | [] => (Ok (), s)
  | mm :: todo =>
      match runOne m mm direction (env i) s with
      | (Ok _, s) => run_todo m todo direction env (S i) s
      | r => r
      end
  end.

Definition run (m : Migrator) (direction : Direction) (env : nat → run_env) (s : dbstate) : outcome () * dbstate :=
  match Verify (m_dialect m) with
  | Ok _ =>
      match EnsureMigrationsTable (m_dialect m) (m_config m) s with
      | Ok s =>
          match sql_states (SelectStates (m_dialect m) (m_config m)) s with
          | Ok states => run_todo m (toRun m direction states) direction env 0 s
          | Err e => (Err e, s)
          | Panic msg => (Panic msg, s)
          end
      | Err e => (Err e, s)
      | Panic msg => (Panic msg, s)
      end
  | Err e => (Err e, s)
  | Panic msg => (Panic msg, s)
  end.
Definition Up (m : Migrator) := run m DirectionUp.
Definition Down (m : Migrator) := run m DirectionDown.
End Migrate.

(** ** The PostgreSQL dialect *)

Section Pgx.
Context {DB : Database}.

Definition qualified (cfg : Config) : string :=
  QuoteIdentifier (SchemaName cfg) +:+ "." +:+ QuoteIdentifier (TableName cfg).

Definition pgx_EnsureMigrationsTable (cfg : Config) (s : dbstate) : outcome dbstate :=
  let sql := "CREATE TABLE IF NOT EXISTS " +:+ qualified cfg +:+ " (
			id bigserial primary key,
			name text not null unique,
			run_on timestamptz not null
		)" in
  match sql_exec sql [] s with
  | Err e => if pg_type_raced e then Ok s else Err e
  | r => r
  end.
Definition pgx_SelectStates (cfg : Config) : string := "SELECT id, name, run_on from " +:+ qualified cfg.
Definition pgx_InsertMigration (cfg : Config) : string :=
  "INSERT INTO " +:+ qualified cfg +:+ " (name, run_on) VALUES ($1, $2)".
Definition pgx_DeleteMigration (cfg : Config) : string :=
  "DELETE FROM " +:+ qualified cfg +:+ " WHERE name = $1".
Definition pgx_BeforeMigration (name : string) (direction : Direction) (s : dbstate) : outcome dbstate :=
  sql_exec ("DO $$ BEGIN RAISE NOTICE 'About to % migration %', " +:+ QuoteString (direction_String direction)
    +:+ ", " +:+ QuoteString name +:+ "; END; $$") [] s.

(** [verified]: what [Verify] finds of the driver. *)
Definition PgxDialect (verified : outcome ()) : Dialect := {|
  DefaultConfig := MkConfig "public" "migrations"; Verify := verified;
  EnsureMigrationsTable := pgx_EnsureMigrationsTable; SelectStates := pgx_SelectStates;
  InsertMigration := pgx_InsertMigration; DeleteMigration := pgx_DeleteMigration;
  BeforeMigration := pgx_BeforeMigration |}.
End Pgx.

(** ** Script files *)

Definition newline : ascii := "010".
Definition is_separator (c : ascii) : bool := bool_decide (c = "."%char ∨ c = "-"%char).

(** [nameRegex], read from the end: a name without a newline, a dot or a hyphen, [up] or [down],
    any character but a newline (the dot of the expression is not escaped), and [sql]. *)
Definition match_name (fn : string) : option (string * Direction) :=
  let name_of (sep : ascii) (nm : list ascii) :=
    if is_separator sep && bool_decide (newline ∉ nm) then Some (String.string_of_list_ascii (rev nm)) else None in
  match rev (String.list_ascii_of_string fn) with
  | ("l" :: "q" :: "s" :: any :: rest)%char =>
      if bool_decide (any = newline) then None
      else
        match rest with
        | ("p" :: "u" :: sep :: nm)%char => (λ n, (n, DirectionUp)) <$> name_of sep nm
        | ("n" :: "w" :: "o" :: "d" :: sep :: nm)%char => (λ n, (n, DirectionDown)) <$> name_of sep nm
        | _ => None
        end
  | _ => None
  end.

Fixpoint contains_slash (s : string) : bool :=
  match s with EmptyString => false | String c s => bool_decide (c = "/"%char) || contains_slash s end.
Definition scoped (name : string) : string := if contains_slash name then name else String "/" name.

(** An entry of the file system: its path, whether it is a regular file, what reading it gives. *)
Record entry := MkEntry { en_path : string; en_regular : bool; en_content : outcome string }.

Definition script (m : SQLMigration) (d : Direction) : option (outcome string) :=
  match d with DirectionUp => sm_up m | DirectionDown => sm_down m end.
Definition set_script (m : SQLMigration) (d : Direction) (c : outcome string) : SQLMigration :=
  match d with
  | DirectionUp => MkSQLMigration (sm_name m) (Some c) (sm_down m)
  | DirectionDown => MkSQLMigration (sm_name m) (sm_up m) (Some c)
  end.

(** The function given to [WalkDir]. *)
Definition load_entry (entries : gmap string SQLMigration) (f : entry) : outcome (gmap string SQLMigration) :=
  if negb (en_regular f) then Ok entries
  else
    match match_name (en_path f) with
    | None => Err (ErrOther "entry does not look like a migration")
    | Some (name, direction) =>
        let name := scoped name in
        let e := default (MkSQLMigration name None None) (entries !! name) in
        match script e direction with
        | Some _ => Err (ErrOther "multiple entries")
        | None => Ok (<[name := set_script e direction (en_content f)]> entries)
        end
    end.
Fixpoint load_entries (fs : list entry) (entries : gmap string SQLMigration) : outcome (gmap string SQLMigration) :=
  match fs with
  | [] => Ok entries
  | f :: fs => load_entry entries f ≫= load_entries fs
  end.

Section Load.
Context {DB : Database}.

(** The map is listed in whatever order; the callers sort. *)
Definition LoadFS (fs : list entry) (keep : option (SQLMigration → bool)) : outcome (list Migration) :=
  load_entries fs ∅ ≫= λ entries,
  Ok (SQLMigration_Migration <$>
    filter (λ m, match keep with None => true | Some f => f m end = true) (map_to_list entries).*2).

Definition NewFromFS (c : option Config) (d : Dialect) (fs : list entry) (keep : option (SQLMigration → bool))
  : outcome Migrator :=
  LoadFS fs keep ≫= λ migrations, Ok (AddAndSort EmptyString migrations (New c d)).
End Load.

(** ** Migrating up *)

Section Up_facts.
Context {DB : Database} (m : Migrator) (recorded : dbstate → gset string).

(** What the migrator relies on: the table of migrations is what the dialect's statements make of
    it and nobody else touches it. *)
Class Recording := {
  rec_states : ∀ s sts, sql_states (SelectStates (m_dialect m) (m_config m)) s = Ok sts →
    list_to_set (st_Name <$> sts) = recorded s;
  rec_ensure : ∀ s s', EnsureMigrationsTable (m_dialect m) (m_config m) s = Ok s' → recorded s' = recorded s;
  rec_before : ∀ n d s s', BeforeMigration (m_dialect m) n d s = Ok s' → recorded s' = recorded s;
  rec_insert : ∀ n t s s',
    sql_exec (InsertMigration (m_dialect m) (m_config m)) [VString n; VTime t] s = Ok s' →
    n ∉ recorded s ∧ recorded s' = {[n]} ∪ recorded s;
  rec_scripts : ∀ mm, mm ∈ m_migrations m → ∀ s s', mig_Up mm s = Ok s' → recorded s' = recorded s }.

(** The transactions of the migrations [l], one after the other. *)
Inductive applied (d : Direction) : list Migration → dbstate → dbstate → Prop :=
  | applied_nil s : applied d [] s s
  | applied_cons mm l now s s1 s' :
      migration_tx m mm d now s = Ok s1 → applied d l s1 s' → applied d (mm :: l) s s'.

Lemma run_todo_applied todo d env i s res s' :
  run_todo m todo d env i s = (res, s') →
  ∃ l rest, todo = l ++ rest ∧ applied d l s s' ∧ (res = Ok () → rest = []).
Proof.
  revert i s. induction todo as [|mm todo IH]; intros i s; simpl.
  { intros [= <- <-]. exists [], []. split_and!; [done|constructor|done]. }
  unfold runOne. destruct (re_begun (env i)) as [[]|e|msg];
    [|intros [= <- <-]; exists [], (mm :: todo); split_and!; [done|constructor|done]..].
  destruct (migration_tx m mm d (re_now (env i)) s) as [s1|e|msg] eqn:Htx.
  - destruct (re_committed (env i)) as [[]|e|msg].
    + intros (l & rest & -> & Ha & Hr)%IH. exists (mm :: l), rest. split_and!; [done|by econstructor|done].
    + intros [= <- <-]. exists [], (mm :: todo). split_and!; [done|constructor|done].
    + intros [= <- <-]. exists [], (mm :: todo). split_and!; [done|constructor|done].
  - intros H. assert (s' = s ∧ res ≠ Ok ()) as [-> Hres].
    { unfold rollback in H. by destruct (re_rolledback (env i)); simplify_eq. }
    exists [], (mm :: todo). split_and!; [done|constructor|done].
  - intros [= <- <-]. exists [], (mm :: todo). split_and!; [done|constructor|done].
Qed.

Context `{!Recording}.

Lemma migration_tx_recorded mm now s s' :
  mm ∈ m_migrations m → migration_tx m mm DirectionUp now s = Ok s' → recorded s' = {[Name mm]} ∪ recorded s.
Proof.
  intros Hin. unfold migration_tx, mbind, outcome_bind.
  destruct (BeforeMigration _ _ _ _) as [s1|e|msg] eqn:H1; [|done..].
  destruct (mig_Up mm s1) as [s2|e|msg] eqn:H2; [|done..]. intros H3.
  apply rec_before in H1. apply (rec_scripts _ Hin) in H2. apply rec_insert in H3 as [_ ->]. congruence.
Qed.

Lemma applied_recorded l s s' :
  l ⊆ m_migrations m → applied DirectionUp l s s' → recorded s' = list_to_set (Name <$> l) ∪ recorded s.
Proof.
  intros Hl Ha. induction Ha as [s|mm l now s s1 s' Htx _ IH]; simpl; [set_solver|].
  rewrite IH by set_solver. rewrite (migration_tx_recorded mm now s s1) by (done || set_solver). set_solver.
Qed.

Definition missing (s : dbstate) : list Migration := filter (λ mm, Name mm ∉ recorded s) (m_migrations m).

Lemma missing_after l rest s s' :
  NoDup (Name <$> m_migrations m) → missing s = l ++ rest →
  recorded s' = list_to_set (Name <$> l) ∪ recorded s → missing s' = rest.
Proof.
  intros Hnd Hl Hrec. unfold missing.
  transitivity (filter (λ mm, Name mm ∉ Name <$> l) (missing s)).
  - unfold missing. rewrite list_filter_filter. apply list_filter_iff. intros mm. rewrite Hrec. set_solver.
  - assert (Hnd' : NoDup (Name <$> l ++ rest)).
    { rewrite <- Hl. unfold missing. eapply sublist_NoDup; [exact Hnd|]. apply fmap_sublist, sublist_filter. }
    rewrite fmap_app in Hnd'. apply NoDup_app in Hnd' as (_ & Hdis & _). rewrite Hl, filter_app.
    rewrite (filter_none _ l), (filter_all _ rest); [done|..].
    + intros mm Hmm Hin. by apply (Hdis (Name mm)), list_elem_of_fmap_2.
    + intros mm Hmm Hn. apply Hn. by apply list_elem_of_fmap_2.
Qed.

(** C20 Migrating up is a resumable run.  However it ends, it has applied the first
    of the migrations the database did not record, in their order, each in one transaction with
    its record, and nothing else; the migrations that are still missing are the others, with which
    the next run goes on.  When it reports success none is missing, so that another run does
    nothing: no migration is ever applied twice. *)
Theorem Up_resumes env s res s' :
  NoDup (Name <$> m_migrations m) → Up m env s = (res, s') →
  ∃ l rest s1, missing s = l ++ rest ∧ missing s' = rest ∧
    (s1 = s ∨ EnsureMigrationsTable (m_dialect m) (m_config m) s = Ok s1) ∧
    applied DirectionUp l s1 s' ∧ recorded s' = list_to_set (Name <$> l) ∪ recorded s ∧
    (res = Ok () → rest = []).
Proof.
  intros Hnd. unfold Up, run.
  assert (Hstop : ∀ s1, (s1 = s ∨ EnsureMigrationsTable (m_dialect m) (m_config m) s = Ok s1) → res ≠ Ok () →
    s' = s1 → ∃ l rest s1, missing s = l ++ rest ∧ missing s' = rest ∧
    (s1 = s ∨ EnsureMigrationsTable (m_dialect m) (m_config m) s = Ok s1) ∧
    applied DirectionUp l s1 s' ∧ recorded s' = list_to_set (Name <$> l) ∪ recorded s ∧
    (res = Ok () → rest = [])).
  { intros s1 Hs1 Hres ->. assert (Hrec : recorded s1 = recorded s).
    { destruct Hs1 as [->|He]; [done|by apply rec_ensure in He]. }
    exists [], (missing s), s1. split_and!; try done; [unfold missing; by rewrite Hrec|constructor|].
    rewrite Hrec. set_solver. }
  destruct (Verify _); [|intros [= <- <-]; by apply (Hstop s); auto..].
  destruct (EnsureMigrationsTable _ _ s) as [s1|e|msg] eqn:He; [|intros [= <- <-]; by apply (Hstop s); auto..].
  destruct (sql_states _ s1) as [sts|e|msg] eqn:Hsts; [|intros [= <- <-]; by apply (Hstop s1); auto..].
  intros (l & rest & Htodo & Ha & Hr)%run_todo_applied. pose proof (rec_ensure _ _ He) as Hrec.
  assert (Hmiss : missing s = l ++ rest).
  { rewrite <- Htodo. unfold toRun, missing. by rewrite (rec_states _ _ Hsts), Hrec. }
  assert (Hl : l ⊆ m_migrations m).
  { intros mm Hmm. assert (Hin : mm ∈ missing s) by (rewrite Hmiss; apply elem_of_app; by left).
    by apply list_elem_of_filter in Hin as [_ ?]. }
  pose proof (applied_recorded l s1 s' Hl Ha) as Hrec'. rewrite Hrec in Hrec'.
  exists l, rest, s1. split_and!; [done|by eapply missing_after|by right|done..].
Qed.
End Up_facts.

(** ** Migrating down, and other surprises *)

Section Defects.
Context {DB : Database}.

(** The number of parameters of a statement: the highest [$i] outside of quoted identifiers. *)
Fixpoint placeholders (in_quotes : bool) (q : string) : nat :=
  match q with
  | EmptyString => 0
  | String c q =>
      if decide (c = dquote) then placeholders (negb in_quotes) q
      else if negb in_quotes && bool_decide (c = "$"%char) then
        match q with
        | String d _ => (nat_of_ascii d - nat_of_ascii "0") `max` placeholders in_quotes q
        | EmptyString => 0
        end
      else placeholders in_quotes q
  end.

Lemma placeholders_quoted s rest :
  placeholders false (QuoteIdentifier s +:+ rest) = placeholders false rest.
Proof.
  unfold QuoteIdentifier, quoted.
  assert (H : ∀ t, placeholders true ((double dquote t +:+ String dquote EmptyString) +:+ rest) = placeholders false rest).
  { induction t as [|c t IH]; [done|]. cbn [double]. case_decide as Hc.
    - subst c. change ((String dquote (String dquote (double dquote t)) +:+ String dquote EmptyString) +:+ rest)
        with (String dquote (String dquote ((double dquote t +:+ String dquote EmptyString) +:+ rest))).
      cbn [placeholders]. rewrite !decide_True by done. exact IH.
    - change ((String c (double dquote t) +:+ String dquote EmptyString) +:+ rest)
        with (String c ((double dquote t +:+ String dquote EmptyString) +:+ rest)).
      cbn [placeholders]. rewrite decide_False by done. exact IH. }
  exact (H s).
Qed.

Fixpoint plain (q : string) : bool :=
  match q with
  | EmptyString => true
  | String c q => bool_decide (c ≠ dquote) && bool_decide (c ≠ "$"%char) && plain q
  end.
Lemma placeholders_plain a rest :
  plain a = true → placeholders false (a +:+ rest) = placeholders false rest.
Proof.
  induction a as [|c a IH]; [done|]. simpl. intros Hp. bool_props.
  change (String c a +:+ rest) with (String c (a +:+ rest)). cbn [placeholders negb andb].
  rewrite decide_False, bool_decide_false by done. by apply IH.
Qed.

(** The driver refuses a statement whose arguments are not as many as its parameters. *)
Hypothesis sql_arity : ∀ q args s, args ≠ [] → placeholders false q ≠ length args → ∃ e, sql_exec q args s = Err e.

Lemma pgx_Delete_fails cfg args s :
  length args = 2%nat → ∃ e, sql_exec (pgx_DeleteMigration cfg) args s = Err e.
Proof.
  intros Hlen. apply sql_arity; [by intros ->|]. rewrite Hlen. unfold pgx_DeleteMigration, qualified.
  rewrite !string_app_assoc, placeholders_plain, placeholders_quoted, placeholders_plain, placeholders_quoted by done.
  done.
Qed.

(** With the PostgreSQL dialect nothing can be migrated down: the statement that is
    to delete the record of a migration has one parameter and is given two arguments, which the
    driver refuses.  A run succeeds only when nothing is recorded, and at most makes sure that the
    table exists. *)
Theorem pgx_Down_never_reverts m verified env s res s' :
  m_dialect m = PgxDialect verified → Down m env s = (res, s') →
  (s' = s ∨ pgx_EnsureMigrationsTable (m_config m) s = Ok s') ∧
  (res = Ok () → ∃ states, sql_states (pgx_SelectStates (m_config m)) s' = Ok states ∧
     ∀ mm, mm ∈ m_migrations m → Name mm ∉ st_Name <$> states).
Proof.
  intros Hd. unfold Down, run. rewrite Hd. simpl Verify. simpl EnsureMigrationsTable. simpl SelectStates.
  destruct verified; [|intros [= <- <-]; (split; [by auto|done])..].
  destruct (pgx_EnsureMigrationsTable (m_config m) s) as [s1|e|msg]; [|intros [= <- <-]; (split; [by auto|done])..].
  destruct (sql_states _ s1) as [sts|e|msg] eqn:Hsts; [|intros [= <- <-]; (split; [by auto|done])..].
  destruct (toRun m DirectionDown sts) as [|mm todo] eqn:Htodo; simpl.
  - intros [= <- <-]. split; [by right|]. intros _. exists sts. split; [done|]. intros mm Hmm Hin.
    eapply (not_elem_of_nil mm). rewrite <- Htodo. apply list_elem_of_filter.
    split; [by apply elem_of_list_to_set|]. by rewrite elem_of_reverse.
  - unfold runOne. destruct (re_begun (env 0%nat)); [|intros [= <- <-]; (split; [by auto|done])..].
    destruct (migration_tx m mm DirectionDown (re_now (env 0%nat)) s1) as [s2|e|msg] eqn:Htx.
    + exfalso. unfold migration_tx, mbind, outcome_bind in Htx.
      destruct (BeforeMigration _ _ _ _) as [s3|e|msg]; [|done..]. destruct (mig_Down mm s3) as [s4|e|msg]; [|done..].
      rewrite Hd in Htx. simpl in Htx.
      destruct (pgx_Delete_fails (m_config m) [VString (Name mm); VTime (re_now (env 0%nat))] s4 eq_refl) as [e He].
      congruence.
    + unfold rollback. destruct (re_rolledback (env 0%nat)); intros [= <- <-]; (split; [by auto|done]).
    + intros [= <- <-]. split; [by auto|done].
Qed.

(** A failing [COMMIT] ends the process: the deferred rollback finds the transaction over. *)
Lemma failed_commit_panics m mm d re s s1 e :
  re_begun re = Ok () → migration_tx m mm d (re_now re) s = Ok s1 → re_committed re = Err e →
  ∃ msg, runOne m mm d re s = (Panic msg, s).
Proof. intros Hb Htx Hc. unfold runOne. rewrite Hb, Htx, Hc. by eexists. Qed.

(** A migration made of two scripts runs the script for going down when it is to go up, and has
    none to go down. *)
Lemma FromSQL_confuses name up down s :
  up ≠ EmptyString → down ≠ EmptyString →
  SQLMigration_run (FromSQL name up down) DirectionUp s = sql_exec down [] s ∧
  SQLMigration_run (FromSQL name up down) DirectionDown s = Err (ErrOther "no script").
Proof.
  intros Hu Hd. unfold FromSQL. rewrite !bool_decide_false by done. split; [|done].
  unfold SQLMigration_run. cbn. by rewrite bool_decide_false.
Qed.
End Defects.

(** ** Files *)

Section Files.

Lemma lookup_script e d d' c :
  script (set_script e d c) d' = if decide (d' = d) then Some c else script e d'.
Proof. by destruct d, d'. Qed.

(** What the entries hold of the files seen so far. *)
Definition loaded_files (fs : list entry) (entries : gmap string SQLMigration) : Prop :=
  (∀ f name d, f ∈ fs → en_regular f = true → match_name (en_path f) = Some (name, d) →
     ∃ m, entries !! scoped name = Some m ∧ script m d = Some (en_content f)) ∧
  (∀ k m, entries !! k = Some m → sm_name m = k ∧ ∀ d c, script m d = Some c →
     ∃ f name, f ∈ fs ∧ en_regular f = true ∧ match_name (en_path f) = Some (name, d) ∧ scoped name = k ∧
       c = en_content f).

Lemma load_entry_loaded seen entries f entries' :
  loaded_files seen entries → load_entry entries f = Ok entries' → loaded_files (seen ++ [f]) entries'.
Proof.
  intros [Hin Hof]. unfold load_entry. destruct (en_regular f) eqn:Hreg; simpl.
  2: { intros [= <-]. split.
    - intros g name d [Hg| ->%list_elem_of_singleton]%elem_of_app Hr; [by apply Hin|congruence].
    - intros k m Hm. destruct (Hof k m Hm) as [Hk Hs]. split; [done|]. intros d c Hc.
      destruct (Hs d c Hc) as (g & name & ? & ?). exists g, name. split; [apply elem_of_app; by left|done]. }
  destruct (match_name (en_path f)) as [[name d]|] eqn:Hmatch; [|done].
  set (e := default _ (entries !! scoped name)).
  destruct (script e d) eqn:Hnone; [done|]. intros [= <-].
  assert (Hname : sm_name e = scoped name).
  { unfold e. destruct (entries !! scoped name) as [m|] eqn:Hm; [by apply Hof|done]. }
  split.
  - intros g name' d' [Hg| ->%list_elem_of_singleton]%elem_of_app Hr Hgm.
    + destruct (Hin g name' d' Hg Hr Hgm) as (m & Hm & Hs).
      destruct (decide (scoped name = scoped name')) as [Heq|Hne].
      * rewrite <- Heq in Hm |- *. rewrite lookup_insert_eq. eexists. split; [done|]. rewrite lookup_script.
        unfold e in *. rewrite Hm in Hnone |- *. simpl in *. rewrite decide_False; [done|]. intros ->. congruence.
      * exists m. by rewrite lookup_insert_ne.
    + rewrite Hmatch in Hgm. simplify_eq. rewrite lookup_insert_eq. eexists. split; [done|].
      by rewrite lookup_script, decide_True.
  - intros k m [[<- <-]|[Hne Hm]]%lookup_insert_Some.
    + split; [by destruct d|]. intros d' c. rewrite lookup_script. case_decide as Hd.
      * intros [= <-]. subst d'. exists f, name. split_and!; [apply elem_of_app; right; by left|done..].
      * unfold e. destruct (entries !! scoped name) as [m|] eqn:Hm; [|by destruct d'].
        intros Hc. destruct (proj2 (Hof _ _ Hm) d' c Hc) as (g & name' & ? & ?).
        exists g, name'. split; [apply elem_of_app; by left|done].
    + destruct (Hof k m Hm) as [Hk Hs]. split; [done|]. intros d' c Hc.
      destruct (Hs d' c Hc) as (g & name' & ? & ?). exists g, name'. split; [apply elem_of_app; by left|done].
Qed.

Lemma load_entries_loaded fs seen entries entries' :
  loaded_files seen entries → load_entries fs entries = Ok entries' → loaded_files (seen ++ fs) entries'.
Proof.
  revert seen entries. induction fs as [|f fs IH]; intros seen entries Hl; simpl.
  { intros [= <-]. by rewrite app_nil_r. }
  unfold mbind, outcome_bind. destruct (load_entry entries f) as [entries1|e|msg] eqn:Hf; [|done..].
  intros H. pose proof (IH (seen ++ [f]) entries1 (load_entry_loaded _ _ _ _ Hl Hf) H) as HH.
  by rewrite <- (assoc_L (++)) in HH.
Qed.

(** What is loaded are the regular files: every one is the script of a migration of its name in
    its direction, and every script is the content of a file of that name. *)
Theorem load_entries_spec fs entries :
  load_entries fs ∅ = Ok entries → loaded_files fs entries.
Proof.
  apply (load_entries_loaded fs []). split; [by intros ? ? ? ?%elem_of_nil|]. intros k m Hm. by rewrite lookup_empty in Hm.
Qed.
End Files.

(** ** Witnesses *)

(** A database that keeps the names in the migrations table and the scripts that were run. *)
Record toy_state := MkToy { toy_names : list string; toy_log : list string }.
Definition toy_exec (q : string) (args : list value) (s : toy_state) : outcome toy_state :=
  match args with
  | [] => Ok (MkToy (toy_names s) (toy_log s ++ [q]))
  | _ =>
      if bool_decide (placeholders false q = length args) then
        match args with
        | VString n :: _ =>
            if bool_decide (n ∈ toy_names s) then Err SqlUnique else Ok (MkToy (n :: toy_names s) (toy_log s))
        | _ => Ok s
        end
      else Err (ErrOther "mismatched param and argument count")
  end.
Definition toy_database : Database := {|
  dbstate := toy_state; sql_exec := toy_exec;
  sql_states _ s := Ok ((λ n, MkState n 0) <$> toy_names s); pg_type_raced _ := false |}.

(** Three migrations, the last of which has no script for going up. *)
Definition toy_migrator : Migrator (DB := toy_database) :=
  AddAndSort (DB := toy_database) EmptyString (SQLMigration_Migration (DB := toy_database) <$> [
    FromContent "/2" (Some (Ok "CREATE TABLE b")) None; FromContent "/3" None None;
    FromContent "/1" (Some (Ok "CREATE TABLE a")) None])
    (New (DB := toy_database) None (PgxDialect (DB := toy_database) (Ok ()))).
Definition toy_recorded (s : toy_state) : gset string := list_to_set (toy_names s).
Definition toy_env (i : nat) : run_env := MkRun (Ok ()) (Ok ()) (Ok ()) 10.

Lemma toy_recording : Recording (DB := toy_database) toy_migrator toy_recorded.
Proof.
  split.
  - intros s sts [= <-]. unfold toy_recorded. by rewrite <- list_fmap_compose, list_fmap_id.
  - intros s s' [= <-]. done.
  - intros n d s s' [= <-]. done.
  - intros n t s s'. unfold sql_exec, toy_database, toy_exec.
    case_bool_decide; [|done]. case_bool_decide as Hn; [done|]. intros [= <-]. unfold toy_recorded. simpl.
    split; [by rewrite elem_of_list_to_set|done].
  - intros mm Hmm s s' Hup. unfold toy_migrator, AddAndSort in Hmm. simpl m_migrations in Hmm.
    unfold sortMigrations in Hmm. rewrite merge_sort_Permutation in Hmm.
    unfold WithPrefix in Hmm. rewrite bool_decide_true in Hmm by done.
    repeat (apply elem_of_cons in Hmm as [->|Hmm]; [cbv in Hup; by inversion Hup|]). by apply elem_of_nil in Hmm.
Qed.

(** The run stops at the third: the second is applied, the third is still missing. *)
Lemma Up_resumes_witness :
  ∃ e s' l rest, Up (DB := toy_database) toy_migrator toy_env (MkToy ["/1"] []) = (Err e, s') ∧
    missing (DB := toy_database) toy_migrator toy_recorded (MkToy ["/1"] []) = l ++ rest ∧
    missing (DB := toy_database) toy_migrator toy_recorded s' = rest ∧ length rest = 1%nat.
Proof.
  destruct (Up (DB := toy_database) toy_migrator toy_env (MkToy ["/1"] [])) as [res s'] eqn:Hup.
  destruct (Up_resumes (DB := toy_database) toy_migrator toy_recorded (H := toy_recording) toy_env
    (MkToy ["/1"] []) res s') as (l & rest & s1 & Hmiss & Hrest & _).
  - apply (bool_decide_unpack _). vm_compute. exact I.
  - exact Hup.
  - vm_compute in Hup. injection Hup as <- <-. eexists _, _, l, rest.
    split; [reflexivity|]. split; [exact Hmiss|]. split; [exact Hrest|].
    rewrite <- Hrest. vm_compute. reflexivity.
Defined.

Lemma toy_arity q args s :
  args ≠ [] → placeholders false q ≠ length args → ∃ e, sql_exec (Database := toy_database) q args s = Err e.
Proof.
  intros Hargs Hq. destruct args as [|a args]; [done|]. unfold sql_exec, toy_database, toy_exec.
  rewrite bool_decide_false by done. by eexists.
Qed.

Lemma pgx_Down_never_reverts_witness :
  ∃ e s', Down (DB := toy_database) toy_migrator toy_env (MkToy ["/1"] []) = (Err e, s') ∧ toy_names s' = ["/1"].
Proof.
  destruct (Down (DB := toy_database) toy_migrator toy_env (MkToy ["/1"] [])) as [res s'] eqn:Hd.
  destruct (pgx_Down_never_reverts (DB := toy_database) toy_arity toy_migrator (Ok ()) toy_env (MkToy ["/1"] []) res s'
    eq_refl Hd) as [[->|Hs] _].
  - vm_compute in Hd. discriminate Hd.
  - vm_compute in Hd. injection Hd as <- <-. eexists _, _. split; reflexivity.
Defined.

Lemma load_entries_spec_witness :
  ∃ m, sm_name m = "/0001_base" ∧ script m DirectionUp = Some (Ok "CREATE TABLE t").
Proof.
  destruct (load_entries [MkEntry "0001_base.up.sql" true (Ok "CREATE TABLE t")] ∅) as [entries|e|msg] eqn:Hl;
    [|vm_compute in Hl; discriminate Hl..].
  destruct (load_entries_spec _ _ Hl) as [Hin Hof].
  destruct (Hin (MkEntry "0001_base.up.sql" true (Ok "CREATE TABLE t")) "0001_base" DirectionUp) as (m & Hm & Hs).
  - left.
  - reflexivity.
  - vm_compute. reflexivity.
  - exists m. split; [exact (proj1 (Hof _ _ Hm))|exact Hs].
Defined.
