(* ===== verification/Interval.v ===== *)
(** * Intervals

    [src/internal/sqltypes/interval.go]: the type of the interval columns.  A value is sent as the
    text of Go's [time.Duration]; what is read back is either such a text (SQLite keeps it) or an
    interval as PostgreSQL prints it ("1 year 2 mons 3 days 04:05:06.007008").

    [Duration_String] and [ParseDuration] are translated from Go's standard library.  Of float64
    only the operations of [Backoff] are used, on fractions; [Float64Exact] says that they are
    exact on whole numbers below 2^53. *)

From Stdlib Require Import QArith.
From S2P Require Import Prelude Utf8 Backoff.

Open Scope Z_scope.

(** ** Digits *)

Definition digit (d : Z) : ascii := ascii_of_N (Z.to_N (48 + d)).
Definition digit_value (c : ascii) : option Z :=
  if is_digit c then Some (Z.of_N (N_of_ascii c) - 48) else None.

Fixpoint span_digits (s : string) : string * string :=
  match s with
  | String c s' => if is_digit c then let '(ds, rest) := span_digits s' in (String c ds, rest) else (EmptyString, s)
  | EmptyString => (EmptyString, EmptyString)
  end.

(** Decimal digits from position [x] on, as the loop of [strconv] accumulates them. *)
Fixpoint digits_value (x : Z) (s : string) : option Z :=
  match s with
  | EmptyString => Some x
  | String c s => d ← digit_value c; digits_value (x * 10 + d) s
  end.

Definition starts_digit (s : string) : bool :=
  match s with String c _ => is_digit c | EmptyString => false end.
Definition starts_period (s : string) : bool :=
  match s with String c _ => bool_decide (c = "."%char) | EmptyString => false end.
Definition string_tail (s : string) : string := match s with String _ s => s | EmptyString => EmptyString end.

(** [strconv.Atoi], 64 bits wide *)
Definition Atoi (s : string) : outcome Z :=
  let '(neg, ds) :=
    match s with
    | String c s' => if decide (c = "-"%char) then (true, s') else if decide (c = "+"%char) then (false, s') else (false, s)
    | EmptyString => (false, s)
    end in
  if decide (ds = EmptyString) then Err (ErrOther "invalid syntax")
  else match digits_value 0 ds with
       | None => Err (ErrOther "invalid syntax")
       | Some n =>
           let n := if neg : bool then - n else n in
           if (int64_min <=? n) && (n <=? int64_max) then Ok n else Err (ErrOther "value out of range")
       end.

(** ** [time.Duration.String]

    The text is written backwards into a buffer: the argument [buf] is its filled tail. *)

(** A uint64 has at most 20 digits. *)
Fixpoint fmtDigits (fuel : nat) (v : Z) (buf : string) : string :=
  match fuel with
  | O => buf
  | S fuel => if v =? 0 then buf else fmtDigits fuel (v / 10) (String (digit (v mod 10)) buf)
  end.
Definition fmtInt (v : Z) (buf : string) : string :=
  if v =? 0 then String (digit 0) buf else fmtDigits 20 v buf.

(** The loop of [fmtFrac]; [print] says that a digit other than a trailing zero was seen. *)
Fixpoint fracDigits (prec : nat) (print : bool) (v : Z) (buf : string) : bool * Z * string :=
  match prec with
  | O => (print, v, buf)
  | S prec =>
      let print := print || negb (v mod 10 =? 0) in
      fracDigits prec print (v / 10) (if print then String (digit (v mod 10)) buf else buf)
  end.
Definition fmtFrac (v : Z) (prec : nat) (buf : string) : string * Z :=
  let '(print, v, buf) := fracDigits prec false v buf in
  (if print then String "." buf else buf, v).

(** [d.format] of the magnitude [u] *)
Definition format (u : Z) : string :=
  if u <? Second then
    if u =? 0 then "0s"
    else
      let '(unit, prec) :=
        if u <? 1000 then ("ns", 0%nat) else if u <? Millisecond then ("µs", 3%nat) else ("ms", 6%nat) in
      let '(buf, u) := fmtFrac u prec unit in fmtInt u buf
  else
    let '(buf, u) := fmtFrac u 9 "s" in
    let buf := fmtInt (u mod 60) buf in
    let u := u / 60 in
    if 0 <? u then
      let buf := fmtInt (u mod 60) (String "m" buf) in
      let u := u / 60 in
      if 0 <? u then fmtInt u (String "h" buf) else buf
    else buf.
Definition Duration_String (d : duration) : string :=
  if d <? 0 then String "-" (format (- d)) else format d.

(** ** [time.ParseDuration] *)

(** [leadingInt], with the value so far *)
Fixpoint leadingInt (x : Z) (s : string) : outcome (Z * string) :=
  match s with
  | EmptyString => Ok (x, s)
  | String c s' =>
      match digit_value c with
      | None => Ok (x, s)
      | Some d =>
          if 2 ^ 63 / 10 <? x then Err (ErrOther "time: bad [0-9]*")
          else let x := x * 10 + d in
               if 2 ^ 63 <? x then Err (ErrOther "time: bad [0-9]*") else leadingInt x s'
      end
  end.

Definition unitMap (u : string) : option Z :=
  if decide (u = "ns") then Some 1
  else if decide (u = "us" ∨ u = "µs" ∨ u = "μs") then Some 1000
  else if decide (u = "ms") then Some Millisecond
  else if decide (u = "s") then Some Second
  else if decide (u = "m") then Some Minute
  else if decide (u = "h") then Some Hour
  else None.

(** The longest prefix without a period or digit *)
Fixpoint span_unit (s : string) : string * string :=
  match s with
  | String c s' =>
      if is_digit c || bool_decide (c = "."%char) then (EmptyString, s)
      else let '(u, rest) := span_unit s' in (String c u, rest)
  | EmptyString => (EmptyString, EmptyString)
  end.

Section ParseDuration.
Context {F : Float64}.

(** [leadingFraction]: the digits' value, the power of ten it is divided by; digits beyond what
    fits are skipped. *)
Fixpoint leadingFraction (x : Z) (scale : flt) (overflow : bool) (s : string) : Z * flt * string :=
  match s with
  | EmptyString => (x, scale, s)
  | String c s' =>
      match digit_value c with
      | None => (x, scale, s)
      | Some d =>
          if overflow || ((2 ^ 63 - 1) / 10 <? x) then leadingFraction x scale true s'
          else if 2 ^ 63 <? x * 10 + d then leadingFraction x scale true s'
          else leadingFraction (x * 10 + d) (f_mul scale (f_ofZ 10)) false s'
      end
  end.

(** The second half of a round of the loop: the unit, and the length. *)
Definition unit_part (v f : Z) (scale : flt) (s : string) : outcome (Z * string) :=
  let '(u, rest) := span_unit s in
  if decide (u = EmptyString) then Err (ErrOther "time: missing unit in duration")
  else match unitMap u with
       | None => Err (ErrOther "time: unknown unit in duration")
       | Some unit =>
           if 2 ^ 63 / unit <? v then Err (ErrOther "time: invalid duration")
           else
             let v := v * unit in
             let v := if 0 <? f then v + f_trunc (f_mul (f_ofZ f) (f_div (f_ofZ unit) scale)) else v in
             if 2 ^ 63 <? v then Err (ErrOther "time: invalid duration") else Ok (v, rest)
       end.

(** A round of the loop, without the sum: the length of a number with its unit, and the rest. *)
Definition term (s : string) : outcome (Z * string) :=
  if negb (starts_digit s || starts_period s) then Err (ErrOther "time: invalid duration")
  else
    '(v, s1) ← leadingInt 0 s;
    let pre := negb (bool_decide (String.length s1 = String.length s)) in
    if starts_period s1 then
      let s2 := string_tail s1 in
      let '(f, scale, s3) := leadingFraction 0 (f_ofZ 1) false s2 in
      let post := negb (bool_decide (String.length s3 = String.length s2)) in
      if negb pre && negb post then Err (ErrOther "time: invalid duration") else unit_part v f scale s3
    else if negb pre then Err (ErrOther "time: invalid duration") else unit_part v 0 (f_ofZ 1) s1.

(** The loop, [d] being the uint64 sum so far; every round consumes a character. *)
Fixpoint terms (fuel : nat) (s : string) (d : Z) : outcome Z :=
  if decide (s = EmptyString) then Ok d
  else match fuel with
       | O => Panic "out of fuel"
       | S fuel =>
           '(v, s) ← term s;
           let d := (d + v) mod 2 ^ 64 in
           if 2 ^ 63 <? d then Err (ErrOther "time: invalid duration") else terms fuel s d
       end.

Definition ParseDuration (s : string) : outcome duration :=
  let '(neg, s) :=
    match s with
    | String c s' => if decide (c = "-"%char) then (true, s') else if decide (c = "+"%char) then (false, s') else (false, s)
    | EmptyString => (false, s)
    end in
  if decide (s = "0") then Ok 0
  else if decide (s = EmptyString) then Err (ErrOther "time: invalid duration")
  else
    d ← terms (String.length s) s 0;
    if neg : bool then Ok (int64_wrap (- d))
    else if 2 ^ 63 - 1 <? d then Err (ErrOther "time: invalid duration") else Ok d.
End ParseDuration.

(** ** PostgreSQL's format *)

Definition day : duration := 24 * Hour.
Definition month : duration := 30 * day.
Definition year : duration := 365 * day.

(** The groups of [pgIntervalRegexp]; a group that took no part is the empty text. *)
Record pg_match := MkMatch {
  g_years : string; g_months : string; g_days : string;
  g_hours : string; g_minutes : string; g_seconds : string; g_subseconds : string }.

(** [[+-]?\d+] *)
Definition signed_int (s : string) : option (string * string) :=
  let '(sign, s') :=
    match s with
    | String c s' => if decide (c = "-"%char ∨ c = "+"%char) then (String c EmptyString, s') else (EmptyString, s)
    | EmptyString => (EmptyString, s)
    end in
  let '(ds, rest) := span_digits s' in
  if decide (ds = EmptyString) then None else Some (sign +:+ ds, rest).

Fixpoint strip (p s : string) : option string :=
  match p, s with
  | EmptyString, _ => Some s
  | String c p, String c' s => if decide (c = c') then strip p s else None
  | _, EmptyString => None
  end.

(** [((?P<group>[+-]?\d+) unit[s]? )?].  What follows the number tells the groups apart, so that
    a group that can match has to. *)
Definition unit_group (unit : string) (s : string) : string * string :=
  match signed_int s with
  | None => (EmptyString, s)
  | Some (n, rest) =>
      match strip (String " " unit) rest with
      | None => (EmptyString, s)
      | Some rest =>
          match strip " " (default rest (strip "s" rest)) with
          | Some rest => (n, rest)
          | None => (EmptyString, s)
          end
      end
  end.

Definition FindStringSubmatch (s : string) : option pg_match :=
  let '(years, s) := unit_group "year" s in
  let '(months, s) := unit_group "mon" s in
  let '(days, s) := unit_group "day" s in
  '(hours, s) ← signed_int s;
  s ← strip ":" s;
  '(minutes, s) ← signed_int s;
  s ← strip ":" s;
  '(seconds, s) ← signed_int s;
  match s with
  | EmptyString => Some (MkMatch years months days hours minutes seconds EmptyString)
  | String c s =>
      if decide (c = "."%char) then
        let '(sub, rest) := span_digits s in
        if decide (sub ≠ EmptyString ∧ rest = EmptyString)
        then Some (MkMatch years months days hours minutes seconds sub) else None
      else None
  end.

(** [adjustDuration]; [*d += time.Duration(i) * scale] wraps around. *)
Definition adjustDuration (d : duration) (value : string) (scale : duration) : outcome duration :=
  if decide (value = EmptyString) then Ok d
  else i ← Atoi value; Ok (int64_wrap (d + int64_wrap (i * scale))).

Definition pg_duration (m : pg_match) : outcome duration :=
  d ← adjustDuration 0 (g_years m) year;
  d ← adjustDuration d (g_months m) month;
  d ← adjustDuration d (g_days m) day;
  d ← adjustDuration d (g_hours m) Hour;
  d ← adjustDuration d (g_minutes m) Minute;
  d ← adjustDuration d (g_seconds m) Second;
  let sub := g_subseconds m in
  if decide (sub = EmptyString) then Ok d
  else if 9 <? Z.of_nat (String.length sub) then Err (ErrOther "cannot parse beyond nanosecond resolution")
  else adjustDuration d sub (Second / 10 ^ Z.of_nat (String.length sub)).

Section Interval.
Context {F : Float64}.

Definition ParsePostgreSQLInterval (s : string) : outcome duration :=
  match FindStringSubmatch s with
  | None =>
      match ParseDuration s with
      | Err _ => Err (ErrOther "unrecognized interval format")
      | r => r
      end
  | Some m => pg_duration m
  end.

(** What a driver hands to [Scan] *)
Inductive scan_src := SrcDuration (d : duration) | SrcInt64 (i : Z) | SrcString (s : string) | SrcNil | SrcOther.

(** [Interval.String] and [Interval.Value] *)
Definition Interval_Value (i : duration) : scan_src := SrcString (Duration_String i).
Definition Interval_Scan (src : scan_src) : outcome duration :=
  match src with
  | SrcDuration d => Ok d
  | SrcInt64 i => Ok i
  | SrcString s => ParsePostgreSQLInterval s
  | SrcNil => Ok 0
  | SrcOther => Err (ErrOther "unsupported scan type")
  end.

(** JSON: the string that is encoded, and a document's decoding as a string, if it is one *)
Definition Interval_MarshalJSON (i : duration) : string := Duration_String i.
Definition Interval_UnmarshalJSON (decoded : option string) : outcome duration :=
  match decoded with
  | None => Err (ErrOther "not a string")
  | Some s => ParsePostgreSQLInterval s
  end.
End Interval.

Example interval_tests :
  ParsePostgreSQLInterval "01:02:03" = Ok (Hour + 2 * Minute + 3 * Second) ∧
  ParsePostgreSQLInterval "01:02:03.4" = Ok (Hour + 2 * Minute + 3 * Second + 400 * Millisecond) ∧
  ParsePostgreSQLInterval "00:00:00.123456789" = Ok 123456789 ∧
  ParsePostgreSQLInterval "1 year 2 mons 3 days 08:09:10.123456"
    = Ok (365 * 24 * Hour + 2 * 30 * 24 * Hour + 3 * 24 * Hour + 8 * Hour + 9 * Minute + 10 * Second + 123456000) ∧
  ParsePostgreSQLInterval "00:00:00.0000000009" = Err (ErrOther "cannot parse beyond nanosecond resolution") ∧
  Interval_Scan (SrcString "1h0m0s") = Ok Hour ∧
  Duration_String (Hour + 1500000) = "1h0m0.0015s" ∧ Duration_String (- 1500) = "-1.5µs" ∧
  ParsePostgreSQLInterval (Duration_String (- 2 ^ 63)) = Ok (- 2 ^ 63) ∧
  ParsePostgreSQLInterval "-00:00:01" = Ok Second ∧
  ParsePostgreSQLInterval "1 day" = Err (ErrOther "unrecognized interval format").
Proof. vm_compute. repeat split. Qed.

(** ** Texts of digits *)

(** The last [k] digits of [v], before [buf] *)
Fixpoint pad (k : nat) (v : Z) (buf : string) : string :=
  match k with O => buf | S k => pad k (v / 10) (String (digit (v mod 10)) buf) end.

Lemma digit_value_digit d : 0 ≤ d < 10 → digit_value (digit d) = Some d ∧ is_digit (digit d) = true.
Proof.
  intros Hd. assert (d = 0 ∨ d = 1 ∨ d = 2 ∨ d = 3 ∨ d = 4 ∨ d = 5 ∨ d = 6 ∨ d = 7 ∨ d = 8 ∨ d = 9) as H by lia.
  repeat (destruct H as [->|H]; [done|]). by subst.
Qed.

Lemma digit_mod v : digit_value (digit (v mod 10)) = Some (v mod 10) ∧ is_digit (digit (v mod 10)) = true.
Proof. apply digit_value_digit, Z.mod_pos_bound. lia. Qed.

Lemma pow10_pos k : 0 < 10 ^ Z.of_nat k.
Proof. apply Z.pow_pos_nonneg; lia. Qed.

Lemma pow10_S k : 10 ^ Z.of_nat (S k) = 10 * 10 ^ Z.of_nat k.
Proof. rewrite Nat2Z.inj_succ, Z.pow_succ_r by lia. done. Qed.

(** Taking a digit off the end *)
Lemma mod_pow10_S v k :
  v mod 10 ^ Z.of_nat (S k) = (v / 10) mod 10 ^ Z.of_nat k * 10 + v mod 10.
Proof.
  rewrite pow10_S. pose proof (pow10_pos k). rewrite Z.rem_mul_r by lia. lia.
Qed.

Lemma div_pow10_S v k : v / 10 ^ Z.of_nat (S k) = v / 10 / 10 ^ Z.of_nat k.
Proof. rewrite pow10_S. pose proof (pow10_pos k). by rewrite Z.div_div by lia. Qed.

Lemma pad_length k v buf : String.length (pad k v buf) = (k + String.length buf)%nat.
Proof. revert v buf. induction k as [|k IH]; intros v buf; simpl; [done|]. rewrite IH. simpl. lia. Qed.

Lemma pad_starts k v buf : (0 < k)%nat → starts_digit (pad k v buf) = true.
Proof.
  destruct k as [|k]; [lia|intros _]. simpl.
  assert (Hs : starts_digit (String (digit (v mod 10)) buf) = true) by apply (digit_mod v).
  revert Hs. generalize (String (digit (v mod 10)) buf) as b, (v / 10) as w.
  induction k as [|k IH]; intros b w Hb; simpl; [done|]. apply IH. apply (digit_mod w).
Qed.

Lemma fmtDigits_pad fuel v buf :
  0 ≤ v < 10 ^ Z.of_nat fuel →
  ∃ k, fmtDigits fuel v buf = pad k v buf ∧ v < 10 ^ Z.of_nat k ∧ (0 < v → (0 < k)%nat).
Proof.
  revert v buf. induction fuel as [|fuel IH]; intros v buf Hv; simpl.
  - exists 0%nat. simpl in *. split_and!; [done|lia..].
  - case_match eqn:Hz; bool_props.
    + exists 0%nat. simpl. split_and!; [done|lia..].
    + rewrite pow10_S in Hv. destruct (IH (v / 10) (String (digit (v mod 10)) buf)) as (k & -> & Hk & _).
      { split; [apply Z.div_pos; lia|]. apply Z.div_lt_upper_bound; lia. }
      exists (S k). split_and!; [done| |lia]. rewrite pow10_S.
      pose proof (Z.div_mod v 10 ltac:(lia)). pose proof (Z.mod_pos_bound v 10 ltac:(lia)). lia.
Qed.

Lemma fmtInt_pad v buf :
  0 ≤ v ≤ 2 ^ 64 → ∃ k, fmtInt v buf = pad k v buf ∧ v < 10 ^ Z.of_nat k ∧ (0 < k)%nat.
Proof.
  intros Hv. unfold fmtInt. case_match eqn:Hz; bool_props.
  - exists 1%nat. subst. split_and!; [done|lia..].
  - destruct (fmtDigits_pad 20 v buf) as (k & -> & Hk & ?); [split; [lia|]; change (Z.of_nat 20) with 20; lia|].
    exists k. split_and!; [done..|]. auto with lia.
Qed.

Lemma leadingInt_pad k x v buf :
  0 ≤ x → x * 10 ^ Z.of_nat k + v mod 10 ^ Z.of_nat k ≤ 2 ^ 63 →
  leadingInt x (pad k v buf) = leadingInt (x * 10 ^ Z.of_nat k + v mod 10 ^ Z.of_nat k) buf.
Proof.
  revert v buf. induction k as [|k IH]; intros v buf Hx Hb; simpl.
  - rewrite Z.mod_1_r. f_equal. lia.
  - rewrite mod_pow10_S, pow10_S in *. pose proof (Z.mod_pos_bound v 10 ltac:(lia)).
    pose proof (Z.mod_pos_bound (v / 10) (10 ^ Z.of_nat k) (pow10_pos k)). pose proof (pow10_pos k).
    rewrite IH by nia. simpl. destruct (digit_mod v) as [-> _].
    set (y := x * 10 ^ Z.of_nat k + (v / 10) mod 10 ^ Z.of_nat k) in *.
    replace (x * (10 * 10 ^ Z.of_nat k) + ((v / 10) mod 10 ^ Z.of_nat k * 10 + v mod 10))
      with (y * 10 + v mod 10) in * by (unfold y; ring).
    rewrite !(proj2 (Z.ltb_ge _ _)); [done|lia|]. apply Z.div_le_lower_bound; lia.
Qed.

Lemma digits_value_pad k x v :
  digits_value x (pad k v EmptyString) = Some (x * 10 ^ Z.of_nat k + v mod 10 ^ Z.of_nat k).
Proof.
  assert (H : ∀ buf, digits_value x (pad k v buf) = digits_value (x * 10 ^ Z.of_nat k + v mod 10 ^ Z.of_nat k) buf);
    [|apply H].
  revert v. induction k as [|k IH]; intros v buf; simpl.
  - rewrite Z.mod_1_r. f_equal. lia.
  - rewrite IH. simpl. destruct (digit_mod v) as [-> _]. simpl. f_equal. rewrite mod_pow10_S, pow10_S. ring.
Qed.

(** [fmtFrac] cuts the trailing zeros off the last [prec] digits. *)
Lemma fracDigits_true prec v buf :
  fracDigits prec true v buf = (true, v / 10 ^ Z.of_nat prec, pad prec v buf).
Proof.
  revert v buf. induction prec as [|n IH]; intros v buf; simpl; [by rewrite Z.div_1_r|].
  by rewrite IH, div_pow10_S.
Qed.

Lemma fmtFrac_spec prec w buf :
  (w mod 10 ^ Z.of_nat prec = 0 ∧ fmtFrac w prec buf = (buf, w / 10 ^ Z.of_nat prec)) ∨
  ∃ k f, (k ≤ prec)%nat ∧ 0 < f mod 10 ^ Z.of_nat k ∧
    f mod 10 ^ Z.of_nat k * 10 ^ Z.of_nat (prec - k) = w mod 10 ^ Z.of_nat prec ∧
    fmtFrac w prec buf = (String "." (pad k f buf), w / 10 ^ Z.of_nat prec).
Proof.
  unfold fmtFrac. revert w. induction prec as [|n IH]; intros w; simpl.
  - left. by rewrite Z.mod_1_r, Z.div_1_r.
  - rewrite mod_pow10_S, div_pow10_S. destruct (w mod 10 =? 0) eqn:Hz; simpl; bool_props.
    + rewrite Hz. destruct (IH (w / 10)) as [[H0 H1]|(k & f & Hk & Hf & Hm & H1)].
      * left. split; [lia|]. exact H1.
      * right. exists k, f. split_and!; [lia|done| |exact H1].
        replace (S n - k)%nat with (S (n - k)) by lia. rewrite pow10_S. lia.
    + right. exists (S n), w. rewrite fracDigits_true. simpl. split_and!; [done|..].
      * rewrite mod_pow10_S. pose proof (Z.mod_pos_bound w 10 ltac:(lia)).
        pose proof (Z.mod_pos_bound (w / 10) (10 ^ Z.of_nat n) (pow10_pos n)). lia.
      * rewrite Nat.sub_diag, Z.mul_1_r. by rewrite mod_pow10_S.
      * done.
Qed.

(** Enough of float64: whole numbers below 2^53 are represented, and an operation whose exact
    result is one of them returns it. *)
Class Float64Exact (F : Float64) := {
  f_is : flt → Z → Prop;
  f_is_ofZ z : 0 ≤ z ≤ 2 ^ 53 → f_is (f_ofZ z) z;
  f_is_mul x y a b : f_is x a → f_is y b → 0 ≤ a * b ≤ 2 ^ 53 → f_is (f_mul x y) (a * b);
  f_is_div x y a b : f_is x (a * b) → f_is y b → 0 < b → 0 ≤ a * b ≤ 2 ^ 53 → f_is (f_div x y) a;
  f_is_trunc x z : f_is x z → f_trunc x = z }.

(** ** Reading back a printed duration *)

Lemma leadingInt_stop x s : starts_digit s = false → leadingInt x s = Ok (x, s).
Proof. destruct s as [|c s]; simpl; [done|]. unfold digit_value. by intros ->. Qed.

Lemma leadingInt_fmtInt v buf :
  0 ≤ v ≤ 2 ^ 63 → starts_digit buf = false → leadingInt 0 (fmtInt v buf) = Ok (v, buf).
Proof.
  intros Hv Hb. destruct (fmtInt_pad v buf) as (k & -> & Hk & _); [lia|].
  rewrite leadingInt_pad; rewrite ?Z.mod_small by lia; [|lia..].
  by apply leadingInt_stop.
Qed.

Lemma fmtInt_starts v buf : 0 ≤ v ≤ 2 ^ 64 → starts_digit (fmtInt v buf) = true.
Proof. intros Hv. destruct (fmtInt_pad v buf) as (k & -> & _ & ?); [done|]. by apply pad_starts. Qed.

Lemma fmtInt_longer v buf : 0 ≤ v ≤ 2 ^ 64 → (String.length buf < String.length (fmtInt v buf))%nat.
Proof. intros Hv. destruct (fmtInt_pad v buf) as (k & -> & _ & ?); [done|]. rewrite pad_length. lia. Qed.

Section Read.
Context {F : Float64}.

(** A text that begins with a unit *)
Definition at_unit (s u rest : string) (unit : Z) : Prop :=
  starts_digit s = false ∧ starts_period s = false ∧ span_unit s = (u, rest) ∧ u ≠ EmptyString ∧
  unitMap u = Some unit ∧ 0 < unit.

Lemma unit_part_spec v f scale s u rest unit n :
  at_unit s u rest unit → 0 ≤ v → 0 ≤ n → v * unit + n ≤ 2 ^ 63 →
  (if 0 <? f then f_trunc (f_mul (f_ofZ f) (f_div (f_ofZ unit) scale)) else 0) = n →
  unit_part v f scale s = Ok (v * unit + n, rest).
Proof.
  intros (_ & _ & Hs & Hu & Hm & Hp) Hv Hn Hb Hf. unfold unit_part. rewrite Hs, decide_False, Hm by done.
  rewrite (proj2 (Z.ltb_ge (2 ^ 63 / unit) v)) by (apply Z.div_le_lower_bound; lia).
  cbv zeta. replace (if 0 <? f then _ else v * unit) with (v * unit + n).
  - by rewrite (proj2 (Z.ltb_ge _ _)) by lia.
  - rewrite <- Hf. destruct (0 <? f); lia.
Qed.

(** A printed whole number with its unit *)
Lemma term_whole v s u rest unit :
  at_unit s u rest unit → 0 ≤ v → v * unit ≤ 2 ^ 63 → term (fmtInt v s) = Ok (v * unit, rest).
Proof.
  intros Hu Hv Hb. pose proof Hu as (Hd & Hp & _ & _ & _ & Hpos). assert (Hv' : 0 ≤ v ≤ 2 ^ 63) by nia.
  unfold term. rewrite fmtInt_starts by lia. simpl.
  rewrite leadingInt_fmtInt by done. unfold mbind, outcome_bind. rewrite Hp.
  rewrite bool_decide_eq_false_2 by (pose proof (fmtInt_longer v s); lia). simpl.
  rewrite (unit_part_spec _ _ _ _ _ _ _ 0 Hu) by (done || lia). by rewrite Z.add_0_r.
Qed.

Context {X : Float64Exact F}.

Lemma leadingFraction_pad k s scale v buf :
  0 < s → f_is scale s → s * 10 ^ Z.of_nat k ≤ 2 ^ 53 →
  ∀ x, 0 ≤ x < s →
  ∃ scale', f_is scale' (s * 10 ^ Z.of_nat k) ∧
    leadingFraction x scale false (pad k v buf)
      = leadingFraction (x * 10 ^ Z.of_nat k + v mod 10 ^ Z.of_nat k) scale' false buf.
Proof.
  intros Hs Hi Hb x Hx. revert v buf. induction k as [|k IH]; intros v buf; simpl.
  - exists scale. rewrite Z.mod_1_r, Z.mul_1_r. split; [done|]. f_equal. lia.
  - rewrite mod_pow10_S, pow10_S in *. pose proof (Z.mod_pos_bound v 10 ltac:(lia)).
    pose proof (Z.mod_pos_bound (v / 10) (10 ^ Z.of_nat k) (pow10_pos k)). pose proof (pow10_pos k).
    destruct (IH ltac:(nia) (v / 10) (String (digit (v mod 10)) buf)) as (scale' & Hi' & ->).
    exists (f_mul scale' (f_ofZ 10)). split.
    + replace (s * (10 * 10 ^ Z.of_nat k)) with (s * 10 ^ Z.of_nat k * 10) by ring.
      apply f_is_mul; [done|apply f_is_ofZ; lia|nia].
    + simpl. destruct (digit_mod v) as [-> _].
      set (y := x * 10 ^ Z.of_nat k + (v / 10) mod 10 ^ Z.of_nat k) in *.
      replace (x * (10 * 10 ^ Z.of_nat k) + ((v / 10) mod 10 ^ Z.of_nat k * 10 + v mod 10))
        with (y * 10 + v mod 10) by (unfold y; ring).
      assert (Hy : 0 ≤ y < s * 10 ^ Z.of_nat k) by (unfold y; nia).
      rewrite !(proj2 (Z.ltb_ge _ _)); [done|lia|]. apply Z.div_le_lower_bound; lia.
Qed.

(** A printed number with a fraction of its unit; [q] may be less than the whole part of [w]. *)
Lemma term_fraction q w prec u :
  (prec ≤ 9)%nat → at_unit u u EmptyString (10 ^ Z.of_nat prec) →
  0 ≤ q → q * 10 ^ Z.of_nat prec + w mod 10 ^ Z.of_nat prec ≤ 2 ^ 63 →
  term (fmtInt q (fmtFrac w prec u).1) = Ok (q * 10 ^ Z.of_nat prec + w mod 10 ^ Z.of_nat prec, EmptyString).
Proof.
  intros Hprec Hu Hq Hb. pose proof (pow10_pos prec). pose proof (Z.mod_pos_bound w _ (pow10_pos prec)).
  destruct (fmtFrac_spec prec w u) as [[Hz ->]|(k & f & Hk & Hf & Hm & ->)]; simpl.
  - rewrite Hz, Z.add_0_r in *. by apply term_whole with u.
  - assert (Hq' : 0 ≤ q ≤ 2 ^ 63) by nia. unfold term. rewrite fmtInt_starts by lia. simpl.
    rewrite leadingInt_fmtInt by done. unfold mbind, outcome_bind. cbn [starts_period string_tail].
    rewrite (bool_decide_eq_true_2 ("."%char = _)) by done.
    rewrite bool_decide_eq_false_2 by (pose proof (fmtInt_longer q (String "." (pad k f u))); lia).
    assert (Hpow : 10 ^ Z.of_nat (prec - k) * 10 ^ Z.of_nat k = 10 ^ Z.of_nat prec).
    { rewrite <- Z.pow_add_r by lia. f_equal. lia. }
    assert (Hle : 10 ^ Z.of_nat prec ≤ 10 ^ 9) by (apply Z.pow_le_mono_r; lia).
    pose proof (pow10_pos k). pose proof (pow10_pos (prec - k)). pose proof (Z.mod_pos_bound f _ (pow10_pos k)).
    destruct (leadingFraction_pad k 1 (f_ofZ 1) f u ltac:(lia) ltac:(apply f_is_ofZ; lia) ltac:(nia) 0 ltac:(lia))
      as (scale & Hsc & ->). rewrite Z.mul_1_l in Hsc.
    replace (leadingFraction _ scale false u) with (f mod 10 ^ Z.of_nat k, scale, u); cycle 1.
    { destruct Hu as (Hd & _). destruct u as [|c u']; simpl; [done|]. unfold digit_value.
      simpl in Hd. by rewrite Hd. }
    cbn [negb andb]. apply unit_part_spec with u; [done|lia|lia|lia|]. rewrite (proj2 (Z.ltb_lt _ _)) by lia.
    apply f_is_trunc. rewrite <- Hm. apply f_is_mul; [apply f_is_ofZ; lia| |nia].
    apply f_is_div with (10 ^ Z.of_nat k); rewrite ?Hpow; [apply f_is_ofZ; lia|done|lia|lia].
Qed.

(** Every round consumes a character, so that the fuel of [ParseDuration] is enough. *)
Lemma leadingInt_length x s v rest : leadingInt x s = Ok (v, rest) → (String.length rest ≤ String.length s)%nat.
Proof.
  revert x. induction s as [|c s IH]; intros x; simpl; [intros [= _ <-]; done|].
  destruct (digit_value c); [|intros [= _ <-]; done].
  repeat case_match; intros Hl; simplify_eq. apply IH in Hl. lia.
Qed.

Lemma leadingFraction_length x scale o s f scale' rest :
  leadingFraction x scale o s = (f, scale', rest) → (String.length rest ≤ String.length s)%nat.
Proof.
  revert x scale o. induction s as [|c s IH]; intros x scale o; simpl; [intros [= _ _ <-]; done|].
  destruct (digit_value c); [|intros [= _ _ <-]; done].
  repeat case_match; intros Hl; apply IH in Hl; lia.
Qed.

Lemma unit_part_shrinks v f scale s n rest :
  unit_part v f scale s = Ok (n, rest) → (String.length rest < String.length s)%nat.
Proof.
  unfold unit_part. assert (Hl : ∀ u r, span_unit s = (u, r) →
    (String.length r + String.length u = String.length s)%nat).
  { clear. induction s as [|c s IH]; intros u r; simpl; [by intros [= <- <-]|].
    case_match; [intros [= <- <-]; simpl; lia|]. destruct (span_unit s) as [u' r']. intros [= <- <-].
    specialize (IH _ _ eq_refl). simpl. lia. }
  destruct (span_unit s) as [u r]. specialize (Hl _ _ eq_refl). intros Ho.
  assert (r = rest ∧ u ≠ EmptyString) as [<- Hu] by (repeat case_match; by simplify_eq).
  destruct u; [done|]. simpl in Hl. lia.
Qed.

Lemma term_shrinks s n rest : term s = Ok (n, rest) → (String.length rest < String.length s)%nat.
Proof.
  unfold term. case_match; [done|]. unfold mbind, outcome_bind.
  destruct (leadingInt 0 s) as [[v s1]|e|p] eqn:Hi; [|done..]. apply leadingInt_length in Hi.
  case_match eqn:Hp.
  - destruct (leadingFraction _ _ _ _) as [[f scale] s3] eqn:Hf. apply leadingFraction_length in Hf.
    assert (String.length (string_tail s1) ≤ String.length s1)%nat by (destruct s1; simpl; lia).
    case_match; [done|]. intros Hu%unit_part_shrinks. lia.
  - case_match; [done|]. intros Hu%unit_part_shrinks. lia.
Qed.

Lemma unit_part_no_panic v f scale s p : unit_part v f scale s ≠ Panic p.
Proof. unfold unit_part. by repeat case_match. Qed.
Lemma leadingInt_no_panic x s p : leadingInt x s ≠ Panic p.
Proof. revert x. induction s as [|c s IH]; intros x; simpl; repeat case_match; done. Qed.
Lemma term_no_panic s p : term s ≠ Panic p.
Proof.
  unfold term, mbind, outcome_bind. pose proof (leadingInt_no_panic 0 s).
  repeat case_match; try done; apply unit_part_no_panic.
Qed.

Lemma terms_no_panic n s d p : (String.length s ≤ n)%nat → terms n s d ≠ Panic p.
Proof.
  revert s d. induction n as [|n IH]; intros s d Hn; simpl; (case_decide as Hs; [done|]).
  - destruct s; simpl in Hn; [done|lia].
  - unfold mbind, outcome_bind. pose proof (term_no_panic s).
    destruct (term s) as [[v rest]|e|q] eqn:Ht; [|done|naive_solver]. apply term_shrinks in Ht.
    case_match; [done|]. apply IH. lia.
Qed.

(** A round of the loop on a text it reads *)
Lemma terms_step n s d v rest r :
  (String.length s ≤ n)%nat → term s = Ok (v, rest) → 0 ≤ d + v ≤ 2 ^ 63 →
  (∀ n', (String.length rest ≤ n')%nat → terms n' rest (d + v) = r) → terms n s d = r.
Proof.
  intros Hn Ht Hd Hr. pose proof (term_shrinks _ _ _ Ht). destruct n as [|n]; [lia|]. simpl.
  rewrite decide_False by (intros ->; simpl in *; lia). rewrite Ht. unfold mbind, outcome_bind.
  rewrite Z.mod_small by lia. rewrite (proj2 (Z.ltb_ge _ _)) by lia. apply Hr. lia.
Qed.

Lemma terms_nil n d : terms n EmptyString d = Ok d.
Proof. by destruct n. Qed.

Lemma terms_last n s v d :
  (String.length s ≤ n)%nat → term s = Ok (v, EmptyString) → 0 ≤ d + v ≤ 2 ^ 63 → terms n s d = Ok (d + v).
Proof. intros. eapply terms_step; [done..|]. intros. apply terms_nil. Qed.

(** The text after the last number, and what it is worth together with the number before it *)
Lemma fmtFrac_read w prec u buf q0 :
  (prec ≤ 9)%nat → at_unit u u EmptyString (10 ^ Z.of_nat prec) → fmtFrac w prec u = (buf, q0) →
  q0 = w / 10 ^ Z.of_nat prec ∧
  ∀ q n d r, 0 ≤ q → 0 ≤ d → d + r ≤ 2 ^ 63 → r = q * 10 ^ Z.of_nat prec + w mod 10 ^ Z.of_nat prec →
    (String.length (fmtInt q buf) ≤ n)%nat → terms n (fmtInt q buf) d = Ok (d + r).
Proof.
  intros Hp Hu Hf. split.
  - destruct (fmtFrac_spec prec w u) as [[_ Hs]|(? & ? & _ & _ & _ & Hs)]; congruence.
  - intros q n d r Hq Hd Hb -> Hn. pose proof (pow10_pos prec). pose proof (Z.mod_pos_bound w _ (pow10_pos prec)).
    apply terms_last; [done| |nia]. replace buf with (fmtFrac w prec u).1 by (by rewrite Hf).
    apply term_fraction; [done..|nia].
Qed.

Lemma at_unit_letter c s unit :
  is_digit c || bool_decide (c = "."%char) = false → unitMap (String c EmptyString) = Some unit → 0 < unit →
  starts_digit s = true → at_unit (String c s) (String c EmptyString) s unit.
Proof.
  intros Hc Hm Hp Hs. apply orb_false_iff in Hc as Hc'. destruct Hc' as [Hd Hdot].
  unfold at_unit. cbn [starts_digit starts_period span_unit]. rewrite Hc, Hd, Hdot. split_and!; try done.
  destruct s as [|c' s]; [done|]. simpl in *. by rewrite Hs.
Qed.

(** [ParseDuration] of a printed magnitude *)
Lemma terms_format u n : 0 < u ≤ 2 ^ 63 → (String.length (format u) ≤ n)%nat → terms n (format u) 0 = Ok u.
Proof.
  intros Hu. unfold format. destruct (u <? Second) eqn:Hs; bool_props.
  - rewrite (proj2 (Z.eqb_neq _ _)) by lia.
    assert (Hunit : ∀ unit prec, (prec ≤ 9)%nat → at_unit unit unit EmptyString (10 ^ Z.of_nat prec) →
      let t := let '(buf, u) := fmtFrac u prec unit in fmtInt u buf in
      (String.length t ≤ n)%nat → terms n t 0 = Ok u).
    { intros unit prec Hp Hat. destruct (fmtFrac u prec unit) as [buf q] eqn:Hf. simpl.
      destruct (fmtFrac_read _ _ _ _ _ Hp Hat Hf) as [-> Hread]. intros Hn.
      pose proof (pow10_pos prec). pose proof (Z.div_mod u (10 ^ Z.of_nat prec) ltac:(lia)).
      rewrite (Hread _ n 0 u); [done|apply Z.div_pos; lia|lia..|done]. }
    destruct (u <? 1000); [|destruct (u <? Millisecond)]; apply Hunit; try lia; by repeat split.
  - destruct (fmtFrac u 9 "s") as [buf q] eqn:Hf. unfold Second in *.
    destruct (fmtFrac_read u 9 "s" buf q) as [-> Hread]; [lia|by repeat split|done|].
    change (10 ^ Z.of_nat 9) with 1000000000 in *. set (s := u / 1000000000) in *.
    assert (Hsec : u = s * 1000000000 + u mod 1000000000) by (unfold s; pose proof (Z.div_mod u 1000000000); lia).
    pose proof (Z.mod_pos_bound u 1000000000 ltac:(lia)).
    pose proof (Z.div_mod s 60 ltac:(lia)). pose proof (Z.mod_pos_bound s 60 ltac:(lia)).
    set (m := s / 60) in *. pose proof (Z.div_mod m 60 ltac:(lia)). pose proof (Z.mod_pos_bound m 60 ltac:(lia)).
    set (h := m / 60) in *.
    assert (Hss : starts_digit (fmtInt (s mod 60) buf) = true) by (apply fmtInt_starts; lia).
    destruct (0 <? m) eqn:Hm; bool_props.
    2:{ intros Hn. rewrite (Hread _ n 0 u); [done|lia..|done]. }
    assert (Hmin : at_unit (String "m" (fmtInt (s mod 60) buf)) "m" (fmtInt (s mod 60) buf) Minute)
      by (by apply at_unit_letter).
    set (tail := String "m" _) in *. assert (Hms : starts_digit (fmtInt (m mod 60) tail) = true) by (apply fmtInt_starts; lia).
    destruct (0 <? h) eqn:Hh; bool_props; intros Hn.
    + assert (Hhour : at_unit (String "h" (fmtInt (m mod 60) tail)) "h" (fmtInt (m mod 60) tail) Hour)
        by (by apply at_unit_letter).
      unfold Hour, Minute, Second in *.
      eapply terms_step; [done|eapply term_whole; [exact Hhour|lia..]|lia|]. intros n1 Hn1.
      eapply terms_step; [done|eapply term_whole; [exact Hmin|lia..]|lia|]. intros n2 Hn2.
      rewrite (Hread _ n2 _ (u - h * 3600000000000 - m mod 60 * 60000000000)); [f_equal; lia|lia..|done].
    + unfold Hour, Minute, Second in *. rewrite (Z.mod_small m 60) in * by lia.
      eapply terms_step; [done|eapply term_whole; [exact Hmin|lia..]|lia|]. intros n2 Hn2.
      rewrite (Hread _ n2 _ (u - m * 60000000000)); [f_equal; lia|lia..|done].
Qed.
End Read.

(** A printed duration is not in PostgreSQL's format: it has no colon. *)
Fixpoint has (c : ascii) (s : string) : bool :=
  match s with EmptyString => false | String c' s => bool_decide (c' = c) || has c s end.
Definition colon : ascii := ":".

Lemma digit_no_colon v : bool_decide (digit (v mod 10) = colon) = false.
Proof. apply bool_decide_eq_false_2. intros Hc. pose proof (digit_mod v) as [_ Hd]. by rewrite Hc in Hd. Qed.

Lemma pad_colon k v buf : has colon (pad k v buf) = has colon buf.
Proof. revert v buf. induction k as [|k IH]; intros v buf; simpl; [done|]. by rewrite IH; simpl; rewrite digit_no_colon. Qed.

Lemma fmtInt_colon v buf : has colon (fmtInt v buf) = has colon buf.
Proof.
  unfold fmtInt. case_match; [done|]. generalize 20%nat as fuel. intros fuel.
  revert v buf H. induction fuel as [|fuel IH]; intros v buf _; simpl; [done|].
  case_match eqn:Hv; [done|]. destruct (v / 10 =? 0) eqn:Hz.
  - destruct fuel; simpl; rewrite ?Hz; simpl; by rewrite digit_no_colon.
  - rewrite IH by done. simpl. by rewrite digit_no_colon.
Qed.

Lemma fmtFrac_colon w prec buf : has colon (fmtFrac w prec buf).1 = has colon buf.
Proof. destruct (fmtFrac_spec prec w buf) as [[_ ->]|(? & ? & _ & _ & _ & ->)]; [done|]. simpl. apply pad_colon. Qed.

Lemma format_colon u : has colon (format u) = false.
Proof.
  unfold format. case_match; [case_match; [done|]|].
  - repeat case_match; simplify_eq; rewrite fmtInt_colon;
      match goal with H : fmtFrac ?u ?p ?b = (?l, _) |- _ => change l with ((l, u).1) at 1;
        pose proof (fmtFrac_colon u p b) as Hc; rewrite H in Hc; simpl in *; by rewrite Hc end.
  - destruct (fmtFrac u 9 "s") as [buf q] eqn:Hf. pose proof (fmtFrac_colon u 9 "s") as Hc. rewrite Hf in Hc. simpl in Hc.
    repeat case_match; rewrite ?fmtInt_colon; simpl; rewrite ?fmtInt_colon; simpl; by rewrite ?fmtInt_colon.
Qed.

Lemma span_digits_colon s ds rest : span_digits s = (ds, rest) → has colon rest = true → has colon s = true.
Proof.
  revert ds rest. induction s as [|c s IH]; intros ds rest; simpl; [by intros [= <- <-]|].
  destruct (is_digit c); [|by intros [= <- <-]]. destruct (span_digits s) as [ds' rest'].
  intros [= <- <-] Hr. rewrite (IH _ _ eq_refl Hr). apply orb_true_r.
Qed.

Lemma signed_int_colon s n rest : signed_int s = Some (n, rest) → has colon rest = true → has colon s = true.
Proof.
  unfold signed_int. destruct s as [|c s]; [done|].
  assert (Hsp : ∀ t ds r, span_digits t = (ds, r) → t = s ∨ t = String c s → has colon r = true →
    has colon (String c s) = true).
  { intros t ds r Ht [-> | ->] Hr; eapply span_digits_colon in Ht; try done. simpl. rewrite Ht. apply orb_true_r. }
  case_decide; destruct (span_digits _) as [ds r] eqn:Hs; case_decide; intros Hn; simplify_eq;
    (eapply Hsp; [exact Hs|auto]).
Qed.

Lemma strip_colon p s rest : strip p s = Some rest → has colon rest = true → has colon s = true.
Proof.
  revert s. induction p as [|c p IH]; intros s; simpl; [by intros [= ->]|].
  destruct s as [|c' s]; [done|]. case_decide; [|done]. intros Hs Hr. simpl.
  rewrite (IH _ Hs Hr). apply orb_true_r.
Qed.

Lemma unit_group_colon unit s n rest :
  unit_group unit s = (n, rest) → has colon rest = true → has colon s = true.
Proof.
  unfold unit_group. destruct (signed_int s) as [[m s1]|] eqn:H1; [|by intros [= <- <-]].
  destruct (strip (String " " unit) s1) as [s2|] eqn:H2; [|by intros [= <- <-]].
  destruct (strip " " (default s2 (strip "s" s2))) as [s3|] eqn:H3; [|by intros [= <- <-]].
  intros [= <- <-] Hr. eapply signed_int_colon, strip_colon; [done..|].
  eapply strip_colon in H3; [|done]. destruct (strip "s" s2) as [s4|] eqn:H4; simpl in H3; [|done].
  by eapply strip_colon.
Qed.

Lemma FindStringSubmatch_colon s : has colon s = false → FindStringSubmatch s = None.
Proof.
  intros Hs. unfold FindStringSubmatch. destruct (unit_group "year" s) as [y s1] eqn:H1.
  destruct (unit_group "mon" s1) as [mo s2] eqn:H2. destruct (unit_group "day" s2) as [d s3] eqn:H3.
  destruct (signed_int s3) as [[h s4]|] eqn:H4; cbn [mbind option_bind]; [|done].
  destruct (strip ":" s4) as [s5|] eqn:H5; cbn [mbind option_bind]; [|done].
  exfalso. assert (Hc : has colon s4 = true).
  { destruct s4 as [|c s4]; [done|]. simpl in H5. case_decide; [by subst|done]. }
  apply not_true_iff_false in Hs. apply Hs. by eapply unit_group_colon, unit_group_colon, unit_group_colon, signed_int_colon.
Qed.

Section Roundtrip.
Context {F : Float64} {X : Float64Exact F}.

Lemma ParseDuration_String d : in_int64 d → ParseDuration (Duration_String d) = Ok d.
Proof.
  unfold in_int64, int64_min, int64_max. intros Hd. destruct (decide (d = 0)) as [->|Hz]; [reflexivity|].
  assert (Hf : ∀ u, 0 < u ≤ 2 ^ 63 → format u ≠ "0" ∧ (starts_digit (format u) = true ∨ starts_period (format u) = true)
    ∧ terms (String.length (format u)) (format u) 0 = Ok u).
  { intros u Hu. pose proof (terms_format u _ Hu (le_n _)) as Ht. split_and!; [..|done].
    - intros He. by rewrite He in Ht.
    - destruct (format u) as [|c s] eqn:Hs; [by injection Ht; lia|].
      cbn [String.length terms] in Ht. rewrite decide_False in Ht by done. unfold term in Ht.
      destruct (starts_digit _) eqn:H1; [by left|]. destruct (starts_period _) eqn:H2; [by right|done]. }
  unfold ParseDuration, Duration_String. destruct (d <? 0) eqn:Hneg; bool_props.
  - destruct (Hf (- d) ltac:(lia)) as (H0 & Hst & Ht). rewrite decide_True by done.
    rewrite decide_False by done. rewrite decide_False by (intros He; rewrite He in Hst; naive_solver).
    rewrite Ht. simpl. rewrite Z.opp_involutive, int64_wrap_id; [done|]. unfold in_int64, int64_min, int64_max. lia.
  - destruct (Hf d ltac:(lia)) as (H0 & Hst & Ht). destruct (format d) as [|c s] eqn:Hs; [naive_solver|].
    rewrite decide_False by (intros ->; naive_solver). rewrite decide_False by (intros ->; naive_solver).
    rewrite decide_False by done. rewrite decide_False by done. rewrite Ht. simpl.
    by rewrite (proj2 (Z.ltb_ge _ _)) by lia.
Qed.

(** C23 A stored interval is read back as it was, where the database keeps the text it was sent: all
    64-bit durations, from nanoseconds to the extreme values, negative ones included; and likewise
    over JSON. *)
Theorem Interval_roundtrip i :
  in_int64 i →
  Interval_Scan (Interval_Value i) = Ok i ∧ Interval_UnmarshalJSON (Some (Interval_MarshalJSON i)) = Ok i.
Proof.
  intros Hi. unfold Interval_Scan, Interval_Value, Interval_UnmarshalJSON, Interval_MarshalJSON, ParsePostgreSQLInterval.
  rewrite FindStringSubmatch_colon.
  - by rewrite ParseDuration_String.
  - unfold Duration_String. case_match; simpl; apply format_colon.
Qed.
End Roundtrip.

(** ** What PostgreSQL prints

    The documented output of the style "postgres": years, months and days are printed when they
    are not zero, each with a sign of its own; the time has one sign for hours, minutes and
    seconds together, and it is left out when it is zero, unless nothing else is printed.  The
    texts here have PostgreSQL's among them: signs, widths and plurals are free. *)

Inductive sign := Unsigned | Plus | Minus.
(** A number with its sign, in [n_width] digits *)
Record number := MkNumber { n_sign : sign; n_width : nat; n_abs : Z }.
Definition signed (sg : sign) (z : Z) : Z := match sg with Minus => - z | _ => z end.
Definition n_value (n : number) : Z := signed (n_sign n) (n_abs n).
Definition sign_text (sg : sign) (s : string) : string :=
  match sg with Unsigned => s | Plus => String "+" s | Minus => String "-" s end.
Definition number_text (n : number) (rest : string) : string :=
  sign_text (n_sign n) (pad (n_width n) (n_abs n) rest).
Definition number_ok (n : number) : Prop :=
  (0 < n_width n)%nat ∧ 0 ≤ n_abs n < 10 ^ Z.of_nat (n_width n) ∧ n_abs n ≤ int64_max.

(** The fields of an interval; a date field may be missing and has a plural or not. *)
Record pg_interval := MkPg {
  pg_years : option (number * bool); pg_months : option (number * bool); pg_days : option (number * bool);
  pg_hours : number; pg_minutes : Z; pg_seconds : Z; pg_fraction : option (nat * Z) }.

Definition pg_ok (i : pg_interval) : Prop :=
  (∀ n b, pg_years i = Some (n, b) ∨ pg_months i = Some (n, b) ∨ pg_days i = Some (n, b) → number_ok n) ∧
  number_ok (pg_hours i) ∧ 0 ≤ pg_minutes i < 60 ∧ 0 ≤ pg_seconds i < 60 ∧
  ∀ k f, pg_fraction i = Some (k, f) → (0 < k ≤ 9)%nat ∧ 0 ≤ f < 10 ^ Z.of_nat k.

Definition group_text (unit : string) (g : option (number * bool)) (rest : string) : string :=
  match g with
  | None => rest
  | Some (n, plural) => number_text n (" " +:+ unit +:+ (if plural then "s" else EmptyString) +:+ String " " rest)
  end.
Definition time_text (i : pg_interval) : string :=
  number_text (pg_hours i) (String ":" (pad 2 (pg_minutes i) (String ":" (pad 2 (pg_seconds i)
    match pg_fraction i with Some (k, f) => String "." (pad k f EmptyString) | None => EmptyString end)))).
(** A date field without what follows it *)
Definition field_text (unit : string) (n : number) (plural : bool) : string :=
  number_text n (" " +:+ unit +:+ if plural then "s" else EmptyString).
Definition date_fields (i : pg_interval) : list string :=
  let field unit := fmap (M := option) (λ g : number * bool, field_text unit g.1 g.2) in
  omap id [field "year" (pg_years i); field "mon" (pg_months i); field "day" (pg_days i)].
(** The time is not printed. *)
Definition no_time (i : pg_interval) : bool :=
  (n_abs (pg_hours i) =? 0) && (pg_minutes i =? 0) && (pg_seconds i =? 0) &&
  match pg_fraction i with Some (_, f) => f =? 0 | None => true end && negb (bool_decide (date_fields i = [])).
Definition pg_text (i : pg_interval) : string :=
  String.concat " " (date_fields i ++ if no_time i then [] else [time_text i]).

(** What the fields mean, with 365 days to the year and 30 to the month as the code has it *)
Definition group_value (g : option (number * bool)) : Z := from_option (λ g, n_value g.1) 0 g.
Definition pg_date (i : pg_interval) : duration :=
  group_value (pg_years i) * year + group_value (pg_months i) * month + group_value (pg_days i) * day.
(** Minutes, seconds and their fraction *)
Definition pg_below_hour (i : pg_interval) : duration :=
  pg_minutes i * Minute + pg_seconds i * Second +
  match pg_fraction i with Some (k, f) => f * (Second / 10 ^ Z.of_nat k) | None => 0 end.
Definition pg_meaning (i : pg_interval) : duration :=
  pg_date i + signed (n_sign (pg_hours i)) (n_abs (pg_hours i) * Hour + pg_below_hour i).

(** ** Reading it *)

Lemma pad_app k v buf : pad k v buf = pad k v EmptyString +:+ buf.
Proof.
  revert v buf. induction k as [|k IH]; intros v buf; simpl; [done|].
  rewrite IH, (IH _ (String _ EmptyString)), string_app_assoc. done.
Qed.

Lemma span_digits_pad k v buf : starts_digit buf = false → span_digits (pad k v buf) = (pad k v EmptyString, buf).
Proof.
  intros Hb. rewrite pad_app.
  assert (Hs : span_digits buf = (EmptyString, buf)).
  { destruct buf as [|c buf]; [done|]. simpl in *. by rewrite Hb. }
  assert (Hind : ∀ v t, span_digits (t +:+ buf) = (t, buf) → span_digits (pad k v t +:+ buf) = (pad k v t, buf));
    [|by apply Hind].
  induction k as [|k IH]; intros w t Ht; simpl; [done|]. apply IH.
  change (String (digit (w mod 10)) t +:+ buf) with (String (digit (w mod 10)) (t +:+ buf)).
  cbn [span_digits]. destruct (digit_mod w) as [_ ->]. by rewrite Ht.
Qed.

Lemma pad_nonempty k v buf : (0 < k)%nat → pad k v buf ≠ EmptyString.
Proof. intros Hk He. pose proof (pad_starts k v buf Hk) as Hp. by rewrite He in Hp. Qed.

(** The first character of a number in digits is neither sign. *)
Lemma pad_head k v buf : (0 < k)%nat → ∃ c s, pad k v buf = String c s ∧ c ≠ "-"%char ∧ c ≠ "+"%char.
Proof.
  intros Hk. pose proof (pad_starts k v buf Hk) as Hp. destruct (pad k v buf) as [|c s]; [done|].
  exists c, s. split_and!; [done|..]; intros ->; done.
Qed.

Definition capture (n : number) : string := number_text n EmptyString.

Lemma signed_int_number n rest :
  (0 < n_width n)%nat → starts_digit rest = false → signed_int (number_text n rest) = Some (capture n, rest).
Proof.
  intros Hw Hr. unfold signed_int, capture, number_text.
  pose proof (span_digits_pad (n_width n) (n_abs n) rest Hr) as Hs.
  pose proof (pad_nonempty (n_width n) (n_abs n) EmptyString Hw).
  destruct (n_sign n); simpl.
  - destruct (pad_head (n_width n) (n_abs n) rest Hw) as (c & s & Hc & ? & ?). rewrite Hc in *.
    rewrite decide_False by naive_solver. by rewrite Hs, decide_False.
  - by rewrite Hs, decide_False.
  - by rewrite Hs, decide_False.
Qed.

Lemma int64_check n : in_int64 n → (int64_min <=? n) && (n <=? int64_max) = true.
Proof. intros [??]. by apply andb_true_iff; split; apply Z.leb_le. Qed.

Lemma Atoi_capture n : number_ok n → Atoi (capture n) = Ok (n_value n).
Proof.
  intros (Hw & Hn & Hm). unfold capture, number_text, Atoi, n_value.
  pose proof (pad_nonempty (n_width n) (n_abs n) EmptyString Hw) as Hne.
  pose proof (digits_value_pad (n_width n) 0 (n_abs n)) as Hv. rewrite Z.mod_small in Hv by done. simpl in Hv.
  assert (in_int64 (n_abs n) ∧ in_int64 (- n_abs n)) as [??]
    by (unfold in_int64, int64_min, int64_max in *; lia).
  destruct (n_sign n); simpl.
  - destruct (pad_head (n_width n) (n_abs n) EmptyString Hw) as (c & s & Hc & ? & ?). rewrite Hc in *.
    rewrite (decide_False (P := c = "-"%char)), (decide_False (P := c = "+"%char)), decide_False by done.
    by rewrite Hv, int64_check.
  - rewrite decide_False by done. by rewrite Hv, int64_check.
  - rewrite decide_False by done. by rewrite Hv, int64_check.
Qed.

(** A group that is there, and one that is not *)
Lemma unit_group_read unit n (b : bool) rest :
  unit = "year" ∨ unit = "mon" ∨ unit = "day" → (0 < n_width n)%nat →
  unit_group unit (group_text unit (Some (n, b)) rest) = (capture n, rest).
Proof.
  intros Hu Hw. unfold unit_group, group_text.
  destruct Hu as [-> | [-> | ->]], b; (rewrite signed_int_number; [reflexivity|done|reflexivity]).
Qed.

(** The text of a number that is followed by something else than [unit] *)
Definition not_unit (unit s : string) : Prop :=
  ∃ n rest, s = number_text n rest ∧ (0 < n_width n)%nat ∧ starts_digit rest = false ∧
    strip (String " " unit) rest = None.

Lemma unit_group_skip unit s : not_unit unit s → unit_group unit s = (EmptyString, s).
Proof.
  intros (n & rest & -> & Hw & Hr & Hs). unfold unit_group. by rewrite signed_int_number, Hs.
Qed.

Definition group_capture (g : option (number * bool)) : string := from_option (λ g, capture g.1) EmptyString g.

Lemma unit_group_text unit g rest :
  unit = "year" ∨ unit = "mon" ∨ unit = "day" → (∀ n b, g = Some (n, b) → number_ok n) → not_unit unit rest →
  unit_group unit (group_text unit g rest) = (group_capture g, rest).
Proof.
  intros Hu Hg Hr. destruct g as [[n b]|]; [|by apply unit_group_skip].
  apply unit_group_read; [done|]. by destruct (Hg n b eq_refl).
Qed.

Lemma not_unit_group unit unit' g rest :
  strip (String " " unit) (" " +:+ unit') = None → (∀ n b, g = Some (n, b) → number_ok n) →
  (unit = "year" ∨ unit = "mon") → (unit' = "mon" ∨ unit' = "day") →
  not_unit unit rest → not_unit unit (group_text unit' g rest).
Proof.
  intros Hs Hg Hu Hu' Hr. destruct g as [[n b]|]; [|done]. simpl. destruct (Hg n b eq_refl) as [Hw _].
  eexists n, _. split_and!; [done|done|done|].
  destruct Hu as [-> | ->], Hu' as [-> | ->]; (done || discriminate Hs).
Qed.

Lemma not_unit_time unit i : (0 < n_width (pg_hours i))%nat → not_unit unit (time_text i).
Proof. intros Hw. eexists _, _. by split_and!. Qed.

Definition pg_captures (i : pg_interval) : pg_match :=
  MkMatch (group_capture (pg_years i)) (group_capture (pg_months i)) (group_capture (pg_days i))
    (capture (pg_hours i)) (pad 2 (pg_minutes i) EmptyString) (pad 2 (pg_seconds i) EmptyString)
    match pg_fraction i with Some (k, f) => pad k f EmptyString | None => EmptyString end.

(** A text that has a time, from its first group to the time *)
Definition full_text (i : pg_interval) : string :=
  group_text "year" (pg_years i) (group_text "mon" (pg_months i) (group_text "day" (pg_days i) (time_text i))).

Lemma number_text_app n a b : number_text n a +:+ b = number_text n (a +:+ b).
Proof.
  unfold number_text. rewrite (pad_app _ _ a), (pad_app _ _ (a +:+ b)), <- !string_app_assoc.
  by destruct (n_sign n).
Qed.
Lemma pg_text_time i : no_time i = false → pg_text i = full_text i.
Proof.
  intros Ht. unfold pg_text, full_text, date_fields, field_text. rewrite Ht.
  destruct (pg_years i) as [[y yb]|], (pg_months i) as [[m mb]|], (pg_days i) as [[d db]|]; simpl;
    rewrite ?number_text_app, ?string_app_assoc; done.
Qed.

Lemma FindStringSubmatch_text i : pg_ok i → FindStringSubmatch (full_text i) = Some (pg_captures i).
Proof.
  intros (Hg & (Hw & _) & _ & _ & Hf). unfold full_text, FindStringSubmatch.
  assert (Hd : not_unit "day" (time_text i)) by by apply not_unit_time.
  assert (Hm : not_unit "mon" (group_text "day" (pg_days i) (time_text i)))
    by (apply not_unit_group; eauto using not_unit_time).
  assert (Hy : not_unit "year" (group_text "mon" (pg_months i) (group_text "day" (pg_days i) (time_text i))))
    by (apply not_unit_group; eauto; apply not_unit_group; eauto using not_unit_time).
  rewrite !unit_group_text by eauto. unfold time_text. rewrite signed_int_number by done.
  cbn [mbind option_bind strip]. rewrite decide_True by done. cbn [mbind option_bind].
  assert (H2 : ∀ v rest, starts_digit rest = false → signed_int (pad 2 v rest) = Some (pad 2 v EmptyString, rest)).
  { intros v rest. apply (signed_int_number (MkNumber Unsigned 2 v)). simpl. lia. }
  rewrite H2 by done. cbn [mbind option_bind strip]. rewrite decide_True by done. cbn [mbind option_bind].
  unfold pg_captures. destruct (pg_fraction i) as [[k f]|].
  - destruct (Hf k f eq_refl) as [Hk _]. rewrite H2 by done. cbn [mbind option_bind]. rewrite decide_True by done.
    rewrite span_digits_pad by done. rewrite decide_True; [done|]. split; [apply pad_nonempty; lia|done].
  - by rewrite H2.
Qed.

(** ** A text without a time *)

(** The last field is not followed by a space. *)
Lemma unit_group_last u unit n b :
  u ∈ ["year"; "mon"; "day"] → unit ∈ ["year"; "mon"; "day"] → (0 < n_width n)%nat →
  unit_group u (field_text unit n b) = (EmptyString, field_text unit n b).
Proof.
  intros Hu Hunit Hw. unfold unit_group, field_text. rewrite signed_int_number by (done || by destruct b).
  repeat (apply elem_of_cons in Hu as [->|Hu]; [|]); [..|by apply elem_of_nil in Hu];
    (repeat (apply elem_of_cons in Hunit as [->|Hunit]; [by destruct b|]); by apply elem_of_nil in Hunit).
Qed.
Lemma not_unit_field u unit n b :
  u ≠ unit → u ∈ ["year"; "mon"; "day"] → unit ∈ ["year"; "mon"; "day"] → (0 < n_width n)%nat →
  not_unit u (field_text unit n b).
Proof.
  intros Hne Hu Hunit Hw. eexists n, _. split_and!; [done|done|done|].
  repeat (apply elem_of_cons in Hu as [->|Hu]; [|]); [..|by apply elem_of_nil in Hu];
    (repeat (apply elem_of_cons in Hunit as [->|Hunit]; [by destruct b|]); by apply elem_of_nil in Hunit).
Qed.

(** The date fields alone, from the last one *)
Definition date_text (i : pg_interval) : option string :=
  match pg_days i, pg_months i, pg_years i with
  | Some (n, b), _, _ => Some (group_text "year" (pg_years i) (group_text "mon" (pg_months i) (field_text "day" n b)))
  | None, Some (n, b), _ => Some (group_text "year" (pg_years i) (field_text "mon" n b))
  | None, None, Some (n, b) => Some (field_text "year" n b)
  | None, None, None => None
  end.
Lemma pg_text_date i : no_time i = true → date_text i = Some (pg_text i).
Proof.
  intros Ht. unfold pg_text. rewrite Ht. apply andb_true_iff in Ht as [_ Ht]. revert Ht.
  unfold date_text, date_fields, field_text.
  destruct (pg_years i) as [[y yb]|], (pg_months i) as [[m mb]|], (pg_days i) as [[d db]|]; simpl; intros Ht;
    rewrite ?number_text_app, ?string_app_assoc; done.
Qed.

Lemma no_time_submatch i s : pg_ok i → date_text i = Some s → FindStringSubmatch s = None.
Proof.
  intros (Hg & _) Hs. unfold FindStringSubmatch.
  assert (Hy : "year" ∈ ["year"; "mon"; "day"]) by set_solver.
  assert (Hm : "mon" ∈ ["year"; "mon"; "day"]) by set_solver.
  assert (Hd : "day" ∈ ["year"; "mon"; "day"]) by set_solver.
  assert (Hw : ∀ n b, pg_years i = Some (n, b) ∨ pg_months i = Some (n, b) ∨ pg_days i = Some (n, b) → (0 < n_width n)%nat)
    by (intros n b Hn; by destruct (Hg n b Hn)).
  unfold date_text in Hs. destruct (pg_days i) as [[d db]|] eqn:Hdi; [|destruct (pg_months i) as [[m mb]|] eqn:Hmi;
    [|destruct (pg_years i) as [[y yb]|] eqn:Hyi; [|done]]]; injection Hs as <-.
  - assert (Hdw : (0 < n_width d)%nat) by eauto.
    rewrite (unit_group_text "year"); [|by left|eauto|apply not_unit_group; eauto using not_unit_field].
    rewrite (unit_group_text "mon"); [|by right; left|eauto|by apply not_unit_field].
    rewrite unit_group_last by done. unfold field_text. by rewrite signed_int_number by (done || by destruct db).
  - assert (Hmw : (0 < n_width m)%nat) by eauto.
    rewrite (unit_group_text "year"); [|by left|eauto|by apply not_unit_field].
    rewrite !unit_group_last by done. unfold field_text. by rewrite signed_int_number by (done || by destruct mb).
  - assert (Hyw : (0 < n_width y)%nat) by eauto.
    rewrite !unit_group_last by done. unfold field_text. by rewrite signed_int_number by (done || by destruct yb).
Qed.

(** A number that is followed by a space has no unit Go knows. *)
Lemma term_word k v rest :
  (0 < k)%nat → 0 ≤ v < 10 ^ Z.of_nat k → v ≤ int64_max →
  ∀ `{Float64}, term (pad k v (String " " rest)) = Err (ErrOther "time: unknown unit in duration").
Proof.
  intros Hk Hv Hm F. unfold term. rewrite pad_starts by done. simpl negb. cbv iota.
  rewrite leadingInt_pad by (rewrite ?Z.mod_small by lia; unfold int64_max in *; lia).
  rewrite leadingInt_stop by done. cbn [mbind outcome_bind starts_period].
  rewrite (bool_decide_false (" "%char = "."%char)) by done.
  rewrite pad_length, bool_decide_false by (simpl; lia). cbn [negb].
  unfold unit_part. cbn [span_unit]. destruct (span_unit rest) as [u r]. done.
Qed.
Lemma ParseDuration_word `{Float64} n rest :
  number_ok n → ∃ e, ParseDuration (number_text n (String " " rest)) = Err e.
Proof.
  intros (Hw & Hn & Hm). set (t := pad (n_width n) (n_abs n) (String " " rest)).
  assert (Hterm : term t = Err (ErrOther "time: unknown unit in duration")) by by apply term_word.
  destruct (pad_head (n_width n) (n_abs n) (String " " rest) Hw) as (c & s & Ht & Hc1 & Hc2). fold t in Ht.
  assert (H0 : t ≠ "0").
  { intros Heq. pose proof (span_digits_pad (n_width n) (n_abs n) (String " " rest) eq_refl) as Hs. fold t in Hs.
    rewrite Heq in Hs. done. }
  assert (Hloop : ∃ e, (if decide (t = "0") then Ok 0 else if decide (t = EmptyString) then Err (ErrOther "time: invalid duration")
    else terms (String.length t) t 0) = Err e).
  { rewrite !decide_False by (done || by rewrite Ht). rewrite Ht. cbn [String.length terms].
    rewrite decide_False by done. rewrite <- Ht, Hterm. by eexists. }
  destruct Hloop as [e He]. unfold ParseDuration, number_text. fold t.
  assert (Hsplit : (if decide (t = "0") then Ok 0 else if decide (t = EmptyString) then Err (ErrOther "time: invalid duration")
    else d ← terms (String.length t) t 0;
      (if 2 ^ 63 - 1 <? d then Err (ErrOther "time: invalid duration") else Ok d)) = Err e).
  { revert He. do 2 (case_decide; [done|]). by intros ->. }
  assert (Hneg : (if decide (t = "0") then Ok 0 else if decide (t = EmptyString) then Err (ErrOther "time: invalid duration")
    else d ← terms (String.length t) t 0; Ok (int64_wrap (- d))) = Err e).
  { revert He. do 2 (case_decide; [done|]). by intros ->. }
  exists e. destruct (n_sign n); simpl; [|exact Hsplit|exact Hneg].
  rewrite Ht. rewrite !decide_False by done. rewrite <- Ht. exact Hsplit.
Qed.

Lemma no_time_duration `{Float64} i s :
  pg_ok i → date_text i = Some s → ∃ e, ParseDuration s = Err e.
Proof.
  intros (Hg & _) Hs. unfold date_text in Hs.
  assert (Hword : ∀ n r, (∃ b, pg_years i = Some (n, b) ∨ pg_months i = Some (n, b) ∨ pg_days i = Some (n, b)) →
    ∃ e, ParseDuration (number_text n (String " " r)) = Err e).
  { intros n r (b & Hn). by eapply ParseDuration_word, Hg. }
  destruct (pg_days i) as [[d db]|], (pg_months i) as [[m mb]|], (pg_years i) as [[y yb]|]; simplify_eq/=;
    apply Hword; eexists; eauto.
Qed.

(** ** Adding up, modulo 2^64 *)

Lemma int64_wrap_add a b : int64_wrap (int64_wrap a + int64_wrap b) = int64_wrap (a + b).
Proof.
  unfold int64_wrap. f_equal.
  replace ((a + 2 ^ 63) mod 2 ^ 64 - 2 ^ 63 + ((b + 2 ^ 63) mod 2 ^ 64 - 2 ^ 63) + 2 ^ 63)
    with ((a + 2 ^ 63) mod 2 ^ 64 + ((b + 2 ^ 63) mod 2 ^ 64 - 2 ^ 63)) by ring.
  rewrite Z.add_mod_idemp_l by lia.
  replace (a + 2 ^ 63 + ((b + 2 ^ 63) mod 2 ^ 64 - 2 ^ 63)) with ((b + 2 ^ 63) mod 2 ^ 64 + a) by ring.
  rewrite Z.add_mod_idemp_l by lia. f_equal. ring.
Qed.

Lemma int64_wrap_eq_iff a b : in_int64 a → int64_wrap (a + b) = a ↔ b mod 2 ^ 64 = 0.
Proof.
  intros Ha. unfold int64_wrap, in_int64, int64_min, int64_max in *. split; intros H.
  - assert (Hm : (a + b + 2 ^ 63) mod 2 ^ 64 = a + 2 ^ 63) by lia.
    pose proof (Z.div_mod (a + b + 2 ^ 63) (2 ^ 64) ltac:(lia)).
    assert (Hb : b = (a + b + 2 ^ 63) / 2 ^ 64 * 2 ^ 64) by lia. rewrite Hb. apply Z.mod_mul. lia.
  - pose proof (Z.div_mod b (2 ^ 64) ltac:(lia)).
    replace (a + b + 2 ^ 63) with (a + 2 ^ 63 + b / 2 ^ 64 * 2 ^ 64) by lia.
    rewrite Z.mod_add, Z.mod_small by lia. lia.
Qed.

Lemma adjust_capture d n scale :
  number_ok n → adjustDuration (int64_wrap d) (capture n) scale = Ok (int64_wrap (d + n_value n * scale)).
Proof.
  intros Hn. pose proof (Atoi_capture n Hn) as Ha. unfold adjustDuration. rewrite decide_False.
  - rewrite Ha. cbn [mbind outcome_bind]. by rewrite int64_wrap_add.
  - intros He. by rewrite He in Ha.
Qed.

Lemma adjust_group d g scale :
  (∀ n b, g = Some (n, b) → number_ok n) →
  adjustDuration (int64_wrap d) (group_capture g) scale = Ok (int64_wrap (d + group_value g * scale)).
Proof.
  intros Hg. destruct g as [[n b]|]; [by apply adjust_capture, (Hg n b)|]. simpl.
  unfold adjustDuration. rewrite decide_True by done. do 2 f_equal. lia.
Qed.

Lemma adjust_pad d k v scale :
  (0 < k)%nat → 0 ≤ v < 10 ^ Z.of_nat k → v ≤ int64_max →
  adjustDuration (int64_wrap d) (pad k v EmptyString) scale = Ok (int64_wrap (d + v * scale)).
Proof. intros Hk Hv Hm. by apply (adjust_capture d (MkNumber Unsigned k v)). Qed.

Lemma pg_duration_captures i :
  pg_ok i →
  pg_duration (pg_captures i)
    = Ok (int64_wrap (pg_date i + n_value (pg_hours i) * Hour + pg_below_hour i)).
Proof.
  intros (Hg & Hh & Hm & Hs & Hf). unfold pg_duration, pg_captures. cbn [g_years g_months g_days g_hours g_minutes
    g_seconds g_subseconds]. change 0 with (int64_wrap 0) at 1.
  assert (Hmax : 10 ^ 9 ≤ int64_max) by (unfold int64_max; lia). change (Z.of_nat 2) with 2.
  rewrite adjust_group by eauto. cbn [mbind outcome_bind]. rewrite adjust_group by eauto. cbn [mbind outcome_bind].
  rewrite adjust_group by eauto. cbn [mbind outcome_bind]. rewrite adjust_capture by done. cbn [mbind outcome_bind].
  rewrite adjust_pad by lia. cbn [mbind outcome_bind]. rewrite adjust_pad by lia. cbn [mbind outcome_bind].
  unfold pg_date, pg_below_hour. destruct (pg_fraction i) as [[k f]|].
  - destruct (Hf k f eq_refl) as [Hk Hfr]. rewrite decide_False by (apply pad_nonempty; lia).
    rewrite pad_length. cbn [String.length]. rewrite Nat.add_0_r, (proj2 (Z.ltb_ge _ _)) by lia.
    assert (10 ^ Z.of_nat k ≤ 10 ^ 9) by (apply Z.pow_le_mono_r; lia).
    rewrite adjust_pad by lia. do 2 f_equal. ring.
  - rewrite decide_True by done. do 2 f_equal. ring.
Qed.

Section Postgres.
Context {F : Float64}.

(** C24 An interval that PostgreSQL prints without a time (which it leaves out when it is zero:
    [1 day]) is refused.  One with a time is read as the sum of its fields, modulo 2^64, except that
    minutes, seconds and their fraction are always added, also when the time is negative: the
    reading is what the text means exactly if the time is not negative, or a whole number of
    hours. *)
Theorem pg_interval_read i :
  pg_ok i →
  if no_time i then ParsePostgreSQLInterval (pg_text i) = Err (ErrOther "unrecognized interval format")
  else
    ParsePostgreSQLInterval (pg_text i)
      = Ok (int64_wrap (pg_meaning i + match n_sign (pg_hours i) with Minus => 2 * pg_below_hour i | _ => 0 end)) ∧
    (in_int64 (pg_meaning i) →
      ParsePostgreSQLInterval (pg_text i) = Ok (pg_meaning i)
        ↔ n_sign (pg_hours i) ≠ Minus ∨ pg_below_hour i = 0).
Proof.
  intros Hi. unfold ParsePostgreSQLInterval. destruct (no_time i) eqn:Ht.
  { apply pg_text_date in Ht. rewrite (no_time_submatch i) by done.
    destruct (no_time_duration i _ Hi Ht) as [e ->]. done. }
  rewrite pg_text_time, FindStringSubmatch_text, pg_duration_captures by done.
  assert (Hb : 0 ≤ pg_below_hour i < 2 * Hour).
  { destruct Hi as (_ & _ & Hm & Hs & Hf). unfold pg_below_hour, Hour, Minute, Second.
    destruct (pg_fraction i) as [[k f]|]; [|lia]. destruct (Hf k f eq_refl) as [Hk Hfr].
    pose proof (pow10_pos k). pose proof (Z.mul_div_le 1000000000 (10 ^ Z.of_nat k) ltac:(lia)).
    pose proof (Z.div_pos 1000000000 (10 ^ Z.of_nat k)). nia. }
  assert (Hr : pg_date i + n_value (pg_hours i) * Hour + pg_below_hour i
    = pg_meaning i + match n_sign (pg_hours i) with Minus => 2 * pg_below_hour i | _ => 0 end).
  { unfold pg_meaning, n_value. destruct (n_sign (pg_hours i)); simpl; ring. }
  rewrite Hr. split; [done|]. intros Hin. unfold Hour, Minute, Second in Hb.
  transitivity (int64_wrap (pg_meaning i + match n_sign (pg_hours i) with Minus => 2 * pg_below_hour i | _ => 0 end)
    = pg_meaning i); [split; [by intros [= H]|by intros ->]|].
  rewrite int64_wrap_eq_iff by done. destruct (n_sign (pg_hours i)); [by split; [left|]..|].
  rewrite Z.mod_small by lia. split; [intros; right; lia|]. intros [?|?]; [done|lia].
Qed.
End Postgres.

(** ** Witnesses *)

#[export] Instance exact_float_exact : Float64Exact exact_float.
Proof.
  refine {| f_is := λ (x : flt) z, Qeq x (inject_Z z) |}.
  - done.
  - intros x y a b Hx Hy _. simpl. by rewrite Hx, Hy, <- inject_Z_mult.
  - intros x y a b Hx Hy Hb _. simpl. rewrite Hx, Hy, inject_Z_mult. apply Qdiv_mult_l.
    intros H. unfold Qeq in H. simpl in H. lia.
  - intros [n d] z Hx. unfold Qeq in Hx. simpl in *. rewrite Z.mul_1_r in Hx. subst. by apply Z.quot_mul.
Defined.

Lemma Interval_roundtrip_witness :
  Interval_Value (- 1500) = SrcString "-1.5µs" ∧ Interval_Scan (Interval_Value (- 1500)) = Ok (- 1500).
Proof.
  split; [reflexivity|]. apply (Interval_roundtrip (- 1500)). unfold in_int64, int64_min, int64_max. lia.
Defined.

(** Half a second before midnight, yesterday *)
Definition demo_interval : pg_interval :=
  MkPg None None (Some (MkNumber Minus 1 1, true)) (MkNumber Minus 2 0) 0 0 (Some (1%nat, 5)).

(** A day, of which the time is zero *)
Definition one_day : pg_interval :=
  MkPg None None (Some (MkNumber Unsigned 1 1, false)) (MkNumber Unsigned 2 0) 0 0 None.

Lemma pg_interval_read_witness :
  pg_text demo_interval = "-1 days -00:00:00.5" ∧ pg_meaning demo_interval = - day - 500 * Millisecond ∧
  ParsePostgreSQLInterval (pg_text demo_interval) = Ok (- day + 500 * Millisecond) ∧
  ParsePostgreSQLInterval (pg_text demo_interval) ≠ Ok (pg_meaning demo_interval) ∧
  pg_text one_day = "1 day" ∧ ParsePostgreSQLInterval (pg_text one_day) = Err (ErrOther "unrecognized interval format").
Proof.
  assert (Hok : pg_ok demo_interval).
  { unfold pg_ok, number_ok, int64_max. simpl. split_and!; try lia; naive_solver lia. }
  assert (Hday : pg_ok one_day).
  { unfold pg_ok, number_ok, int64_max. simpl. split_and!; try lia; naive_solver lia. }
  destruct (pg_interval_read demo_interval Hok) as [H1 H2]. split_and!; [reflexivity|reflexivity|..].
  - rewrite H1. reflexivity.
  - rewrite H2; [|unfold in_int64; vm_compute; done].
    intros [?|H]; [done|]. vm_compute in H. done.
  - reflexivity.
  - exact (pg_interval_read one_day Hday).
Defined.
