(* ===== verification/Logging.v ===== *)
(** * The logging registry

    [src/logging/registry.go]: log levels per component, inherited along the slashes of the
    names; [logger.go]: loggers that keep the level they were built with and refresh it when the
    configuration's generation has changed.  A generation and the level that goes with it are read
    under one mutex; a call is one step here.  Writing events is zerolog's and left out. *)

From S2P Require Import Prelude Filter.

(** [zerolog.Level] *)
Definition level := Z.

(** The package's variables, with zerolog's global level *)
Record config := MkConfig {
  configGeneration : Z; globalLevel : level; componentLevel : gmap string level }.

(** [strings.LastIndexByte(component, '/')]: what is before the last slash *)
Fixpoint before_slash (s : string) : option string :=
  match s with
  | EmptyString => None
  | String c s =>
      match before_slash s with
      | Some p => Some (String c p)
      | None => if decide (c = "/"%char) then Some EmptyString else None
      end
  end.

(** [component[0:lastSlash]], unless [lastSlash < 1] *)
Definition parent (component : string) : option string :=
  match before_slash component with
  | Some p => if decide (p = EmptyString) then None else Some p
  | None => None
  end.

(** The loop of [configLevel]; every round shortens the name. *)
Fixpoint inherited (fuel : nat) (levels : gmap string level) (global : level) (component : string) : option level :=
  match levels !! component with
  | Some l => Some l
  | None =>
      match parent component with
      | None => Some global
      | Some p => match fuel with O => None | S fuel => inherited fuel levels global p end
      end
  end.
Definition effective (c : config) (component : string) : option level :=
  inherited (String.length component) (componentLevel c) (globalLevel c) component.
Definition configLevel (c : config) (component : string) : option (Z * level) :=
  (λ l, (configGeneration c, l)) <$> effective c component.

Definition slashed (component : string) : string := component +:+ "/".

Definition SetComponentLevel (component : string) (children : bool) (l : level) (c : config) : config :=
  let c :=
    if decide (component = EmptyString) then
      MkConfig (configGeneration c) l (if children then ∅ else componentLevel c)
    else
      MkConfig (configGeneration c) (globalLevel c)
        (filter (λ kl, HasPrefix kl.1 (slashed component) = false) (<[component := l]> (componentLevel c))) in
  MkConfig (int32_wrap (configGeneration c + 1)) (globalLevel c) (componentLevel c).

Definition ComponentLevels (c : config) : gmap string level :=
  componentLevel c ∪ {[ EmptyString := globalLevel c ]}.

(** [LogController.GetLevels]: the rows of the answer, none for status 404 *)
Definition GetLevels (root : string) (c : config) : gmap string level :=
  filter (λ kl, root = EmptyString ∨ kl.1 = root ∨ HasPrefix kl.1 (slashed root) = true) (ComponentLevels c).
(** [LogController.SetComponentLevel] for a level that parses: the route has no parameter
    "children", so that the flag is never set. *)
Definition put_level (root : string) (l : level) (c : config) : config * gmap string level :=
  let c := SetComponentLevel root false l c in (c, GetLevels root c).

(** ** Loggers *)

(** How a logger is built: [contextBuilder], and the closures of [Logger.With] and [Logger.Level]
    over another logger's builder. *)
Inductive logBuilder :=
  | ContextBuilder (component : string)
  | WithContext (b : logBuilder)
  | WithLevel (b : logBuilder) (l : level).

Fixpoint build (b : logBuilder) (c : config) : option (Z * level) :=
  match b with
  | ContextBuilder component => configLevel c component
  | WithContext b => build b c
  | WithLevel b l => (λ gl, (gl.1, l)) <$> build b c
  end.

Record Logger := MkLogger { lg_c : Z; lg_l : level; lg_b : logBuilder }.
Definition newFrom (b : logBuilder) (c : config) : option Logger :=
  (λ gl, MkLogger gl.1 gl.2 b) <$> build b c.
Definition GetLogger (component : string) (c : config) : option Logger := newFrom (ContextBuilder component) c.
Definition Logger_With (with_nil : bool) (lg : Logger) (c : config) : option Logger :=
  if with_nil then Some lg else newFrom (WithContext (lg_b lg)) c.
Definition Logger_Level (l : level) (lg : Logger) (c : config) : option Logger :=
  newFrom (WithLevel (lg_b lg) l) c.
Definition update (lg : Logger) (c : config) : option Logger :=
  if decide (configGeneration c = lg_c lg) then Some lg
  else (λ gl, MkLogger gl.1 gl.2 (lg_b lg)) <$> build (lg_b lg) c.

(** ** Names *)

(** [c'] is [c] or a component under it. *)
Definition under (c c' : string) : Prop := c' = c ∨ ∃ rest, c' = slashed c +:+ rest.

Lemma HasPrefix_app v p : HasPrefix v p = true ↔ ∃ rest, v = p +:+ rest.
Proof.
  revert v. induction p as [|x p IH]; intros v.
  - split; [intros _; by exists v|]. by destruct v.
  - destruct v as [|y v]; cbn [HasPrefix]; [split; [done|by intros [r Hr]]|].
    rewrite andb_true_iff, IH, bool_decide_eq_true.
    split; [intros [-> [r ->]]; by exists r|]. intros [r Hr]. injection Hr as -> ->. split; [done|by exists r].
Qed.

Lemma under_dec_spec c c' : under c c' ↔ c' = c ∨ HasPrefix c' (slashed c) = true.
Proof. unfold under. by rewrite HasPrefix_app. Qed.

#[export] Instance under_dec c c' : Decision (under c c').
Proof. refine (cast_if (decide (c' = c ∨ HasPrefix c' (slashed c) = true))); by rewrite under_dec_spec. Defined.

Lemma slashed_app c rest : slashed c +:+ rest = c +:+ String "/" rest.
Proof. unfold slashed. by rewrite string_app_assoc. Qed.

Lemma under_trans a b c : under a b → under b c → under a c.
Proof.
  intros [-> |[r ->]] [-> |[s ->]]; unfold under; eauto. right. exists (r +:+ String "/" s).
  by rewrite !slashed_app, string_app_assoc.
Qed.

Lemma string_app_length a b : String.length (a +:+ b) = (String.length a + String.length b)%nat.
Proof. induction a as [|x a IH]; [done|]. change (S (String.length (a +:+ b)) = S (String.length a) + String.length b)%nat. lia. Qed.

Lemma before_slash_app c rest :
  before_slash (c +:+ String "/" rest) =
    Some match before_slash rest with Some q => c +:+ String "/" q | None => c end.
Proof.
  induction c as [|x c IH].
  - change (EmptyString +:+ String "/" rest) with (String "/" rest). cbn [before_slash]. by destruct (before_slash rest).
  - change (String x c +:+ String "/" rest) with (String x (c +:+ String "/" rest)). cbn [before_slash].
    rewrite IH. by destruct (before_slash rest).
Qed.

Lemma before_slash_inv s p : before_slash s = Some p → ∃ rest, s = p +:+ String "/" rest.
Proof.
  revert p. induction s as [|x s IH]; intros p; simpl; [done|].
  destruct (before_slash s) as [q|].
  - intros [= <-]. destruct (IH q eq_refl) as [r ->]. by exists r.
  - case_decide; [|done]. intros [= <-]. subst. by exists s.
Qed.

Lemma parent_inv c p : parent c = Some p → p ≠ EmptyString ∧ under p c ∧ (String.length p < String.length c)%nat.
Proof.
  unfold parent. destruct (before_slash c) as [q|] eqn:Hb; [|done]. case_decide; [done|]. intros [= ->].
  destruct (before_slash_inv _ _ Hb) as [r ->]. split_and!; [done| |].
  - right. exists r. by rewrite slashed_app.
  - rewrite string_app_length. simpl. lia.
Qed.

(** Going up from below [c] arrives at [c]. *)
Lemma parent_under c c' : c ≠ EmptyString → under c c' → c' ≠ c → ∃ p, parent c' = Some p ∧ under c p.
Proof.
  intros Hc [-> |[rest ->]] Hne; [done|]. rewrite slashed_app. unfold parent. rewrite before_slash_app.
  eexists. rewrite decide_False; [split; [done|]|].
  - destruct (before_slash rest) as [q|]; [|by left]. right. exists q. by rewrite slashed_app.
  - destruct (before_slash rest); destruct c; done.
Qed.

(** The loop ends: the name is always long enough. *)
Lemma inherited_total fuel levels g c : (String.length c ≤ fuel)%nat → is_Some (inherited fuel levels g c).
Proof.
  revert c. induction fuel as [|fuel IH]; intros c Hf; simpl; (case_match; [by eexists|]);
    (destruct (parent c) as [p|] eqn:Hp; [|by eexists]); apply parent_inv in Hp as (_ & _ & Hl); [lia|].
  apply IH. lia.
Qed.

Lemma effective_total c component : is_Some (effective c component).
Proof. by apply inherited_total. Qed.

Lemma inherited_fuel n m levels g c :
  (String.length c ≤ n)%nat → (String.length c ≤ m)%nat → inherited n levels g c = inherited m levels g c.
Proof.
  revert m c. induction n as [|n IH]; intros m c Hn Hm; destruct m as [|m]; simpl; try done;
    (case_match; [done|]); (destruct (parent c) as [p|] eqn:Hp; [|done]); apply parent_inv in Hp as (_ & _ & Hl);
    [lia..|]. apply IH; lia.
Qed.

(** One round of the loop *)
Lemma effective_eq c component :
  effective c component =
    match componentLevel c !! component with
    | Some l => Some l
    | None => match parent component with None => Some (globalLevel c) | Some p => effective c p end
    end.
Proof.
  unfold effective. destruct (String.length component) as [|n] eqn:Hn; simpl; (case_match; [done|]);
    (destruct (parent component) as [p|] eqn:Hp; [|done]); apply parent_inv in Hp as (_ & _ & Hl); [lia|].
  apply inherited_fuel; lia.
Qed.

Lemma name_ind (P : string → Prop) :
  (∀ c, (∀ p, parent c = Some p → P p) → P c) → ∀ c, P c.
Proof.
  intros HP c. remember (String.length c) as n eqn:Hn. revert c Hn.
  induction (lt_wf n) as [n _ IH]. intros c ->. apply HP. intros p Hp.
  apply parent_inv in Hp as (_ & _ & Hl). by eapply IH.
Qed.

Lemma set_lookup component children l c c' :
  component ≠ EmptyString →
  componentLevel (SetComponentLevel component children l c) !! c' =
    if decide (c' = component) then Some l
    else if HasPrefix c' (slashed component) then None else componentLevel c !! c'.
Proof.
  intros Hne. unfold SetComponentLevel. rewrite decide_False by done. simpl. case_decide as Heq.
  - subst. apply map_lookup_filter_Some. rewrite lookup_insert_eq. split; [done|]. simpl.
    apply not_true_iff_false. rewrite HasPrefix_app. intros [r Hr]. rewrite slashed_app in Hr.
    apply (f_equal String.length) in Hr. rewrite string_app_length in Hr. simpl in Hr. lia.
  - destruct (HasPrefix c' (slashed component)) eqn:Hp.
    + apply map_lookup_filter_None. right. simpl. intros ? _. by rewrite Hp.
    + rewrite map_lookup_filter, lookup_insert_ne by done. destruct (componentLevel c !! c'); simpl; [|done].
      by rewrite option_guard_True.
Qed.

(** Setting the level of a component sets it for the component and everything under it,
    whether or not the caller asks for the children, and for nothing else.  Setting it for the
    empty name replaces the global level, which is everyone's level who has no configured ancestor;
    asking for the children removes all configured levels. *)
Theorem SetComponentLevel_effective component children l c c' :
  effective (SetComponentLevel component children l c) c' =
    if decide (component = EmptyString) then
      if children then Some l
      else effective (MkConfig 0 l (componentLevel c)) c'
    else if decide (under component c') then Some l else effective c c'.
Proof.
  case_decide as Hne.
  - unfold SetComponentLevel. rewrite decide_True by done. destruct children; [|done].
    induction c' as [c' IH] using name_ind. rewrite effective_eq. simpl. rewrite lookup_empty.
    destruct (parent c') as [p|]; [|done]. by apply IH.
  - induction c' as [c' IH] using name_ind. rewrite effective_eq, set_lookup by done.
    destruct (decide (under component c')) as [Hu|Hu].
    + destruct (decide (c' = component)) as [|Hc]; [done|].
      destruct (proj1 (under_dec_spec _ _) Hu) as [?|Hpre]; [done|]. rewrite Hpre.
      destruct (parent_under _ _ Hne Hu Hc) as (p & Hp & Hup). rewrite Hp, (IH p Hp). by rewrite decide_True.
    + rewrite under_dec_spec in Hu. apply Decidable.not_or in Hu as [Hc Hpre].
      rewrite decide_False by done. apply not_true_iff_false in Hpre. rewrite Hpre.
      rewrite (effective_eq c c'). case_match; [done|]. destruct (parent c') as [p|] eqn:Hp.
      * rewrite (IH p eq_refl), decide_False; [done|]. intros Hup. apply parent_inv in Hp as (_ & Hpc & _).
        pose proof (under_trans _ _ _ Hup Hpc) as [?|?]%under_dec_spec; congruence.
      * unfold SetComponentLevel. by rewrite decide_False.
Qed.

(** The flag of the caller makes no difference unless the name is empty. *)
Lemma SetComponentLevel_ignores_children component l c :
  component ≠ EmptyString → SetComponentLevel component true l c = SetComponentLevel component false l c.
Proof. intros. unfold SetComponentLevel. by rewrite !decide_False. Qed.

(** After [PUT /logcontrol/:component/level] the answer lists the component alone: the levels
    configured under it are gone. *)
Lemma put_level_answer root l c :
  root ≠ EmptyString → (put_level root l c).2 = {[ root := l ]}.
Proof.
  intros Hne. change (put_level root l c).2 with (GetLevels root (SetComponentLevel root false l c)).
  unfold GetLevels, ComponentLevels. generalize (globalLevel (SetComponentLevel root false l c)) as g. intros g. apply map_eq. intros k.
  rewrite lookup_singleton. apply option_eq. intros l'. rewrite map_lookup_filter_Some, lookup_union_Some_raw.
  rewrite set_lookup, lookup_singleton by done. simpl. split.
  - intros [Hl Hk]. destruct (decide (k = root)) as [->|Hkr]; [rewrite decide_True by done; naive_solver|].
    destruct Hk as [?|[?|Hk]]; [done..|]. rewrite Hk in Hl. destruct Hl as [?|[_ Hl]]; [done|].
    case_decide; [|done]. subst. by destruct root.
  - case_decide; [|done]. intros [= <-]. subst. rewrite decide_True by done. auto.
Qed.

(** ** Loggers follow the configuration *)

(** What a program does with one logger: levels are set, by anyone, and the logger is used. *)
Inductive log_op := OpSet (component : string) (children : bool) (l : level) | OpLog.

(** The levels the logger has when it is used *)
Fixpoint log_run (ops : list log_op) (lg : Logger) (c : config) : option (list level) :=
  match ops with
  | [] => Some []
  | OpSet component children l :: ops => log_run ops lg (SetComponentLevel component children l c)
  | OpLog :: ops => lg ← update lg c; ls ← log_run ops lg c; Some (lg_l lg :: ls)
  end.

(** The levels a logger built anew for every use would have *)
Fixpoint log_spec (ops : list log_op) (b : logBuilder) (c : config) : option (list level) :=
  match ops with
  | [] => Some []
  | OpSet component children l :: ops => log_spec ops b (SetComponentLevel component children l c)
  | OpLog :: ops => gl ← build b c; ls ← log_spec ops b c; Some (gl.2 :: ls)
  end.

Lemma build_total b c : ∃ l, build b c = Some (configGeneration c, l).
Proof.
  induction b as [component|b [l IH]|b [l IH] l']; simpl.
  - unfold configLevel. destruct (effective_total c component) as [l ->]. by exists l.
  - by exists l.
  - rewrite IH. by exists l'.
Qed.

(** [n] changes have happened since the logger was refreshed. *)
Definition behind (n : Z) (lg : Logger) (c : config) : Prop :=
  configGeneration c = int32_wrap (lg_c lg + n) ∧ lg_c lg = int32_wrap (lg_c lg) ∧ 0 ≤ n ∧
  (n = 0 → build (lg_b lg) c = Some (lg_c lg, lg_l lg)).

Lemma int32_wrap_add a b : int32_wrap (int32_wrap a + b) = int32_wrap (a + b).
Proof.
  unfold int32_wrap. f_equal.
  replace ((a + 2 ^ 31) mod 2 ^ 32 - 2 ^ 31 + b + 2 ^ 31) with ((a + 2 ^ 31) mod 2 ^ 32 + b) by ring.
  rewrite Z.add_mod_idemp_l by lia. f_equal. ring.
Qed.

Lemma int32_wrap_same a n : a = int32_wrap a → 0 ≤ n < 2 ^ 32 → int32_wrap (a + n) = a → n = 0.
Proof.
  unfold int32_wrap. intros Ha Hn H. pose proof (Z.mod_pos_bound (a + 2 ^ 31) (2 ^ 32) ltac:(lia)).
  pose proof (Z.div_mod (a + n + 2 ^ 31) (2 ^ 32) ltac:(lia)).
  assert (Hq : (a + n + 2 ^ 31) / 2 ^ 32 = 0 ∨ 1 ≤ (a + n + 2 ^ 31) / 2 ^ 32 ∨ (a + n + 2 ^ 31) / 2 ^ 32 ≤ -1) by lia.
  destruct Hq as [Hq|[Hq|Hq]]; [|nia..]. rewrite Hq in *. lia.
Qed.

Lemma set_generation component children l c :
  configGeneration (SetComponentLevel component children l c) = int32_wrap (configGeneration c + 1).
Proof. unfold SetComponentLevel. by case_decide. Qed.

Lemma behind_set n lg c component children l :
  behind n lg c → behind (n + 1) lg (SetComponentLevel component children l c).
Proof.
  intros (Hg & Hc & Hn & _). split_and!; [|done|lia|lia].
  rewrite set_generation, Hg, int32_wrap_add. f_equal. lia.
Qed.

Lemma update_fresh n lg c :
  behind n lg c → n < 2 ^ 32 →
  ∃ l, build (lg_b lg) c = Some (configGeneration c, l) ∧ update lg c = Some (MkLogger (configGeneration c) l (lg_b lg)) ∧
    behind 0 (MkLogger (configGeneration c) l (lg_b lg)) c.
Proof.
  intros (Hg & Hc & Hn & H0) Hlt. destruct (build_total (lg_b lg) c) as [l Hb]. exists l. split; [done|].
  assert (Hw : configGeneration c = int32_wrap (configGeneration c)).
  { pose proof (int32_wrap_add (lg_c lg + n) 0) as Hi. rewrite !Z.add_0_r in Hi. congruence. }
  split.
  - unfold update. case_decide as Heq; [|by rewrite Hb].
    assert (n = 0) as -> by (eapply int32_wrap_same; [done|lia|congruence]).
    rewrite H0 in Hb by done. destruct lg. simpl in *. naive_solver.
  - split_and!; simpl; [by rewrite Z.add_0_r|done|lia|done].
Qed.

Lemma log_run_spec ops n lg c :
  behind n lg c → n + Z.of_nat (length ops) < 2 ^ 32 →
  log_run ops lg c = log_spec ops (lg_b lg) c ∧ is_Some (log_run ops lg c).
Proof.
  revert n lg c. induction ops as [|[component children l|] ops IH]; intros n lg c Hb Hn; simpl in *; [done|..].
  - apply (IH (n + 1)); [by apply behind_set|lia].
  - destruct (update_fresh n lg c Hb ltac:(lia)) as (l & -> & -> & Hb0). simpl.
    destruct Hb as (_ & _ & Hn0 & _). destruct (IH 0 _ _ Hb0 ltac:(lia)) as [He [ls Hls]].
    rewrite He in Hls |- *. simpl in *. rewrite Hls. simpl. split; [done|by eexists].
Qed.

(** However the levels are changed between the uses of a logger, also of one derived from others,
    every use is at the level the registry then gives it: the cached level is never stale (unless
    2^32 changes come between two uses, when the generation is the old one again). *)
Theorem loggers_follow ops b c :
  configGeneration c = int32_wrap (configGeneration c) → Z.of_nat (length ops) < 2 ^ 32 →
  ∃ lg, newFrom b c = Some lg ∧ log_run ops lg c = log_spec ops b c ∧ is_Some (log_run ops lg c).
Proof.
  intros Hw Hlen. destruct (build_total b c) as [l Hb]. exists (MkLogger (configGeneration c) l b).
  split; [unfold newFrom; by rewrite Hb|]. apply (log_run_spec _ 0); [|lia].
  split_and!; simpl; rewrite ?Z.add_0_r; done.
Qed.

(** ** Witnesses *)

Definition log_config : config := MkConfig 0 1 {[ "services/grpc" := 0; "services" := 2 ]}.

Lemma SetComponentLevel_effective_witness :
  effective log_config "services/grpc/x" = Some 0 ∧
  effective (SetComponentLevel "services" false 3 log_config) "services/grpc/x" = Some 3 ∧
  effective (SetComponentLevel "services" false 3 log_config) "server" = Some 1.
Proof.
  split; [reflexivity|]. by rewrite !SetComponentLevel_effective.
Defined.

Lemma loggers_follow_witness :
  ∃ lg, newFrom (WithContext (ContextBuilder "services/grpc")) log_config = Some lg ∧
    log_run [OpLog; OpSet "services" false 3; OpLog; OpSet "" true (-1); OpLog] lg log_config = Some [0; 3; -1].
Proof.
  destruct (loggers_follow [OpLog; OpSet "services" false 3; OpLog; OpSet "" true (-1); OpLog]
    (WithContext (ContextBuilder "services/grpc")) log_config ltac:(reflexivity) ltac:(simpl; lia)) as (lg & Hlg & Hr & _).
  exists lg. split; [done|]. rewrite Hr. reflexivity.
Defined.
