(* ===== verification/Delays.v ===== *)
(** * Delivery delays

    [src/controllers/delay-injector.go]: reading, setting and clearing the delivery delay of a
    subscription over HTTP, and the transaction that [src/middleware/ent.go] wraps around the
    requests that write.  Routing and JSON are gin's; a request body is its decoding. *)

From S2P Require Import Prelude Uuid Filter FilterParse Schema Notify Store Example Deliver Lifecycle Ack.

Definition sub_set_deliveryDelay (d : duration) (s : subscription) : subscription :=
  MkSubscription (s_id s) (s_topicID s) (s_name s) (s_createdAt s) (s_expiresAt s) (s_live s)
    (s_deletedAt s) (s_ttl s) (s_messageTTL s) (s_orderedDelivery s) (s_labels s) (s_minBackoff s)
    (s_maxBackoff s) (s_pushEndpoint s) (s_messageFilter s) (s_maxDeliveryAttempts s)
    (s_deadLetterTopicID s) d.

(** An answer: the status, the delay it carries; [aborted] when the handler has called
    [AbortWithError]. *)
Record response := MkResponse { status : Z; r_delay : option duration; aborted : bool }.
Definition answer (status : Z) (d : option duration) : response := MkResponse status d false.

(** [panic(err)] *)
Definition or_panic {A} (m : Tx A) : Tx A := λ t,
  match m t with Err _ => Panic "statement failed" | r => r end.

(** [strings.TrimPrefix(subName, "/")] *)
Definition trim_slash (s : string) : string :=
  match s with String c s' => if decide (c = "/"%char) then s' else s | EmptyString => s end.

Section Delays.
Context {E : Engine}.

(** ** The handlers *)

Definition GetDelay (param : string) : Tx response := λ t,
  match Only (live_sub_named (trim_slash param)) t with
  | Ok (sub, t) => Ok (answer 200 (Some (s_deliveryDelay sub)), t)
  | Err EntNotFound => Ok (answer 404 None, t)
  | Err _ => Panic "query failed"
  | Panic p => Panic p
  end.

(** The statement both writing handlers share, and how they look at the number of rows *)
Definition set_delay (param : string) (d : duration) (done_ : response) : Tx response :=
  or_panic (hooked other_mutation
    (Update (live_sub_named (trim_slash param)) (sub_set_deliveryDelay (stored_interval d)))) ≫= λ n,
  if Z.of_nat n <=? 0 then mret (answer 404 None)
  else if 1 <? Z.of_nat n then panic "BUG DETECTED: live subs with same name"
  else mret done_.

(** The body of a PUT, [None] when it does not decode *)
Definition PutDelay (param : string) (body : option duration) : Tx response :=
  match body with
  | None => mret (MkResponse 400 None true)
  | Some d => if d <? 0 then mret (answer 400 None) else set_delay param d (answer 200 (Some d))
  end.
Definition DeleteDelay (param : string) : Tx response := set_delay param 0 (answer 204 None).

(** ** [WithTransaction]

    The variable [finishedTx] belongs to the closure that is made once per route group: all
    requests share it. *)

(** How a transaction ends.  One that is neither committed nor rolled back by the middleware is
    rolled back by [database/sql] when the request's context ends. *)
Inductive tx_end := Committed | CommitFailed | RolledBack | LeftToContext.

Record conn_env := MkConnEnv { ce_begun : outcome (); ce_committed : outcome () }.

(** A request in a transaction: the answer (or the panic that gin recovers), the end of the
    transaction if one began, and the new shared flag and world. *)
Definition WithTransaction (env : conn_env) (handler : Tx response) (st : bool * world)
  : outcome response * option tx_end * (bool * world) :=
  let '(finishedTx, w) := st in
  let unchanged := MkWorld (w_db w) (w_reg w) (S (w_fresh w)) in
  match ce_begun env with
  | Err _ | Panic _ => (Panic "begin failed", None, (finishedTx, w))
  | Ok _ =>
      match handler (txn_of w) with
      | Ok (r, _) =>
          if aborted r then (Ok r, Some RolledBack, (true, unchanged))
          else
            match DoTx (ce_committed env) handler w with
            | (Ok _, w') => (Ok r, Some Committed, (true, w'))
            | (_, w') => (Ok r, Some CommitFailed, (true, w'))
            end
      | Err _ | Panic _ =>
          (Panic "handler panicked", Some (if finishedTx then LeftToContext else RolledBack), (true, unchanged))
      end
  end.

Inductive delay_request := ReqGet (param : string) | ReqPut (param : string) (body : option duration) | ReqDelete (param : string).
Definition req_param (q : delay_request) : string :=
  match q with ReqGet p | ReqPut p _ | ReqDelete p => p end.

(** The route group: a GET passes the middleware without a transaction. *)
Definition serve_delay (q : delay_request) (env : conn_env) (st : bool * world)
  : outcome response * option tx_end * (bool * world) :=
  match q with
  | ReqGet p =>
      match GetDelay p (txn_of st.2) with
      | Ok (r, _) => (Ok r, None, st)
      | Err e => (Err e, None, st)
      | Panic s => (Panic s, None, st)
      end
  | ReqPut p body => WithTransaction env (PutDelay p body) st
  | ReqDelete p => WithTransaction env (DeleteDelay p) st
  end.

(** ** What the requests do *)

Lemma update_map_one (P : subscription → Prop) `{∀ x, Decision (P x)} f d s :
  db_wf d → rows_where P d = [s] → subscriptions d !! s_id s = Some s → P s →
  update_map P f (subscriptions d) = <[s_id s := f s]> (subscriptions d).
Proof.
  intros W Hr Hs HP. apply map_eq. intros k. rewrite lookup_update_map.
  destruct (decide (k = s_id s)) as [->|Hk]; [rewrite lookup_insert_eq, Hs; simpl; by rewrite decide_True|].
  rewrite lookup_insert_ne by done. destruct (subscriptions d !! k) as [s'|] eqn:Hs'; simpl; [|done].
  rewrite decide_False; [done|]. intros HP'. pose proof (tw_key _ (wf_subscriptions _ W) _ _ Hs') as Hpk. simpl in Hpk.
  assert (Hin : s' ∈ rows_where P d) by (apply elem_of_rows_wf; [done|]; simpl; by rewrite Hpk).
  rewrite Hr in Hin. apply list_elem_of_singleton in Hin. congruence.
Qed.

Lemma update_map_no_rows (P : subscription → Prop) `{∀ x, Decision (P x)} f d :
  db_wf d → rows_where P d = [] →
  update_map P f (subscriptions d) = subscriptions d ∧ (∀ k s, subscriptions d !! k = Some s → ¬ P s).
Proof.
  intros W Hr. assert (Hno : ∀ k s, subscriptions d !! k = Some s → ¬ P s).
  { intros k s Hs HP. pose proof (tw_key _ (wf_subscriptions _ W) _ _ Hs) as Hpk. simpl in Hpk.
    assert (Hin : s ∈ rows_where P d) by (apply elem_of_rows_wf; [done|]; simpl; by rewrite Hpk).
    rewrite Hr in Hin. by apply elem_of_nil in Hin. }
  split; [|done]. apply map_eq. intros k. rewrite lookup_update_map.
  destruct (subscriptions d !! k) as [s|] eqn:Hs; simpl; [|done]. rewrite decide_False; [done|]. by eapply Hno.
Qed.

(** The delay of [s] set, as its column keeps it *)
Definition with_delay (d : duration) (s : subscription) (d0 : db) : db :=
  with_subscriptions (<[s_id s := sub_set_deliveryDelay (stored_interval d) s]> (subscriptions d0)) d0.

Lemma set_delay_run param d r t :
  db_wf (tx_db t) →
  (∀ k s, subscriptions (tx_db t) !! k = Some s → ¬ live_sub_named (trim_slash param) s) ∧
    set_delay param d r t = Ok (answer 404 None, t) ∨
  ∃ s, subscriptions (tx_db t) !! s_id s = Some s ∧ live_sub_named (trim_slash param) s ∧
    set_delay param d r t = Ok (r, with_db (with_delay d s (tx_db t)) t) ∧ db_wf (with_delay d s (tx_db t)).
Proof.
  intros W. unfold set_delay, with_delay. set (name := trim_slash param).
  destruct (Update_run (live_sub_named name) (sub_set_deliveryDelay (stored_interval d)) t) as [Hrun Hwf]; [|done|].
  { apply sub_harmless; [by intros []|]. intros []; by left. }
  unfold hooked, mbind, M_bind, or_panic. simpl. rewrite Hrun. simpl in *.
  destruct (live_subs_named name _ W) as [Hn|(s & Hn & Hs & Hl)].
  - destruct (update_map_no_rows (live_sub_named name) (sub_set_deliveryDelay (stored_interval d)) _ W Hn) as [Hm Hno].
    left. split; [done|]. rewrite Hn, Hm. simpl. by destruct t as [[]].
  - rewrite (update_map_one _ _ _ s W Hn Hs Hl) in *. right. exists s. split_and!; [done..| |done].
    by rewrite Hn.
Qed.

(** A request that writes asks for this delay, and answers so when it has written. *)
Definition wanted (q : delay_request) : option (duration * response) :=
  match q with
  | ReqPut _ (Some d) => if d <? 0 then None else Some (d, answer 200 (Some d))
  | ReqDelete _ => Some (0, answer 204 None)
  | _ => None
  end.

Lemma GetDelay_run param t :
  db_wf (tx_db t) →
  (∀ k s, subscriptions (tx_db t) !! k = Some s → ¬ live_sub_named (trim_slash param) s) ∧
    GetDelay param t = Ok (answer 404 None, t) ∨
  ∃ s, subscriptions (tx_db t) !! s_id s = Some s ∧ live_sub_named (trim_slash param) s ∧
    GetDelay param t = Ok (answer 200 (Some (s_deliveryDelay s)), t).
Proof.
  intros W. unfold GetDelay, Only, All, mbind, M_bind, gets.
  destruct (live_subs_named (trim_slash param) _ W) as [Hn|(s & Hn & Hs & Hl)]; rewrite Hn; simpl; [left|right].
  - split; [|done]. by destruct (update_map_no_rows (live_sub_named (trim_slash param)) id _ W Hn).
  - by exists s.
Qed.

(** A transaction whose handler writes [db'] and registers no hooks *)
Lemma WithTransaction_run env handler finished w r db' :
  ce_begun env = Ok () → aborted r = false → handler (txn_of w) = Ok (r, with_db db' (txn_of w)) →
  ∃ end_ w', WithTransaction env handler (finished, w) = (Ok r, Some end_, (true, w')) ∧ w_reg w' = w_reg w ∧
    (ce_committed env = Ok () → end_ = Committed ∧ w_db w' = db') ∧
    (ce_committed env ≠ Ok () → end_ = CommitFailed ∧ w_db w' = w_db w).
Proof.
  intros Hb Ha Hh. unfold WithTransaction. rewrite Hb, Hh, Ha. unfold DoTx. fold (txn_of w). rewrite Hh.
  destruct (ce_committed env) as [[]|e|p]; simpl; eexists _, _; (split; [done|]); by split_and!.
Qed.

(** A handler that writes nothing *)
Lemma WithTransaction_same env handler finished w r :
  ce_begun env = Ok () → handler (txn_of w) = Ok (r, txn_of w) → world_wf w →
  ∃ end_ w', WithTransaction env handler (finished, w) = (Ok r, Some end_, (true, w')) ∧ w_reg w' = w_reg w ∧
    w_db w' = w_db w ∧ world_wf w'.
Proof.
  intros Hb Hh [Wd Wr]. destruct (aborted r) eqn:Ha.
  - unfold WithTransaction. rewrite Hb, Hh, Ha. eexists _, _. by split_and!.
  - destruct (WithTransaction_run env handler finished w r (w_db w)) as (end_ & w' & Hw & Hreg & Hc & Hf); [done..|].
    exists end_, w'. assert (Hdb : w_db w' = w_db w).
    { destruct (decide (ce_committed env = Ok ())) as [H|H]; [by apply Hc|by apply Hf]. }
    split_and!; [done..|]. by split; rewrite ?Hdb, ?Hreg.
Qed.

(** [s] is the live subscription that the path names. *)
Definition live_at (param : string) (w : world) (s : subscription) : Prop :=
  subscriptions (w_db w) !! s_id s = Some s ∧ live_sub_named (trim_slash param) s.

Lemma set_delay_served env finished w param d done_ :
  world_wf w → ce_begun env = Ok () → aborted done_ = false →
  ∃ r end_ w', WithTransaction env (set_delay param d done_) (finished, w) = (Ok r, Some end_, (true, w')) ∧
    world_wf w' ∧ w_reg w' = w_reg w ∧
    (r = answer 404 None ∧ (∀ s, ¬ live_at param w s) ∧ w_db w' = w_db w ∨
     ∃ s, live_at param w s ∧ r = done_ ∧
       (ce_committed env = Ok () → Some end_ = Some Committed ∧ w_db w' = with_delay d s (w_db w)) ∧
       (ce_committed env ≠ Ok () → Some end_ = Some CommitFailed ∧ w_db w' = w_db w)).
Proof.
  intros W Hb Ha. pose proof W as [Wd Wr].
  destruct (set_delay_run param d done_ (txn_of w) Wd) as [[Hno Hrun]|(s & Hs & Hl & Hrun & Hwf)].
  - destruct (WithTransaction_same env _ finished w _ Hb Hrun W) as (end_ & w' & Hw & Hreg & Hdb & W').
    exists (answer 404 None), end_, w'. split_and!; [done..|]. left. split_and!; [done| |done].
    intros s [Hs Hl]. by eapply Hno.
  - destruct (WithTransaction_run env (set_delay param d done_) finished w done_ (with_delay d s (w_db w)))
      as (end_ & w' & Hw & Hreg & Hc & Hf); [done..|].
    exists done_, end_, w'. split_and!; [done| |done|].
    + split; [|by rewrite Hreg]. destruct (decide (ce_committed env = Ok ())) as [H|H].
      * by destruct (Hc H) as [_ ->].
      * by destruct (Hf H) as [_ ->].
    + right. exists s. split_and!; [done|done|..]; intros H; [apply Hc in H|apply Hf in H]; naive_solver.
Qed.

(** C22 A request to the delay routes, on a database that is well-formed, is answered and never
    panics.  Reading answers the delay of the live subscription of the name.  Writing changes the
    delay of that subscription and nothing else in the database, wakes nobody, and changes nothing
    when the body is refused (400) or there is no such subscription (404).  The answer does not
    depend on whether the commit succeeds: a failed one leaves the database as it was, but the
    client has been told that the delay is set. *)
Theorem delay_requests q env finished w :
  world_wf w → ce_begun env = Ok () →
  ∃ r end_ finished' w', serve_delay q env (finished, w) = (Ok r, end_, (finished', w')) ∧
    world_wf w' ∧ w_reg w' = w_reg w ∧
    let live := live_at (req_param q) w in
    match q, wanted q with
    | ReqGet _, _ => w_db w' = w_db w ∧ finished' = finished ∧
        (r = answer 404 None ∧ (∀ s, ¬ live s) ∨ ∃ s, live s ∧ r = answer 200 (Some (s_deliveryDelay s)))
    | _, None => w_db w' = w_db w ∧ status r = 400
    | _, Some (d, done_) =>
        r = answer 404 None ∧ (∀ s, ¬ live s) ∧ w_db w' = w_db w ∨
        ∃ s, live s ∧ r = done_ ∧
          (ce_committed env = Ok () → end_ = Some Committed ∧ w_db w' = with_delay d s (w_db w)) ∧
          (ce_committed env ≠ Ok () → end_ = Some CommitFailed ∧ w_db w' = w_db w)
    end.
Proof.
  intros W Hb. pose proof W as [Wd _]. destruct q as [param|param [d|]|param]; simpl.
  - destruct (GetDelay_run param (txn_of w) Wd) as [[Hno Hrun]|(s & Hs & Hl & Hrun)]; rewrite Hrun;
      eexists _, _, _, _; (split_and!; [done|done|done|done|done|]); [left|right].
    + split; [done|]. intros s [Hs Hl]. by eapply Hno.
    + by exists s.
  - unfold PutDelay. destruct (d <? 0).
    + destruct (WithTransaction_same env (mret (answer 400 None) : Tx response) finished w _ Hb eq_refl W)
        as (end_ & w' & Hw & Hreg & Hdb & W').
      by exists (answer 400 None), (Some end_), true, w'.
    + destruct (set_delay_served env finished w param d (answer 200 (Some d)) W Hb eq_refl) as (r & end_ & w' & ? & ? & ? & ?).
      by exists r, (Some end_), true, w'.
  - destruct (WithTransaction_same env (PutDelay param None) finished w _ Hb eq_refl W)
      as (end_ & w' & Hw & Hreg & Hdb & W').
    by exists (MkResponse 400 None true), (Some end_), true, w'.
  - destruct (set_delay_served env finished w param 0 (answer 204 None) W Hb eq_refl) as (r & end_ & w' & ? & ? & ? & ?).
    by exists r, (Some end_), true, w'.
Qed.

(** Once any request of the group has finished, the middleware no longer rolls back when a
    handler panics: the shared variable still says that the transaction is over. *)
Lemma later_panics_not_rolled_back env handler1 handler2 w p :
  ce_begun env = Ok () → (∀ t, handler2 t = Panic p) →
  let '(_, _, st) := WithTransaction env handler1 (false, w) in
  (WithTransaction env handler2 st).1.2 = Some LeftToContext.
Proof.
  intros Hb Hp. unfold WithTransaction. rewrite Hb.
  destruct (handler1 (txn_of w)) as [[r t]|e|s]; [|by rewrite Hp..].
  destruct (aborted r); [by rewrite Hp|]. destruct (DoTx _ _ _) as [[?|?|?] ?]; by rewrite Hp.
Qed.
End Delays.

(** ** Witnesses *)

Definition delays_world : world := MkWorld example_db empty_registry 0.
Definition conn_ok : conn_env := MkConnEnv (Ok ()) (Ok ()).

Lemma delays_world_wf : world_wf delays_world.
Proof. split; [exact example_db_wf|exact empty_registry_wf]. Qed.

(** Setting the delay of a subscription and reading it back, and the same with a commit that
    fails: the answer is the same, the delay is not set. *)
Lemma delay_requests_witness :
  (∃ w', serve_delay (E := id_engine) (ReqPut "/plain" (Some 500)) conn_ok (false, delays_world)
     = (Ok (answer 200 (Some 500)), Some Committed, (true, w')) ∧ world_wf w' ∧
     (serve_delay (E := id_engine) (ReqGet "/plain") conn_ok (true, w')).1.1 = Ok (answer 200 (Some 500))) ∧
  (∃ w', serve_delay (E := id_engine) (ReqPut "/plain" (Some 500)) (MkConnEnv (Ok ()) (Err SqlUnique)) (false, delays_world)
     = (Ok (answer 200 (Some 500)), Some CommitFailed, (true, w')) ∧ w_db w' = example_db).
Proof.
  split.
  - destruct (delay_requests (E := id_engine) (ReqPut "/plain" (Some 500)) conn_ok false delays_world delays_world_wf
      eq_refl) as (r & end_ & f & w' & Hrun & Hwf & _).
    exists w'. vm_compute in Hrun. injection Hrun as <- <- <- Hw. subst w'. split_and!; [vm_compute; reflexivity|done|].
    vm_compute. reflexivity.
  - eexists. vm_compute. split; reflexivity.
Defined.
