(* ===== verification/Startup.v ===== *)
(** * Starting the process

    [src/internal/ports.go]: the port a server listens on; [src/db/conn-config.go]: which driver a
    database URL asks for, the limits of the pool, waiting for the database and creating it;
    [src/controllers/uptime.go]: the route that answers when all services are ready.

    The servers and the driver are the environment: what an attempt to connect ends in is an
    argument.  The URL itself is the matter of [DbUrl]. *)

From S2P Require Import Prelude Uuid Filter Quote Notify Store Example Rpc Interval Services.

(** ** Ports *)

(** [strconv.ParseInt(s, 10, 16)] *)
Definition ParseInt16 (s : string) : outcome Z :=
  n ← Atoi s; if (-32768 <=? n) && (n <=? 32767) then Ok n else Err (ErrOther "value out of range").

(** [getRandomPort]; [free] is the port the system gives to a listener, which may fail. *)
Definition getRandomPort (free : outcome Z) (port : Z) (randomizedPorts : gmap Z Z) : outcome (Z * gmap Z Z) :=
  match randomizedPorts !! port with
  | Some rPort => Ok (rPort, randomizedPorts)
  | None =>
      match free with
      | Ok rPort => Ok (rPort, <[port := rPort]> randomizedPorts)
      | Err _ => Panic "listen"
      | Panic m => Panic m
      end
  end.

(** [env] is the variable PORT; [randomizedPorts] is nil but in tests. *)
Definition ResolvePort (env : string) (free : outcome Z) (defaultBasePort offset : Z)
    (randomizedPorts : option (gmap Z Z)) : outcome (Z * option (gmap Z Z)) :=
  match randomizedPorts with
  | Some m => (λ '(p, m), (p, Some m)) <$> getRandomPort free (defaultBasePort + offset) m
  | None =>
      if decide (env = EmptyString) then Ok (defaultBasePort + offset, None)
      else match ParseInt16 env with
           | Ok listenPort => Ok (listenPort + offset, None)
           | Err _ => Panic "invalid port"
           | Panic m => Panic m
           end
  end.

(** The variable PORT is obeyed up to half of the ports there are; a larger one ends the process. *)
Theorem ResolvePort_obeys p free defaultBasePort offset :
  0 ≤ p ≤ 65535 →
  ResolvePort (fmtInt p EmptyString) free defaultBasePort offset None =
    if p <=? 32767 then Ok (p + offset, None) else Panic "invalid port".
Proof.
  intros Hp. destruct (fmtInt_pad p EmptyString) as (k & Hk & Hlt & Hpos); [lia|]. unfold ResolvePort.
  assert (Ha : Atoi (fmtInt p EmptyString) = Ok p).
  { rewrite Hk. apply (Atoi_capture (MkNumber Unsigned k p)). unfold number_ok, int64_max. simpl. lia. }
  rewrite decide_False.
  2: { intros He. rewrite He in Ha. done. }
  unfold ParseInt16. rewrite Ha. cbn [mbind outcome_bind].
  destruct (Z.leb_spec p 32767); [|by rewrite andb_false_r]. by rewrite (proj2 (Z.leb_le _ _)) by lia.
Qed.

(** A random port is kept: asking again for the same port gives the same. *)
Lemma getRandomPort_again free free' port m r m' :
  getRandomPort free port m = Ok (r, m') → getRandomPort free' port m' = Ok (r, m').
Proof.
  unfold getRandomPort. destruct (m !! port) eqn:Hm; [intros [= <- <-]; by rewrite Hm|].
  destruct free; intros [= <- <-]. by rewrite lookup_insert_eq.
Qed.

(** ** The database *)

Inductive dialect := PostgresDialect | SqliteDialect.
Definition drop_prefix (prefix s : string) : string :=
  String.substring (String.length prefix) (String.length s - String.length prefix) s.

(** [ParseDefault]; [SQLiteDriverName] depends on how the program was built: [sqlite3] with cgo
    and [sqlite] without.  The driver, the dialect and the name of the data source. *)
Definition ParseDefault (SQLiteDriverName dsn : string) : outcome (string * dialect * string) :=
  if HasPrefix dsn "sqlite:" then Ok (SQLiteDriverName, SqliteDialect, ("file:" +:+ drop_prefix "sqlite:" dsn)%string)
  else if HasPrefix dsn "postgres:" then Ok ("pgx"%string, PostgresDialect, dsn)
  else Err (ErrOther "unrecognized db url").

(** [strings.Contains] *)
Fixpoint Contains (s sub : string) : bool :=
  HasPrefix s sub || match s with EmptyString => false | String _ s => Contains s sub end.

(** The limits [Open] sets: open connections, idle time *)
Definition pool_limits (driverName dsn : string) : Z * duration :=
  if bool_decide (driverName = "sqlite3"%string) && Contains dsn "mode=memory" then (1, 0) else (10, 10 * Second).

Lemma HasPrefix_prefix p s : HasPrefix (p +:+ s) p = true.
Proof.
  induction p as [|c p IH]; [by destruct s|]. change (bool_decide (c = c) && HasPrefix (p +:+ s) p = true).
  by rewrite bool_decide_eq_true_2, IH.
Qed.
Lemma substring_all s : String.substring 0 (String.length s) s = s.
Proof. induction s as [|c s IH]; simpl; [done|by rewrite IH]. Qed.
Lemma drop_prefix_app p s : drop_prefix p (p +:+ s) = s.
Proof.
  unfold drop_prefix. assert (Hl : ∀ p, (String.length (p +:+ s) = String.length p + String.length s)%nat).
  { clear p. intros p. induction p as [|c p IH]; [done|]. change (S (String.length (p +:+ s)) = S (String.length p + String.length s)).
    by rewrite IH. }
  rewrite Hl. replace (String.length p + String.length s - String.length p)%nat with (String.length s) by lia. clear Hl.
  induction p as [|c p IH]; [by apply substring_all|exact IH].
Qed.
Lemma Contains_app p s sub : Contains s sub = true → Contains (p +:+ s) sub = true.
Proof.
  intros Hs. induction p as [|c p IH]; [done|].
  change (HasPrefix (String c (p +:+ s)) sub || Contains (p +:+ s) sub = true). by rewrite IH, orb_true_r.
Qed.

(** A database in memory, which each connection has to itself, is opened with one connection if the
    program is built with cgo, and with ten if not. *)
Theorem memory_pool rest :
  Contains rest "mode=memory" = true →
  (∃ dsn, ParseDefault "sqlite3" ("sqlite:" +:+ rest) = Ok ("sqlite3"%string, SqliteDialect, dsn) ∧
     pool_limits "sqlite3" dsn = (1, 0)) ∧
  (∃ dsn, ParseDefault "sqlite" ("sqlite:" +:+ rest) = Ok ("sqlite"%string, SqliteDialect, dsn) ∧
     pool_limits "sqlite" dsn = (10, 10 * Second)).
Proof.
  intros Hc.
  assert (Hp : ∀ n, ParseDefault n ("sqlite:" +:+ rest) = Ok (n, SqliteDialect, ("file:" +:+ rest)%string)).
  { intros n. unfold ParseDefault. by rewrite HasPrefix_prefix, drop_prefix_app. }
  split; eexists; rewrite Hp; (split; [done|]); [|done]. unfold pool_limits. by rewrite Contains_app.
Qed.

(** ** Waiting for the database *)

(** What is asked of the error of an attempt: it is of the context; the connection was refused; it
    is a timeout of the network; its SQLSTATE. *)
Record connect_error := MkConnectError {
  ce_context : bool; ce_refused : bool; ce_timeout : bool; ce_code : option string; ce_error : error }.
Definition CannotConnectNow : string := "57P03".
Definition InvalidCatalogName : string := "3D000".

(** [TryCreateDB]: the statement is executed on the database [createVia] with the answer [executed]. *)
Definition create_statement (origDB : string) : string := ("CREATE DATABASE " +:+ QuoteIdentifier origDB)%string.
Definition TryCreateDB (driverName : string) (d : dialect) (parsed : outcome string) (executed : string → outcome ())
  : outcome () :=
  match driverName, d with
  | "pgx"%string, PostgresDialect => origDB ← parsed; executed (create_statement origDB)
  | _, _ => Err (ErrOther "don't know how to create this kind of db")
  end.

(** One round of [WaitForDB]: [OpenDefault] with [Ping]; whether CREATE_DB_VIA is set; what creating
    the database ends in; whether the context ends in the second of waiting. *)
Record db_round := MkRound {
  dr_attempt : option connect_error; dr_createVia : bool; dr_created : outcome (); dr_done : option error }.
Inductive round_result := WReturn (res : outcome ()) | WAgain.

Definition retriable (ce : connect_error) : bool :=
  ce_refused ce || ce_timeout ce || bool_decide (ce_code ce = Some CannotConnectNow).
Definition missing_db (ce : connect_error) : bool :=
  negb (retriable ce) && bool_decide (ce_code ce = Some InvalidCatalogName).
Definition wait_round (r : db_round) : round_result :=
  match dr_attempt r with
  | None => WReturn (Ok ())
  | Some ce =>
      if ce_context ce then WReturn (Err (ce_error ce))
      else if retriable ce then
        match dr_done r with Some e => WReturn (Err e) | None => WAgain end
      else if missing_db ce && dr_createVia r && (match dr_created r with Ok _ => true | _ => false end) then WAgain
      else WReturn (Err (ce_error ce))
  end.
(** [None]: the rounds are used up. *)
Fixpoint WaitForDB (rounds : list db_round) : option (outcome ()) :=
  match rounds with
  | [] => None
  | r :: rounds => match wait_round r with WReturn res => Some res | WAgain => WaitForDB rounds end
  end.

(** A failure that is waited out: the server is not there yet, or its database was missing and has
    been created. *)
Definition waited_out (r : db_round) : Prop :=
  ∃ ce, dr_attempt r = Some ce ∧ ce_context ce = false ∧
    (retriable ce = true ∧ dr_done r = None ∨
     retriable ce = false ∧ ce_code ce = Some InvalidCatalogName ∧ dr_createVia r = true ∧ dr_created r = Ok ()).

Lemma wait_round_again r : wait_round r = WAgain ↔ waited_out r.
Proof.
  unfold wait_round, waited_out, missing_db. destruct (dr_attempt r) as [ce|]; [|naive_solver].
  destruct (ce_context ce) eqn:Hc; [naive_solver congruence|].
  destruct (retriable ce) eqn:Hr; simpl.
  - destruct (dr_done r) eqn:Hd; split; try done; [|intros _; exists ce; auto].
    intros (ce' & [= <-] & _ & [[_ ?]|[? _]]); congruence.
  - case_bool_decide as Hm; simpl.
    + destruct (dr_createVia r) eqn:Hv; simpl; [destruct (dr_created r) as [[]|e|m] eqn:Hcr|]; split; try done.
      all: try (intros (ce' & [= <-] & _ & [[? _]|(_ & _ & ? & ?)]); congruence).
      intros _. exists ce. split_and!; auto.
    + split; [done|]. intros (ce' & [= <-] & _ & [[? _]|(_ & ? & _)]); congruence.
Qed.

(** [WaitForDB] succeeds exactly at the first attempt that gets through, provided that every
    failure before it was one that is waited out; it returns the first other failure, or the end of
    its context while it waits. *)
Theorem WaitForDB_spec rounds res :
  WaitForDB rounds = Some res ↔
  ∃ before r after, rounds = before ++ r :: after ∧ Forall waited_out before ∧ wait_round r = WReturn res.
Proof.
  induction rounds as [|r rounds IH]; simpl.
  - split; [done|]. by intros ([|] & ? & ? & ? & _).
  - destruct (wait_round r) as [res'|] eqn:Hr.
    + split.
      * intros [= ->]. by exists [], r, rounds.
      * intros ([|r' before] & r1 & after & [= -> ->] & Hb & Hw); [congruence|].
        apply Forall_cons in Hb as [Hb%wait_round_again _]. congruence.
    + rewrite IH. split.
      * intros (before & r1 & after & -> & Hb & Hw). exists (r :: before), r1, after. split; [done|].
        split; [|done]. constructor; [by apply wait_round_again|done].
      * intros ([|r' before] & r1 & after & [= -> ->] & Hb & Hw); [congruence|].
        apply Forall_cons in Hb as [_ Hb]. by exists before, r1, after.
Qed.

(** ** Readiness *)

(** [Handle]: the status of the answer *)
Definition uptime_Handle (readies : list (outcome ())) : Z :=
  if forallb (λ r, match r with Ok _ => true | _ => false end) readies then 200 else 500.

(** The answer is 200 only if every service has closed its channel. *)
Theorem uptime_when_ready {B : ServiceBody} (ss : list service) :
  Forall serving ss → uptime_Handle (Ready <$> ss) = 200 → Forall (λ s, s_ready s = true) ss.
Proof.
  intros Hs Hu. unfold uptime_Handle in Hu. destruct (forallb _ _) eqn:Hf; [|done]. clear Hu.
  induction Hs as [|s ss Hs _ IH]; [done|]. simpl in Hf. apply andb_true_iff in Hf as [H1 H2].
  constructor; [|by apply IH]. apply (so_watch _ (serving_ok s Hs)). unfold Ready in H1. by destruct (w_ready s).
Qed.
