(* ===== verification/DbMigrate.v ===== *)
(** * Migrating at the start

    [src/db/migrate.go] ([Up], [MigrateUp]) and the part of [src/cmd/mmmbbb/main.go] that calls it:
    which scripts are run on which database.  On SQLite ent creates the tables from its schema; on
    PostgreSQL the scripts are run by the migrator of [Migrate]. *)

From S2P Require Import Prelude Filter Quote Migrate Startup.

Section DbMigrate.
Context {DB : Database}.

(** A [Migrator] that has no dialect yet, [&migrate.Migrator{}] and what was added to it. *)
Definition draft := list Migration.
Definition draft_AddAndSort (migrations : list Migration) (m : draft) : draft :=
  sortMigrations (m ++ WithPrefix EmptyString migrations).
Definition draft_SortAndAppend (migrations : list Migration) (m : draft) : draft :=
  m ++ WithPrefix EmptyString (sortMigrations migrations).
(** [WithDialect], of a migrator without a configuration *)
Definition WithDialect (d : Dialect) (m : draft) : Migrator := MkMigrator (EffectiveConfig d None) d m.

(** What [migrateVia] is: a client of ent, with what creating its schema does, or something else. *)
Inductive migrate_via := EntClient (create : dbstate → outcome () * dbstate) | OtherVia.

(** [opened]: what [OpenDefault] ends in; [verified]: what the dialect finds of the driver. *)
Definition db_Up (opened : outcome (string * dialect)) (verified : outcome ()) (via : migrate_via) (m : draft)
    (env : nat → run_env) (s : dbstate) : outcome () * dbstate :=
  match opened with
  | Err e => (Err e, s)
  | Panic p => (Panic p, s)
  | Ok (_, dialectName) =>
      if match m, dialectName with [], _ | _, SqliteDialect => true | _, PostgresDialect => false end then
        match via with
        | EntClient create => create s
        | OtherVia => (Err (ErrOther "unrecognized migrateVia"), s)
        end
      else Up (WithDialect (PgxDialect verified) m) env s
  end.

(** The order in which [LoadFS] lists the files is left to [load_entries]. *)
Definition MigrateUp (fs : list entry) (opened : outcome (string * dialect)) (verified : outcome ())
    (via : migrate_via) (env : nat → run_env) (s : dbstate) : outcome () * dbstate :=
  match LoadFS fs None with
  | Ok migrations => db_Up opened verified via (draft_AddAndSort migrations []) env s
  | Err e => (Err e, s)
  | Panic p => (Panic p, s)
  end.
(** The migrations of the program itself, as [main] runs them *)
Definition migrate_own (fs : list entry) (opened : outcome (string * dialect)) (verified : outcome ())
    (via : migrate_via) (env : nat → run_env) (s : dbstate) : outcome () * dbstate :=
  match LoadFS fs None with
  | Ok migrations => db_Up opened verified via (draft_SortAndAppend migrations []) env s
  | Err e => (Err e, s)
  | Panic p => (Panic p, s)
  end.

(** Both do the same. *)
Lemma WithPrefix_empty l : WithPrefix EmptyString l = l.
Proof. unfold WithPrefix. by rewrite bool_decide_true. Qed.
Theorem migrate_own_MigrateUp fs opened verified via env s :
  migrate_own fs opened verified via env s = MigrateUp fs opened verified via env s.
Proof.
  unfold migrate_own, MigrateUp, draft_AddAndSort, draft_SortAndAppend.
  destruct (LoadFS fs None); [|done..]. by rewrite !WithPrefix_empty.
Qed.

(** ** The loaded migrations have different names *)

Definition keyed (entries : gmap string SQLMigration) : Prop := ∀ k m, entries !! k = Some m → sm_name m = k.

Lemma load_entry_keyed entries f entries' :
  keyed entries → load_entry entries f = Ok entries' → keyed entries'.
Proof.
  intros Hk. unfold load_entry. destruct (negb _); [by intros [= <-]|].
  destruct (match_name _) as [[name d]|]; [|done]. destruct (script _ d); [done|]. intros [= <-] k m.
  intros [[<- <-]|[_ Hm]]%lookup_insert_Some; [|by apply Hk].
  unfold set_script. destruct (entries !! scoped name) as [m0|] eqn:Hm0; destruct d; simpl; by try apply Hk in Hm0.
Qed.
Lemma load_entries_keyed fs entries entries' :
  keyed entries → load_entries fs entries = Ok entries' → keyed entries'.
Proof.
  revert entries. induction fs as [|f fs IH]; intros entries Hk; simpl; [by intros [= <-]|].
  destruct (load_entry entries f) as [e1|e|p] eqn:H1; [|done..]. by apply IH, (load_entry_keyed _ _ _ Hk H1).
Qed.
Lemma LoadFS_names fs l : LoadFS fs None = Ok l → NoDup (Name <$> l).
Proof.
  unfold LoadFS. destruct (load_entries fs ∅) as [entries|e|p] eqn:Hl; [|done..]. simpl. intros [= <-].
  assert (Hk : keyed entries) by (eapply load_entries_keyed, Hl; intros k m; by rewrite lookup_empty).
  rewrite <- list_fmap_compose. rewrite filter_all by done.
  rewrite <- list_fmap_compose.
  assert ((Name ∘ SQLMigration_Migration) ∘ snd <$> map_to_list entries = fst <$> map_to_list entries) as ->.
  { apply list_fmap_ext. intros i [k m] Hi. simpl. apply Hk.
    apply elem_of_map_to_list. by eapply list_elem_of_lookup_2. }
  apply NoDup_fst_map_to_list.
Qed.

(** A run that succeeds has everything recorded. *)
Lemma Up_complete m recorded `{!Recording m recorded} env s s' :
  Up m env s = (Ok (), s') → ∀ mm, mm ∈ m_migrations m → Name mm ∈ recorded s'.
Proof.
  unfold Up, run. destruct (Verify _); [|done..].
  destruct (EnsureMigrationsTable _ _ s) as [s1|e|p] eqn:He; [|done..].
  destruct (sql_states _ s1) as [sts|e|p] eqn:Hs; [|done..].
  intros (l & rest & Htodo & Ha & Hr)%run_todo_applied mm Hmm. rewrite (Hr eq_refl), app_nil_r in Htodo.
  assert (Hl : l ⊆ m_migrations m).
  { rewrite <- Htodo. intros x Hx. unfold toRun in Hx. by apply list_elem_of_filter in Hx as [_ ?]. }
  rewrite (applied_recorded m recorded l s1 s' Hl Ha).
  destruct (decide (Name mm ∈ recorded s1)) as [Hin|Hin]; [set_solver|].
  apply elem_of_union. left. apply elem_of_list_to_set, list_elem_of_fmap_2. rewrite <- Htodo.
  unfold toRun. apply list_elem_of_filter. split; [|done]. by rewrite (rec_states m recorded _ _ Hs).
Qed.

(** When migrating a PostgreSQL database at the start succeeds, every script of the directory is
    recorded in it; an SQLite database, or a directory without scripts, is left to ent. *)
Theorem MigrateUp_spec fs l opened verified via env s res s' driver d :
  LoadFS fs None = Ok l → opened = Ok (driver, d) → MigrateUp fs opened verified via env s = (res, s') →
  let m := WithDialect (PgxDialect verified) (draft_AddAndSort l []) in
  if match l, d with [], _ | _, SqliteDialect => true | _, PostgresDialect => false end
  then match via with EntClient create => (res, s') = create s | OtherVia => s' = s ∧ ∃ e, res = Err e end
  else Up m env s = (res, s') ∧
    ∀ recorded `{!Recording m recorded}, res = Ok () → ∀ mm, mm ∈ l → Name mm ∈ recorded s'.
Proof.
  intros Hl -> Hm m. unfold MigrateUp in Hm. rewrite Hl in Hm. unfold db_Up in Hm.
  assert (Hperm : draft_AddAndSort l [] ≡ₚ l).
  { unfold draft_AddAndSort, sortMigrations. rewrite WithPrefix_empty. apply merge_sort_Permutation. }
  destruct l as [|x l].
  { apply Permutation_nil_r in Hperm. rewrite Hperm in Hm. destruct via; [by rewrite Hm|]. simplify_eq. eauto. }
  destruct (draft_AddAndSort (x :: l) []) as [|y ys] eqn:Hd; [by apply Permutation_nil_cons in Hperm|].
  destruct d.
  - split; [exact Hm|]. intros recorded Hrec -> mm Hmm. subst m.
    eapply (Up_complete _ recorded); [exact Hm|]. simpl. by rewrite Hperm.
  - destruct via; [by rewrite Hm|]. simplify_eq. eauto.
Qed.
End DbMigrate.
