(* ===== verification/OasValidation.v ===== *)
(** * Validation of requests and responses

    [src/middleware/oas-validation.go] and [capture-response-body.go]: the middleware that checks
    requests and answers against the OpenAPI description, and holds an answer back until it is
    checked; [src/controllers/kill.go].

    Finding a route and judging a request or an answer are the OpenAPI library's and are arguments.
    Of gin the context is modelled: the status, the writer, the errors, whether the chain is
    aborted; the handlers behind the middleware are any function of it. *)

From S2P Require Import Prelude.

(** ** gin's context *)

(** The errors the handlers tell apart with [errors.As] *)
Inductive oas_error := RouteError | RequestError | ResponseError | ParseError | OtherError.
(** [CapturedW]: a [bodyCapture] around the real writer, with what it holds. *)
Inductive writer := RealW | CapturedW (passThrough : bool) (body : string).
(** [g_sent]: what was written to the real writer, call by call *)
Record gin := MkGin {
  g_status : Z; g_writer : writer; g_sent : list string; g_errors : list oas_error; g_aborted : bool }.

Definition send (s : string) (g : gin) : gin :=
  MkGin (g_status g) (g_writer g) (g_sent g ++ [s]) (g_errors g) (g_aborted g).
Definition set_writer (w : writer) (g : gin) : gin :=
  MkGin (g_status g) w (g_sent g) (g_errors g) (g_aborted g).
(** [bodyCapture.Write], [WriteString], or the real writer's *)
Definition Write (s : string) (g : gin) : gin :=
  match g_writer g with
  | RealW => send s g
  | CapturedW passThrough body =>
      let g := set_writer (CapturedW passThrough (body +:+ s)) g in
      if passThrough then send s g else g
  end.
Definition Status (z : Z) (g : gin) : gin := MkGin z (g_writer g) (g_sent g) (g_errors g) (g_aborted g).
Definition add_error (e : oas_error) (g : gin) : gin :=
  MkGin (g_status g) (g_writer g) (g_sent g) (g_errors g ++ [e]) (g_aborted g).
Definition Abort (g : gin) : gin := MkGin (g_status g) (g_writer g) (g_sent g) (g_errors g) true.
Definition AbortWithStatusJSON (z : Z) (json : string) (g : gin) : gin := Write json (Status z (Abort g)).

(** [captured]: the bytes the capture holds. *)
Definition captured (g : gin) : string := match g_writer g with CapturedW _ body => body | RealW => EmptyString end.
Definition CaptureResponseBody (passThrough : bool) (g : gin) : gin := set_writer (CapturedW passThrough EmptyString) g.

(** ** The middleware *)

(** What is run for an error; the JSON of its answer is [text]. *)
Definition DefaultOASErrorHandler (text : oas_error → string) (e : oas_error) (g : gin) : gin :=
  let g := add_error e g in
  match e with
  | RouteError => AbortWithStatusJSON 404 (text e) g
  | RequestError => AbortWithStatusJSON 400 (text e) g
  | ResponseError => AbortWithStatusJSON 500 (text e) g
  | ParseError | OtherError => AbortWithStatusJSON 400 (text e) g
  end.
Definition AllowUndefinedRoutes (handler : oas_error → gin → gin) (e : oas_error) (g : gin) : gin :=
  match e with RouteError => g | _ => handler e g end.

Section Validation.
(** What the OpenAPI library says of the request, and of an answer by its status and body. *)
Context (route request : option oas_error) (judge : Z → string → option oas_error).
Context (validateResponse : bool) (errorHandler : oas_error → gin → gin).
(** The handlers behind the middleware, [None]: one of them panics. *)
Context (rest : gin → option gin).

(** A handler that returns without [Next] leaves it to gin to go on, unless it has aborted. *)
Definition go_on (g : gin) : option gin := if g_aborted g then Some g else rest g.

Definition WithOASValidation (g : gin) : option gin :=
  match route with
  | Some e => go_on (errorHandler e g)
  | None =>
      match request with
      | Some e => go_on (errorHandler e g)
      | None =>
          if negb validateResponse then go_on g
          else
            g ← rest (CaptureResponseBody false g);
            let body := captured g in
            if negb (bool_decide (g_errors g = [])) || g_aborted g then
              Some (if bool_decide (body = EmptyString) then g else send body g)
            else
              match judge (g_status g) body with
              | Some e => Some (errorHandler e (set_writer RealW g))
              | None =>
                  Some (if negb (bool_decide (g_status g = 204)) || negb (bool_decide (body = EmptyString))
                        then send body g else g)
              end
      end
  end.
End Validation.

(** ** Stopping the process *)

Definition Millisecond_ : Z := 1000000.
(** The answer, and the shutdown that follows: after how long, with which exit code. *)
Definition HandleKill (g : gin) : gin * (Z * Z) := (Write "Goodbye cruel world!" (Status 200 g), (0, 1)).
Definition HandleShutdown (g : gin) : gin * (Z * Z) :=
  (Write "Daisy, Daisy, Give me your answer, do!" (Status 200 g), (10 * Millisecond_, 0)).

(** ** What the client gets *)

(** What handlers do through the context: [script] is what they write. *)
Inductive action := AWrite (s : string) | AStatus (z : Z) | AError (e : oas_error) | AAbort.
Definition perform (a : action) (g : gin) : gin :=
  match a with AWrite s => Write s g | AStatus z => Status z g | AError e => add_error e g | AAbort => Abort g end.
Definition perform_all (l : list action) (g : gin) : gin := foldl (λ g a, perform a g) g l.
Definition written (l : list action) : string :=
  foldr (λ a s, match a with AWrite x => x +:+ s | _ => s end) EmptyString l.

Record same_but_body (g g' : gin) : Prop := {
  sb_status : g_status g' = g_status g; sb_errors : g_errors g' = g_errors g; sb_aborted : g_aborted g' = g_aborted g }.

#[export] Instance same_but_body_trans : Transitive same_but_body.
Proof. intros x y z [] []. split; congruence. Qed.
Lemma perform_same a x y : same_but_body x y → same_but_body (perform a x) (perform a y).
Proof. intros []. destruct a; unfold perform, Write; repeat case_match; split; simpl; congruence. Qed.
Lemma perform_all_same l x y : same_but_body x y → same_but_body (perform_all l x) (perform_all l y).
Proof. revert x y. induction l as [|a l IH]; intros x y H; [done|]. by apply IH, perform_same. Qed.

Lemma append_empty (s : string) : s +:+ EmptyString = s.
Proof. induction s as [|c s IH]; [done|]. change (String c (s +:+ EmptyString) = String c s). by rewrite IH. Qed.

(** Behind a capture the handlers act as in front of the real writer, but nothing is sent. *)
Lemma perform_captured l g body :
  g_writer g = CapturedW false body →
  g_writer (perform_all l g) = CapturedW false (body +:+ written l) ∧ g_sent (perform_all l g) = g_sent g.
Proof.
  revert g body. induction l as [|a l IH]; intros g body Hg.
  - change (g_writer g = CapturedW false (body +:+ EmptyString) ∧ g_sent g = g_sent g). by rewrite append_empty.
  - change (perform_all (a :: l) g) with (perform_all l (perform a g)).
    assert (Hstep : ∃ body', g_writer (perform a g) = CapturedW false body' ∧
      body' +:+ written l = body +:+ written (a :: l) ∧ g_sent (perform a g) = g_sent g).
    { destruct a; simpl; unfold Write; rewrite ?Hg; simpl; eexists; split_and!; try done. by rewrite string_app_assoc. }
    destruct Hstep as (body' & Hw & Hb & Hs). destruct (IH _ _ Hw) as [H1 H2]. by rewrite H1, H2, Hs, Hb.
Qed.
Lemma same_captured g : same_but_body g (CaptureResponseBody false g).
Proof. by split. Qed.

(** With the answers validated, whatever the handlers do through the context: the client gets
    what they wrote in one piece, with their status, if they report an error or the answer is
    as described (nothing for an empty one that is in order and has status 204); otherwise it gets
    the answer of the error handler only, and none of what they wrote. *)
Theorem validated_answer judge handler l g :
  g_writer g = RealW → g_sent g = [] → g_errors g = [] → g_aborted g = false →
  let plain := perform_all l g in
  ∃ g', WithOASValidation None None judge true handler (λ g, Some (perform_all l g)) g = Some g' ∧
  if negb (bool_decide (g_errors plain = [])) || g_aborted plain then
    g_status g' = g_status plain ∧ g_errors g' = g_errors plain ∧
    g_sent g' = if bool_decide (written l = EmptyString) then [] else [written l]
  else
    match judge (g_status plain) (written l) with
    | None => g_status g' = g_status plain ∧ g_errors g' = [] ∧
        g_sent g' = if bool_decide (g_status plain = 204) && bool_decide (written l = EmptyString) then [] else [written l]
    | Some e => ∃ g0, g' = handler e g0 ∧ g_writer g0 = RealW ∧ g_sent g0 = [] ∧ g_status g0 = g_status plain
    end.
Proof.
  intros Hw Hs He Ha plain. unfold WithOASValidation. simpl. set (g1 := perform_all l _).
  destruct (perform_captured l (CaptureResponseBody false g) EmptyString eq_refl) as [Hb Hsent].
  fold g1 in Hb, Hsent. simpl in Hsent. rewrite Hs in Hsent.
  destruct (perform_all_same l _ _ (same_captured g)) as [H1 H2 H3]. fold plain g1 in H1, H2, H3.
  assert (captured g1 = written l) as -> by (unfold captured; by rewrite Hb). rewrite H2, H3.
  destruct (negb _ || g_aborted plain) eqn:Hc.
  - eexists. split; [done|]. destruct (bool_decide (written l = EmptyString)); simpl; by rewrite ?H1, ?H2, ?Hsent.
  - apply orb_false_iff in Hc as [Hc _]. apply negb_false_iff, bool_decide_eq_true in Hc. rewrite H1.
    destruct (judge _ _) as [e|]; (eexists; split; [done|]).
    + exists (set_writer RealW g1). by rewrite <- H1.
    + destruct (bool_decide (g_status plain = 204)), (bool_decide (written l = EmptyString)); simpl;
        by rewrite ?H1, ?H2, ?Hc, ?Hsent.
Qed.

(** A request that no route is described for is served as without the middleware, if undefined
    routes are allowed; one that is not as described is answered by the error handler, and the
    handlers do not run. *)
Theorem invalid_request judge validate text route request rest g :
  g_writer g = RealW → g_aborted g = false →
  let run := WithOASValidation route request judge validate
    (AllowUndefinedRoutes (DefaultOASErrorHandler text)) rest g in
  (route = Some RouteError → run = rest g) ∧
  (∀ e, route = None → request = Some e → e ≠ RouteError → ∃ g', run = Some g' ∧
     g_sent g' = g_sent g ++ [text e] ∧ g_aborted g' = true ∧ g_errors g' = g_errors g ++ [e] ∧
     (g_status g' = 400 ∨ g_status g' = 500)).
Proof.
  intros Hw Ha run. subst run. unfold WithOASValidation, go_on. split.
  - intros ->. simpl. by rewrite Ha.
  - intros e -> -> Hne. destruct e; try done; simpl; unfold AbortWithStatusJSON, Write; simpl; rewrite Hw;
      eexists; split_and!; try done; auto.
Qed.

(** The capture stays in place when the answer was passed on: what a middleware further out
    writes after that does not reach the client. *)
Example later_writes_lost :
  (Write "late" <$> WithOASValidation None None (λ _ _, None) true (λ _ g, g) (λ g, Some (perform (AError OtherError) g))
    (MkGin 200 RealW [] [] false)) = Some (MkGin 200 (CapturedW false "late") [] [OtherError] false).
Proof. reflexivity. Qed.
