(* ===== verification/JsClient.v ===== *)
(** * The compatibility clients

    [src/internal/ts-compat/src/smoke.ts] and [stress.ts], the two programs that drive the
    service through the Node client library.  The library is a parameter: what a call answers
    and what becomes of the library's state.  A [main] is a computation that awaits; while it
    does, the event loop runs the handlers the program registered.  Which events happen, and
    when an awaited call is answered, is a script the computation reads. *)

From S2P Require Import Prelude.

(** ** The library *)

Record js_error := MkJsError { code : option Z; message_text : string }.
#[export] Instance js_error_eq_dec : EqDecision js_error.
Proof. solve_decision. Defined.

Record sub_metadata := MkSubMeta {
  sm_enableMessageOrdering : bool; sm_labels : option (gmap string string);
  sm_minimumBackoff : Z * Z  (* seconds, nanos *) }.

(** The awaited calls of the two programs. *)
Inductive libcall :=
  | CallGetTopics | CallGetSubscriptions
  | CallCreateTopic (id : string)
  | CallTopicGet (id : string) (autoCreate : bool)
  | CallTopicSetMetadata (id : string) (labels : gmap string string)
  | CallSubGet (topic id : string) (autoCreate : bool)
  | CallSubSetMetadata (id : string) (m : sub_metadata)
  | CallPublish (topic : string) (json attributes : gmap string string)
  | CallSubDelete (id : string) | CallTopicDelete (id : string)
  | CallSubClose (id : string) | CallClientClose.

(** What the answers carry: a number of rows, the labels of the metadata, a message id. *)
Inductive reply :=
  | NoReply | Count (n : nat) | Labels (l : option (gmap string string)) | MessageID (id : string).

(** [data_toString]: the [Buffer]'s UTF-8 decoding. *)
Class PubSubLib := {
  lib : Type;
  answer : libcall → lib → (js_error + reply) * lib;
  data_toString : list N → string }.

(** The publish time is a [PreciseDate], in nanoseconds. *)
Record Message := MkMsg {
  ms_id : string; ms_ackId : string; ms_attributes : gmap string string; ms_deliveryAttempt : Z;
  ms_orderingKey : option string; ms_publishTime : Z; ms_data : list N }.
Record trimmed := MkTrimmed {
  tm_id : string; tm_ackId : string; tm_attributes : gmap string string; tm_deliveryAttempt : Z;
  tm_orderingKey : option string; tm_publishTime : Z; tm_data : string }.

(** [new Date(d)] keeps whole milliseconds. *)
Definition trimMsg {L : PubSubLib} (message : Message) : trimmed :=
  MkTrimmed (ms_id message) (ms_ackId message) (ms_attributes message) (ms_deliveryAttempt message)
    (ms_orderingKey message) (ms_publishTime message / 1000000) (data_toString (ms_data message)).

(** ** Console *)

Inductive part := Str (s : string) | Num (z : Z) | Flag (b : bool) | Msg (m : trimmed) | Ratio (n d : Z).
Inductive line := Log (parts : list part) | LogError (e : js_error) | ConsoleError (e : js_error).

(** ** The machine *)

(** What the event loop does next: answer the awaited call, or deliver an event. *)
Inductive item (Ev : Type) := Answered | Event (e : Ev).
Arguments Answered {Ev}.
Arguments Event {Ev} e.

Section Machine.
Context {L : PubSubLib} {H Ev : Type}.
(** The registered handlers; [None]: the event loop does not deliver this event now. *)
Context (handle : Ev → H → option (H * list line)).

Record js := MkJs {
  j_lib : lib; j_calls : list libcall; j_console : list line; j_h : H; j_script : list (item Ev) }.

(** [None]: the script ends, or is not one the event loop can follow. *)
Definition Js (A : Type) : Type := js → option ((js_error + A) * js).

#[export] Instance Js_ret : MRet Js := λ A a s, Some (inr a, s).
#[export] Instance Js_bind : MBind Js := λ A B f m s,
  match m s with
  | Some (inr a, s') => f a s'
  | Some (inl e, s') => Some (inl e, s')
  | None => None
  end.

Definition print (l : line) : Js () := λ s,
  Some (inr (), MkJs (j_lib s) (j_calls s) (j_console s ++ [l]) (j_h s) (j_script s)).
Definition console_log (parts : list part) : Js () := print (Log parts).
Definition throw {A} (e : js_error) : Js A := λ s, Some (inl e, s).
Definition try_catch {A} (body : Js A) (handler : js_error → Js A) : Js A := λ s,
  match body s with Some (inl e, s') => handler e s' | r => r end.
(** What [last] throws replaces the body's completion. *)
Definition finally_ {A} (body : Js A) (last : Js ()) : Js A := λ s,
  match body s with
  | Some (r, s') =>
      match last s' with
      | Some (inr _, s'') => Some (r, s'')
      | Some (inl e, s'') => Some (inl e, s'')
      | None => None
      end
  | None => None
  end.
Definition h_gets {A} (f : H → A) : Js A := λ s, Some (inr (f (j_h s)), s).
Definition h_modify (f : H → H) : Js () := λ s,
  Some (inr (), MkJs (j_lib s) (j_calls s) (j_console s) (f (j_h s)) (j_script s)).

(** Handlers run until the awaited call is answered. *)
Fixpoint until_answered (script : list (item Ev)) (h : H) (out : list line)
  : option (H * list line * list (item Ev)) :=
  match script with
  | [] => None
  | Answered :: script => Some (h, out, script)
  | Event e :: script =>
      match handle e h with
      | Some (h', ls) => until_answered script h' (out ++ ls)
      | None => None
      end
  end.

Definition call (c : libcall) : Js reply := λ s,
  match until_answered (j_script s) (j_h s) (j_console s) with
  | Some (h, out, script) =>
      let '(r, l) := answer c (j_lib s) in Some (r, MkJs l (j_calls s ++ [c]) out h script)
  | None => None
  end.

(** Handlers run until a promise they settle is settled. *)
Fixpoint until_settled {A} (settled : H → option A) (script : list (item Ev)) (h : H) (out : list line)
  : option (A * H * list line * list (item Ev)) :=
  match settled h with
  | Some a => Some (a, h, out, script)
  | None =>
      match script with
      | Event e :: script =>
          match handle e h with
          | Some (h', ls) => until_settled settled script h' (out ++ ls)
          | None => None
          end
      | _ => None
      end
  end.

Definition await {A} (settled : H → option (js_error + A)) : Js A := λ s,
  match until_settled settled (j_script s) (j_h s) (j_console s) with
  | Some (r, h, out, script) => Some (r, MkJs (j_lib s) (j_calls s) out h script)
  | None => None
  end.

(** [main().catch((err) => console.log(err))] *)
Definition run_main (main : Js ()) : Js () := try_catch main (λ err, print (LogError err)).
End Machine.

Definition count_of (r : reply) : Z := match r with Count n => Z.of_nat n | _ => 0 end.
Definition labels_of (r : reply) : gmap string string :=
  match r with Labels (Some l) => l | _ => ∅ end.
Definition id_of (r : reply) : string := match r with MessageID i => i | _ => EmptyString end.

(** ["ts-stress-" + Math.random().toString().substr(2)] *)
Definition make_id (random : string) : string :=
  "ts-stress-" +:+ String.substring 2 (String.length random - 2) random.

(** ** smoke.ts *)

(** The state the handlers share: the clock, the timer that resolves [msgsP], the handlers
    that sleep before they acknowledge. *)
Record smoke_state := MkSmoke {
  sm_now : Z; sm_listening : bool; sm_timer : option Z; sm_resolved : bool; sm_gotError : bool;
  sm_pending : list (Z * Message); sm_received : list Message; sm_acked : list Message }.

Inductive smoke_event :=
  | Tick (now : Z)
  | OnMessage (message : Message) (delay : Z)
  | Wake (k : nat)       (* the [k]th sleeping handler goes on *)
  | Fire                 (* the timer fires *)
  | OnError (err : js_error).

Definition msg_timeout : Z := 1100.
(** [refresh()] restarts a timer, also one that has fired. *)
Definition refresh (h : smoke_state) : smoke_state :=
  MkSmoke (sm_now h) (sm_listening h) (Some (sm_now h + msg_timeout)) (sm_resolved h) (sm_gotError h)
    (sm_pending h) (sm_received h) (sm_acked h).

Definition no_later (d : Z) (o : option Z) : bool := match o with Some t => d <=? t | None => true end.
Definition first_due (d : Z) (h : smoke_state) : bool := forallb (λ p, d <=? p.1) (sm_pending h).

(** A timer fires no earlier than it is due, and the one due first goes first.
    [sleep(1000 * Math.random())] takes a whole number of milliseconds from 1 to 999. *)
Definition smoke_handle {L : PubSubLib} (ev : smoke_event) (h : smoke_state)
  : option (smoke_state * list line) :=
  match ev with
  | Tick now =>
      if sm_now h <=? now then
        Some (MkSmoke now (sm_listening h) (sm_timer h) (sm_resolved h) (sm_gotError h)
          (sm_pending h) (sm_received h) (sm_acked h), [])
      else None
  | OnMessage message delay =>
      if sm_listening h && (1 <=? delay) && (delay <=? 999) then
        let h := refresh h in
        Some (MkSmoke (sm_now h) (sm_listening h) (sm_timer h) (sm_resolved h) (sm_gotError h)
          (sm_pending h ++ [(sm_now h + delay, message)]) (sm_received h ++ [message]) (sm_acked h),
          [Log [Str "received"; Msg (trimMsg message)]])
      else None
  | Wake k =>
      match sm_pending h !! k with
      | Some (due, message) =>
          if (due <=? sm_now h) && first_due due h && no_later due (sm_timer h) then
            let h := refresh h in
            Some (MkSmoke (sm_now h) (sm_listening h) (sm_timer h) (sm_resolved h) (sm_gotError h)
              (delete k (sm_pending h)) (sm_received h) (sm_acked h ++ [message]),
              [Log [Str "ack"; Msg (trimMsg message)]])
          else None
      | None => None
      end
  | Fire =>
      match sm_timer h with
      | Some due =>
          if (due <=? sm_now h) && first_due due h then
            Some (MkSmoke (sm_now h) (sm_listening h) None true (sm_gotError h)
              (sm_pending h) (sm_received h) (sm_acked h), [])
          else None
      | None => None
      end
  | OnError err =>
      if sm_listening h then
        Some (MkSmoke (sm_now h) (sm_listening h) (sm_timer h) (sm_resolved h) true
          (sm_pending h) (sm_received h) (sm_acked h), [ConsoleError err])
      else None
  end.

(** [msgsP] is created and the two listeners are registered. *)
Definition start_listening (h : smoke_state) : smoke_state :=
  let h := refresh h in
  MkSmoke (sm_now h) true (sm_timer h) (sm_resolved h) (sm_gotError h) (sm_pending h)
    (sm_received h) (sm_acked h).

Section Smoke.
Context {L : PubSubLib}.
Notation Js := (Js (H := smoke_state) (Ev := smoke_event)).
Notation call := (call smoke_handle).
Notation await := (await smoke_handle).

(** The random number and the clock readings, as the strings they are made into. *)
Record smoke_inputs := MkInputs {
  si_random : string; si_topic_now : string; si_sub_now : string; si_attr1 : string }.

(** The block that tolerates an existing topic. *)
Definition create_twice (id : string) : Js () :=
  try_catch (call (CallCreateTopic id) ≫= λ _, call (CallCreateTopic id) ≫= λ _, mret ())
    (λ err, if bool_decide (code err = Some 6) then mret () else print (ConsoleError err)).

Definition sleep (ms : Z) : Js () :=
  h_gets sm_now ≫= λ start,
  await (λ h, if start + ms <=? sm_now h then Some (inr ()) else None).

Definition smoke_main (i : smoke_inputs) : Js () :=
  call CallGetTopics ≫= λ topics,
  console_log [Str "Num topics:"; Num (count_of topics)] ≫= λ _,
  call CallGetSubscriptions ≫= λ subs,
  console_log [Str "Num subs:"; Num (count_of subs)] ≫= λ _,
  let id := make_id (si_random i) in
  create_twice id ≫= λ _,
  call (CallTopicGet id true) ≫= λ t,
  call (CallTopicSetMetadata id (<["b" := si_topic_now i]> (labels_of t))) ≫= λ _,
  call (CallSubGet id id true) ≫= λ s,
  call (CallSubSetMetadata id (MkSubMeta true (Some (<["b" := si_sub_now i]> (labels_of s)))
    (1, 500000000))) ≫= λ _,
  h_modify start_listening ≫= λ _,
  call (CallPublish id {["hello" := "world"]} {["attr1" := si_attr1 i]}) ≫= λ msgID,
  console_log [Str "Published messageID:"; Str (id_of msgID)] ≫= λ _,
  await (λ h, if sm_resolved h then Some (inr ()) else None) ≫= λ _,
  console_log [Str "deleting sub, expect 'Not found' error:"] ≫= λ _,
  call (CallSubDelete id) ≫= λ _,
  sleep 100 ≫= λ _,
  h_gets sm_gotError ≫= λ gotError,
  console_log [Str "got expected error?"; Flag gotError] ≫= λ _,
  call (CallTopicDelete id) ≫= λ _,
  call (CallSubClose id) ≫= λ _,
  call CallClientClose ≫= λ _, mret ().
End Smoke.

(** ** stress.ts *)

Inductive promise := Pending | Fulfilled | Rejected (e : js_error).
#[export] Instance promise_eq_dec : EqDecision promise.
Proof. solve_decision. Defined.
(** A promise settles once. *)
Definition resolve (p : promise) : promise := match p with Pending => Fulfilled | _ => p end.
Definition reject (e : js_error) (p : promise) : promise := match p with Pending => Rejected e | _ => p end.

(** [st_start]: the clock when the publishing started; the listeners are registered just
    before. *)
Record stress_state := MkStress {
  st_now : Z; st_start : option Z; numSent : nat; numReceived : nat;
  publishing : nat (* calls not answered yet *); publishP : promise; doneP : promise;
  st_acked : list Message }.

Inductive stress_event :=
  | StressTick (now : Z)
  | StressMessage (message : Message)
  | StressError (err : js_error)
  | Published                          (* one [publishJSON] is answered *)
  | PublishFailed (err : js_error).

Definition numMessages : nat := 5000.

(** [if (n >= numMessages) all else if (n % 1000 === 0) progress] *)
Definition progress (n : nat) (all progress : line) : list line :=
  if (numMessages <=? n)%nat then [all] else if (n `mod` 1000 =? 0)%nat then [progress] else [].

Definition stress_handle (ev : stress_event) (h : stress_state) : option (stress_state * list line) :=
  let '(MkStress now start sent received publishing publishP doneP acked) := h in
  match ev, start with
  | StressTick now', _ =>
      if now <=? now' then Some (MkStress now' start sent received publishing publishP doneP acked, [])
      else None
  | StressMessage message, Some start =>
      let n := S received in
      Some (MkStress now (Some start) sent n publishing publishP
        (if (numMessages <=? n)%nat then resolve doneP else doneP) (acked ++ [message]),
        progress n (Log [Str "all received"])
          (Log [Str "received"; Num (Z.of_nat n); Ratio (now - start) (Z.of_nat n); Str "ms/msg"]))
  | StressError err, Some start =>
      Some (MkStress now (Some start) sent received publishing publishP (reject err doneP) acked, [])
  | Published, Some start =>
      match publishing with
      | O => None
      | S rest =>
          let n := S sent in
          Some (MkStress now (Some start) n received rest
            (match rest with O => resolve publishP | _ => publishP end) doneP acked,
            progress n (Log [Str "all sent"]) (Log [Str "sent"; Num (Z.of_nat n)]))
      end
  | PublishFailed err, Some start =>
      match publishing with
      | O => None
      | S rest => Some (MkStress now (Some start) sent received rest (reject err publishP) doneP acked, [])
      end
  | _, None => None
  end.

(** [Promise.all([publishP, doneP])] *)
Definition all_settled (h : stress_state) : option (js_error + ()) :=
  match publishP h, doneP h with
  | Rejected e, _ => Some (inl e)
  | _, Rejected e => Some (inl e)
  | Fulfilled, Fulfilled => Some (inr ())
  | _, _ => None
  end.

Definition start_publishing (h : stress_state) : stress_state :=
  MkStress (st_now h) (Some (st_now h)) 0 0 numMessages Pending Pending [].

Section Stress.
Context {L : PubSubLib}.
Notation Js := (Js (H := stress_state) (Ev := stress_event)).
Notation call := (call stress_handle).

(** [Promise.all([a, b])] of two calls: both are made, the first error is thrown. *)
Definition both (a b : Js reply) : Js () :=
  try_catch a (λ e, try_catch b (λ _, throw e) ≫= λ _, throw e) ≫= λ _, b ≫= λ _, mret ().

Definition stress_main (random : string) : Js () :=
  let id := make_id random in
  call (CallTopicGet id true) ≫= λ _,
  call (CallSubGet id id true) ≫= λ _,
  call (CallSubSetMetadata id (MkSubMeta false None (1, 500000000))) ≫= λ _,
  h_modify start_publishing ≫= λ _,
  h_gets st_now ≫= λ start,
  finally_
    (try_catch
      (await stress_handle all_settled ≫= λ _,
       h_gets st_now ≫= λ end_,
       console_log [Str "took"; Num (end_ - start); Str "ms"] ≫= λ _,
       console_log [Ratio (end_ - start) (Z.of_nat numMessages); Str "ms/msg"])
      (λ err, print (ConsoleError err)))
    (both (call (CallSubDelete id)) (call (CallTopicDelete id))) ≫= λ _,
  h_gets (λ h, (numSent h, numReceived h)) ≫= λ n,
  console_log [Str "done"; Num (Z.of_nat numMessages); Num (Z.of_nat n.1); Num (Z.of_nat n.2)].
End Stress.

(** ** Handlers alone *)

Section Events.
Context {H Ev : Type} (handle : Ev → H → option (H * list line)).

Fixpoint run_events (evs : list Ev) (h : H) (out : list line) : option (H * list line) :=
  match evs with
  | [] => Some (h, out)
  | e :: evs => match handle e h with Some (h', ls) => run_events evs h' (out ++ ls) | None => None end
  end.

Lemma run_events_ind (I : H → Prop) evs h out h' out' :
  (∀ e h h' ls, I h → handle e h = Some (h', ls) → I h') →
  I h → run_events evs h out = Some (h', out') → I h'.
Proof.
  intros Hs. revert h out. induction evs as [|e evs IH]; intros h out Hi Hr; simpl in Hr.
  - by simplify_eq.
  - destruct (handle e h) as [[h1 ls]|] eqn:He; [|done]. eauto.
Qed.

(** Awaiting is running handlers. *)
Lemma until_answered_run script h out h' out' rest :
  until_answered handle script h out = Some (h', out', rest) →
  ∃ evs, script = (Event <$> evs) ++ Answered :: rest ∧ run_events evs h out = Some (h', out').
Proof.
  revert h out. induction script as [|[|e] script IH]; intros h out Hu; simpl in Hu; [done|..].
  - simplify_eq. by exists [].
  - destruct (handle e h) as [[h1 ls]|] eqn:He; [|done].
    destruct (IH _ _ Hu) as (evs & -> & Hr). exists (e :: evs). simpl. by rewrite He.
Qed.
Lemma until_settled_run {A} (settled : H → option A) script h out a h' out' rest :
  until_settled handle settled script h out = Some (a, h', out', rest) →
  settled h' = Some a ∧
  ∃ evs, script = (Event <$> evs) ++ rest ∧ run_events evs h out = Some (h', out').
Proof.
  revert h out. induction script as [|[|e] script IH]; intros h out Hu; simpl in Hu.
  - destruct (settled h) eqn:Hs; simplify_eq. split; [done|]. by exists [].
  - destruct (settled h) eqn:Hs; simplify_eq. split; [done|]. by exists [].
  - destruct (settled h) eqn:Hs; simplify_eq; [split; [done|]; by exists []|].
    destruct (handle e h) as [[h1 ls]|] eqn:He; [|done].
    destruct (IH _ _ Hu) as (? & evs & -> & Hr). split; [done|]. exists (e :: evs). simpl. by rewrite He.
Qed.
End Events.

Section Smoke_run.
Context {L : PubSubLib}.

(** Sleeping handlers wake within a second, the timer waits 1.1 s from the last activity. *)
Record smoke_inv (h : smoke_state) : Prop := {
  si_acked : sm_acked h ++ (sm_pending h).*2 ≡ₚ sm_received h;
  si_soon : ∀ p, p ∈ sm_pending h → p.1 ≤ sm_now h + 999;
  si_timer : sm_resolved h = false → ∃ d, sm_timer h = Some d ∧ ∀ p, p ∈ sm_pending h → p.1 < d }.

Lemma delete_perm {A} (l : list A) k x : l !! k = Some x → l ≡ₚ x :: delete k l.
Proof. intros Hk. by apply delete_Permutation. Qed.

Lemma smoke_handle_inv ev h h' ls :
  smoke_inv h → smoke_handle ev h = Some (h', ls) → smoke_inv h'.
Proof.
  intros [Ha Hs Ht] Hh. unfold smoke_handle, msg_timeout in Hh. destruct ev as [now|m delay|k| |err].
  - destruct (sm_now h <=? now) eqn:Hn; [|done]. simplify_eq. apply Z.leb_le in Hn.
    split; simpl; [done| |done]. intros p Hp. specialize (Hs p Hp). lia.
  - destruct (sm_listening h && (1 <=? delay) && (delay <=? 999)) eqn:Hg; [|done]. simplify_eq.
    bool_props. split; simpl.
    + rewrite fmap_app, (assoc_L (++)), Ha. done.
    + intros p [Hp|Hp]%elem_of_app; [by apply Hs|]. apply list_elem_of_singleton in Hp as ->. simpl. lia.
    + intros _. eexists. split; [done|]. unfold msg_timeout. intros p [Hp|Hp]%elem_of_app.
      * specialize (Hs p Hp). lia.
      * apply list_elem_of_singleton in Hp as ->. simpl. lia.
  - destruct (sm_pending h !! k) as [[due m]|] eqn:Hk; [|done].
    destruct (_ && _ && _) eqn:Hg; [|done]. simplify_eq. pose proof (delete_perm _ _ _ Hk) as Hp.
    assert (Hin : ∀ p, p ∈ delete k (sm_pending h) → p ∈ sm_pending h).
    { intros p Hp'. rewrite Hp. by right. }
    split; simpl.
    + rewrite <- Ha, <- (assoc_L (++)). apply Permutation_app_head.
      by rewrite (fmap_Permutation snd _ _ Hp).
    + intros p Hp'. by apply Hs, Hin.
    + intros _. eexists. split; [done|]. unfold msg_timeout. intros p Hp'. specialize (Hs p (Hin p Hp')). lia.
  - destruct (sm_timer h) as [d|]; [|done]. destruct (_ && _); [|done]. simplify_eq. by split.
  - destruct (sm_listening h); [|done]. simplify_eq. by split.
Qed.

Lemma first_due_le d h p : first_due d h = true → p ∈ sm_pending h → d ≤ p.1.
Proof.
  unfold first_due. rewrite forallb_forall. intros Hf Hp%list_elem_of_In. by apply Z.leb_le, Hf.
Qed.

(** C40 The smoke test never stops waiting while a message it received is not
    acknowledged: from the moment it listens, after any events the loop can deliver, when the
    timer fires for the first time, no handler is asleep and every message received has
    been acknowledged exactly once. *)
Theorem smoke_acks_before_deleting h0 evs h ls h' ls' :
  sm_pending h0 = [] → sm_received h0 = [] → sm_acked h0 = [] →
  run_events smoke_handle evs (start_listening h0) [] = Some (h, ls) →
  sm_resolved h = false → smoke_handle Fire h = Some (h', ls') →
  sm_resolved h' = true ∧ sm_pending h' = [] ∧ sm_acked h' ≡ₚ sm_received h'.
Proof.
  intros Hp Hr Ha Hrun Hres Hf.
  assert (Hi : smoke_inv h).
  { eapply (run_events_ind smoke_handle smoke_inv); [|..|exact Hrun].
    - intros e h1 h2 ls1 Hi Hh. by eapply smoke_handle_inv.
    - split; simpl; rewrite ?Hp, ?Hr, ?Ha; [done|by intros p ?%elem_of_nil|].
      intros _. eexists. split; [done|]. by intros p ?%elem_of_nil. }
  destruct (si_timer _ Hi Hres) as (d & Hd & Hlt). unfold smoke_handle in Hf. rewrite Hd in Hf.
  destruct ((d <=? sm_now h) && first_due d h) eqn:Hg; [|done]. simplify_eq. bool_props. simpl.
  assert (Hnil : sm_pending h = []).
  { apply elem_of_nil_inv. intros p Hin. specialize (Hlt p Hin).
    assert (d ≤ p.1) by (by eapply first_due_le). lia. }
  split_and!; [done|done|]. rewrite <- (si_acked _ Hi), Hnil. simpl. by rewrite app_nil_r.
Qed.
End Smoke_run.

Section Machine_run.
Context {L : PubSubLib} {H Ev : Type} (handle : Ev → H → option (H * list line)).
Notation js := (js (H := H) (Ev := Ev)).
Notation Js := (Js (H := H) (Ev := Ev)).
Implicit Types (s : js).

Lemma js_bind_inr {A B} (m : Js A) (f : A → Js B) s b s' :
  (m ≫= f) s = Some (inr b, s') →
  ∃ a s1, m s = Some (inr a, s1) ∧ f a s1 = Some (inr b, s').
Proof. unfold mbind, Js_bind. destruct (m s) as [[[e|a] s1]|]; intros; simplify_eq. eauto. Qed.

(** What a step did to the calls made so far and to the handlers' state. *)
Lemma call_inv c s r s' :
  call handle c s = Some (r, s') →
  j_calls s' = j_calls s ++ [c] ∧
  ∃ evs out, run_events handle evs (j_h s) (j_console s) = Some (j_h s', out).
Proof.
  unfold call. destruct (until_answered _ _ _ _) as [[[h out] script]|] eqn:Hu; [|done].
  apply until_answered_run in Hu as (evs & _ & Hr). destruct (answer c _) as [r0 l]. intros. simplify_eq.
  simpl. split; [done|]. by exists evs, out.
Qed.
Lemma await_inv {A} (settled : H → option (js_error + A)) s r s' :
  await handle settled s = Some (r, s') →
  j_calls s' = j_calls s ∧ settled (j_h s') = Some r ∧
  ∃ evs out, run_events handle evs (j_h s) (j_console s) = Some (j_h s', out) ∧ out = j_console s'.
Proof.
  unfold await. destruct (until_settled _ _ _ _ _) as [[[[a h] out] script]|] eqn:Hu; [|done].
  apply until_settled_run in Hu as (Hs & evs & _ & Hr). intros. simplify_eq. simpl.
  split_and!; [done|done|]. by exists evs, out.
Qed.
Lemma print_inv l s r s' :
  print l s = Some (r, s') → r = inr () ∧ j_calls s' = j_calls s ∧ j_h s' = j_h s.
Proof. unfold print. intros. by simplify_eq. Qed.
Lemma h_gets_inv {A} (f : H → A) s (r : js_error + A) s' :
  h_gets f s = Some (r, s') → r = inr (f (j_h s)) ∧ s' = s.
Proof. unfold h_gets. intros. by simplify_eq. Qed.
Lemma h_modify_inv (f : H → H) s r s' :
  h_modify f s = Some (r, s') → r = inr () ∧ j_calls s' = j_calls s ∧ j_h s' = f (j_h s).
Proof. unfold h_modify. intros. by simplify_eq. Qed.
End Machine_run.

(** Take apart a run that did not throw. *)
Ltac js_inv := repeat match goal with
  | H : (_ ≫= _) _ = Some (inr _, _) |- _ =>
      let H' := fresh "H" in apply js_bind_inr in H as (? & ? & H' & H); cbv beta zeta in H
  | H : (console_log _) _ = Some (inr _, _) |- _ => apply print_inv in H as (_ & ? & ?)
  | H : (print _) _ = Some (inr _, _) |- _ => apply print_inv in H as (_ & ? & ?)
  | H : (h_modify _) _ = Some (inr _, _) |- _ => apply h_modify_inv in H as (_ & ? & ?)
  | H : (mret _) _ = Some (inr _, _) |- _ => unfold mret, Js_ret in H; simplify_eq
  end.

Section Smoke_calls.
Context {L : PubSubLib}.

Lemma resolved_stays evs h out h' out' :
  sm_resolved h = true → run_events smoke_handle evs h out = Some (h', out') → sm_resolved h' = true.
Proof.
  intros Hr. apply (run_events_ind smoke_handle (λ h, sm_resolved h = true)); [|done].
  intros e h1 h2 ls H1 Hh. unfold smoke_handle in Hh. repeat case_match; by simplify_eq.
Qed.

Lemma create_twice_run id s r s' :
  create_twice id s = Some (r, s') →
  r = inr () ∧ ∃ n, (n = 1 ∨ n = 2)%nat ∧ j_calls s' = j_calls s ++ replicate n (CallCreateTopic id).
Proof.
  unfold create_twice, try_catch, mbind, Js_bind.
  destruct (call smoke_handle (CallCreateTopic id) s) as [[[e|a] s1]|] eqn:H1; [| |done].
  - apply call_inv in H1 as [H1 _]. intros Hr.
    assert (r = inr () ∧ j_calls s' = j_calls s1) as [-> ->].
    { destruct (bool_decide _); [by unfold mret, Js_ret in Hr; simplify_eq|].
      apply print_inv in Hr. naive_solver. }
    split; [done|]. exists 1%nat. split; [by left|done].
  - destruct (call smoke_handle (CallCreateTopic id) s1) as [[[e|a'] s2]|] eqn:H2; [| |done];
      apply call_inv in H1 as [H1 _]; apply call_inv in H2 as [H2 _]; intros Hr.
    + assert (r = inr () ∧ j_calls s' = j_calls s2) as [-> ->].
      { destruct (bool_decide _); [by unfold mret, Js_ret in Hr; simplify_eq|].
        apply print_inv in Hr. naive_solver. }
      split; [done|]. exists 2%nat. split; [by right|]. rewrite H2, H1. by rewrite <- (assoc_L (++)).
    + unfold mret, Js_ret in Hr. simplify_eq. split; [done|]. exists 2%nat. split; [by right|].
      rewrite H2, H1. by rewrite <- (assoc_L (++)).
Qed.

(** A run of the smoke test that does not throw made exactly these calls in
    this order: it listed, created its topic (once, or twice if the first creation
    succeeded; an error there never ends the run), got topic and subscription with
    auto-creation, put the label ["b"] next to the existing labels, published one message,
    and, only when the timer had resolved, deleted what it created and closed. *)
Theorem smoke_main_calls i s s' :
  smoke_main i s = Some (inr (), s') →
  let id := make_id (si_random i) in
  ∃ n lt ls, (n = 1 ∨ n = 2)%nat ∧
    j_calls s' = j_calls s ++ [CallGetTopics; CallGetSubscriptions]
      ++ replicate n (CallCreateTopic id)
      ++ [CallTopicGet id true; CallTopicSetMetadata id (<["b" := si_topic_now i]> lt);
          CallSubGet id id true;
          CallSubSetMetadata id (MkSubMeta true (Some (<["b" := si_sub_now i]> ls)) (1, 500000000));
          CallPublish id {["hello" := "world"]} {["attr1" := si_attr1 i]};
          CallSubDelete id; CallTopicDelete id; CallSubClose id; CallClientClose] ∧
    sm_resolved (j_h s') = true.
Proof.
  intros Hm id. unfold smoke_main, sleep in Hm. fold id in Hm. js_inv.
  repeat match goal with
  | H : create_twice _ _ = _ |- _ => apply create_twice_run in H as (_ & n & Hn & ?)
  | H : call _ _ _ = _ |- _ => apply call_inv in H as [? (? & ? & ?)]
  | H : await _ _ _ = _ |- _ => apply await_inv in H as (? & ? & ? & ? & ? & _)
  | H : h_gets _ _ = _ |- _ => apply h_gets_inv in H as [_ ->]
  end.
  exists n. do 2 eexists. split; [exact Hn|]. split.
  - repeat match goal with H : j_calls ?s = _ |- context [j_calls ?s] => rewrite H; clear H end.
    rewrite <- !(assoc_L (++)). reflexivity.
  - repeat match goal with H : (if sm_resolved ?h then _ else _) = Some _ |- _ =>
      destruct (sm_resolved h) eqn:?; [clear H|done] end.
    repeat match goal with H : sm_resolved (j_h ?x) = true, H' : run_events _ _ (j_h ?x) _ = Some _ |- _ =>
      apply (resolved_stays _ _ _ _ _ H) in H' | H : sm_resolved (j_h ?x) = true, H' : j_h _ = j_h ?x |- _ =>
      rewrite <- H' in H end; done.
Qed.
End Smoke_calls.

Section Stress_run.
Context {L : PubSubLib}.

Definition is_message (e : stress_event) : bool := match e with StressMessage _ => true | _ => false end.
Definition is_published (e : stress_event) : bool := match e with Published => true | _ => false end.
Definition is_failure (e : stress_event) : bool := match e with PublishFailed _ => true | _ => false end.
Definition count (f : stress_event → bool) (evs : list stress_event) : nat := length (filter f evs).
Definition messages_of (evs : list stress_event) : list Message :=
  omap (λ e, match e with StressMessage m => Some m | _ => None end) evs.

(** The errors that may end the run: those of the subscription and of a publish call. *)
Definition error_of (e : stress_event) : option js_error :=
  match e with StressError err | PublishFailed err => Some err | _ => None end.

(** The state after [evs] since the publishing started. *)
Record stress_inv (evs : list stress_event) (h : stress_state) : Prop := {
  sv_start : is_Some (st_start h);
  sv_received : numReceived h = count is_message evs;
  sv_acked : st_acked h = messages_of evs;
  sv_sent : numSent h = count is_published evs;
  sv_left : (numSent h + count is_failure evs + publishing h = numMessages)%nat;
  sv_done : doneP h = Fulfilled → (numMessages ≤ numReceived h)%nat;
  sv_publish : publishP h = Fulfilled → publishing h = 0%nat ∧ count is_failure evs = 0%nat;
  sv_rejected : ∀ e, doneP h = Rejected e ∨ publishP h = Rejected e → ∃ ev, ev ∈ evs ∧ error_of ev = Some e;
  sv_pending : publishP h = Pending → count is_failure evs = 0%nat ∧ (0 < publishing h)%nat;
  sv_more : doneP h = Pending → (numReceived h < numMessages)%nat }.

Lemma count_app f evs e : count f (evs ++ [e]) = (count f evs + if f e then 1 else 0)%nat.
Proof.
  unfold count. rewrite filter_app, length_app, filter_cons. destruct (decide (f e)) as [Hf|Hf].
  - rewrite (Is_true_true_1 _ Hf). done.
  - apply not_true_is_false in Hf || idtac. by destruct (f e).
Qed.
Lemma messages_app evs e :
  messages_of (evs ++ [e]) = messages_of evs ++ match e with StressMessage m => [m] | _ => [] end.
Proof. unfold messages_of. rewrite omap_app. by destruct e. Qed.

#[local] Opaque numMessages.

Lemma numMessages_pos : (0 < numMessages)%nat.
Proof. apply Nat.ltb_lt. vm_compute. reflexivity. Qed.

Lemma stress_start_inv h : stress_inv [] (start_publishing h).
Proof.
  split; simpl; try done; [by intros e [?|?]|intros _; split; [done|]|intros _]; apply numMessages_pos.
Qed.

Lemma stress_step_inv evs ev h h' ls :
  stress_inv evs h → stress_handle ev h = Some (h', ls) → stress_inv (evs ++ [ev]) h'.
Proof.
  intros [Hst Hr Ha Hs Hl Hd Hp Hrej Hpe Hm] Hh. destruct h as [now start sent received left pp dp acked].
  assert (Hin : ∀ e, dp = Rejected e ∨ pp = Rejected e → ∃ x, x ∈ evs ++ [ev] ∧ error_of x = Some e).
  { intros e He. destruct (Hrej e He) as (x & Hx & ?). exists x. set_solver. }
  assert (Hnew : ev ∈ evs ++ [ev]) by set_solver.
  simpl in *. destruct start as [start|]; [|by destruct Hst].
  destruct ev as [now'|m|err| |err]; simpl in Hh.
  - destruct (now <=? now'); simplify_eq. split; rewrite ?count_app, ?messages_app; simpl;
      rewrite ?Nat.add_0_r, ?app_nil_r; done.
  - simplify_eq. split; rewrite ?count_app, ?messages_app; simpl; rewrite ?Nat.add_0_r; try done.
    + lia.
    + destruct (numMessages <=? _)%nat eqn:Hn; [apply Nat.leb_le in Hn|]; [done|].
      intros ?%Hd. lia.
    + intros e He. apply Hin. destruct He as [He|He]; [left|by right].
      destruct (numMessages <=? _)%nat; [by destruct dp|done].
    + destruct (numMessages <=? _)%nat eqn:Hn; [by destruct dp|]. apply Nat.leb_gt in Hn. lia.
  - simplify_eq. split; rewrite ?count_app, ?messages_app; simpl; rewrite ?Nat.add_0_r, ?app_nil_r; try done.
    + intros Hf. apply Hd. by destruct dp.
    + intros e [He|He]; [|by apply Hin; right]. destruct dp; simplify_eq/=; [by exists (StressError e)|].
      apply Hin. by left.
    + by destruct dp.
  - destruct left as [|left]; [done|]. simplify_eq.
    split; rewrite ?count_app, ?messages_app; simpl; rewrite ?Nat.add_0_r, ?app_nil_r; try done; try lia.
    + intros Hf. destruct left as [|left]; [|by destruct (Hp Hf)].
      split; [done|]. destruct pp; simplify_eq/=; [by apply Hpe|by apply Hp].
    + intros e [He|He]; apply Hin; [by left|right]. destruct left; [by destruct pp|done].
    + intros Hf. destruct left as [|left]; [by destruct pp|]. split; [by apply Hpe|lia].
  - destruct left as [|left]; [done|]. simplify_eq.
    split; rewrite ?count_app, ?messages_app; simpl; rewrite ?Nat.add_0_r, ?app_nil_r; try done; try lia.
    + intros Hf. destruct pp; simplify_eq/=. by destruct (Hp eq_refl).
    + intros e [He|He]; [apply Hin; by left|]. destruct pp; simplify_eq/=; [by exists (PublishFailed e)|].
      apply Hin. by right.
    + by destruct pp.
Qed.

Lemma stress_run_inv evs h0 out h out' :
  run_events stress_handle evs (start_publishing h0) out = Some (h, out') → stress_inv evs h.
Proof.
  assert (Hgen : ∀ pre h1 out, stress_inv pre h1 →
    run_events stress_handle evs h1 out = Some (h, out') → stress_inv (pre ++ evs) h).
  { induction evs as [|e evs IH]; intros pre h1 out1 Hi Hr; simpl in Hr.
    - rewrite app_nil_r. by simplify_eq.
    - destruct (stress_handle e h1) as [[h2 ls]|] eqn:He; [|done].
      replace (pre ++ e :: evs) with ((pre ++ [e]) ++ evs) by by rewrite <- (assoc_L (++)).
      eapply IH, Hr. by eapply stress_step_inv. }
  apply (Hgen []). apply stress_start_inv.
Qed.

(** C39 What the stress test waits for.  After any events since it started
    publishing: every message received was acknowledged, once per delivery, in the order
    received; the wait is over successfully only if all 5000 publish calls succeeded and at
    least 5000 deliveries arrived; it is over with an error only if that error was one of the
    subscription's or of a publish call; and if it is not over, a publish call is unanswered
    or fewer than 5000 deliveries arrived. *)
Theorem stress_waits evs h0 h out :
  run_events stress_handle evs (start_publishing h0) [] = Some (h, out) →
  st_acked h = messages_of evs ∧ numReceived h = length (messages_of evs) ∧
  match all_settled h with
  | Some (inr _) => count is_published evs = numMessages ∧ count is_failure evs = 0%nat ∧
      (numMessages ≤ numReceived h)%nat
  | Some (inl e) => ∃ ev, ev ∈ evs ∧ error_of ev = Some e
  | None => (0 < publishing h)%nat ∨ (numReceived h < numMessages)%nat
  end.
Proof.
  intros Hr. pose proof (stress_run_inv _ _ _ _ _ Hr) as I. split; [apply I|]. split.
  { rewrite (sv_received _ _ I). unfold count, messages_of. clear.
    induction evs as [|e evs IH]; [done|]. rewrite filter_cons. destruct e; simpl; by rewrite ?IH. }
  unfold all_settled. destruct (publishP h) as [| |e] eqn:Hp, (doneP h) as [| |e'] eqn:Hd;
    try (eapply sv_rejected; [exact I|]; by auto).
  - left. by apply (sv_pending _ _ I).
  - left. by apply (sv_pending _ _ I).
  - right. by apply (sv_more _ _ I).
  - destruct (sv_publish _ _ I Hp) as [H0 Hf]. pose proof (sv_left _ _ I).
    pose proof (sv_sent _ _ I). split_and!; [lia|done|by apply (sv_done _ _ I)].
Qed.
End Stress_run.

Section Stress_calls.
Context {L : PubSubLib}.

Lemma both_calls a b s r s' :
  both (call stress_handle a) (call stress_handle b) s = Some (r, s') → j_calls s' = j_calls s ++ [a; b].
Proof.
  unfold both, try_catch, throw, mbind, Js_bind, mret, Js_ret.
  destruct (call stress_handle a s) as [[[e|x] s1]|] eqn:Ha; [| |done]; apply call_inv in Ha as [Ha _];
    (destruct (call stress_handle b s1) as [[[e'|y] s2]|] eqn:Hb; [| |done]; apply call_inv in Hb as [Hb _]);
    intros; simplify_eq; rewrite Hb, Ha; by rewrite <- (assoc_L (++)).
Qed.

Lemma calls_bind {A B} (m : Js (H := stress_state) (Ev := stress_event) A)
    (f : A → Js (H := stress_state) (Ev := stress_event) B) s r s' :
  (m ≫= f) s = Some (r, s') →
  (∃ e, m s = Some (inl e, s') ∧ r = inl e) ∨
  ∃ a s1, m s = Some (inr a, s1) ∧ f a s1 = Some (r, s').
Proof. unfold mbind, Js_bind. destruct (m s) as [[[e|a] s1]|]; intros; simplify_eq; eauto. Qed.

(** The wait and its report make no calls. *)
Lemma wait_calls start s r s' :
  try_catch (await stress_handle all_settled ≫= λ _,
       h_gets st_now ≫= λ end_,
       console_log [Str "took"; Num (end_ - start); Str "ms"] ≫= λ _,
       console_log [Ratio (end_ - start) (Z.of_nat numMessages); Str "ms/msg"])
    (λ err, print (ConsoleError err)) s = Some (r, s') → j_calls s' = j_calls s.
Proof.
  unfold try_catch. destruct ((await _ _ ≫= _) s) as [[[e|x] s1]|] eqn:He; [| |done]; intros Ht.
  - apply print_inv in Ht as (_ & -> & _). apply calls_bind in He as [(e' & He & _)|(y & s2 & _ & He)].
    + by apply await_inv in He as [? _].
    + unfold mbind, Js_bind, h_gets, console_log, print in He. by simplify_eq.
  - simplify_eq. js_inv. apply await_inv in H as [? _].
    repeat match goal with H : h_gets _ _ = _ |- _ => apply h_gets_inv in H as [_ ->] end. congruence.
Qed.

Lemma finally_calls (body : Js ()) a b s r s' :
  (∀ r1 s1, body s = Some (r1, s1) → j_calls s1 = j_calls s) →
  finally_ body (both (call stress_handle a) (call stress_handle b)) s = Some (r, s') →
  j_calls s' = j_calls s ++ [a; b].
Proof.
  intros Hb. unfold finally_. destruct (body s) as [[r1 s1]|] eqn:He; [|done].
  specialize (Hb _ _ eq_refl). destruct (both _ _ s1) as [[r2 s2]|] eqn:H2; [|done].
  apply both_calls in H2. destruct r2; intros; simplify_eq; by rewrite H2, Hb.
Qed.

(** The stress test cleans up however its wait ends: whether all messages
    arrived, a publish call failed or the subscription reported an error, it deletes its
    subscription and its topic; only if one of the three set-up calls throws does it end
    without, having made just the set-up calls up to that one. *)
Theorem stress_main_deletes random s r s' :
  stress_main random s = Some (r, s') →
  let id := make_id random in
  let setup := [CallTopicGet id true; CallSubGet id id true;
    CallSubSetMetadata id (MkSubMeta false None (1, 500000000))] in
  j_calls s' = j_calls s ++ setup ++ [CallSubDelete id; CallTopicDelete id] ∨
  ∃ k e, (1 ≤ k ≤ 3)%nat ∧ r = inl e ∧ j_calls s' = j_calls s ++ take k setup.
Proof.
  intros Hm id setup. unfold stress_main in Hm. fold id in Hm.
  apply calls_bind in Hm as [(e & H1 & ->)|(a1 & s1 & H1 & Hm)]; apply call_inv in H1 as [C1 _].
  { right. exists 1%nat, e. split_and!; [lia|lia|done|done]. }
  apply calls_bind in Hm as [(e & H2 & ->)|(a2 & s2 & H2 & Hm)]; apply call_inv in H2 as [C2 _].
  { right. exists 2%nat, e. split_and!; [lia|lia|done|]. rewrite C2, C1. by rewrite <- (assoc_L (++)). }
  apply calls_bind in Hm as [(e & H3 & ->)|(a3 & s3 & H3 & Hm)]; apply call_inv in H3 as [C3 _].
  { right. exists 3%nat, e. split_and!; [lia|lia|done|]. rewrite C3, C2, C1. by rewrite <- !(assoc_L (++)). }
  left. apply calls_bind in Hm as [(e & H4 & ->)|(a4 & s4 & H4 & Hm)]; [done|].
  apply h_modify_inv in H4 as (_ & C4 & _).
  apply calls_bind in Hm as [(e & H5 & ->)|(start & s5 & H5 & Hm)]; [done|].
  apply h_gets_inv in H5 as [_ ->].
  assert (Hgoal : j_calls s' = j_calls s4 ++ [CallSubDelete id; CallTopicDelete id]).
  { apply calls_bind in Hm as [(e & Hf & ->)|(u & s6 & Hf & Hm)].
    - eapply finally_calls; [|exact Hf]. intros r1 s1'. apply wait_calls.
    - apply calls_bind in Hm as [(e & H8 & ->)|(n & s7 & H8 & Hm)]; [done|].
      apply h_gets_inv in H8 as [_ ->]. apply print_inv in Hm as (_ & -> & _).
      eapply finally_calls; [|exact Hf]. intros r1 s1'. apply wait_calls. }
  rewrite Hgoal, C4, C3, C2, C1. by rewrite <- !(assoc_L (++)).
Qed.
End Stress_calls.

(** ** Witnesses *)

Definition quiet_lib : PubSubLib := {|
  lib := (); answer c l := (inr NoReply, l); data_toString _ := EmptyString |}.
Definition a_message : Message := MkMsg "1" "ack1" ∅ 1 None 0 [].
Definition smoke_0 : smoke_state := MkSmoke 0 false None false false [] [] [].
Definition smoke_script : list smoke_event :=
  [Tick 50; OnMessage a_message 700; Tick 760; Wake 0; Tick 1900].

Lemma smoke_acks_before_deleting_witness :
  ∃ h ls h' ls', run_events (smoke_handle (L := quiet_lib)) smoke_script (start_listening smoke_0) []
      = Some (h, ls) ∧ smoke_handle (L := quiet_lib) Fire h = Some (h', ls') ∧
    sm_resolved h' = true ∧ sm_pending h' = [] ∧ sm_acked h' ≡ₚ sm_received h'.
Proof.
  destruct (run_events (smoke_handle (L := quiet_lib)) smoke_script (start_listening smoke_0) [])
    as [[h ls]|] eqn:Hr; [|vm_compute in Hr; discriminate].
  destruct (smoke_handle (L := quiet_lib) Fire h) as [[h' ls']|] eqn:Hf;
    [|vm_compute in Hr; injection Hr as <- <-; vm_compute in Hf; discriminate].
  exists h, ls, h', ls'. split; [reflexivity|]. split; [exact Hf|].
  apply (smoke_acks_before_deleting (L := quiet_lib) smoke_0 smoke_script h ls h' ls' eq_refl eq_refl
    eq_refl Hr); [|exact Hf]. vm_compute in Hr. injection Hr as <- <-. reflexivity.
Defined.

(** The awaited calls are answered at once; the message comes while the test waits. *)
Definition smoke_js : js (L := quiet_lib) (H := smoke_state) (Ev := smoke_event) :=
  MkJs (L := quiet_lib) () [] [] smoke_0
    (replicate 9 Answered ++ (Event <$> smoke_script ++ [Fire]) ++ [Answered; Event (Tick 2000);
      Answered; Answered; Answered]).
Definition smoke_in : smoke_inputs := MkInputs "0.123" "10" "20" "2024-01-01T00:00:00.000Z".

Lemma smoke_main_calls_witness :
  ∃ s', smoke_main (L := quiet_lib) smoke_in smoke_js = Some (inr (), s') ∧ sm_resolved (j_h s') = true.
Proof.
  destruct (smoke_main (L := quiet_lib) smoke_in smoke_js) as [[[e|[]] s']|] eqn:Hm;
    [vm_compute in Hm; discriminate| |vm_compute in Hm; discriminate].
  exists s'. split; [reflexivity|].
  destruct (smoke_main_calls (L := quiet_lib) smoke_in smoke_js s' Hm) as (n & lt & ls & _ & _ & H).
  exact H.
Defined.

(** One and the same message, delivered again and again until 5000 deliveries are counted. *)
Definition stress_0 : stress_state := MkStress 0 None 0 0 0 Pending Pending [].
Definition redeliveries : list stress_event :=
  replicate numMessages (StressMessage a_message) ++ replicate numMessages Published.

Definition few_events : list stress_event := [StressMessage a_message; Published; StressMessage a_message].
Lemma stress_waits_witness :
  ∃ h out, run_events stress_handle few_events (start_publishing stress_0) [] = Some (h, out) ∧
    st_acked h = [a_message; a_message].
Proof.
  destruct (run_events stress_handle few_events (start_publishing stress_0) []) as [[h out]|] eqn:Hr;
    [|vm_compute in Hr; discriminate].
  exists h, out. split; [reflexivity|]. apply (stress_waits few_events stress_0 h out Hr).
Defined.

(** The stress test counts deliveries, not messages: 5000 deliveries of one
    message, with every publish call answered, are reported as all received, although all the
    other messages are still missing. *)
Theorem stress_counts_redeliveries :
  match run_events stress_handle redeliveries (start_publishing stress_0) [] with
  | Some (h, out) => all_settled h = Some (inr ()) ∧ forallb (λ m, String.eqb (ms_id m) "1") (st_acked h) = true
  | None => False
  end.
Proof. vm_compute. split; reflexivity. Qed.

(** A run in which the subscription reports an error while the test waits. *)
Definition stress_js : js (L := quiet_lib) (H := stress_state) (Ev := stress_event) :=
  MkJs (L := quiet_lib) () [] [] stress_0
    [Answered; Answered; Answered; Event Published;
     Event (StressError (MkJsError (Some 5) "not found")); Answered; Answered].

Lemma stress_main_deletes_witness :
  ∃ s', stress_main (L := quiet_lib) "0.5" stress_js = Some (inr (), s') ∧
    last (j_calls s') = Some (CallTopicDelete "ts-stress-5").
Proof.
  destruct (stress_main (L := quiet_lib) "0.5" stress_js) as [[r s']|] eqn:Hm;
    [|vm_compute in Hm; discriminate].
  exists s'. destruct (stress_main_deletes (L := quiet_lib) "0.5" stress_js r s' Hm)
    as [H|(k & e & _ & Hr & _)].
  - rewrite H. split; [|vm_compute; reflexivity]. vm_compute in Hm. injection Hm as <- <-. reflexivity.
  - exfalso. subst r. vm_compute in Hm. discriminate.
Defined.
