(* ===== verification/GoClients.v ===== *)
(** * The compatibility clients in Go

    [src/internal/go-compat/deadletter/deadletter.go]: what the program sets up on the service,
    through the handlers of [Publisher] and [Subscriber], and the book it keeps of the messages
    to come; [stress/stress.go]: its book.  The client library is taken to make one request of a
    call and to hand on the answer; it runs a receiver's callback in a goroutine per message. *)

From S2P Require Import Prelude Uuid Filter FilterParse Schema Backoff Notify Store Example Deliver.
From S2P Require Import Lifecycle Ack Receive Seek Prune Rpc Publisher Subscriber System.

(** ** [main] with its deferred calls *)

Section Setup.
Context {E : Engine} {FP : FilterParser} {F : Float64} {U : UuidText}.
(** [proto.Message]'s text format, which [deadletterTopicMeta.String()] is. *)
Context (Topic_String : PbTopic → string).

Definition PSTopicName (project topic : string) : string := "projects/" +:+ project +:+ "/topics/" +:+ topic.
Definition PSSubName (project sub : string) : string := "projects/" +:+ project +:+ "/subscriptions/" +:+ sub.

(** The service, and the calls deferred so far, the last one first. *)
Record go := MkGo { go_world : world; go_defers : list (world → outcome () * world) }.
Definition Go (A : Type) : Type := go → outcome A * go.
#[export] Instance Go_ret : MRet Go := λ A a s, (Ok a, s).
#[export] Instance Go_bind : MBind Go := λ A B f m s,
  match m s with
  | (Ok a, s') => f a s'
  | (Err e, s') => (Err e, s')
  | (Panic p, s') => (Panic p, s')
  end.

Definition panicIf {A} (r : outcome A) : outcome A := match r with Err e => Panic "error" | _ => r end.
(** [x, err := call(...); panicIf(err)] *)
Definition go_call {A} (f : world → outcome A * world) : Go A := λ s,
  let '(r, w) := f (go_world s) in (panicIf r, MkGo w (go_defers s)).
(** [defer func() { panicIf(call(...)) }()] *)
Definition defer (f : world → outcome () * world) : Go () := λ s,
  (Ok (), MkGo (go_world s) ((λ w, let '(r, w) := f w in (panicIf r, w)) :: go_defers s)).

(** The deferred calls all run, also after a panic; the last panic is the one in force. *)
Fixpoint run_deferred (fs : list (world → outcome () * world)) (r : outcome ()) (w : world)
  : outcome () * world :=
  match fs with
  | [] => (r, w)
  | f :: fs => let '(r', w) := f w in run_deferred fs (match r' with Panic p => Panic p | _ => r end) w
  end.
Definition run_go (main : Go ()) (w : world) : outcome () * world :=
  let '(r, s) := main (MkGo w []) in run_deferred (go_defers s) r (go_world s).

(** What the service's database answers to the commits, and when: by the number of the call. *)
Context (committed : nat → outcome ()) (now : nat → time).

Definition new_topic (name : string) : PbTopic := MkPbTopic name ∅ false EmptyString false.
Definition dead_letter_sub (projectID uniq : string) (primary dead : PbTopic) : PbSubscription :=
  MkPbSub (PSSubName projectID ("go-deadletter-primary-" +:+ uniq)) (pt_Name primary) None 0 None ∅ false None
    EmptyString (Some (MkDeadLetterPolicy (Topic_String dead) 5))
    (Some (MkRetryPolicy (Some (Second * 3 / 2)) None)) false.
Definition dead_sub (name topic : string) : PbSubscription :=
  MkPbSub name topic None 0 None ∅ false None EmptyString None None false.

(** [rest]: the receivers and publishers, given the topic and the two subscriptions. *)
Definition deadletter_main (projectID uniq : string) (rest : string → string → string → Go ()) : Go () :=
  go_call (CreateTopic (new_topic (PSTopicName projectID ("go-deadletter-primary-" +:+ uniq)))
    (committed 0) (now 0)) ≫= λ primary,
  defer (DeleteTopic (pt_Name primary) (committed 9) (now 9)) ≫= λ _,
  go_call (CreateTopic (new_topic (PSTopicName projectID ("go-deadletter-dead-" +:+ uniq)))
    (committed 1) (now 1)) ≫= λ dead,
  defer (DeleteTopic (pt_Name dead) (committed 8) (now 8)) ≫= λ _,
  go_call (CreateSubscription (dead_letter_sub projectID uniq primary dead) (committed 2) (now 2) (now 3))
    ≫= λ primarySub,
  defer (DeleteSubscription (ps_Name primarySub) (committed 7) (now 7)) ≫= λ _,
  go_call (CreateSubscription (dead_sub (PSSubName projectID ("go-deadletter-dead-" +:+ uniq)) (pt_Name dead))
    (committed 4) (now 4) (now 5)) ≫= λ deadSub,
  defer (DeleteSubscription (ps_Name deadSub) (committed 6) (now 6)) ≫= λ _,
  rest (pt_Name primary) (ps_Name primarySub) (ps_Name deadSub).
End Setup.

(** ** The book of the dead-letter test *)

Definition dl_messages : Z := 1000.

(** The two receivers. *)
Inductive receiver := Primary | Deadletter.
#[export] Instance receiver_eq_dec : EqDecision receiver.
Proof. solve_decision. Defined.

(** A callback, by what it does next: settle the message, book it as done, look whether all
    are done, cancel, cancel the other receiver as well. *)
Inductive callback :=
  | BSettle (r : receiver) (attr : option Z) (nack : bool)
  | BDone (r : receiver) (i : Z)
  | BCheck (r : receiver)
  | BCancel (r : receiver)
  | BCancelOther (r : receiver)
  | BReturned.

(** [bk_cancelX]: the variable of the cancel function, and whether the receiver's context is
    cancelled. *)
Record book := MkBook {
  todoSet : gmap Z bool; bk_next : Z; bk_callbacks : list callback;
  numAckedPrimary : Z; numNackedPrimary : Z; numAckedDeadLetter : Z;
  cancelPrimary : option bool; cancelDeadletter : option bool }.

Definition with_todo (m : gmap Z bool) (b : book) : book :=
  MkBook m (bk_next b) (bk_callbacks b) (numAckedPrimary b) (numNackedPrimary b) (numAckedDeadLetter b)
    (cancelPrimary b) (cancelDeadletter b).
Definition with_callbacks (l : list callback) (b : book) : book :=
  MkBook (todoSet b) (bk_next b) l (numAckedPrimary b) (numNackedPrimary b) (numAckedDeadLetter b)
    (cancelPrimary b) (cancelDeadletter b).
Definition counted (r : receiver) (nack : bool) (b : book) : book :=
  match r, nack with
  | Primary, true => MkBook (todoSet b) (bk_next b) (bk_callbacks b) (numAckedPrimary b)
      (int32_wrap (numNackedPrimary b + 1)) (numAckedDeadLetter b) (cancelPrimary b) (cancelDeadletter b)
  | Primary, false => MkBook (todoSet b) (bk_next b) (bk_callbacks b) (int32_wrap (numAckedPrimary b + 1))
      (numNackedPrimary b) (numAckedDeadLetter b) (cancelPrimary b) (cancelDeadletter b)
  | Deadletter, _ => MkBook (todoSet b) (bk_next b) (bk_callbacks b) (numAckedPrimary b) (numNackedPrimary b)
      (int32_wrap (numAckedDeadLetter b + 1)) (cancelPrimary b) (cancelDeadletter b)
  end.
Definition set_cancel (r : receiver) (v : option bool) (b : book) : book :=
  match r with
  | Primary => MkBook (todoSet b) (bk_next b) (bk_callbacks b) (numAckedPrimary b) (numNackedPrimary b)
      (numAckedDeadLetter b) v (cancelDeadletter b)
  | Deadletter => MkBook (todoSet b) (bk_next b) (bk_callbacks b) (numAckedPrimary b) (numNackedPrimary b)
      (numAckedDeadLetter b) (cancelPrimary b) v
  end.
Definition cancel_of (r : receiver) (b : book) : option bool :=
  match r with Primary => cancelPrimary b | Deadletter => cancelDeadletter b end.
Definition other (r : receiver) : receiver := match r with Primary => Deadletter | Deadletter => Primary end.

(** [todo(i)], [done(i)], [allDone()]: each under the mutex. *)
Definition todo (i : Z) (m : gmap Z bool) : gmap Z bool := <[i := true]> m.
Definition done_item (i : Z) (m : gmap Z bool) : outcome (gmap Z bool) :=
  match m !! i with
  | None => Panic "Completed item not in todo set"
  | Some false => Panic "Completed item more than once"
  | Some true => Ok (<[i := false]> m)
  end.
Definition allDone (m : gmap Z bool) : bool :=
  if Z.of_nat (size m) <? dl_messages then false else bool_decide (map_Forall (λ _ t, t = false) m).

(** The next step of a callback. *)
Definition callback_step (c : callback) (b : book) : outcome (callback * book) :=
  match c with
  | BSettle _ None _ => Ok (BReturned, b)
  | BSettle Primary (Some i) true => Ok (BReturned, counted Primary true b)
  | BSettle r (Some i) _ => Ok (BDone r i, counted r false b)
  | BDone r i => done_item i (todoSet b) ≫= λ m, Ok (BCheck r, with_todo m b)
  | BCheck r => Ok (if allDone (todoSet b) then BCancel r else BReturned, b)
  | BCancel r => Ok (BCancelOther r, set_cancel r (Some true) b)
  | BCancelOther r =>
      Ok (BReturned, match cancel_of (other r) b with
                     | Some _ => set_cancel (other r) (Some true) b
                     | None => b
                     end)
  | BReturned => Ok (BReturned, b)
  end.

(** What happens next: the publisher books its next number; a receiver's goroutine makes its
    context; the library calls back; a callback goes on. *)
Inductive book_event :=
  | BkTodo | BkStart (r : receiver) | BkReceive (r : receiver) (attr : option Z) (nack : bool) | BkRun (k : nat).

Definition book_step (ev : book_event) (b : book) : option (outcome book) :=
  match ev with
  | BkTodo =>
      if bk_next b <? dl_messages then
        Some (Ok (MkBook (todo (bk_next b) (todoSet b)) (bk_next b + 1) (bk_callbacks b) (numAckedPrimary b)
          (numNackedPrimary b) (numAckedDeadLetter b) (cancelPrimary b) (cancelDeadletter b)))
      else None
  | BkStart r => match cancel_of r b with None => Some (Ok (set_cancel r (Some false) b)) | Some _ => None end
  | BkReceive r attr nack =>
      match cancel_of r b with
      | Some _ => Some (Ok (with_callbacks (bk_callbacks b ++ [BSettle r attr nack]) b))
      | None => None
      end
  | BkRun k =>
      match bk_callbacks b !! k with
      | None | Some BReturned => None
      | Some c => Some (callback_step c b ≫= λ '(c, b), Ok (with_callbacks (<[k := c]> (bk_callbacks b)) b))
      end
  end.

Definition book_start : book := MkBook ∅ 0 [] 0 0 0 None None.
Fixpoint book_run (evs : list book_event) (b : book) : option (outcome book) :=
  match evs with
  | [] => Some (Ok b)
  | ev :: evs =>
      match book_step ev b with
      | Some (Ok b) => book_run evs b
      | r => r
      end
  end.

(** ** The book of the stress test *)

Definition st_messages : Z := 5000.
Inductive remark := AllReceived | BadOrderingKey | BadAttributes | OutOfOrder (k last i : Z).
(** [lastReceived], an array of [orderSplit] numbers; whether [cancel] was called. *)
Record stress_book := MkStressBook {
  sb_received : Z; sb_last : list Z; sb_cancelled : bool; sb_out : list remark }.

(** A callback in two sections: the count, and under the mutex of the key the order; the
    key and the number are what [Atoi] makes of them. *)
Definition count_received (b : stress_book) : stress_book :=
  let n := int32_wrap (sb_received b + 1) in
  if st_messages <=? n then MkStressBook n (sb_last b) true (sb_out b ++ [AllReceived])
  else MkStressBook n (sb_last b) (sb_cancelled b) (sb_out b).
Definition remark_on (r : remark) (b : stress_book) : stress_book :=
  MkStressBook (sb_received b) (sb_last b) (sb_cancelled b) (sb_out b ++ [r]).
Definition check_order (key number : option Z) (b : stress_book) : outcome stress_book :=
  if bool_decide (sb_last b = []) then Ok b
  else match key, number with
  | None, _ => Ok (remark_on BadOrderingKey b)
  | _, None => Ok (remark_on BadAttributes b)
  | Some k, Some i =>
      if (k <? 0) || (Z.of_nat (length (sb_last b)) <=? k) then Panic "index out of range"
      else
        let last := nth (Z.to_nat k) (sb_last b) 0 in
        if i <=? last then Ok (remark_on (OutOfOrder k last i) b)
        else Ok (MkStressBook (sb_received b) (<[Z.to_nat k := i]> (sb_last b)) (sb_cancelled b) (sb_out b))
  end.
Definition stress_sections (orderSplit : nat) : stress_book := MkStressBook 0 (replicate orderSplit 0) false [].

Inductive section := SecCount | SecOrder (key number : option Z).
Fixpoint stress_run (ss : list section) (b : stress_book) : outcome stress_book :=
  match ss with
  | [] => Ok b
  | SecCount :: ss => stress_run ss (count_received b)
  | SecOrder k i :: ss => check_order k i b ≫= stress_run ss
  end.

(** ** The set-up fails *)

Lemma has_shape_projects kind name : has_shape kind name = true → ∃ l, split_slash name = "projects" :: l.
Proof.
  unfold has_shape. destruct (split_slash name) as [|s0 l]; [done|]. intros H. exists l. f_equal.
  destruct l as [|s1 [|s2 [|s3 [|s4 l]]]]; try done. by bool_props.
Qed.
Lemma text_not_valid s : String.prefix "name:" s = true → isValidTopicName s = false ∧ s ≠ EmptyString.
Proof.
  intros (x & ->)%prefix_app. split; [|done]. destruct (isValidTopicName _) eqn:Hv; [|done].
  apply has_shape_projects in Hv as [l Hl]. exfalso. simpl in Hl.
  repeat (case_match; simplify_eq/=).
Qed.

Section Setup_run.
Context {E : Engine} {FP : FilterParser} {F : Float64} {U : UuidText}.

Definition topics_valid (d : db) : Prop :=
  ∀ k t, topics d !! k = Some t → t_deletedAt t = None → isValidTopicName (t_name t) = true.

Lemma CreateTopic_Execute_topics p now t a t' k tp :
  CreateTopic_Execute p now t = Ok (a, t') → topics (tx_db t') !! k = Some tp →
  topics (tx_db t) !! k = Some tp ∨ t_name tp = ct_Name p.
Proof.
  unfold CreateTopic_Execute. intros (ex & t0 & [_ <-]%gets_Ok & H)%bind_Ok. destruct ex; [by apply fail_Ok in H|].
  apply bind_Ok in H as (id & t1 & Hid & H). unfold uuid_New in Hid. injection Hid as <- <-. cbv zeta in H.
  apply bind_Ok in H as ([] & t2 & Hc & H). apply bind_Ok in H as ([] & t3 & Hn & [_ <-]%ret_Ok).
  unfold NotifyModifyTopic, OnCommit in Hn. apply modify_Ok in Hn as ->. unfold on_error in Hc.
  destruct (hooked _ _ _) as [[[] t5]|e|m] eqn:Hk; [|done..]. simplify_eq.
  unfold hooked in Hk. change (checkLiveOrDeleted create_mutation) with (@None error) in Hk. cbv iota in Hk.
  apply bind_Ok in Hk as ([] & t6 & Hv & Hk). unfold validate_name in Hv.
  destruct (bool_decide _); [by apply fail_Ok in Hv|]. apply ret_Ok in Hv as [_ <-].
  unfold Create in Hk. apply bind_Ok in Hk as (old & t7 & [-> <-]%gets_Ok & Hk).
  destruct (_ !! _); [by apply fail_Ok in Hk|]. apply put_run in Hk as [_ ->]. simpl.
  intros [[_ <-]|[_ Hk]]%lookup_insert_Some; [by right|by left].
Qed.

Lemma CreateTopic_Execute_wf p now : respects keeps_wf (CreateTopic_Execute p now).
Proof. unfold CreateTopic_Execute, validate_name. resp. Qed.

(** A topic the service has made. *)
Lemma CreateTopic_keeps req committed now w pt w' :
  world_wf w → topics_valid (w_db w) → CreateTopic req committed now w = (Ok pt, w') →
  pt = req ∧ world_wf w' ∧ topics_valid (w_db w').
Proof.
  intros W V. unfold CreateTopic. destruct (isValidTopicName (pt_Name req)) eqn:Hv; [|done].
  simpl negb. cbv iota. destruct (_ || _ || _); [done|]. unfold NewCreateTopic.
  destruct (bool_decide _); [done|]. set (p := MkCreateTopic _ _).
  pose proof (DoTx_world_wf committed (CreateTopic_Execute p now) w (CreateTopic_Execute_wf p now) W) as W'.
  destruct (DoTx _ _ w) as [[id|e|m] w1] eqn:Hd; [|done..]. intros [= <- <-].
  destruct (DoTx_Ok_db _ _ _ _ _ (ww_reg _ W) Hd) as (t & Hrun & Hdb & _). split_and!; [done|exact W'|].
  intros k tp Hk Hl. rewrite Hdb in Hk.
  destruct (CreateTopic_Execute_topics _ _ _ _ _ _ _ Hrun Hk) as [Hk'| ->]; [by eapply V|exact Hv].
Qed.

(** The dead-letter topic of a subscription that is created is the name of a topic. *)
Lemma CreateSubscription_dead_letter req committed now createdAt w resp w' dlp :
  world_wf w → topics_valid (w_db w) → ps_DeadLetterPolicy req = Some dlp →
  CreateSubscription req committed now createdAt w = (Ok resp, w') →
  dlp_DeadLetterTopic dlp ≠ EmptyString → isValidTopicName (dlp_DeadLetterTopic dlp) = true.
Proof.
  intros [W Wr] V Hdlp Hc Hne. unfold CreateSubscription in Hc.
  destruct (negb _); [done|]. destruct (ps_Detached req); [done|]. destruct (negb _); [done|].
  destruct (NewCreateSubscription (create_sub_params req)) as [p|e|m] eqn:Hnew; [|done..].
  apply NewCreateSubscription_Ok in Hnew as (-> & _).
  destruct (DoTx _ _ w) as [[s|e|m] w1] eqn:Hd; [|done..].
  destruct (DoTx_Ok_db _ _ _ _ _ Wr Hd) as (t & Hrun & _).
  destruct (CreateSubscription_inv _ _ _ (txn_of w) _ _ W Hrun) as (tp & dlID & _ & _ & Hdl & _).
  unfold create_sub_params in Hdl. simpl in Hdl. rewrite Hdlp in Hdl. unfold is_empty in Hdl.
  rewrite bool_decide_false in Hdl by done. destruct Hdl as (dl & _ & Hst & [Hn Hlive]).
  rewrite <- Hn. by eapply V.
Qed.

Lemma run_deferred_panic fs msg w : ∃ msg' w', run_deferred fs (Panic msg) w = (Panic msg', w').
Proof.
  revert msg w. induction fs as [|f fs IH]; intros msg w; simpl; [by eexists _, _|].
  destruct (f w) as [[]  w1]; apply IH.
Qed.

(** The dead-letter test never gets as far as publishing: it names the dead-letter topic by
    the text of the topic's message, which is not a topic name, so the service refuses the
    subscription; the program panics whatever comes after, having deleted the topics it made
    as far as the service lets it. *)
Theorem deadletter_never_starts (Topic_String : PbTopic → string) committed now projectID uniq rest rest' w :
  (∀ pt, pt_Name pt ≠ EmptyString → String.prefix "name:" (Topic_String pt) = true) →
  world_wf w → topics_valid (w_db w) →
  let run rest := run_go (deadletter_main Topic_String committed now projectID uniq rest) w in
  run rest = run rest' ∧ ∃ msg w', run rest = (Panic msg, w').
Proof.
  intros Htext W V run. subst run. unfold run_go, deadletter_main, mbind, Go_bind, go_call, defer. cbn [go_world go_defers].
  destruct (CreateTopic _ _ _ w) as [[pt|e|m] w1] eqn:H1; cbn [panicIf go_world go_defers];
    [|split; [done|apply run_deferred_panic]..].
  destruct (CreateTopic_keeps _ _ _ _ _ _ W V H1) as (-> & W1 & V1).
  destruct (CreateTopic _ _ _ w1) as [[pt|e|m] w2] eqn:H2; cbn [panicIf go_world go_defers];
    [|split; [done|apply run_deferred_panic]..].
  destruct (CreateTopic_keeps _ _ _ _ _ _ W1 V1 H2) as (-> & W2 & V2).

  destruct (CreateSubscription _ _ _ _ w2) as [[s|e|m] w3] eqn:H3; cbn [panicIf go_world go_defers];
    [|split; [done|apply run_deferred_panic]..].
  set (dead := new_topic _) in H3 at 2.
  destruct (text_not_valid (Topic_String dead)) as [Hn Hne]; [by apply Htext|].
  eapply (CreateSubscription_dead_letter _ _ _ _ _ _ _ (MkDeadLetterPolicy (Topic_String dead) 5)) in H3;
    [simpl in H3; congruence|done|done|done|done].
Qed.
End Setup_run.

(** ** The book *)

Section Book_run.
Implicit Types (b : book) (c : callback) (i : Z).

(** What a callback still has to book, and the deliveries a run was asked to acknowledge. *)
Definition owes i c : nat :=
  match c with
  | BSettle Primary (Some _) true => 0
  | BSettle _ (Some j) _ | BDone _ j => if decide (i = j) then 1 else 0
  | _ => 0
  end.
Definition owed i (l : list callback) : nat := sum_list (owes i <$> l).
Definition booked i (m : gmap Z bool) : nat := if decide (m !! i = Some false) then 1 else 0.
Definition accepts i (ev : book_event) : nat :=
  match ev with BkReceive r attr nack => owes i (BSettle r attr nack) | _ => 0 end.
Definition accepted i (evs : list book_event) : nat := sum_list (accepts i <$> evs).

Lemma sum_list_insert {A} (f : A → nat) l k x y :
  l !! k = Some x → (sum_list (f <$> <[k:=y]> l) + f x = sum_list (f <$> l) + f y)%nat.
Proof.
  revert k. induction l as [|z l IH]; intros [|k] H; simplify_eq/=; [lia|]. specialize (IH _ H). lia.
Qed.
Lemma owes_le i l k c : l !! k = Some c → (owes i c ≤ owed i l)%nat.
Proof.
  unfold owed. revert k. induction l as [|z l IH]; intros [|k] H; simplify_eq/=; [lia|]. specialize (IH _ H). lia.
Qed.
Lemma sum_list_snoc (l : list nat) x : sum_list (l ++ [x]) = (sum_list l + x)%nat.
Proof. induction l as [|y l IH]; simpl; [lia|]. rewrite IH. lia. Qed.

(** A callback that is about to see that all is done, or to say so. *)
Definition looks c : Prop := match c with BCheck _ | BCancel _ => True | _ => False end.
(** A receiver was cancelled, and the other one too, or is about to be. *)
Definition stopping b : Prop :=
  ∃ r, cancel_of r b = Some true ∧ (cancel_of (other r) b = Some true ∨ BCancelOther r ∈ bk_callbacks b).
Definition started b : Prop := ∀ r, is_Some (cancel_of r b).

Record book_inv (evs : list book_event) b : Prop := {
  bi_next : 0 ≤ bk_next b ≤ dl_messages;
  bi_dom : ∀ i, is_Some (todoSet b !! i) ↔ 0 ≤ i < bk_next b;
  bi_count : ∀ i, (owed i (bk_callbacks b) + booked i (todoSet b) = accepted i evs)%nat }.

Lemma callback_step_counts c b c' b' i :
  callback_step c b = Ok (c', b') →
  (owes i c' + booked i (todoSet b') = owes i c + booked i (todoSet b))%nat ∧
  bk_callbacks b' = bk_callbacks b ∧ bk_next b' = bk_next b ∧
  (∀ j, is_Some (todoSet b' !! j) ↔ is_Some (todoSet b !! j)).
Proof.
  destruct c as [[] [j|] []|r j|r|r|r|]; simpl; intros H; simplify_eq/=; try done.
  - unfold done_item in H. destruct (todoSet b !! j) as [[]|] eqn:Hj; simplify_eq/=. split_and!; [|done|done|].
    + unfold booked. destruct (decide (i = j)) as [->|Hne].
      * rewrite lookup_insert_eq, Hj. by repeat case_decide.
      * rewrite lookup_insert_ne by done. lia.
    + intros k. rewrite lookup_insert_is_Some. split; [intros [<-|[_ ?]]; [by rewrite Hj|done]|].
      intros ?. destruct (decide (j = k)); auto.
  - by case_match.
  - by destruct r.
  - by destruct r; simpl; case_match.
Qed.

Lemma book_step_inv evs ev b b' :
  book_inv evs b → book_step ev b = Some (Ok b') → book_inv (evs ++ [ev]) b'.
Proof.
  intros [Hn Hd Hc] Hs.
  assert (Hacc : ∀ i, accepted i (evs ++ [ev]) = (accepted i evs + accepts i ev)%nat).
  { intros i. unfold accepted. rewrite fmap_app. apply sum_list_snoc. }
  destruct ev as [|r|r attr nack|k]; simpl in Hs.
  - destruct (Z.ltb_spec (bk_next b) dl_messages); simplify_eq. split; simpl; [lia|..].
    + intros i. unfold todo. rewrite lookup_insert_is_Some, Hd. lia.
    + intros i. rewrite Hacc, <- Hc. simpl. rewrite Nat.add_0_r. f_equal. unfold booked, todo.
      destruct (decide (i = bk_next b)) as [->|?]; [|by rewrite lookup_insert_ne].
      rewrite lookup_insert_eq. destruct (todoSet b !! bk_next b) eqn:Hx; [|done].
      assert (is_Some (todoSet b !! bk_next b)) as ?%Hd by (by eexists). lia.
  - destruct (cancel_of r b); simplify_eq. split; [by destruct r..|]. intros i. rewrite Hacc, <- Hc. simpl.
    by destruct r; simpl; lia.
  - destruct (cancel_of r b); simplify_eq. split; [done..|]. intros i. rewrite Hacc, <- Hc. simpl.
    unfold owed. rewrite fmap_app. simpl fmap. rewrite sum_list_snoc. simpl. lia.
  - destruct (bk_callbacks b !! k) as [c|] eqn:Hk; [|done].
    assert (∃ c' b1, callback_step c b = Ok (c', b1) ∧ b' = with_callbacks (<[k:=c']> (bk_callbacks b1)) b1)
      as (c' & b1 & H1 & ->).
    { assert (Some (callback_step c b ≫= λ '(c, b), Ok (with_callbacks (<[k := c]> (bk_callbacks b)) b)) = Some (Ok b'))
        as Hs' by (by destruct c). clear Hs. destruct (callback_step c b) as [[c' b1]|e|p]; simplify_eq/=. eauto. }
    destruct (callback_step_counts _ _ _ _ 0 H1) as (_ & Hcb & Hnx & Hdm). split; simpl; rewrite ?Hnx, ?Hcb.
    + done.
    + intros i. by rewrite Hdm, Hd.
    + intros i. destruct (callback_step_counts _ _ _ _ i H1) as [Hi _]. rewrite Hacc, <- Hc. simpl.
      pose proof (sum_list_insert (owes i) _ _ _ c' Hk). unfold owed. lia.
Qed.

Lemma book_start_inv : book_inv [] book_start.
Proof. split; simpl; [unfold dl_messages; lia| |done]. intros i. rewrite lookup_empty. split; [by intros []|lia]. Qed.

Lemma book_run_ind (P : list book_event → book → Prop) b0 evs :
  P [] b0 →
  (∀ pre ev b b', P pre b → book_step ev b = Some (Ok b') → P (pre ++ [ev]) b') →
  ∀ r, book_run evs b0 = Some r →
  (∃ b, r = Ok b ∧ P evs b) ∨
  (∃ pre ev b, pre ++ [ev] `prefix_of` evs ∧ P pre b ∧ book_step ev b = Some r ∧ ∀ b', r ≠ Ok b').
Proof.
  intros H0 Hstep. assert (Hgen : ∀ evs pre b r, P pre b → book_run evs b = Some r →
    (∃ b', r = Ok b' ∧ P (pre ++ evs) b') ∨
    (∃ mid ev b', mid ++ [ev] `prefix_of` pre ++ evs ∧ P mid b' ∧ book_step ev b' = Some r ∧ ∀ b'', r ≠ Ok b'')).
  { clear evs. induction evs as [|ev evs IH]; intros pre b r Hp Hr; simpl in Hr.
    - left. exists b. rewrite app_nil_r. by simplify_eq.
    - assert (Happ : pre ++ ev :: evs = (pre ++ [ev]) ++ evs) by by rewrite <- (assoc_L (++)).
      destruct (book_step ev b) as [[b1|e|p]|] eqn:Hs; [|simplify_eq..].
      + rewrite Happ. eapply IH; [|done]. by eapply Hstep.
      + right. exists pre, ev, b. rewrite Happ. split_and!; try done. by apply prefix_app_r.
      + right. exists pre, ev, b. rewrite Happ. split_and!; try done. by apply prefix_app_r. }
  intros r Hr. by apply (Hgen evs [] b0 r H0 Hr).
Qed.

(** When the last message is booked somebody notices: a callback is still to look, or the
    receivers are being cancelled. *)
Definition noticed (evs : list book_event) b : Prop :=
  book_inv evs b ∧ started b ∧
  (allDone (todoSet b) = true → (∃ c, c ∈ bk_callbacks b ∧ looks c) ∨ stopping b).

Lemma allDone_next m i : allDone (<[i := true]> m) = false.
Proof.
  unfold allDone. case_match; [done|]. apply bool_decide_eq_false. intros Hm.
  by specialize (Hm i true (lookup_insert_eq _ _ _)).
Qed.

Lemma cancel_set r r' v b : cancel_of r (set_cancel r' v b) = if decide (r = r') then v else cancel_of r b.
Proof. by destruct r, r'. Qed.
Lemma callbacks_set r v b : bk_callbacks (set_cancel r v b) = bk_callbacks b.
Proof. by destruct r. Qed.
Lemma todo_set r v b : todoSet (set_cancel r v b) = todoSet b.
Proof. by destruct r. Qed.
Lemma cancel_with r l b : cancel_of r (with_callbacks l b) = cancel_of r b.
Proof. by destruct r. Qed.
Lemma cancel_counted r r' n b : cancel_of r (counted r' n b) = cancel_of r b.
Proof. by destruct r, r', n. Qed.

Lemma insert_keeps {A} (l : list A) k x y z : l !! k = Some x → z ∈ l → z ≠ x → z ∈ <[k:=y]> l.
Proof.
  intros Hk [j Hj]%list_elem_of_lookup Hne. apply list_elem_of_lookup. exists j.
  rewrite list_lookup_insert_ne; [done|]. intros ->. congruence.
Qed.
Lemma insert_new {A} (l : list A) k x y : l !! k = Some x → y ∈ <[k:=y]> l.
Proof. intros Hk. apply list_elem_of_lookup. exists k. apply list_lookup_insert_eq. by apply lookup_lt_is_Some. Qed.

(** A callback goes on: it may be the one that was to look or to cancel. *)
Lemma callback_step_noticed c b c' b' k :
  bk_callbacks b !! k = Some c → callback_step c b = Ok (c', b') → started b →
  (allDone (todoSet b) = true → (∃ c, c ∈ bk_callbacks b ∧ looks c) ∨ stopping b) →
  let b'' := with_callbacks (<[k:=c']> (bk_callbacks b')) b' in
  started b'' ∧ (allDone (todoSet b'') = true → (∃ c, c ∈ bk_callbacks b'' ∧ looks c) ∨ stopping b'').
Proof.
  intros Hk Hs St Hn b''. subst b''. unfold started, stopping. setoid_rewrite cancel_with. simpl.
  destruct (callback_step_counts _ _ _ _ 0 Hs) as (_ & Hcb & _ & _). rewrite Hcb.
  assert (Hkeep : (∀ r, c ≠ BCancelOther r) → ¬ looks c → (∀ r, cancel_of r b' = cancel_of r b) →
    todoSet b' = todoSet b →
    (∀ r, is_Some (cancel_of r b')) ∧ (allDone (todoSet b') = true →
      (∃ c0, c0 ∈ <[k:=c']> (bk_callbacks b) ∧ looks c0) ∨
      ∃ r, cancel_of r b' = Some true ∧ (cancel_of (other r) b' = Some true ∨ BCancelOther r ∈ <[k:=c']> (bk_callbacks b)))).
  { intros Ho Hl Hc Ht. setoid_rewrite Hc. rewrite Ht. split; [done|]. intros Ha.
    destruct (Hn Ha) as [(x & Hx & Hxl)|(r & Hr & [Hr'|Hr'])].
    - left. exists x. split; [|done]. eapply insert_keeps; [done|done|]. by intros ->.
    - right. eauto.
    - right. exists r. split; [done|]. right. by eapply insert_keeps. }
  destruct c as [r [j|] n|r j|r|r|r|].
  - apply Hkeep; [done|by intros []|..]; destruct r, n; simplify_eq/=; done || (intros []; done).
  - assert (b' = b) as -> by (destruct r; by injection Hs). apply Hkeep; [done|by intros []|done|done].
  - simpl in Hs. destruct (done_item j (todoSet b)) as [m|e|p]; simplify_eq/=.
    split; [intros []; [apply (St Primary)|apply (St Deadletter)]|].
    intros _. left. exists (BCheck r). split; [by eapply insert_new|done].
  - simpl in Hs. destruct (allDone (todoSet b)) eqn:Ha; simplify_eq/=; [|split; [done|congruence]].
    split; [done|]. intros _. left. exists (BCancel r). split; [by eapply insert_new|done].
  - simplify_eq/=. setoid_rewrite cancel_set. split; [intros r'; case_decide; [by eexists|done]|].
    intros _. right. exists r. rewrite decide_True by done. split; [done|]. right. by eapply insert_new.
  - assert (Hb : b' = set_cancel (other r) (Some true) b).
    { simpl in Hs. destruct (St (other r)) as [x Hx]. rewrite Hx in Hs. by simplify_eq. }
    subst b'. setoid_rewrite cancel_set. split; [intros r'; case_decide; [by eexists|done]|].
    rewrite todo_set. intros Ha.
    destruct (Hn Ha) as [(x & Hx & Hxl)|(r' & Hr & Hr')].
    + left. exists x. split; [|done]. eapply insert_keeps; [done|done|]. by intros ->.
    + right. exists r'. split; [by case_decide|]. destruct (decide (r' = r)) as [->|Hne].
      * left. by rewrite decide_True.
      * destruct Hr' as [Hr'|Hr']; [left; by case_decide|right].
        eapply insert_keeps; [done|done|congruence].
  - apply Hkeep; [done|by intros []|by simplify_eq/=..].
Qed.

Lemma book_step_noticed evs ev b b' :
  noticed evs b → book_step ev b = Some (Ok b') → noticed (evs ++ [ev]) b'.
Proof.
  intros (I & St & Hn) Hs. split; [by eapply book_step_inv|]. destruct ev as [|r|r attr nack|k]; simpl in Hs.
  - destruct (bk_next b <? dl_messages); simplify_eq/=. split; [intros []; [apply (St Primary)|apply (St Deadletter)]|].
    unfold todo. by rewrite allDone_next.
  - destruct (St r) as [x Hx]. by rewrite Hx in Hs.
  - destruct (cancel_of r b); simplify_eq/=. split; [intros r'; rewrite cancel_with; apply St|]. intros Ha.
    destruct (Hn Ha) as [(c & Hc & Hl)|(r' & Hr & Hr')]; [left; exists c; set_solver|right].
    exists r'. rewrite !cancel_with. split; [done|]. simpl. set_solver.
  - destruct (bk_callbacks b !! k) as [c|] eqn:Hk; [|done].
    assert (Hs' : Some (callback_step c b ≫= λ '(c, b), Ok (with_callbacks (<[k := c]> (bk_callbacks b)) b))
      = Some (Ok b')) by (by destruct c). clear Hs.
    destruct (callback_step c b) as [[c' b1]|e|p] eqn:H1; simplify_eq/=. by eapply callback_step_noticed.
Qed.

(** Both receivers have made their contexts. *)
Definition book_started : book := set_cancel Deadletter (Some false) (set_cancel Primary (Some false) book_start).
Lemma book_started_noticed : noticed [] book_started.
Proof.
  split; [|split; [by intros [] ; eexists|done]].
  split; simpl; [unfold dl_messages; lia| |done]. intros i. rewrite lookup_empty. split; [by intros []|lia].
Qed.

(** The dead-letter test stops by itself: once both receivers run, in every interleaving of
    the publisher, the receivers and the callbacks, when all 1000 messages are booked as done
    and no callback has anything left to do, both receivers are cancelled. *)
Theorem deadletter_test_stops evs b :
  book_run evs book_started = Some (Ok b) → allDone (todoSet b) = true →
  (∀ c, c ∈ bk_callbacks b → c = BReturned) →
  cancelPrimary b = Some true ∧ cancelDeadletter b = Some true.
Proof.
  intros Hr Ha Hc.
  destruct (book_run_ind noticed book_started evs book_started_noticed
    (λ pre ev b b', book_step_noticed pre ev b b') _ Hr) as [(b' & [= <-] & _ & _ & Hn)|(? & ? & ? & _ & _ & _ & Hno)];
    [|by destruct (Hno b)].
  destruct (Hn Ha) as [(c & ->%Hc & [])|(r & H1 & H2)].
  destruct H2 as [H2|H2%Hc]; [|done]. by destruct r.
Qed.

(** A callback panics only on a message that was acknowledged before, or on one that the
    publisher has not booked: so without redeliveries of acknowledged messages the test does
    not panic. *)
Theorem deadletter_test_panics evs p :
  book_run evs book_start = Some (Panic p) →
  ∃ i, (2 ≤ accepted i evs)%nat ∨ (1 ≤ accepted i evs)%nat ∧ p = "Completed item not in todo set".
Proof.
  intros Hr. destruct (book_run_ind book_inv book_start evs book_start_inv
    (λ pre ev b b', book_step_inv pre ev b b') _ Hr) as [(b' & [=] & _)|(pre & ev & b & [post ->] & I & Hs & _)].
  assert (Hle : ∀ i, (accepted i pre ≤ accepted i ((pre ++ [ev]) ++ post))%nat).
  { intros i. unfold accepted. rewrite !fmap_app. generalize (accepts i <$> [ev]), (accepts i <$> post). clear.
    intros l1 l2. induction (accepts i <$> pre); simpl; lia. }
  destruct ev as [|r|r attr nack|k]; simpl in Hs; [by case_match..|].
  destruct (bk_callbacks b !! k) as [c|] eqn:Hk; [|done].
  assert (Hp : callback_step c b ≫= (λ '(c, b), Ok (with_callbacks (<[k := c]> (bk_callbacks b)) b)) = Panic p)
    by (destruct c; by simplify_eq). clear Hs.
  assert (∃ r i, c = BDone r i ∧ done_item i (todoSet b) = Panic p) as (r & i & -> & Hd).
  { destruct c as [[] [j|] []|r j|r|r|r|]; try done. simpl in Hp. exists r, j. split; [done|].
    by destruct (done_item j (todoSet b)); simplify_eq/=. }
  pose proof (owes_le i _ _ _ Hk) as Ho. simpl in Ho. rewrite decide_True in Ho by done.
  pose proof (bi_count _ _ I i) as Hcount. exists i. specialize (Hle i). unfold done_item in Hd.
  destruct (todoSet b !! i) as [[]|] eqn:Hi; simplify_eq.
  - left. unfold booked in Hcount. rewrite Hi, decide_True in Hcount by done. lia.
  - right. split; [lia|done].
Qed.
End Book_run.

Section Stress_run.
Implicit Types (b : stress_book).

(** The largest number seen with a key, and the number of callbacks that have counted. *)
Definition seen (k : Z) (s : section) : Z :=
  match s with SecOrder (Some k') (Some i) => if decide (k' = k) then i else 0 | _ => 0 end.
Fixpoint highest (k : Z) (ss : list section) : Z :=
  match ss with [] => 0 | s :: ss => Z.max (seen k s) (highest k ss) end.
Fixpoint counts (ss : list section) : nat :=
  match ss with [] => 0 | SecCount :: ss => S (counts ss) | _ :: ss => counts ss end.

Lemma highest_snoc k ss s : highest k (ss ++ [s]) = Z.max (highest k ss) (seen k s).
Proof. induction ss as [|s' ss IH]; simpl; [lia|]. rewrite IH. lia. Qed.
Lemma highest_pos k ss : 0 ≤ highest k ss.
Proof. induction ss; simpl; lia. Qed.
Lemma counts_snoc ss s : counts (ss ++ [s]) = (counts ss + counts [s])%nat.
Proof. induction ss as [|[] ss IH]; simpl; rewrite ?IH; by destruct s. Qed.
Lemma stress_run_app ss1 ss2 b : stress_run (ss1 ++ ss2) b = stress_run ss1 b ≫= stress_run ss2.
Proof.
  revert b. induction ss1 as [|[|k i] ss1 IH]; intros b; simpl; [done|apply IH|].
  destruct (check_order k i b) as [b'|e|p]; [apply IH|done..].
Qed.

(** [lastReceived] after [ss], and the remarks about the order. *)
Record stress_ok (n : nat) (ss : list section) b : Prop := {
  so_length : length (sb_last b) = n;
  so_last : ∀ k, 0 ≤ k < Z.of_nat n → nth (Z.to_nat k) (sb_last b) 0 = highest k ss;
  so_count : (Z.of_nat (counts ss) < 2 ^ 31) → sb_received b = Z.of_nat (counts ss);
  so_cancel : (Z.of_nat (counts ss) < 2 ^ 31) → sb_cancelled b = bool_decide (st_messages ≤ Z.of_nat (counts ss));
  so_remarks : ∀ k last i, OutOfOrder k last i ∈ sb_out b ↔
    ∃ ss1 ss2, ss = ss1 ++ SecOrder (Some k) (Some i) :: ss2 ∧ last = highest k ss1 ∧ i ≤ last }.

Lemma remark_split {A} (P : list A → Prop) (x y : A) ss :
  (∃ ss1 ss2, ss ++ [x] = ss1 ++ y :: ss2 ∧ P ss1) ↔
  (∃ ss1 ss2, ss = ss1 ++ y :: ss2 ∧ P ss1) ∨ (x = y ∧ P ss).
Proof.
  split.
  - intros (ss1 & ss2 & Heq & Hp). destruct ss2 as [|z ss2 _] using rev_ind.
    + apply app_inj_tail in Heq as [-> ->]. by right.
    + left. exists ss1, ss2. split; [|done].
      rewrite app_comm_cons, (assoc_L (++)) in Heq. by apply app_inj_tail in Heq as [-> _].
  - intros [(ss1 & ss2 & -> & Hp)|[-> Hp]].
    + exists ss1, (ss2 ++ [x]). by rewrite <- (assoc_L (++)).
    + by exists ss, [].
Qed.

(** A section that leaves the order alone. *)
Lemma order_untouched n ss s b b' :
  stress_ok n ss b → (∀ k, seen k s = 0) → (∀ k i, s ≠ SecOrder (Some k) (Some i)) →
  sb_last b' = sb_last b → (∀ k last i, OutOfOrder k last i ∈ sb_out b' ↔ OutOfOrder k last i ∈ sb_out b) →
  (Z.of_nat (counts (ss ++ [s])) < 2 ^ 31 → sb_received b' = Z.of_nat (counts (ss ++ [s])) ∧
     sb_cancelled b' = bool_decide (st_messages ≤ Z.of_nat (counts (ss ++ [s])))) →
  stress_ok n (ss ++ [s]) b'.
Proof.
  intros I Hseen Hs Hl Ho Hc. split; [by rewrite Hl; apply I| |naive_solver|naive_solver|].
  - intros k Hk. rewrite Hl, highest_snoc, Hseen, (so_last _ _ _ I k Hk). pose proof (highest_pos k ss). lia.
  - intros k last i. rewrite Ho, (so_remarks _ _ _ I), (remark_split (λ ss, last = highest k ss ∧ i ≤ last)).
    split; [by left|]. intros [?|[? _]]; [done|by destruct (Hs k i)].
Qed.

Lemma count_received_ok n ss b : stress_ok n ss b → stress_ok n (ss ++ [SecCount]) (count_received b).
Proof.
  intros I. apply (order_untouched n ss SecCount b); [done|done|done|..].
  - unfold count_received. by case_match.
  - intros k last i. unfold count_received. case_match; simpl; [|done]. set_solver.
  - rewrite counts_snoc. simpl. intros Hb. unfold count_received. rewrite (so_count _ _ _ I) by lia.
    assert (int32_wrap (Z.of_nat (counts ss) + 1) = Z.of_nat (counts ss + 1)) as ->.
    { unfold int32_wrap. rewrite Nat2Z.inj_add. rewrite Z.mod_small by lia. lia. }
    pose proof (so_cancel _ _ _ I ltac:(lia)) as Hc. destruct (Z.leb_spec st_messages (Z.of_nat (counts ss + 1))); simpl.
    + split; [done|]. by rewrite bool_decide_true.
    + rewrite Hc. split; [done|]. apply bool_decide_ext. lia.
Qed.

Lemma check_order_ok n ss k i b b' :
  n ≠ 0%nat → stress_ok n ss b → check_order k i b = Ok b' → stress_ok n (ss ++ [SecOrder k i]) b'.
Proof.
  intros Hn I Hc. unfold check_order in Hc.
  rewrite bool_decide_false in Hc by (intros Hl; pose proof (so_length _ _ _ I) as H; rewrite Hl in H; by destruct Hn).
  assert (Hcount : counts (ss ++ [SecOrder k i]) = counts ss) by (rewrite counts_snoc; simpl; lia).
  pose proof (so_count _ _ _ I) as Hr. pose proof (so_cancel _ _ _ I) as Hx.
  destruct k as [k|]; [destruct i as [i|]|]; simplify_eq.
  2,3: apply (order_untouched n ss _ b); [done|done|done|done|intros; simpl; set_solver|rewrite Hcount; simpl; auto].
  rewrite (so_length _ _ _ I) in Hc. destruct (Z.ltb_spec k 0), (Z.leb_spec (Z.of_nat n) k); try done. simpl in Hc.
  rewrite (so_last _ _ _ I) in Hc by lia. pose proof (highest_pos k ss).
  destruct (Z.leb_spec i (highest k ss)) as [Hi|Hi]; simplify_eq; split; simpl; rewrite ?Hcount; try done.
  - apply I.
  - intros k' Hk'. rewrite highest_snoc, (so_last _ _ _ I k' Hk'). unfold seen. destruct (decide (k = k')) as [->|]; [lia|].
    pose proof (highest_pos k' ss). lia.
  - intros k' last i'. rewrite elem_of_app, list_elem_of_singleton, (so_remarks _ _ _ I).
    rewrite (remark_split (λ ss, last = highest k' ss ∧ i' ≤ last)). naive_solver.
  - rewrite length_insert. apply I.
  - intros k' Hk'. rewrite highest_snoc. unfold seen. destruct (decide (k = k')) as [->|Hne].
    + rewrite nth_lookup, list_lookup_insert_eq by (rewrite (so_length _ _ _ I); lia). simpl. lia.
    + rewrite nth_lookup, list_lookup_insert_ne by lia. rewrite <- nth_lookup, (so_last _ _ _ I k' Hk').
      pose proof (highest_pos k' ss). lia.
  - intros k' last i'. rewrite (so_remarks _ _ _ I), (remark_split (λ ss, last = highest k' ss ∧ i' ≤ last)).
    split; [by left|]. intros [?|[[= -> ->] [-> ?]]]; [done|lia].
Qed.

(** What the stress test says of a run, in whatever order the callbacks' sections come: it
    stops when 5000 deliveries were counted (a message that is delivered again counts again),
    and it calls a message out of order exactly when a number at least as high was seen with
    its key before, so also when the same message is delivered again. *)
Theorem stress_test_spec n ss b :
  n ≠ 0%nat → stress_run ss (stress_sections n) = Ok b → stress_ok n ss b.
Proof.
  intros Hn. revert b. induction ss as [|s ss IH] using rev_ind; intros b Hr.
  - injection Hr as <-. split; simpl; [apply length_replicate| |done|done|].
    + intros k Hk. by rewrite nth_lookup, lookup_replicate_2 by lia.
    + intros k last i. split; [set_solver|]. by intros ([] & ? & ? & _).
  - rewrite stress_run_app in Hr. destruct (stress_run ss _) as [b1|e|p]; [|done..]. simpl in Hr.
    specialize (IH b1 eq_refl). destruct s as [|k i].
    + injection Hr as <-. by apply count_received_ok.
    + destruct (check_order k i b1) as [b2|e|p] eqn:Hc; simplify_eq/=. by eapply check_order_ok.
Qed.
End Stress_run.

(** ** Examples *)

(** On an empty service the topics are made and deleted again. *)
Example deadletter_on_empty :
  let '(r, w) := run_go (deadletter_main (E := id_engine) (λ pt, ("name:" +:+ pt_Name pt)%string) (λ _, Ok ())
    (λ n, 100 * Z.of_nat (S n)) "p" "u" (λ _ _ _, mret ())) empty_world in
  r = Panic "error" ∧ length (map_to_list (topics (w_db w))) = 2%nat ∧
  forallb (λ kt, bool_decide (is_Some (t_deletedAt kt.2))) (map_to_list (topics (w_db w))) = true.
Proof. vm_compute. repeat split. Qed.

(** The primary receiver may be done with everything before the other one has made its
    context: then nobody cancels the other one, and the test hangs. *)
Definition early_events : list book_event :=
  replicate 1000 BkTodo ++ [BkStart Primary] ++
  (flat_map (λ i, [BkReceive Primary (Some (Z.of_nat i)) false; BkRun i; BkRun i; BkRun i]) (seq 0 1000)) ++
  [BkRun 999; BkRun 999; BkStart Deadletter].
Definition hung (b : book) : bool :=
  allDone (todoSet b) && forallb (λ c, match c with BReturned => true | _ => false end) (bk_callbacks b) &&
  bool_decide (cancelPrimary b = Some true) && bool_decide (cancelDeadletter b = Some false).
Example deadletter_test_hangs :
  match book_run early_events book_start with Some (Ok b) => hung b | _ => false end = true.
Proof. vm_compute. reflexivity. Qed.

(** A message that is delivered twice is reported as out of order. *)
Example redelivery_out_of_order :
  match stress_run [SecCount; SecOrder (Some 0) (Some 1); SecCount; SecOrder (Some 0) (Some 1)] (stress_sections 1)
  with Ok b => sb_out b | _ => [] end = [OutOfOrder 0 1 1].
Proof. reflexivity. Qed.
