(* ===== verification/ApiDocs.v ===== *)
(** * The pages that show the API

    The service answers [/oas-ui/] with a copy of swagger-ui:
    [internal/swagger-ui/get-ui/get-swagger-ui.go] unpacks it (with the repository's own
    [ui/swagger-initializer.js] in place of the original), [config-handler.go] serves what the
    page loads as its configuration, and [cmd/mmmbbb/main.go] registers the routes.  The files,
    the configuration and the routes name each other by relative URLs; the last theorem says
    that they find each other, also behind a proxy that puts a prefix before all of them.  What
    swagger-ui does with its options is a parameter. *)

From S2P Require Import Prelude Rpc.

(** ** The unpacked archive *)

Inductive typeflag := TypeReg | TypeOther.
#[export] Instance typeflag_eq_dec : EqDecision typeflag.
Proof. solve_decision. Defined.
Record tar_entry := MkEntry { h_Name : string; h_Typeflag : typeflag; h_Data : string }.

Definition dq : string := String "034" EmptyString.
Definition in_quotes (s : string) : string := dq +:+ s +:+ dq.
Definition nl : string := String "010" EmptyString.
Definition tab : string := String "009" EmptyString.
Definition lines (ls : list string) : string := foldr (λ l acc, l +:+ nl +:+ acc) EmptyString ls.

Definition customInitializerContent : string := lines [
  EmptyString;
  "window.onload = function() {";
  tab +:+ "window.ui = SwaggerUIBundle({";
  tab +:+ tab +:+ "configUrl: '../oas-ui-config',";
  tab +:+ tab +:+ "dom_id: " +:+ in_quotes "#swagger-ui" +:+ ",";
  tab +:+ tab +:+ "deepLinking: true,";
  tab +:+ tab +:+ "layout: " +:+ in_quotes "StandaloneLayout" +:+ ",";
  tab +:+ tab +:+ "displayOperationId: true,";
  tab +:+ tab +:+ "docExpansion: " +:+ in_quotes "none" +:+ ",";
  tab +:+ tab +:+ "queryConfigEnabled: true,";
  tab +:+ tab +:+ "showCommonExtensions: true,";
  tab +:+ tab +:+ "tryItOutEnabled: true,";
  tab +:+ tab +:+ "withCredentials: true,";
  tab +:+ tab +:+ "validatorUrl: null,";
  tab +:+ tab +:+ "presets: [";
  tab +:+ tab +:+ tab +:+ "SwaggerUIBundle.presets.apis,";
  tab +:+ tab +:+ tab +:+ "SwaggerUIStandalonePreset";
  tab +:+ tab +:+ "],";
  tab +:+ tab +:+ "plugins: [";
  tab +:+ tab +:+ tab +:+ "SwaggerUIBundle.plugins.DownloadUrl";
  tab +:+ tab +:+ "],";
  tab +:+ tab +:+ "layout: " +:+ in_quotes "StandaloneLayout";
  tab +:+ "});";
  "};" ].

Definition wanted : list string := [
  "index.html"; "favicon-16x16.png"; "favicon-32x32.png"; "swagger-ui-bundle.js";
  "swagger-ui-standalone-preset.js"; "swagger-ui.css"; "index.css" ].

(** [path.Base] *)
Definition Base (name : string) : string := List.last (split_slash name) EmptyString.

(** One round of the loop over the archive; the directory [ui] is a map from names to contents. *)
Definition unpack_entry (ui : gmap string string) (h : tar_entry) : gmap string string :=
  match h_Typeflag h with
  | TypeOther => ui
  | TypeReg =>
      if decide (h_Name h ∈ (λ f, "package/" +:+ f) <$> wanted) then <[Base (h_Name h) := h_Data h]> ui
      else if decide (h_Name h = "package/swagger-initializer.js") then
        <["swagger-initializer.js" := customInitializerContent]>
          (<["swagger-initializer.orig.js" := h_Data h]> ui)
      else ui
  end.
(** The directory is emptied first ([go:generate rm -rf ./ui/]). *)
Definition unpack (tar : list tar_entry) : gmap string string := foldl unpack_entry ∅ tar.

(** ** The options of swagger-ui

    The scripts are values of JavaScript expressions: literals, arrays and references into the
    objects of the library. *)

Inductive expr := Str (s : string) | Bool (b : bool) | Null | Arr (l : list expr) | Ref (path : list string).
Definition object := list (string * expr).

(** Evaluating an object literal defines its properties in order; a property that is there
    keeps its place and gets the new value. *)
Fixpoint define (k : string) (v : expr) (o : object) : object :=
  match o with
  | [] => [(k, v)]
  | (k', v') :: o => if decide (k = k') then (k, v) :: o else (k', v') :: define k v o
  end.
Definition literal (props : object) : object := foldl (λ o kv, define kv.1 kv.2 o) [] props.
Fixpoint property (k : string) (o : object) : option expr :=
  match o with [] => None | (k', v) :: o => if decide (k = k') then Some v else property k o end.

Definition custom_options : object := literal [
  ("configUrl", Str "../oas-ui-config"); ("dom_id", Str "#swagger-ui"); ("deepLinking", Bool true);
  ("layout", Str "StandaloneLayout"); ("displayOperationId", Bool true); ("docExpansion", Str "none");
  ("queryConfigEnabled", Bool true); ("showCommonExtensions", Bool true); ("tryItOutEnabled", Bool true);
  ("withCredentials", Bool true); ("validatorUrl", Null);
  ("presets", Arr [Ref ["SwaggerUIBundle"; "presets"; "apis"]; Ref ["SwaggerUIStandalonePreset"]]);
  ("plugins", Arr [Ref ["SwaggerUIBundle"; "plugins"; "DownloadUrl"]]); ("layout", Str "StandaloneLayout") ].
Definition original_options : object := literal [
  ("url", Str "https://petstore.swagger.io/v2/swagger.json"); ("dom_id", Str "#swagger-ui");
  ("deepLinking", Bool true);
  ("presets", Arr [Ref ["SwaggerUIBundle"; "presets"; "apis"]; Ref ["SwaggerUIStandalonePreset"]]);
  ("plugins", Arr [Ref ["SwaggerUIBundle"; "plugins"; "DownloadUrl"]]); ("layout", Str "StandaloneLayout") ].

Section Initializer.
Context {UI : Type} (SwaggerUIBundle : object → UI).

(** The properties of [window] the script sets. *)
Record window := MkWindow { w_onload : option (unit → UI); w_ui : option UI }.
Definition swagger_initializer (w : window) : window :=
  MkWindow (Some (λ _, SwaggerUIBundle custom_options)) (w_ui w).
Definition swagger_initializer_orig (w : window) : window :=
  MkWindow (Some (λ _, SwaggerUIBundle original_options)) (w_ui w).
(** The browser's load event *)
Definition load_event (w : window) : window :=
  match w_onload w with Some h => MkWindow (w_onload w) (Some (h ())) | None => w end.
End Initializer.

(** ** The configuration *)

(** JSON texts are represented by the values they stand for. *)
Inductive json := JNull | JStr (s : string) | JArr (l : list json) | JObj (fields : list (string * json)).
Definition config := gmap string json.

Definition ConfigLoadingPath : string := "/oas-ui-config".
Definition defaultConfig : list (string * json) := [("url", JStr "../oas/openapi.yaml")].

(** [json.Marshal] of a map sorts the keys. *)
Definition Marshal (c : config) : json :=
  JObj (merge_sort (λ a b, String.leb a.1 b.1) (map_to_list c)).

Record response := MkResponse { r_headers : list (string * string); r_body : option json }.
Definition CustomConfigHandler (customizer : config → config) (write_error : option error) : outcome response :=
  let msg := Marshal (customizer (list_to_map defaultConfig)) in
  match write_error with
  | Some _ => Panic "write error"
  | None => Ok (MkResponse [("Content-type", "application/json; charset=utf-8")] (Some msg))
  end.
Definition DefaultConfigHandler : option error → outcome response := CustomConfigHandler (λ config, config).

(** A value that is not in the map is [nil]. *)
Definition index (c : config) (k : string) : json := default JNull (c !! k).
Definition AppName : string := "mmmbbb".
Definition customizer (c : config) : config :=
  let c := <["urls" := JArr [
    JObj [("url", index c "url"); ("name", JStr AppName)];
    JObj [("url", JStr "../oas-grpc/pubsub.swagger.json"); ("name", JStr "grpc:pubsub")];
    JObj [("url", JStr "../oas-grpc/schema.swagger.json"); ("name", JStr "grpc:schema")] ]]> c in
  delete "url" c.

(** ** The routes *)

Inductive resource := FsFile (fs name : string) | ConfigHandler | ExpvarHandler | DefaultServeMux.
Inductive route :=
  | StaticFS (prefix fs : string) (files : list string)
  | GET (path : string) (handler : resource)
  | AnyUnder (prefix : string) (handler : resource).

(** What a route answers a GET request with, its path given as the segments after the first slash.  A file
    server answers a directory with its [index.html]. *)
Definition answers (r : route) (path : list string) : option resource :=
  match r with
  | GET p handler => if decide (EmptyString :: path = split_slash p) then Some handler else None
  | AnyUnder prefix handler =>
      if decide (split_slash prefix `prefix_of` EmptyString :: path ∧
                 (length (split_slash prefix) <= length path)%nat) then Some handler else None
  | StaticFS prefix fs files =>
      match path with
      | [dir; file] =>
          let file := if decide (file = EmptyString) then "index.html" else file in
          if decide (EmptyString :: [dir] = split_slash prefix ∧ file ∈ files) then Some (FsFile fs file) else None
      | _ => None
      end
  end.
(** The routes of [setupGin] before those of the controllers. *)
Definition docs_routes (ui : gmap string string) : list route := [
  StaticFS "/oas-ui" "swaggerui.FS" (map_to_list ui).*1;
  GET ConfigLoadingPath ConfigHandler;
  StaticFS "/oas" "oas.OpenAPIFS" ["openapi.yaml"];
  GET "/debug/vars" ExpvarHandler;
  AnyUnder "/debug/pprof" DefaultServeMux;
  StaticFS "/oas-grpc" "mbgrpc.SwaggerFS" ["pubsub.swagger.json"; "schema.swagger.json"] ].

(** ** Relative URLs (RFC 3986, 5.2) *)

Fixpoint remove_dots (out segments : list string) : list string :=
  match segments with
  | [] => rev out
  | s :: segments =>
      if decide (s = ".") then remove_dots out segments
      else if decide (s = "..") then remove_dots (tail out) segments
      else remove_dots (s :: out) segments
  end.
(** The path of a reference on a page: the last segment of the page's path is replaced. *)
Definition resolve (page : list string) (ref : string) : list string :=
  remove_dots [] (removelast page ++ split_slash ref).

(** What the page itself links to. *)
Definition index_html : list string := [
  "./swagger-ui.css"; "index.css"; "./favicon-32x32.png"; "./favicon-16x16.png";
  "./swagger-ui-bundle.js"; "./swagger-ui-standalone-preset.js"; "./swagger-initializer.js" ].

(** ** The directory holds what was asked for *)

(** The last regular entry of that name. *)
Definition packed (tar : list tar_entry) (name : string) : option string :=
  foldl (λ old h, match h_Typeflag h with
    | TypeReg => if decide (h_Name h = name) then Some (h_Data h) else old
    | TypeOther => old end) None tar.

Lemma packed_snoc tar h name :
  packed (tar ++ [h]) name =
    if decide (h_Typeflag h = TypeReg ∧ h_Name h = name) then Some (h_Data h) else packed tar name.
Proof.
  unfold packed. rewrite foldl_app. simpl. destruct (h_Typeflag h); repeat case_decide; naive_solver.
Qed.

Lemma Base_wanted f : f ∈ wanted → Base ("package/" +:+ f) = f.
Proof. revert f. apply Forall_forall. repeat constructor. Qed.
Lemma package_inj f g : "package/" +:+ f = "package/" +:+ g → f = g.
Proof. apply (inj (String.append "package/")). Qed.
Lemma initializer_unwanted f :
  f = "swagger-initializer.js" ∨ f = "swagger-initializer.orig.js" → f ∉ wanted.
Proof. intros [->| ->]; by apply (bool_decide_unpack _). Qed.

(** What the loop leaves: each wanted file as it was last packed, the original initializer aside,
    the repository's own in its place, and nothing else. *)
Theorem unpack_spec tar f :
  unpack tar !! f =
    if decide (f ∈ wanted) then packed tar ("package/" +:+ f)
    else if decide (f = "swagger-initializer.js") then
      (λ _, customInitializerContent) <$> packed tar "package/swagger-initializer.js"
    else if decide (f = "swagger-initializer.orig.js") then packed tar "package/swagger-initializer.js"
    else None.
Proof.
  induction tar as [|h tar IH] using rev_ind; [by repeat case_decide|].
  unfold unpack. rewrite foldl_app. simpl. fold (unpack tar). unfold unpack_entry.
  rewrite !packed_snoc. destruct (h_Typeflag h) eqn:Ht.
  2: { rewrite IH. by repeat rewrite (decide_False (P := TypeOther = TypeReg ∧ _)) by naive_solver. }
  destruct (decide (h_Name h ∈ _)) as [(g & Hn & Hg)%list_elem_of_fmap|Hn].
  - rewrite Hn, (Base_wanted _ Hg), lookup_insert, IH.
    assert (Hi : "package/" +:+ g ≠ "package/swagger-initializer.js").
    { intros ->%(package_inj g "swagger-initializer.js"). by eapply initializer_unwanted; [left|]. }
    rewrite !(decide_False (P := _ ∧ "package/" +:+ g = "package/swagger-initializer.js")) by naive_solver.
    destruct (decide (g = f)) as [->|Hne]; [by rewrite !decide_True|].
    by rewrite (decide_False (P := _ ∧ "package/" +:+ g = "package/" +:+ f)) by (intros [_ ?%package_inj]; done).
  - assert (Hf : f ∈ wanted → h_Name h ≠ "package/" +:+ f).
    { intros Hf Hh. apply Hn. rewrite Hh. by apply list_elem_of_fmap_2. }
    destruct (decide (h_Name h = _)) as [Hh|Hh].
    + rewrite !(decide_True (P := _ ∧ h_Name h = "package/swagger-initializer.js")) by done. rewrite !lookup_insert, IH.
      destruct (decide (f ∈ wanted)) as [Hw|Hw].
      * rewrite (decide_False (P := _ ∧ _)) by naive_solver.
        do 2 (rewrite decide_False; [|intros <-; revert Hw; apply initializer_unwanted; auto]). done.
      * do 2 (destruct (decide (_ = f)) as [<-|?]; [done|]). rewrite !(decide_False (P := f = _)) by congruence. done.
    + rewrite !(decide_False (P := _ ∧ h_Name h = "package/swagger-initializer.js")) by naive_solver.
      rewrite IH. destruct (decide (f ∈ wanted)) as [Hw|Hw]; [|done].
      by rewrite (decide_False (P := _ ∧ _)) by naive_solver.
Qed.

(** ** The options *)

(** The custom initializer keeps every option of the original one but the URL of the example
    API, for which it has the URL of the configuration. *)
Theorem custom_keeps_original :
  (∀ k v, property k original_options = Some v → k ≠ "url" → property k custom_options = Some v) ∧
  property "url" custom_options = None ∧ property "configUrl" custom_options = Some (Str "../oas-ui-config") ∧
  NoDup custom_options.*1.
Proof.
  split_and!; [|reflexivity|reflexivity|apply (bool_decide_unpack _); vm_compute; reflexivity].
  intros k v. change original_options with [
    ("url", Str "https://petstore.swagger.io/v2/swagger.json"); ("dom_id", Str "#swagger-ui");
    ("deepLinking", Bool true);
    ("presets", Arr [Ref ["SwaggerUIBundle"; "presets"; "apis"]; Ref ["SwaggerUIStandalonePreset"]]);
    ("plugins", Arr [Ref ["SwaggerUIBundle"; "plugins"; "DownloadUrl"]]); ("layout", Str "StandaloneLayout") ].
  simpl. intros H Hk. repeat (destruct (decide (k = _)) in H; [by simplify_eq|]). done.
Qed.
Theorem custom_script_runs {UI} (bundle : object → UI) w :
  w_ui (load_event (swagger_initializer bundle w)) = Some (bundle custom_options).
Proof. done. Qed.

(** ** Everything is found *)

(** The archive has what is asked for. *)
Definition complete (tar : list tar_entry) : Prop :=
  (∀ f, f ∈ wanted → is_Some (packed tar ("package/" +:+ f))) ∧
  is_Some (packed tar "package/swagger-initializer.js").
Definition plain (segment : string) : Prop := segment ≠ "." ∧ segment ≠ "..".

Lemma remove_dots_plain out P l :
  Forall plain P → remove_dots out (P ++ l) = remove_dots (rev P ++ out) l.
Proof.
  intros HP. revert out. induction HP as [|s P [H1 H2] HP IH]; intros out; [done|].
  simpl. rewrite !decide_False by done. by rewrite IH, <- app_assoc.
Qed.
Lemma resolve_page P ref :
  Forall plain P → resolve (P ++ ["oas-ui"; EmptyString]) ref = remove_dots ("oas-ui" :: rev P) (split_slash ref).
Proof.
  intros HP. unfold resolve. rewrite removelast_app by done. rewrite <- app_assoc.
  by rewrite remove_dots_plain, app_nil_r.
Qed.

Lemma unpacked tar f : complete tar → f ∈ "swagger-initializer.js" :: wanted → f ∈ (map_to_list (unpack tar)).*1.
Proof.
  intros [Hw Hi] Hf. enough (is_Some (unpack tar !! f)) as [c Hc].
  { apply list_elem_of_fmap. exists (f, c). split; [done|]. by apply elem_of_map_to_list. }
  rewrite unpack_spec. apply elem_of_cons in Hf as [->|Hf].
  - rewrite decide_False by (apply initializer_unwanted; auto). simpl. by rewrite fmap_is_Some.
  - rewrite decide_True by done. by apply Hw.
Qed.

Section Found.
(** The router: it answers a request that exactly one of its routes matches from that route. *)
Context (serve : list route → list string → option resource).
Context (serve_unique : ∀ routes r path res, r ∈ routes → answers r path = Some res →
  Forall (λ r', r' = r ∨ answers r' path = None) routes → serve routes path = Some res).

Lemma serve_ui tar dir f :
  complete tar → f ∈ "swagger-initializer.js" :: wanted → (dir = f ∨ dir = EmptyString ∧ f = "index.html") →
  serve (docs_routes (unpack tar)) ["oas-ui"; dir] = Some (FsFile "swaggerui.FS" f).
Proof.
  intros Hc Hf Hd. eapply serve_unique; [by left| |].
  - simpl. destruct Hd as [->|[-> ->]].
    + rewrite (decide_False (P := f = _)).
      * rewrite decide_True; [done|]. split; [done|]. by apply unpacked.
      * intros ->. revert Hf. by apply (bool_decide_unpack _).
    + rewrite decide_True; [done|]. split; [done|]. by apply unpacked.
  - repeat constructor; first [by left|by right].
Qed.

(** Whatever prefix a proxy puts before the paths of the service: opened under [/oas-ui/], the page
    and everything it links to are served from the unpacked archive, the URL of the configuration
    in its options leads to the configuration handler, and each URL in the configuration leads to
    the API description that goes by that name. *)
Theorem docs_found tar P :
  complete tar → Forall plain P →
  let found ref res := ∃ path, resolve (P ++ ["oas-ui"; EmptyString]) ref = P ++ path ∧
    serve (docs_routes (unpack tar)) path = Some res in
  serve (docs_routes (unpack tar)) ["oas-ui"; EmptyString] = Some (FsFile "swaggerui.FS" "index.html") ∧
  Forall (λ ref, ∃ f, f ∈ "swagger-initializer.js" :: wanted ∧ found ref (FsFile "swaggerui.FS" f)) index_html ∧
  (∃ ref, property "configUrl" custom_options = Some (Str ref) ∧ found ref ConfigHandler) ∧
  ∃ urls : list (string * string * resource),
    CustomConfigHandler customizer None = Ok (MkResponse [("Content-type", "application/json; charset=utf-8")]
      (Some (JObj [("urls", JArr ((λ u, JObj [("url", JStr u.1.1); ("name", JStr u.1.2)]) <$> urls))]))) ∧
    Forall (λ u, found u.1.1 u.2) urls ∧
    urls.*2 = [FsFile "oas.OpenAPIFS" "openapi.yaml"; FsFile "mbgrpc.SwaggerFS" "pubsub.swagger.json";
               FsFile "mbgrpc.SwaggerFS" "schema.swagger.json"].
Proof.
  intros Hc HP found.
  assert (Hfound : ∀ ref path res, remove_dots ("oas-ui" :: rev P) (split_slash ref) = rev (rev path ++ rev P) →
    serve (docs_routes (unpack tar)) path = Some res → found ref res).
  { intros ref path res Hp Hs. exists path. split; [|done].
    by rewrite resolve_page, Hp, rev_app_distr, !rev_involutive. }
  split_and!.
  - apply serve_ui; [done| |by right]. by apply (bool_decide_unpack _).
  - assert (Hui : ∀ ref f, f ∈ "swagger-initializer.js" :: wanted → split_slash ref = ["."; f] ∨ split_slash ref = [f] →
      plain f → ∃ f, f ∈ "swagger-initializer.js" :: wanted ∧ found ref (FsFile "swaggerui.FS" f)).
    { intros ref f Hf Hs [H1 H2]. exists f. split; [done|]. apply (Hfound _ ["oas-ui"; f]).
      - destruct Hs as [->| ->]; simpl; by rewrite ?(decide_False (P := f = ".")), ?(decide_False (P := f = "..")) by done.
      - apply serve_ui; auto. }
    unfold index_html. repeat apply Forall_cons_2; [..|apply Forall_nil_2];
      (eapply Hui; cycle 1; [first [left; reflexivity|right; reflexivity]|by split|];
       apply (bool_decide_unpack _); reflexivity).
  - exists "../oas-ui-config". split; [done|]. apply (Hfound _ ["oas-ui-config"]); [done|].
    eapply serve_unique; [right; left|reflexivity|].
    repeat constructor; first [by left|by right].
  - exists [("../oas/openapi.yaml", AppName, FsFile "oas.OpenAPIFS" "openapi.yaml");
      ("../oas-grpc/pubsub.swagger.json", "grpc:pubsub", FsFile "mbgrpc.SwaggerFS" "pubsub.swagger.json");
      ("../oas-grpc/schema.swagger.json", "grpc:schema", FsFile "mbgrpc.SwaggerFS" "schema.swagger.json")].
    split_and!; [vm_compute; reflexivity| |reflexivity].
    repeat apply Forall_cons_2; [..|apply Forall_nil_2]; simpl.
    + apply (Hfound _ ["oas"; "openapi.yaml"]); [done|].
      eapply serve_unique; [do 2 right; left|reflexivity|]. repeat constructor; first [by left|by right].
    + apply (Hfound _ ["oas-grpc"; "pubsub.swagger.json"]); [done|].
      eapply serve_unique; [do 5 right; left|reflexivity|]. repeat constructor; first [by left|by right].
    + apply (Hfound _ ["oas-grpc"; "schema.swagger.json"]); [done|].
      eapply serve_unique; [do 5 right; left|reflexivity|]. repeat constructor; first [by left|by right].
Qed.
End Found.

(** A router that takes the first route that matches is such a router. *)
Fixpoint first_route (routes : list route) (path : list string) : option resource :=
  match routes with
  | [] => None
  | r :: routes => match answers r path with Some res => Some res | None => first_route routes path end
  end.
Lemma first_route_unique routes r path res :
  r ∈ routes → answers r path = Some res →
  Forall (λ r', r' = r ∨ answers r' path = None) routes → first_route routes path = Some res.
Proof.
  intros Hr Ha. induction routes as [|r' routes IH]; [by apply elem_of_nil in Hr|].
  intros [Hr' Hall]%Forall_cons. simpl. destruct Hr' as [->|Hn]; [by rewrite Ha|].
  rewrite Hn. apply IH; [|done]. apply elem_of_cons in Hr as [->|Hr]; [congruence|done].
Qed.
(** An archive with everything in it, behind a proxy that serves the service under [/api]. *)
Definition demo_tar : list tar_entry :=
  ((λ f, MkEntry ("package/" +:+ f) TypeReg f) <$> "swagger-initializer.js" :: wanted) ++
  [MkEntry "package/README.md" TypeReg "readme"; MkEntry "package" TypeOther EmptyString].
Example docs_found_demo :
  first_route (docs_routes (unpack demo_tar)) ["oas-ui"; EmptyString] = Some (FsFile "swaggerui.FS" "index.html") ∧
  resolve ["api"; "oas-ui"; EmptyString] "../oas-ui-config" = ["api"; "oas-ui-config"].
Proof.
  split; [|reflexivity].
  apply (docs_found first_route first_route_unique demo_tar ["api"]).
  - split; [apply Forall_forall; repeat apply Forall_cons_2; [..|apply Forall_nil_2]|]; by eexists.
  - by repeat constructor.
Qed.
